(* ===== verification/_CoqProject ===== *)
-Q . S2P
Prelude.v
RustStd.v
Time.v
Schema.v
KillSwitch.v
Quota.v
QuietHours.v
Dek.v
Render.v
Customer.v
Outbox.v
Worker.v
Drain.v
Leader.v
Ingest.v
Receipts.v
Ledger.v
Tenancy.v
Producers.v
Platform.v
Webhook.v
Lifecycle.v
Otp.v
Settings.v
Permissions.v
Calendar.v
Partitions.v
Aside.v
QueryApi.v
Admin.v
Control.v
Columns.v
Console.v
Transport.v
Start.v
