(* ===== verification/Prelude.v ===== *)
(** * messgr: verification of the message dispatch platform

    messgr takes communication requests from producers, queues them in a ledger,
    and sends them through channel providers under per-tenant policy. Its own
    logic, under [src/src], is in nine groups of code that share one database per
    tenant:

    - ingest ([ingest/], [customer/], [template/], [customer_dek/]): a request is
      validated, its customer and address resolved or minted, its text rendered and
      encrypted, and one transaction writes the idempotency key, the ledger row and
      the outbox row;
    - dispatch ([dispatcher/]): a loop per channel claims due outbox rows under a
      lease, runs the gates (expiry, suppression, verification, consent, quota,
      quiet hours, cancellation), calls the provider and settles the row;
    - control ([kill_switch/], [platform_kill_switch/], [producer_quota/],
      [quiet_hours/]): switches are engaged and released in the database, cached by
      ingest and dispatcher, and turned into claim exclusions, drains and discards;
      quotas are counted in memory and flushed;
    - receipts ([webhook_receipt/], [orphan_reconcile/]): staged delivery receipts
      become events of the request they belong to, or wait as orphans;
    - tenants ([tenant/], [producer/], [webhook/], [platform_kill_switch/]): the
      control database says which certificate, token or slug belongs to which tenant
      and which database is its own;
    - one-time passwords ([otp/], [sms_sender/]): sent before anything else, recorded
      afterwards in the ledger or, when it is out of reach, in files of the host;
    - the query API ([query_api/], [auth/], [comms_query/], [outbox_query/]): what the
      users of a tenant may read and change, by role;
    - operation ([bin/], [platform_console/]): commands, the console of the provider's
      staff, and the start of the services;
    - keys ([encryption.rs], [key_cache.rs], [keystore.rs]).

    ** How the code is modelled

    Every await point hands control to the world. A [world] holds the database, the
    clock, the calls made to providers and the list of [move]s the world still
    makes; at each await one move lets time pass, lets other processes change the
    database, and decides whether the statement fails before or after taking effect.
    An operation is a function in the monad [M]: one [sql] step per statement,
    [transaction] for a begin/commit block that rolls back on any error. Statements
    on tables are pure functions on [Db] (Schema.v), whose tables are finite maps by
    primary key. Theorems then come in three strengths: about every world ([mute],
    [forward], traces of calls), about worlds in which other processes stay within a
    relation ([rely], [guar], [hoare], [sustains]: rely-guarantee reasoning), and
    about the [calm] world that stands still, where results are computed exactly.

    Loops that run for ever in the code take a number of turns ([channel_turn] is
    one turn; [claim_until_ok], [drain_released_scope] and [discard_engaged_scope]
    take fuel); the termination theorems say which fuel suffices
    ([claim_loop_gets_through]: one more than the moves left in the world;
    [discard_empties_the_due_backlog]: one more than the rows to discard).

    Parameters, with what is assumed of them as classes: time zones ([TimeZone],
    [TimeZoneLaws]), the AEAD ([Aead], [AeadLaws]), the LRU container ([Lru],
    [LruLaws]), Vault ([KeyStore], [VaultLaws]), the text and bytes of uuids
    ([UuidText]), connection URLs ([PgUrl]), the Vault client of provisioning
    ([VaultClient], [VaultClientLaws]) and of peppers ([VaultStore],
    [VaultStoreLaws]), HMAC-SHA256 ([HmacSha256]), JSON ([Json], [AuditJson],
    [AuditJsonLaws]), the calendar ([Calendar], [CalendarLaws]), the text of instants
    ([ChronoText], [ChronoParse]), the identity of a user ([AuthProvider]) and of an
    operator ([PlatformAuthProvider]), the disk ([Disk]), the key lookup of a pool
    ([PoolDek]), the calls of Vault ([VaultApi] with [TransitLaws] and [QuietVault],
    [PkiClient]) and of TLS ([TlsApi], [HandshakeLaws]), the provider, migrations, page
    templates, random draws and serialisation (function arguments), and the tablespaces
    that the operator has made ([Tablespaces]).

    Leader.v is the one file about several processes as such: a labelled step function
    on their phases, the sessions and locks of the database and the queue, with
    invariants over all runs and a progress theorem over fair infinite ones.

    ** Files

    - Prelude.v: results, the world and the effect monad, rely-guarantee rules.
    - RustStd.v: machine integers, string operations and UTF-8 of the Rust library.
    - Time.v: durations, truncation and time zones with gaps and repeated hours.
    - Schema.v: the row types of the [model.rs] files and the tables.
    - KillSwitch.v: [kill_switch/*], the tenant's view of [platform_kill_switch/*].
    - Quota.v: [producer_quota/tracker.rs] and the statements it uses.
    - QuietHours.v: [quiet_hours/window.rs].
    - Dek.v: [encryption.rs], [key_cache.rs], [customer_dek/*], the [KeyStore] trait.
    - Render.v: [template/render.rs].
    - Customer.v: [customer/*].
    - Outbox.v: [dispatcher/repo.rs].
    - Worker.v: [dispatcher/worker.rs].
    - Drain.v: [dispatcher/drain.rs] and the refresh handling of [bin/dispatcher.rs].
    - Ingest.v: [ingest/handler.rs], [ingest/repo.rs], [ingest/model.rs].
    - Receipts.v: [webhook_receipt/*] and [orphan_reconcile/*].
    - Ledger.v: the invariant that ties ingest, dispatcher, drains and receipts.
    - Tenancy.v: the cluster (control database, tenant databases, Vault keys),
      [tenant/{model,repo,pool,registry}.rs], [db.rs], [tenant_pepper.rs],
      [producer/resolve.rs], [ingest/identity.rs].
    - Producers.v: [producer/{register,repo,cert_repo}.rs].
    - Platform.v: [platform_kill_switch/configure.rs], the suspension of
      [platform_console/tenants.rs].
    - Webhook.v: [webhook/*], [webhook_verify/mod.rs].
    - Lifecycle.v: [tenant/{provision,offboard,vault}.rs] and their commands in
      [bin/control.rs].
    - Otp.v: [otp/*] and [sms_sender/*], which share their shape.
    - Settings.v: the idempotent settings ([tenant_config/*], [quiet_hours/configure.rs],
      [provider_config/*], [producer_quota/configure.rs]) with their shared shape.
    - Calendar.v, Partitions.v: [partition_lifecycle/*], [idempotency_sweep.rs].
    - QueryApi.v, Admin.v: [query_api/*], [auth/*], [access_audit/*], [comms_query/*],
      [outbox_query/*], [profile.rs]; Admin.v has the admin panel, the route table and
      the theorems of both.
    - Leader.v: [dispatcher/leader.rs] with what [bin/dispatcher.rs] hangs on leadership.
    - Console.v: [platform_console/*], [platform_auth/*], the list of
      [platform_audit.rs].
    - Transport.v: the client of [keystore.rs], [mtls.rs], [sender/http.rs].
    - Start.v: the [main] functions of the six services in [bin/].
    - Aside.v: what operations do that change no setting, for the next three files.
    - Control.v, Columns.v: [bin/control.rs], [config.rs], [stats.rs],
      [producer/dev_pki.rs] and the Vault guard of [keystore.rs]; Columns.v has their
      theorems.
    - Permissions.v: [consent/*], [suppression/*], [template/{approve,repo}.rs].

    The first seventeen files work on one tenant's database ([Db]); from Tenancy.v on
    the state is a [Cluster], which holds the control tables, every tenant's database
    by name, the mounts Vault has keys for
    and the files of the host. A pool is the name of the database it
    is bound to.

    ** What the theorems show

    - Worker.v, Outbox.v: at most one provider call per claimed row; a call means
      every gate was open; cancelled rows, blocked addresses and rows under a switch
      are not sent; the gates are the policy table; the reply decides the fate of
      the row; claims take free due rows only.
    - KillSwitch.v, Drain.v: ingest and dispatcher agree on what a switch covers;
      live switches stay unique; an outage of the control database releases nothing;
      a released switch holds until drained; drains keep their rate; a discard
      empties the due backlog.
    - Quota.v, QuietHours.v: ceilings hold in every window; counters survive a
      restart; deferrals lie in the future; the quiet window is circular and its end
      is found.
    - Ingest.v, Customer.v, Dek.v, Render.v: one request per idempotency key,
      queued as asked; rejections write nothing; acknowledged cancellations stop
      the send; resolution ends at a matching address; one key per customer.
    - Receipts.v: no receipt is lost, every receipt is settled, no request moves
      back in a pass, bounces suppress.
    - Ledger.v: a request is open exactly while it is queued, whatever fails and
      however the processes interleave.
    - Tenancy.v, Producers.v, Platform.v, Webhook.v, Lifecycle.v: a certificate leads
      to its own producer, tenant and database, in every process whose registry grew
      from none ([registry_run]); a disabled producer and a suspended
      tenant are stopped; only signed deliveries are staged, once, in their own
      tenant's database; tenants keep their identity and region; a tenant's key goes
      before its database.
    - Otp.v: once its producer is identified, which takes the control database, no
      outage keeps a one-time password from being sent; every one is accounted for, and drains lose nothing as long as they have their file to
      themselves.
    - Settings.v, Permissions.v: a set is a put of all its columns that answers
      created, updated or idempotent and leaves one audit row; the locked configuration is
      set one command at a time; no quota defers what must not wait; suppressions and
      consents decide the gates of the dispatcher; approved templates never change.
    - Calendar.v, Partitions.v: names of monthly tables and months correspond; a run
      drops nothing within the retention, leaves this and the next month ready, and,
      where the cold tablespace exists, comes to its end; a sweep forgets expired keys only.
    - QueryApi.v, Admin.v: a page is only shown to a user whose role the route allows,
      and only the writing roles write; a compliance request leaves its audit row
      first; what ingest accepted is what the detail page shows; timelines are
      complete over merged customers; no page files a quota that would hold back a
      one-time code.
    - Columns.v: the command line keeps every setting within its type and vocabulary;
      refused commands change nothing; message statistics add up.
    - Leader.v: at most one dispatcher leads and no row is in two hands as long as the
      sessions of leaders last and standbys do not drain; in a fair run a leader emerges;
      the two conditions are needed.
    - Console.v: what the console changes is on record and stays out of the tenants'
      databases; views and strangers write nothing; the audit pages are complete.
    - Transport.v, Start.v: the Vault client keeps the laws that the other files assume
      of it; started services are guarded; none starts for another region.
    - Several theorems state where the code departs from its comments or its purpose
      (deferrals into the past, the gap between refresh and handler, discards that
      spare rescheduled rows, overlapping promotions, overlapping first opens of a
      tenant, retried registrations, repeated provisioning, horizons beyond the
      calendar, override windows stored empty, codes that wait for the control
      database).

    ** Not modelled

    HTML templates, the parsing of requests and command lines by axum, serde and clap,
    the constant liveness route ([health.rs]), and in the binaries the binding of
    sockets, the spawning of tasks and the endless loops around turns that are
    modelled. In Control.v the two receipt passes are arguments of the dispatch, since
    Receipts.v models them on one tenant's database. In Leader.v the processing of a
    row is the three ways it can leave a hand; what happens in between is Worker.v.

    Where the model is simpler than the program: a [transaction] is not interleaved with
    other processes, which is more isolation than READ COMMITTED gives; a failed write to
    a file leaves no partial line; the rank of an address wraps around as in a release
    build; instants have microseconds, except those that a command or a form names
    ([parse_rfc3339]), which have nanoseconds until they are bound to a statement, so that
    the schedule of a request is taken to the microsecond it is stored with; the key
    service that the theorems on ingest are evaluated with has no cache, whose agreement
    with the table is shown in Dek.v.
*)

From stdpp Require Import base gmap strings list sorting.
From Stdlib Require Import Lia ZArith.

#[global] Set Default Goal Selector "!".

(** ** Results and errors *)

(** [Result<A, E>] of the Rust standard library. *)
Inductive result (A E : Type) : Type :=
| Ok (a : A)
| Err (e : E).
Arguments Ok {A E} a.
Arguments Err {A E} e.

Definition map_err {A E F} (f : E → F) (r : result A E) : result A F :=
  match r with Ok a => Ok a | Err e => Err (f e) end.

Definition is_ok {A E} (r : result A E) : bool :=
  match r with Ok _ => true | Err _ => false end.

(** [Option::ok_or]. *)
Definition ok_or {A E} (o : option A) (e : E) : result A E :=
  match o with Some a => Ok a | None => Err e end.

(** What [sqlx::Error] distinguishes in the code that is modelled: a lost
    connection or statement failure, [fetch_one] on no row, a named
    constraint, a numeric overflow of a column type, and the
    [Configuration] variant the configure modules use for rejections. *)
Inductive SqlxError : Type :=
| SqlIo
| SqlRowNotFound
| SqlConstraint (name : string)
| SqlNumericOutOfRange
| SqlConfiguration (message : string).

#[export] Instance SqlxError_eq_dec : EqDecision SqlxError.
Proof. solve_decision. Defined.

(** ** The world a process runs in *)

(** Every await point of the code hands control to the outside world. One
    [move] is what the world does there: it lets time pass, lets other
    processes change the database, and decides whether the statement the
    process issued fails before taking effect, after taking effect (the
    reply is lost), or not at all. *)
Inductive fault : Type := NoFault | FaultBefore | FaultAfter.

Record move (D : Type) : Type := Move {
  mv_dt : N;
  mv_fault : fault;
  mv_act : D → D;
}.
Arguments Move {D} _ _ _.
Arguments mv_dt {D} _.
Arguments mv_fault {D} _.
Arguments mv_act {D} _ _.

(** [w_env] is the sequence of moves still to come; when it is exhausted the
    world stands still. [w_tx] is set while a transaction is open: other
    processes' writes are then held back until it ends. [w_trace] records the
    calls made to the outside (provider sends), oldest first. *)
Record world (D C : Type) : Type := World {
  w_db : D;
  w_now : Z;
  w_tx : bool;
  w_env : list (move D);
  w_trace : list C;
}.
Arguments World {D C} _ _ _ _ _.
Arguments w_db {D C} _.
Arguments w_now {D C} _.
Arguments w_tx {D C} _.
Arguments w_env {D C} _.
Arguments w_trace {D C} _.

Section World.
Context {D C : Type}.
Implicit Types (w : world D C).

Definition idle : move D := Move 0 NoFault (λ d, d).

(** The next move of the world. *)
Definition next_move w : move D := hd idle (w_env w).

(** Lets the world take its next move, faults aside. *)
Definition tick w : world D C :=
  let m := next_move w in
  World (if w_tx w then w_db w else mv_act m (w_db w))
        (w_now w + Z.of_N (mv_dt m))
        (w_tx w) (tl (w_env w)) (w_trace w).

Definition set_db (d : D) w : world D C :=
  World d (w_now w) (w_tx w) (w_env w) (w_trace w).
Definition set_tx (b : bool) w : world D C :=
  World (w_db w) (w_now w) b (w_env w) (w_trace w).
Definition add_call (c : C) w : world D C :=
  World (w_db w) (w_now w) (w_tx w) (w_env w) (w_trace w ++ [c]).

(** ** The effect monad: state passing with errors *)

Definition M (E A : Type) : Type := world D C → world D C * result A E.

Definition eret {E A} (a : A) : M E A := λ w, (w, Ok a).
Definition ethrow {E A} (e : E) : M E A := λ w, (w, Err e).
Definition ebind {E A B} (m : M E A) (k : A → M E B) : M E B :=
  λ w, match m w with
       | (w', Ok a) => k a w'
       | (w', Err e) => (w', Err e)
       end.
(** [?] with a [From] conversion of the error. *)
Definition elift {E F A} (f : E → F) (m : M E A) : M F A :=
  λ w, let '(w', r) := m w in (w', map_err f r).
Definition eof {E A} (r : result A E) : M E A := λ w, (w, r).
(** Runs [m] and hands its result, error included, to the continuation. *)
Definition etry {E F A} (m : M E A) : M F (result A E) :=
  λ w, let '(w', r) := m w in (w', Ok r).

(** [Utc::now()]. *)
Definition utc_now {E} : M E Z := λ w, let w' := tick w in (w', Ok (w_now w')).

(** [tokio::time::sleep(d)]: at least [d] passes. *)
Definition sleep (d : Z) w : world D C :=
  let w' := tick w in
  World (w_db w') (w_now w' + d) (w_tx w') (w_env w') (w_trace w').

(** One SQL statement, run atomically at the database's current time. *)
Definition sql {A} (f : Z → D → result (D * A) SqlxError) : M SqlxError A :=
  λ w, let flt := mv_fault (next_move w) in
       let w' := tick w in
       match flt with
       | FaultBefore => (w', Err SqlIo)
       | _ => match f (w_now w') (w_db w') with
              | Ok (d, a) => (set_db d w',
                  match flt with FaultAfter => Err SqlIo | _ => Ok a end)
              | Err e => (w', Err e)
              end
       end.

(** A read-only statement and a total update. *)
Definition query {A} (f : Z → D → A) : M SqlxError A :=
  sql (λ t d, Ok (d, f t d)).
Definition exec (f : Z → D → D) : M SqlxError unit :=
  sql (λ t d, Ok (f t d, tt)).

(** [pool.begin()], a body, then [tx.commit()]: an error anywhere rolls the
    body back, and a commit can be lost before or after it took effect. A
    body that ends in [None] asked for [tx.rollback()]. The others wait while the body
    runs: this is more isolation than PostgreSQL's READ COMMITTED gives, under which a
    statement of the body also sees what the others commit between two statements. *)
Definition transaction {A} (body : M SqlxError A) (keep : A → bool) : M SqlxError A :=
  λ w, match query (λ _ _, tt) w with
       | (w0, Err e) => (w0, Err e)
       | (w0, Ok _) =>
           match body (set_tx true w0) with
           | (w1, Err e) => (set_tx (w_tx w0) (set_db (w_db w0) w1), Err e)
           | (w1, Ok a) =>
               let flt := mv_fault (next_move w1) in
               let w2 := set_tx (w_tx w0) (tick w1) in
               if keep a then
                 match flt with
                 | NoFault => (w2, Ok a)
                 | FaultBefore => (set_db (w_db w0) w2, Err SqlIo)
                 | FaultAfter => (w2, Err SqlIo)
                 end
               else
                 (set_db (w_db w0) w2,
                  match flt with NoFault => Ok a | _ => Err SqlIo end)
           end
       end.
End World.

Arguments M D C E A : clear implicits.

Declare Scope effect_scope.
Delimit Scope effect_scope with eff.
Notation "x ←! m ; k" := (ebind m (λ x, k))
  (at level 100, m at next level, k at level 200, right associativity) : effect_scope.
Notation "m ;! k" := (ebind m (λ _, k))
  (at level 100, k at level 200, right associativity) : effect_scope.

(** ** Reasoning about effects *)

Lemma eret_inv {D C E A} (a b : A) (w w' : world D C) :
  eret (E:=E) a w = (w', Ok b) → a = b ∧ w = w'.
Proof. unfold eret. by intros [= -> ->]. Qed.

(** A function of a run that passes errors on goes under a bind. *)
Lemma ebind_through {D C E A B B'} (F : world D C * result B' E → world D C * result B E)
    (m : M D C E A) (k : A → M D C E B) (k' : A → M D C E B') w :
  (∀ w' e, F (w', Err e) = (w', Err e)) → (∀ a w', k a w' = F (k' a w')) →
  ebind m k w = F (ebind m k' w).
Proof. intros HE Hk. unfold ebind. destruct (m w) as [w' [a|e]]; [apply Hk|by rewrite HE]. Qed.

(** [mute m]: [m] makes no outside call. *)
Definition mute {D C E A} (m : M D C E A) : Prop :=
  ∀ w, w_trace (m w).1 = w_trace w.

(** [forward m]: the clock never runs backwards across [m]. *)
Definition forward {D C E A} (m : M D C E A) : Prop :=
  ∀ w, (w_now w ≤ w_now (m w).1)%Z.

(** [calm w]: the world stands still, so no time passes, nobody else writes
    and nothing fails. *)
Definition calm {D C} (w : world D C) : Prop := w_env w = [] ∧ w_tx w = false.

(** [rely R w]: whatever other processes still do to the database stays
    within [R]. *)
Definition rely {D C} (R : relation D) (w : world D C) : Prop :=
  Forall (λ mv, ∀ d, R d (mv_act mv d)) (w_env w) ∧ w_tx w = false.

(** [guar R m]: among processes that stay within [R], so does [m], whatever
    fails and however long it takes. *)
Definition guar {D C E A} (R : relation D) (m : M D C E A) : Prop :=
  ∀ w, rely R w → R (w_db w) (w_db (m w).1) ∧ rely R (m w).1.

(** [tx_post body Q]: inside a transaction, where nobody else's writes are
    seen, a body that ends in [Ok a] relates the two databases by [Q]. *)
Definition tx_post {D C E A} (body : M D C E A) (Q : D → D → A → Prop) : Prop :=
  ∀ w, w_tx w = true →
    (∃ k, w_env (body w).1 = drop k (w_env w)) ∧ w_tx (body w).1 = true ∧
    (∀ a, (body w).2 = Ok a → Q (w_db w) (w_db (body w).1) a).

Create HintDb effects.
Create HintDb calm.

Section EffectLemmas.
Context {D C : Type}.
Implicit Types (w : world D C) (R : relation D).

Lemma tick_trace w : w_trace (tick w) = w_trace w.
Proof. done. Qed.

Lemma tick_calm w : w_env w = [] → tick w = w.
Proof.
  destruct w as [d t b e tr]; simpl; intros ->. unfold tick, next_move; simpl.
  rewrite Z.add_0_r. by destruct b.
Qed.

Lemma next_move_calm w : w_env w = [] → next_move w = idle.
Proof. unfold next_move. by intros ->. Qed.

Lemma tick_now_le w : (w_now w ≤ w_now (tick w))%Z.
Proof. unfold tick; simpl. lia. Qed.

Lemma set_db_same w : set_db (w_db w) w = w.
Proof. by destruct w. Qed.

(** *** The standing world *)

Lemma sql_calm {A} (f : Z → D → result (D * A) SqlxError) w :
  w_env w = [] →
  sql f w = match f (w_now w) (w_db w) with
            | Ok (d, a) => (set_db d w, Ok a)
            | Err e => (w, Err e)
            end.
Proof.
  intros Hw. unfold sql. rewrite (next_move_calm w Hw), (tick_calm w Hw); simpl.
  by destruct (f _ _) as [[??]|].
Qed.

Lemma query_calm {A} (f : Z → D → A) w :
  w_env w = [] → query f w = (w, Ok (f (w_now w) (w_db w))).
Proof. intros Hw. unfold query. rewrite sql_calm by done. by rewrite set_db_same. Qed.

Lemma exec_calm (f : Z → D → D) w :
  w_env w = [] → exec f w = (set_db (f (w_now w) (w_db w)) w, Ok tt).
Proof. intros Hw. unfold exec. by rewrite sql_calm. Qed.

Lemma utc_now_calm {E} w : w_env w = [] → utc_now (E:=E) w = (w, Ok (w_now w)).
Proof. intros Hw. unfold utc_now. by rewrite tick_calm. Qed.

Lemma transaction_calm {A} (body : M D C SqlxError A) keep w w1 a :
  calm w → body (set_tx true w) = (set_tx true w1, Ok a) → w_env w1 = [] → keep a = true →
  transaction body keep w = (set_tx false w1, Ok a).
Proof.
  intros [He Htx] Hb He1 Hk. unfold transaction. rewrite query_calm by done. rewrite Hb, Htx, Hk.
  rewrite (next_move_calm (set_tx true w1)) by done. rewrite (tick_calm (set_tx true w1)) by done.
  by destruct w1.
Qed.

Lemma calm_set_db w d : calm w → calm (set_db d w).
Proof. done. Qed.

Lemma set_tx_set_db b d w : set_tx b (set_db d w) = set_db d (set_tx b w).
Proof. done. Qed.

Lemma set_tx_calm w : calm w → set_tx false w = w.
Proof. destruct w; intros [? Htx]; simpl in *. by rewrite Htx. Qed.

(** *** Calls *)

Lemma mute_ret {E A} (a : A) : mute (D:=D) (C:=C) (E:=E) (eret a).
Proof. done. Qed.
Lemma mute_throw {E A} (e : E) : mute (D:=D) (C:=C) (A:=A) (ethrow e).
Proof. done. Qed.
Lemma mute_of {E A} (r : result A E) : mute (D:=D) (C:=C) (eof r).
Proof. done. Qed.
Lemma mute_now {E} : mute (D:=D) (C:=C) (utc_now (E:=E)).
Proof. done. Qed.
Lemma mute_bind {E A B} (m : M D C E A) (k : A → M D C E B) :
  mute m → (∀ a, mute (k a)) → mute (ebind m k).
Proof.
  intros Hm Hk w. unfold ebind. specialize (Hm w).
  destruct (m w) as [w' [a|e]]; simpl in *; [|done]. by rewrite Hk.
Qed.
Lemma mute_lift {E F A} (f : E → F) (m : M D C E A) : mute m → mute (elift f m).
Proof. intros Hm w. unfold elift. specialize (Hm w). by destruct (m w). Qed.
Lemma mute_try {E F A} (m : M D C E A) : mute m → mute (etry (F:=F) m).
Proof. intros Hm w. unfold etry. specialize (Hm w). by destruct (m w). Qed.
Lemma mute_sql {A} (f : Z → D → result (D * A) SqlxError) : mute (C:=C) (sql f).
Proof.
  intros w. unfold sql. destruct (mv_fault _); [| done |];
    by destruct (f _ _) as [[??]|].
Qed.
Lemma mute_query {A} (f : Z → D → A) : mute (C:=C) (query f).
Proof. apply mute_sql. Qed.
Lemma mute_exec (f : Z → D → D) : mute (C:=C) (exec f).
Proof. apply mute_sql. Qed.
Lemma mute_transaction {A} (body : M D C SqlxError A) keep :
  mute body → mute (transaction body keep).
Proof.
  intros Hb w. unfold transaction.
  pose proof (mute_query (λ _ _, tt) w) as Hq.
  destruct (query _ w) as [w0 [[]|e]]; simpl in *; [|done].
  specialize (Hb (set_tx true w0)).
  destruct (body _) as [w1 [a|e]]; simpl in *; [|congruence].
  destruct (keep a), (mv_fault _); simpl; congruence.
Qed.

(** *** Time *)

Lemma forward_ret {E A} (a : A) : forward (D:=D) (C:=C) (E:=E) (eret a).
Proof. intros w. simpl. lia. Qed.
Lemma forward_of {E A} (r : result A E) : forward (D:=D) (C:=C) (eof r).
Proof. intros w. simpl. lia. Qed.
Lemma forward_now {E} : forward (D:=D) (C:=C) (utc_now (E:=E)).
Proof. intros w. apply tick_now_le. Qed.
Lemma forward_bind {E A B} (m : M D C E A) (k : A → M D C E B) :
  forward m → (∀ a, forward (k a)) → forward (ebind m k).
Proof.
  intros Hm Hk w. unfold ebind. specialize (Hm w).
  destruct (m w) as [w' [a|e]]; simpl in *; [|done]. specialize (Hk a w'). lia.
Qed.
Lemma forward_lift {E F A} (f : E → F) (m : M D C E A) : forward m → forward (elift f m).
Proof. intros Hm w. unfold elift. specialize (Hm w). by destruct (m w). Qed.
Lemma forward_try {E F A} (m : M D C E A) : forward m → forward (etry (F:=F) m).
Proof. intros Hm w. unfold etry. specialize (Hm w). by destruct (m w). Qed.
Lemma forward_sql {A} (f : Z → D → result (D * A) SqlxError) : forward (C:=C) (sql f).
Proof.
  intros w. pose proof (tick_now_le w). unfold sql.
  destruct (mv_fault _); [| done |]; by destruct (f _ _) as [[??]|].
Qed.
Lemma forward_query {A} (f : Z → D → A) : forward (C:=C) (query f).
Proof. apply forward_sql. Qed.
Lemma forward_exec (f : Z → D → D) : forward (C:=C) (exec f).
Proof. apply forward_sql. Qed.
Lemma forward_transaction {A} (body : M D C SqlxError A) keep :
  forward body → forward (transaction body keep).
Proof.
  intros Hb w. unfold transaction. pose proof (forward_query (λ _ _, tt) w) as Hq.
  destruct (query _ w) as [w0 [[]|e]]; simpl in *; [|done].
  specialize (Hb (set_tx true w0)). destruct (body _) as [w1 [a|e]]; simpl in *; [|lia].
  destruct (keep a), (mv_fault _); simpl; lia.
Qed.

(** *** Rely and guarantee *)

Lemma rely_tick R w : rely R w → R (w_db w) (w_db (tick w)) ∧ rely R (tick w) ∨ w_env w = [].
Proof.
  intros [Hall Htx]. destruct (w_env w) as [|mv env] eqn:He; [by right|left].
  inversion Hall as [|?? Hmv Henv]; subst.
  unfold tick, next_move, rely. rewrite He, Htx; simpl. repeat split; auto.
Qed.

Context (R : relation D) `{!PreOrder R}.

Lemma rely_tick_pre w : rely R w → R (w_db w) (w_db (tick w)) ∧ rely R (tick w).
Proof.
  intros Hr. destruct (rely_tick R w Hr) as [?|He]; [done|].
  rewrite (tick_calm w He). split; [reflexivity|done].
Qed.

Lemma rely_sleep d w : rely R w → R (w_db w) (w_db (sleep d w)) ∧ rely R (sleep d w).
Proof. apply rely_tick_pre. Qed.

Lemma rely_set_db d w : rely R w → rely R (set_db d w).
Proof. done. Qed.

Lemma guar_ret {E A} (a : A) : guar (C:=C) (E:=E) R (eret a).
Proof. intros w ?. split; [reflexivity|done]. Qed.
Lemma guar_throw {E A} (e : E) : guar (C:=C) (A:=A) R (ethrow e).
Proof. intros w ?. split; [reflexivity|done]. Qed.
Lemma guar_of {E A} (r : result A E) : guar (C:=C) R (eof r).
Proof. intros w ?. split; [reflexivity|done]. Qed.
Lemma guar_now {E} : guar (C:=C) R (utc_now (E:=E)).
Proof. intros w Hr. apply rely_tick_pre, Hr. Qed.
Lemma guar_bind {E A B} (m : M D C E A) (k : A → M D C E B) :
  guar R m → (∀ a, guar R (k a)) → guar R (ebind m k).
Proof.
  intros Hm Hk w Hr. unfold ebind. destruct (Hm w Hr) as [H1 H2].
  destruct (m w) as [w' [a|e]]; simpl in *; [|done].
  destruct (Hk a w' H2) as [H3 H4]. split; [by etransitivity|done].
Qed.
Lemma guar_lift {E F A} (f : E → F) (m : M D C E A) : guar R m → guar R (elift f m).
Proof. intros Hm w Hr. unfold elift. specialize (Hm w Hr). by destruct (m w). Qed.
Lemma guar_try {E F A} (m : M D C E A) : guar R m → guar R (etry (F:=F) m).
Proof. intros Hm w Hr. unfold etry. specialize (Hm w Hr). by destruct (m w). Qed.

Lemma guar_sql {A} (f : Z → D → result (D * A) SqlxError) :
  (∀ t d d' a, f t d = Ok (d', a) → R d d') → guar (C:=C) R (sql f).
Proof.
  intros Hf w Hr. destruct (rely_tick_pre w Hr) as [H1 H2]. unfold sql.
  destruct (mv_fault _); [| done |];
    destruct (f _ _) as [[d a]|e] eqn:Heq; simpl; split; try done;
    (etransitivity; [exact H1|by eapply Hf]).
Qed.
Lemma guar_query {A} (f : Z → D → A) : guar (C:=C) R (query f).
Proof. apply guar_sql. intros t d d' a [= <- _]. reflexivity. Qed.
Lemma guar_exec (f : Z → D → D) :
  (∀ t d, R d (f t d)) → guar (C:=C) R (exec f).
Proof. intros Hf. apply guar_sql. intros t d d' a [= <- _]. apply Hf. Qed.

(** What a statement does to the database as it was when the statement ran. *)
Lemma sql_split {A} (f : Z → D → result (D * A) SqlxError) w :
  rely R w →
  let '(w', r) := sql f w in
  rely R w' ∧ ∃ t d0, R (w_db w) d0 ∧
    match r with
    | Ok a => f t d0 = Ok (w_db w', a)
    | Err _ => w_db w' = d0 ∨ ∃ a, f t d0 = Ok (w_db w', a)
    end.
Proof.
  intros Hr. destruct (rely_tick_pre w Hr) as [H1 H2]. unfold sql.
  destruct (mv_fault _); [|split; [done|]; exists 0%Z, (w_db (tick w)); by auto|];
    destruct (f _ _) as [[d a]|e] eqn:Hf; simpl; (split; [done|]);
    exists (w_now (tick w)), (w_db (tick w)); eauto.
Qed.

(** What a transaction does to the database as it was when the transaction began:
    a reply says what was kept, an error leaves both outcomes open. *)
Lemma transaction_split {A} (body : M D C SqlxError A) keep (Q : D → D → A → Prop) w :
  tx_post body Q → rely R w →
  let '(w', r) := transaction body keep w in
  rely R w' ∧ ∃ d0, R (w_db w) d0 ∧
    match r with
    | Ok a => ∃ d1, Q d0 d1 a ∧ w_db w' = if keep a then d1 else d0
    | Err _ => w_db w' = d0 ∨ ∃ a, keep a = true ∧ Q d0 (w_db w') a
    end.
Proof.
  intros Hb Hr. unfold transaction. destruct (guar_query (λ _ _, tt) w Hr) as [H1 H2].
  destruct (query _ w) as [w0 [[]|e]]; simpl in *; [|by eauto].
  destruct (Hb (set_tx true w0) eq_refl) as ([k Hk] & Htx & HQ). destruct H2 as [HF H0].
  destruct (body _) as [w1 [a|e]]; simpl in *.
  - assert (rely R (set_tx (w_tx w0) (tick w1))) as Hrely.
    { split; [|done]. simpl. rewrite Hk. destruct (drop k (w_env w0)) eqn:Hd; [done|].
      simpl. apply (Forall_drop _ k) in HF. rewrite Hd in HF. by inversion HF. }
    specialize (HQ a eq_refl).
    destruct (keep a) eqn:Hkeep, (mv_fault _); simpl; rewrite ?Hkeep, ?Htx;
      (split; [done|]); exists (w_db w0); eauto 6.
  - split; [|by eauto]. split; [|done]. simpl. rewrite Hk. by apply Forall_drop.
Qed.

Lemma guar_transaction {A} (body : M D C SqlxError A) keep :
  tx_post body (λ d d' a, keep a = true → R d d') → guar R (transaction body keep).
Proof.
  intros Hb w Hr. pose proof (transaction_split body keep _ w Hb Hr) as Hs.
  destruct (transaction body keep w) as [w' [a|e]]; simpl; destruct Hs as (H1 & d0 & H2 & Hs); (split; [|done]).
  - destruct Hs as (d1 & HQ & ->). destruct (keep a); [|done]. by etransitivity; [|apply HQ].
  - destruct Hs as [->|(a & Hk & HQ)]; [done|]. by etransitivity; [|apply HQ].
Qed.
End EffectLemmas.

Section TxLemmas.
Context {D C : Type}.

Lemma tx_post_ret {E A} (a : A) (Q : D → D → A → Prop) :
  (∀ d, Q d d a) → tx_post (C:=C) (E:=E) (eret a) Q.
Proof. intros HQ w Hw. split; [by exists 0|]. split; [done|]. by intros ? [= <-]. Qed.

Lemma tx_post_now {E} (Q : D → D → Z → Prop) :
  (∀ d t, Q d d t) → tx_post (C:=C) (utc_now (E:=E)) Q.
Proof.
  intros HQ w Hw. unfold utc_now, tick; simpl. rewrite Hw. split; [exists 1; by destruct (w_env w)|].
  split; [done|]. intros a _. apply HQ.
Qed.

Lemma tx_post_sql {A} (f : Z → D → result (D * A) SqlxError) (Q : D → D → A → Prop) :
  (∀ t d d' a, f t d = Ok (d', a) → Q d d' a) → tx_post (C:=C) (sql f) Q.
Proof.
  intros HQ w Hw. unfold sql. set (w' := tick w).
  assert (w_db w' = w_db w) as Hdb by (unfold w', tick; simpl; by rewrite Hw).
  assert (∃ k, w_env w' = drop k (w_env w)) as Hk.
  { exists 1. unfold w', tick; simpl. by destruct (w_env w). }
  destruct (mv_fault _); [| split_and!; done |];
    destruct (f _ _) as [[d a]|e] eqn:Heq; simpl; split_and!; try done.
  intros ? [= <-]. rewrite <- Hdb. by eapply HQ.
Qed.

Lemma tx_post_exec (f : Z → D → D) (Q : D → D → unit → Prop) :
  (∀ t d, Q d (f t d) tt) → tx_post (C:=C) (exec f) Q.
Proof. intros HQ. apply tx_post_sql. intros t d d' [] [= <-]. apply HQ. Qed.

Lemma tx_post_weaken {E A} (m : M D C E A) (Q Q' : D → D → A → Prop) :
  tx_post m Q → (∀ d d' a, Q d d' a → Q' d d' a) → tx_post m Q'.
Proof. intros Hm HQ w Hw. destruct (Hm w Hw) as (H1 & H2 & H3). split_and!; eauto. Qed.

Lemma tx_post_bind {E A B} (m : M D C E A) (k : A → M D C E B)
    (Q1 : D → D → A → Prop) (Q : D → D → B → Prop) :
  tx_post m Q1 →
  (∀ a, tx_post (k a) (λ d1 d2 b, ∀ d0, Q1 d0 d1 a → Q d0 d2 b)) →
  tx_post (ebind m k) Q.
Proof.
  intros Hm Hk w Hw. unfold ebind. destruct (Hm w Hw) as ([n Hn] & Htx & HQ1).
  destruct (m w) as [w1 [a|e]]; simpl in *.
  - destruct (Hk a w1 Htx) as ([n2 Hn2] & Htx2 & HQ2). split_and!; [|done|].
    + exists (n + n2). by rewrite Hn2, Hn, drop_drop.
    + intros b Hb. apply (HQ2 b Hb). by apply HQ1.
  - split_and!; [by exists n|done|done].
Qed.
(** [tx_guar R m]: inside a transaction, [m] as a whole stays within [R]. *)
Definition tx_guar {E A} (R : relation D) (m : M D C E A) : Prop := tx_post m (λ d d' _, R d d').

Context (R : relation D) `{!PreOrder R}.

Lemma tx_guar_ret {E A} (a : A) : tx_guar R (eret (E:=E) a).
Proof. by apply tx_post_ret. Qed.
Lemma tx_guar_now {E} : tx_guar R (utc_now (E:=E)).
Proof. by apply tx_post_now. Qed.
Lemma tx_guar_sql {A} (f : Z → D → result (D * A) SqlxError) :
  (∀ t d d' a, f t d = Ok (d', a) → R d d') → tx_guar R (sql f).
Proof. apply tx_post_sql. Qed.
Lemma tx_guar_query {A} (f : Z → D → A) : tx_guar R (query f).
Proof. apply tx_guar_sql. by intros t d d' a [= <- _]. Qed.
Lemma tx_guar_exec (f : Z → D → D) : (∀ t d, R d (f t d)) → tx_guar R (exec f).
Proof. intros Hf. apply tx_guar_sql. intros t d d' a [= <- _]. apply Hf. Qed.
Lemma tx_guar_bind {E A B} (m : M D C E A) (k : A → M D C E B) :
  tx_guar R m → (∀ a, tx_guar R (k a)) → tx_guar R (ebind m k).
Proof.
  intros Hm Hk. eapply tx_post_bind; [exact Hm|]. intros a. eapply tx_post_weaken; [apply Hk|].
  intros d1 d2 b H2 d0 H1. by etransitivity.
Qed.
Lemma guar_tx {A} (body : M D C SqlxError A) keep : tx_guar R body → guar R (transaction body keep).
Proof. intros Hb. apply guar_transaction; [apply _|]. eapply tx_post_weaken; [exact Hb|]. auto. Qed.
End TxLemmas.

(** ** Hoare triples among interfering processes *)

(** [hoare R P m Q X]: among processes that stay within [R], a run of [m] from a
    database with [P] stays within [R]; if it returns [a] the database then has
    [Q a], and if it fails the error has [X]. *)
Definition hoare {D C E A} (R : relation D) (P : D → Prop) (m : M D C E A)
    (Q : A → D → Prop) (X : E → Prop) : Prop :=
  ∀ w, rely R w → P (w_db w) →
    rely R (m w).1 ∧ R (w_db w) (w_db (m w).1) ∧
    match (m w).2 with Ok a => Q a (w_db (m w).1) | Err e => X e end.

(** Two postconditions of the same run. *)
Lemma hoare_both {D C E A} (R : relation D) P (m : M D C E A) Q1 Q2 X :
  hoare R P m Q1 X → hoare R P m Q2 X → hoare R P m (λ a d, Q1 a d ∧ Q2 a d) X.
Proof.
  intros H1 H2 w Hr Hp. destruct (H1 w Hr Hp) as (A1 & A2 & A3). destruct (H2 w Hr Hp) as (_ & _ & B3).
  split_and!; [done|done|]. by destruct (m w).2.
Qed.

Definition stable {D} (R : relation D) (P : D → Prop) : Prop := ∀ d d', R d d' → P d → P d'.

Lemma stable_const {D} (R : relation D) (p : Prop) : stable R (λ _, p).
Proof. by intros d d' _. Qed.
Lemma stable_and {D} (R : relation D) (P Q : D → Prop) :
  stable R P → stable R Q → stable R (λ d, P d ∧ Q d).
Proof. intros HP HQ d d' HR [??]. split; eauto. Qed.
#[export] Hint Resolve stable_const stable_and : core.

Section Hoare.
Context {D C : Type} (R : relation D) `{!PreOrder R}.

Lemma hoare_ret {E A} (P : D → Prop) (a : A) (Q : A → D → Prop) (X : E → Prop) :
  (∀ d, P d → Q a d) → hoare (C:=C) R P (eret a) Q X.
Proof. intros H w Hr Hp. split_and!; [done|reflexivity|by apply H]. Qed.

Lemma hoare_throw {E A} (P : D → Prop) (e : E) (Q : A → D → Prop) (X : E → Prop) :
  X e → hoare (C:=C) R P (ethrow e) Q X.
Proof. intros H w Hr Hp. split_and!; [done|reflexivity|done]. Qed.

Lemma hoare_of {E A} (P : D → Prop) (r : result A E) (Q : A → D → Prop) (X : E → Prop) :
  (∀ d, P d → match r with Ok a => Q a d | Err e => X e end) → hoare (C:=C) R P (eof r) Q X.
Proof.
  intros H w Hr Hp. split_and!; [done|reflexivity|]. simpl. specialize (H (w_db w) Hp). by destruct r.
Qed.

Lemma hoare_now {E} (P : D → Prop) (Q : Z → D → Prop) (X : E → Prop) :
  stable R P → (∀ t d, P d → Q t d) → hoare (C:=C) R P utc_now Q X.
Proof.
  intros Hs H w Hr Hp. destruct (rely_tick_pre R w Hr) as [H1 H2].
  split_and!; [done|done|]. simpl. apply H. by eapply Hs.
Qed.

Lemma hoare_bind {E A B} (P : D → Prop) (m : M D C E A) (k : A → M D C E B) Q1 Q X :
  hoare R P m Q1 X → (∀ a, hoare R (Q1 a) (k a) Q X) → hoare R P (ebind m k) Q X.
Proof.
  intros Hm Hk w Hr Hp. destruct (Hm w Hr Hp) as (H1 & H2 & H3). unfold ebind.
  destruct (m w) as [w1 [a|e]]; simpl in *; [|done]. destruct (Hk a w1 H1 H3) as (H4 & H5 & H6).
  split_and!; [done|by etransitivity|done].
Qed.

Lemma hoare_lift {E F A} (f : E → F) (P : D → Prop) (m : M D C E A) Q X :
  hoare R P m Q (X ∘ f) → hoare R P (elift f m) Q X.
Proof.
  intros Hm w Hr Hp. destruct (Hm w Hr Hp) as (H1 & H2 & H3). unfold elift.
  by destruct (m w) as [w1 [a|e]].
Qed.

Lemma hoare_try {E F A} (P : D → Prop) (m : M D C E A) Q X (Y : F → Prop) :
  stable R P → hoare R P m Q X →
  hoare R P (etry m) (λ r d, match r with Ok a => Q a d | Err e => X e ∧ P d end) Y.
Proof.
  intros HP Hm w Hr Hp. destruct (Hm w Hr Hp) as (H1 & H2 & H3). unfold etry.
  destruct (m w) as [w1 [a|e]]; simpl in *; split_and!; try done. by eapply HP.
Qed.

Lemma hoare_sql {A} (P : D → Prop) (f : Z → D → result (D * A) SqlxError) Q X :
  stable R P → X SqlIo →
  (∀ t d, P d → match f t d with Ok (d', a) => R d d' ∧ Q a d' | Err e => X e end) →
  hoare (C:=C) R P (sql f) Q X.
Proof.
  intros Hs Hx Hf w Hr Hp. destruct (rely_tick_pre R w Hr) as [H1 H2].
  specialize (Hf (w_now (tick w)) (w_db (tick w)) (Hs _ _ H1 Hp)). unfold sql.
  destruct (mv_fault _); [|done|];
    destruct (f _ _) as [[d' a]|e]; simpl; split_and!; try done; try tauto;
    (etransitivity; [exact H1|tauto]).
Qed.

Lemma hoare_query {A} (P : D → Prop) (f : Z → D → A) Q X :
  stable R P → X SqlIo → (∀ t d, P d → Q (f t d) d) → hoare (C:=C) R P (query f) Q X.
Proof. intros Hs Hx Hf. apply hoare_sql; [done..|]. intros t d Hd. split; [reflexivity|auto]. Qed.

Lemma hoare_weaken {E A} (P P' : D → Prop) (m : M D C E A) (Q Q' : A → D → Prop) (X X' : E → Prop) :
  hoare R P' m Q' X' → (∀ d, P d → P' d) → (∀ a d, Q' a d → Q a d) → (∀ e, X' e → X e) →
  hoare R P m Q X.
Proof.
  intros Hm HP HQ HX w Hr Hp. destruct (Hm w Hr (HP _ Hp)) as (H1 & H2 & H3). split_and!; [done..|].
  destruct (m w).2; auto.
Qed.

Lemma hoare_pre {E A} (P P' : D → Prop) (m : M D C E A) (Q : A → D → Prop) (X : E → Prop) :
  hoare R P' m Q X → (∀ d, P d → P' d) → hoare R P m Q X.
Proof. intros Hm HP w Hr Hp. by apply Hm, HP. Qed.

(** A pure part of the precondition is a hypothesis. *)
Lemma hoare_pull {E A} (p : Prop) (P : D → Prop) (m : M D C E A) Q X :
  (p → hoare R P m Q X) → hoare R (λ d, p ∧ P d) m Q X.
Proof. intros Hm w Hr [Hp HP]. by apply Hm. Qed.

Lemma hoare_frame {E A} (F P : D → Prop) (m : M D C E A) Q X :
  stable R F → hoare R P m Q X → hoare R (λ d, F d ∧ P d) m (λ a d, F d ∧ Q a d) X.
Proof.
  intros Hs Hm w Hr [Hf Hp]. destruct (Hm w Hr Hp) as (H1 & H2 & H3). split_and!; [done..|].
  destruct (m w).2; [|done]. split; [by eapply Hs|done].
Qed.

(** A step that leaves the database to the others, and what its result tells. *)
Lemma hoare_guar {E A} (P : D → Prop) (m : M D C E A) (G : A → Prop) (X : E → Prop) :
  guar R m → stable R P → (∀ w w' a, m w = (w', Ok a) → G a) → (∀ e, X e) →
  hoare R P m (λ a d, P d ∧ G a) X.
Proof.
  intros Hg Hs HG HX w Hr Hp. destruct (Hg w Hr) as [H1 H2]. specialize (HG w).
  destruct (m w) as [w1 [a|e]]; simpl in *; split_and!; eauto.
Qed.

Lemma hoare_transaction {A} (P : D → Prop) (body : M D C SqlxError A) (keep : A → bool)
    (Q : A → D → Prop) (X : SqlxError → Prop) :
  stable R P → (∀ e, X e) →
  tx_post body (λ d d' a, P d → if keep a then R d d' ∧ Q a d' else Q a d) →
  hoare R P (transaction body keep) Q X.
Proof.
  intros Hs HX Hb w Hr Hp. pose proof (transaction_split R body keep _ w Hb Hr) as Hsp.
  destruct (transaction body keep w) as [w' [a|e]]; simpl; destruct Hsp as (H1 & d0 & H2 & Hd);
    assert (P d0) as Hp0 by (by eapply Hs); (split; [done|]).
  - destruct Hd as (d1 & HQ & ->). specialize (HQ Hp0). destruct (keep a); [|done].
    split; [etransitivity; [exact H2|tauto]|tauto].
  - destruct Hd as [->|(a & Hk & HQ)]; [auto|]. rewrite Hk in HQ.
    split; [etransitivity; [exact H2|by apply HQ]|auto].
Qed.

(** [sustains R P m]: among processes that stay within [R], which never undo [P],
    a run of [m] from a database with [P] stays within [R] too. *)
Definition sustains {E A} (P : D → Prop) (m : M D C E A) : Prop := hoare R P m (λ _ d, P d) (λ _, True).

Lemma sustains_guar {E A} (P : D → Prop) (m : M D C E A) : stable R P → guar R m → sustains P m.
Proof.
  intros Hs Hm w Hr Hp. destruct (Hm w Hr) as [H1 H2]. split_and!; [done..|].
  destruct (m w).2; [by eapply Hs|done].
Qed.

(** A run that stays within [R] from any database. *)
Lemma guar_hoare {E A} (m : M D C E A) Q X : hoare R (λ _, True) m Q X → guar R m.
Proof. intros Hm w Hr. destruct (Hm w Hr I) as (H1 & H2 & _). done. Qed.

(** The part of what a run sustains that is wanted afterwards. *)
Lemma sustains_fst {E A} (P Q : D → Prop) (m : M D C E A) :
  sustains (λ d, P d ∧ Q d) m → hoare R (λ d, P d ∧ Q d) m (λ _ d, P d) (λ _, True).
Proof.
  intros Hm w Hr Hp. destruct (Hm w Hr Hp) as (H1 & H2 & H3). split_and!; [done..|].
  destruct (m w).2; [apply H3|done].
Qed.

Lemma sustains_bind {E A B} (P : D → Prop) (m : M D C E A) (k : A → M D C E B) :
  sustains P m → (∀ a, sustains P (k a)) → sustains P (ebind m k).
Proof. intros Hm Hk. eapply hoare_bind; [exact Hm|exact Hk]. Qed.

Lemma sustains_lift {E F A} (f : E → F) (P : D → Prop) (m : M D C E A) : sustains P m → sustains P (elift f m).
Proof. intros Hm. apply hoare_lift. exact Hm. Qed.

Lemma sustains_exec (P : D → Prop) (f : Z → D → D) :
  stable R P → (∀ t d, P d → R d (f t d)) → sustains P (exec (C:=C) f).
Proof. intros Hs Hf. apply hoare_sql; [done|done|]. intros t d Hd. split; [auto|]. eapply Hs; eauto. Qed.

Lemma sustains_transaction {A} (P : D → Prop) (body : M D C SqlxError A) (keep : A → bool) :
  stable R P → tx_post body (λ d d' a, keep a = true → P d → R d d') → sustains P (transaction body keep).
Proof.
  intros Hs Hb. unfold sustains. apply hoare_transaction; [done|done|].
  eapply tx_post_weaken; [exact Hb|]. intros d d' a HR Hp. destruct (keep a) eqn:Hk; [|done].
  split; [auto|]. apply (Hs d d'); auto.
Qed.
End Hoare.

(** ** Total correctness in a standing world

    [totally P m Q]: with nobody else at work, [m] started where [P] holds comes to an
    [Ok] result, changes nothing but the database, and leaves it with [Q]. *)
Definition totally {D C E A} (P : D → Prop) (m : M D C E A) (Q : A → D → Prop) : Prop :=
  ∀ w, calm w → P (w_db w) → ∃ d a, m w = (set_db d w, Ok a) ∧ Q a d.

Section Total.
Context {D C : Type}.

Lemma total_ret {E A} (P : D → Prop) (a : A) (Q : A → D → Prop) : (∀ d, P d → Q a d) → totally (C:=C) (E:=E) P (eret a) Q.
Proof. intros HQ w Hc Hp. exists (w_db w), a. rewrite set_db_same. split; [done|auto]. Qed.
Lemma total_bind {E A B} (P : D → Prop) (m : M D C E A) (k : A → M D C E B) Q1 Q :
  totally P m Q1 → (∀ a, totally (Q1 a) (k a) Q) → totally P (ebind m k) Q.
Proof.
  intros Hm Hk w Hc Hp. destruct (Hm w Hc Hp) as (d & a & E1 & H1).
  destruct (Hk a (set_db d w) Hc H1) as (d' & b & E2 & H2). exists d', b. split; [|done]. unfold ebind. by rewrite E1, E2.
Qed.
Lemma total_lift {E F A} (f : E → F) (P : D → Prop) (m : M D C E A) Q : totally P m Q → totally P (elift f m) Q.
Proof. intros Hm w Hc Hp. destruct (Hm w Hc Hp) as (d & a & E1 & H1). exists d, a. unfold elift. by rewrite E1. Qed.
Lemma total_sql {A} (P : D → Prop) (f : Z → D → result (D * A) SqlxError) Q :
  (∀ t d, P d → ∃ d' a, f t d = Ok (d', a) ∧ Q a d') → totally (C:=C) P (sql f) Q.
Proof.
  intros Hf w Hc Hp. destruct (Hf (w_now w) _ Hp) as (d' & a & E1 & H1). exists d', a. rewrite sql_calm by apply Hc.
  by rewrite E1.
Qed.
Lemma total_pre {E A} (P P' : D → Prop) (m : M D C E A) Q : totally P' m Q → (∀ d, P d → P' d) → totally P m Q.
Proof. intros Hm HP w Hc Hp. by apply Hm, HP. Qed.
Lemma total_pull {E A} (p : Prop) (P : D → Prop) (m : M D C E A) Q : (p → totally P m Q) → totally (λ d, p ∧ P d) m Q.
Proof. intros Hm w Hc [Hp HP]. by apply Hm. Qed.
End Total.

#[export] Hint Resolve mute_ret mute_throw mute_of mute_now mute_bind mute_lift mute_try
  mute_sql mute_query mute_exec mute_transaction : effects.

#[export] Hint Resolve forward_ret forward_of forward_now forward_bind forward_lift forward_try
  forward_sql forward_query forward_exec forward_transaction : effects.

(** Proves that a program never turns the clock back. *)
Ltac solve_forward :=
  repeat (first
    [ assumption
    | match goal with
      | |- ∀ _, _ => intro
      | |- forward (ebind _ _) => apply forward_bind
      | |- forward (elift _ _) => apply forward_lift
      | |- forward (etry _) => apply forward_try
      | |- forward (transaction _ _) => apply forward_transaction
      | |- forward (match ?x with _ => _ end) => destruct x
      end
    | solve [eauto with effects] ]).

(** Proves that a program makes no outside call, following its control flow. *)
Ltac solve_mute :=
  repeat (first
    [ assumption
    | match goal with
      | |- ∀ _, _ => intro
      | |- mute (ebind _ _) => apply mute_bind
      | |- mute (elift _ _) => apply mute_lift
      | |- mute (etry _) => apply mute_try
      | |- mute (transaction _ _) => apply mute_transaction
      | |- mute (match ?x with _ => _ end) => destruct x
      end
    | solve [eauto with effects] ]).

(** Proves that a program stays within a relation, leaving the statements
    that write as goals. *)
Ltac step_guar :=
  repeat (first
    [ assumption
    | match goal with
      | |- ∀ _, _ => intro
      | |- PreOrder _ => apply _
      | |- guar _ (ebind _ _) => apply guar_bind
      | |- guar _ (elift _ _) => apply guar_lift
      | |- guar _ (etry _) => apply guar_try
      | |- guar _ (eret _) => apply guar_ret
      | |- guar _ (ethrow _) => apply guar_throw
      | |- guar _ (eof _) => apply guar_of
      | |- guar _ utc_now => apply guar_now
      | |- guar _ (query _) => apply guar_query
      | |- guar _ (transaction _ _) => apply guar_tx
      | |- tx_guar _ (ebind _ _) => apply tx_guar_bind
      | |- tx_guar _ (eret _) => apply tx_guar_ret
      | |- tx_guar _ utc_now => apply tx_guar_now
      | |- tx_guar _ (query _) => apply tx_guar_query
      | |- tx_guar _ (match ?x with _ => _ end) => destruct x
      | |- guar _ (match ?x with _ => _ end) => destruct x
      end
    | solve [eauto with effects] ]).

(** The same for [sustains]; what is left are the statements that write. *)
Ltac step_sustain :=
  repeat (first
    [ assumption
    | match goal with
      | |- ∀ _, _ => intro
      | |- PreOrder _ => apply _
      | |- sustains _ _ (ebind _ _) => apply sustains_bind
      | |- sustains _ _ (elift _ _) => apply sustains_lift
      | |- sustains _ _ (match ?x with _ => _ end) => destruct x
      | |- sustains _ _ _ => apply sustains_guar; [solve [eauto]|solve [step_guar]]
      end
    | solve [eauto with effects] ]).
