(* ===== verification/RustStd.v ===== *)
(** * The parts of the Rust language and standard library the code uses

    Machine integers with their saturating and wrapping operations, and byte
    strings with the [str] methods that the modelled code calls. A Rust [String]
    is a [string] of bytes here. *)

From S2P Require Import Prelude.
From stdpp Require Import base strings list.
From Stdlib Require Import ZArith Lia.

(** ** Machine integers *)

Section Ints.
Local Open Scope Z_scope.

Definition i16_min : Z := -32768.
Definition i16_max : Z := 32767.
Definition i32_max : Z := 2147483647.
Definition i64_min : Z := -9223372036854775808.
Definition i64_max : Z := 9223372036854775807.
Definition u32_modulus : Z := 4294967296.

Definition clamp (lo hi x : Z) : Z := Z.max lo (Z.min hi x).

(** [i16] arithmetic with overflow checks off, as in a release build. *)
Definition i16_wrap (x : Z) : Z := (x - i16_min) mod 65536 + i16_min.
Definition i16_saturating_sub (a b : Z) : Z := clamp i16_min i16_max (a - b).
Definition i64_saturating_mul (a b : Z) : Z := clamp i64_min i64_max (a * b).
(** [i64::saturating_pow]: the exponent is a [u32]. *)
Definition i64_saturating_pow (a e : Z) : Z := clamp i64_min i64_max (a ^ e).
(** [x as u32] from a narrower signed type. *)
Definition as_u32 (x : Z) : Z := x mod u32_modulus.

Lemma clamp_id lo hi x : lo <= x <= hi → clamp lo hi x = x.
Proof. unfold clamp. lia. Qed.
Lemma clamp_range lo hi x : lo <= hi → lo <= clamp lo hi x <= hi.
Proof. unfold clamp. lia. Qed.
End Ints.

(** ** Strings *)

Fixpoint str_take (n : nat) (s : string) : string :=
  match n, s with
  | S n, String c s => String c (str_take n s)
  | _, _ => EmptyString
  end.

Fixpoint str_drop (n : nat) (s : string) : string :=
  match n, s with
  | 0, _ => s
  | S n, String _ s => str_drop n s
  | S _, EmptyString => EmptyString
  end.

(** [str::find] with a string pattern: the byte offset of the first match. *)
Fixpoint str_find (pat s : string) : option nat :=
  if String.prefix pat s then Some 0
  else match s with
       | EmptyString => None
       | String _ s' => S <$> str_find pat s'
       end.

(** [str::strip_prefix]. *)
Definition strip_prefix (pat s : string) : option string :=
  if String.prefix pat s then Some (str_drop (String.length pat) s) else None.

(** [str::split_once]. *)
Definition split_once (pat s : string) : option (string * string) :=
  match str_find pat s with
  | Some i => Some (str_take i s, str_drop (i + String.length pat) s)
  | None => None
  end.

Definition byte_str (l : list N) : string := foldr (λ b, String (Ascii.ascii_of_N b)) EmptyString l.

(** The UTF-8 encodings of the characters with the Unicode property
    White_Space, which is what [str::trim] removes. *)
Definition white_space : list string :=
  byte_str <$>
    (((λ b, [b]) <$> [9; 10; 11; 12; 13; 32])
     ++ [[194; 133]; [194; 160]; [225; 154; 128]]
     ++ ((λ b, [226; 128; b]) <$> [128; 129; 130; 131; 132; 133; 134; 135; 136; 137; 138; 168; 169; 175])
     ++ [[226; 129; 159]; [227; 128; 128]])%N.

Definition strip_ws (ws : list string) (s : string) : option string :=
  head (omap (λ p, strip_prefix p s) ws).

Fixpoint trim_start_fuel (ws : list string) (fuel : nat) (s : string) : string :=
  match fuel with
  | 0 => s
  | S fuel => match strip_ws ws s with
              | Some s' => trim_start_fuel ws fuel s'
              | None => s
              end
  end.

Fixpoint str_rev_onto (s acc : string) : string :=
  match s with
  | EmptyString => acc
  | String c s => str_rev_onto s (String c acc)
  end.
Definition str_rev (s : string) : string := str_rev_onto s EmptyString.

Definition trim_start (s : string) : string := trim_start_fuel white_space (String.length s) s.
Definition trim_end (s : string) : string :=
  str_rev (trim_start_fuel (str_rev <$> white_space) (String.length s) (str_rev s)).
(** [str::trim]. *)
Definition trim (s : string) : string := trim_end (trim_start s).

(** ** UTF-8 *)

Definition in_range (lo hi b : N) : bool := (lo <=? b)%N && (b <=? hi)%N.

(** Well-formed byte sequences, as [String::from_utf8] checks them (the table
    "Well-Formed UTF-8 Byte Sequences" of the Unicode standard). *)
Fixpoint utf8_valid (fuel : nat) (l : list N) : bool :=
  match fuel with
  | 0 => false
  | S fuel =>
      match l with
      | [] => true
      | a :: l1 =>
          if (a <=? 127)%N then utf8_valid fuel l1
          else match l1 with
          | [] => false
          | b :: l2 =>
              if in_range 194 223 a then in_range 128 191 b && utf8_valid fuel l2
              else match l2 with
              | [] => false
              | c :: l3 =>
                  if in_range 224 239 a then
                    in_range (if (a =? 224)%N then 160 else 128)
                             (if (a =? 237)%N then 159 else 191) b
                    && in_range 128 191 c && utf8_valid fuel l3
                  else match l3 with
                  | [] => false
                  | d :: l4 =>
                      in_range 240 244 a
                      && in_range (if (a =? 240)%N then 144 else 128)
                                  (if (a =? 244)%N then 143 else 191) b
                      && in_range 128 191 c && in_range 128 191 d && utf8_valid fuel l4
                  end
              end
          end
      end
  end.

Fixpoint str_bytes (s : string) : list N :=
  match s with
  | EmptyString => []
  | String c s => Ascii.N_of_ascii c :: str_bytes s
  end.

(** [String::from_utf8]. *)
Definition from_utf8 (s : string) : option string :=
  if utf8_valid (S (String.length s)) (str_bytes s) then Some s else None.

(** ** Lemmas *)

Lemma str_app_nil_l (b : string) : ("" +:+ b = b)%string.
Proof. done. Qed.
Lemma str_app_cons c (a b : string) : (String c a +:+ b = String c (a +:+ b))%string.
Proof. done. Qed.

(** Computes on strings, appending included. *)
Ltac str_simpl := repeat (progress (simpl in *; rewrite ?str_app_nil_l, ?str_app_cons in *)).

Lemma str_take_drop n s : (str_take n s +:+ str_drop n s)%string = s.
Proof. revert s. induction n as [|n IH]; intros [|c s]; str_simpl; [done..|]. by rewrite IH. Qed.

Lemma str_length_app a b : String.length (a +:+ b) = String.length a + String.length b.
Proof. induction a as [|c a IH]; str_simpl; [done|]. by rewrite IH. Qed.

Lemma str_app_assoc (a b c : string) : ((a +:+ b) +:+ c = a +:+ (b +:+ c))%string.
Proof. induction a as [|x a IH]; str_simpl; [done|]. by rewrite IH. Qed.

Lemma str_app_nil_r (a : string) : (a +:+ "" = a)%string.
Proof. induction a as [|x a IH]; str_simpl; [done|]. by rewrite IH. Qed.

Lemma str_drop_app a b : str_drop (String.length a) (a +:+ b) = b.
Proof. induction a as [|c a IH]; str_simpl; [done|]. apply IH. Qed.

Lemma str_take_app a b : str_take (String.length a) (a +:+ b) = a.
Proof. induction a as [|c a IH]; str_simpl; [by destruct b|]. by rewrite IH. Qed.

Lemma str_length_drop n s : String.length (str_drop n s) = String.length s - n.
Proof. revert s. induction n as [|n IH]; intros [|c s]; str_simpl; [done..|]. apply IH. Qed.

Lemma str_prefix_app a b : String.prefix a (a +:+ b) = true.
Proof.
  induction a as [|c a IH]; str_simpl; [by destruct b|].
  destruct (Ascii.ascii_dec c c); [done|congruence].
Qed.

Lemma str_prefix_split a s : String.prefix a s = true → s = (a +:+ str_drop (String.length a) s)%string.
Proof.
  revert s. induction a as [|c a IH]; intros [|d s]; str_simpl; try done.
  destruct (Ascii.ascii_dec c d) as [->|]; [|done]. intros H. by rewrite <- IH.
Qed.

Lemma strip_prefix_Some p s t : strip_prefix p s = Some t ↔ s = (p +:+ t)%string.
Proof.
  unfold strip_prefix. split.
  - destruct (String.prefix p s) eqn:Hp; [|done]. intros [= <-]. by apply str_prefix_split.
  - intros ->. by rewrite str_prefix_app, str_drop_app.
Qed.

(** What [str::find] returns: the text before the match, the match, the rest. *)
Lemma str_find_Some pat s i :
  str_find pat s = Some i →
  s = (str_take i s +:+ pat +:+ str_drop (i + String.length pat) s)%string
  ∧ String.length (str_take i s) = i.
Proof.
  revert i. induction s as [|c s IH]; intros i; cbn [str_find].
  - destruct (String.prefix pat "") eqn:Hp; [|done]. intros [= <-].
    apply str_prefix_split in Hp. by destruct pat.
  - destruct (String.prefix pat (String c s)) eqn:Hp.
    + intros [= <-]. split; [|done]. by apply str_prefix_split in Hp.
    + destruct (str_find pat s) as [j|] eqn:Hj; [|done]. intros [= <-].
      destruct (IH j eq_refl) as [Hs Hl]. str_simpl. rewrite <- Hs, Hl. done.
Qed.

(** ... and that it is the first one. *)
Lemma str_find_first pat s i j :
  str_find pat s = Some i → j < i → String.prefix pat (str_drop j s) = false.
Proof.
  revert i j. induction s as [|c s IH]; intros i j; cbn [str_find].
  - destruct (String.prefix pat ""); [|done]. intros [= <-]. lia.
  - destruct (String.prefix pat (String c s)) eqn:Hp; [intros [= <-]; lia|].
    destruct (str_find pat s) as [k|] eqn:Hk; [|done]. intros [= <-] Hj.
    destruct j as [|j]; [done|]. str_simpl. apply (IH k); [done|lia].
Qed.

Lemma str_find_None pat s j :
  str_find pat s = None → String.prefix pat (str_drop j s) = true → False.
Proof.
  revert j. induction s as [|c s IH]; intros j; cbn [str_find].
  - destruct (String.prefix pat "") eqn:Hp; [done|]. destruct j; str_simpl; congruence.
  - destruct (String.prefix pat (String c s)) eqn:Hp; [done|].
    destruct (str_find pat s) eqn:Hf; [done|]. intros _. destruct j as [|j]; str_simpl; [congruence|].
    by apply IH.
Qed.

Lemma split_once_Some pat s a b :
  split_once pat s = Some (a, b) → s = (a +:+ pat +:+ b)%string.
Proof.
  unfold split_once. destruct (str_find pat s) as [i|] eqn:Hf; [|done].
  intros [= <- <-]. apply (str_find_Some _ _ _ Hf).
Qed.

Example trim_example : trim "  name	 " = "name"%string.
Proof. reflexivity. Qed.
Example utf8_example : from_utf8 (byte_str [226; 130; 172]%N) = Some (byte_str [226; 130; 172]%N)
  ∧ from_utf8 (byte_str [226; 130]%N) = None ∧ from_utf8 (byte_str [237; 160; 128]%N) = None.
Proof. done. Qed.
