(* ===== verification/Time.v ===== *)
(** * Instants, time zones and their laws

    [DateTime<Utc>] is a number of microseconds since the epoch, the resolution
    of a PostgreSQL [timestamptz]; where the code reads one from text it is a number of
    nanoseconds, which [timestamptz] rounds when it is bound to a statement. The time-zone database ([chrono], [chrono-tz])
    is not part of the repository: it is the interface [TimeZone], and what the
    code relies on is stated as the laws [TimeZoneLaws]. [Shift] is an
    implementation with one clock change, used to evaluate the model. *)

From S2P Require Import Prelude.
From stdpp Require Import base strings.
From Stdlib Require Import ZArith Lia.

Local Open Scope Z_scope.

Definition millisecond : Z := 1000.
Definition second : Z := 1000 * millisecond.
Definition minute : Z := 60 * second.
Definition hour : Z := 60 * minute.
Definition day : Z := 24 * hour.

(** Linear arithmetic on durations. *)
Ltac time_lia := unfold day, hour, minute, second, millisecond in *; lia.

(** The first and the last [DateTime<Utc>] of [chrono], in the years -262143 and 262142;
    [DateTime + Duration] panics where it would leave them. *)
Definition DATETIME_MIN : Z := -96465292 * day.
Definition DATETIME_MAX : Z := 95026237 * day - 1.
Definition checked_add_signed (t d : Z) : option Z :=
  let t := t + d in if (DATETIME_MIN <=? t) && (t <=? DATETIME_MAX) then Some t else None.

(** A [DateTime<Utc>] has nanoseconds and a [timestamptz] microseconds from the year 2000
    on: binding one to a statement drops what is left over, towards that epoch. *)
Definition PG_EPOCH : Z := 946684800 * second.
Definition timestamptz (nanos : Z) : Z := PG_EPOCH + Z.quot (nanos - PG_EPOCH * 1000) 1000.
Lemma timestamptz_mono a b : a <= b → timestamptz a <= timestamptz b.
Proof. intros H. unfold timestamptz. apply Z.add_le_mono_l, Z.quot_le_mono; lia. Qed.
Lemma timestamptz_micros t : timestamptz (t * 1000) = t.
Proof. unfold timestamptz. rewrite <-Z.mul_sub_distr_r, Z.quot_mul by lia. lia. Qed.

(** [DateTime::duration_trunc]. *)
Definition duration_trunc (t d : Z) : Z := t - t mod d.

(** A [NaiveDateTime] counts microseconds of local wall-clock time; its date
    is a number of days and its time lies within one day. *)
Definition date_naive (l : Z) : Z := l / day.
Definition time_of (l : Z) : Z := l mod day.
Definition and_time (date time : Z) : Z := date * day + time.

Inductive LocalResult : Type :=
| LNone
| LSingle (u : Z)
| LAmbiguous (earliest latest : Z).

Definition earliest (r : LocalResult) : option Z :=
  match r with
  | LNone => None
  | LSingle u => Some u
  | LAmbiguous u _ => Some u
  end.

Class TimeZone (Tz : Type) := {
  tz_from_str : string → option Tz;
  tz_utc : Tz;
  to_local : Tz → Z → Z;
  from_local : Tz → Z → LocalResult;
}.

(** What [chrono] documents of [from_local_datetime]: every instant it returns
    shows that wall-clock time, and an instant is among those returned for its
    own wall-clock time, the earlier one first. *)
Class TimeZoneLaws (Tz : Type) `{!TimeZone Tz} : Prop := {
  from_local_sound tz l u : earliest (from_local tz l) = Some u → to_local tz u = l;
  from_local_ambiguous tz l a b :
    from_local tz l = LAmbiguous a b → a < b ∧ to_local tz a = l ∧ to_local tz b = l;
  from_local_complete tz u :
    from_local tz (to_local tz u) = LSingle u
    ∨ ∃ v, from_local tz (to_local tz u) = LAmbiguous u v
           ∨ from_local tz (to_local tz u) = LAmbiguous v u;
  to_local_utc u : to_local tz_utc u = u;
}.

(** A zone whose clock is never set back. *)
Definition never_set_back {Tz} `{!TimeZone Tz} (tz : Tz) : Prop :=
  ∀ u v, u <= v → to_local tz u <= to_local tz v.

Section Laws.
Context {Tz : Type} `{!TimeZone Tz} `{!TimeZoneLaws Tz}.

Lemma from_local_exists tz u : from_local tz (to_local tz u) ≠ LNone.
Proof. destruct (from_local_complete tz u) as [->|[v [->| ->]]]; done. Qed.

(** The earliest instant with a wall-clock time is at or before any other. *)
Lemma earliest_le tz l u v :
  earliest (from_local tz l) = Some u → to_local tz v = l → u <= v.
Proof.
  intros Hu <-. destruct (from_local_complete tz v) as [H|[x [H|H]]];
    rewrite H in Hu; simplify_eq/=; try lia.
  destruct (from_local_ambiguous tz _ _ _ H). lia.
Qed.
End Laws.

Lemma time_of_bound l : 0 <= time_of l < day.
Proof. unfold time_of. apply Z.mod_pos_bound. reflexivity. Qed.

Lemma and_time_date_time l : and_time (date_naive l) (time_of l) = l.
Proof.
  unfold and_time, date_naive, time_of.
  rewrite (Z.div_mod l day) at 3; [apply Z.add_cancel_r, Z.mul_comm|discriminate].
Qed.

Lemma duration_trunc_bound t d : 0 < d → duration_trunc t d <= t < duration_trunc t d + d.
Proof. intros Hd. unfold duration_trunc. pose proof (Z.mod_pos_bound t d Hd). lia. Qed.

(** ** A zone with one clock change *)

(** Local time is [before] ahead of UTC until the instant [at_], and [after]
    ahead of it from then on. *)
Record Shift : Type := { before_ : Z; at_ : Z; after_ : Z }.

Definition shift_to_local (z : Shift) (u : Z) : Z :=
  u + (if u <? at_ z then before_ z else after_ z).

Definition shift_from_local (z : Shift) (l : Z) : LocalResult :=
  let u1 := l - before_ z in
  let u2 := l - after_ z in
  match (u1 <? at_ z), (at_ z <=? u2) with
  | true, true => LAmbiguous u1 u2
  | true, false => LSingle u1
  | false, true => LSingle u2
  | false, false => LNone
  end.

Definition utc_shift : Shift := {| before_ := 0; at_ := 0; after_ := 0 |}.

(** New York around the two clock changes of 2026: 8 March 07:00 UTC and
    1 November 06:00 UTC. *)
Definition new_york_spring : Shift :=
  {| before_ := -5 * hour; at_ := 1772953200 * second; after_ := -4 * hour |}.
Definition new_york_fall : Shift :=
  {| before_ := -4 * hour; at_ := 1793512800 * second; after_ := -5 * hour |}.
(** Santiago on 5 September 2026, when midnight does not exist. *)
Definition santiago_spring : Shift :=
  {| before_ := -4 * hour; at_ := 1788667200 * second; after_ := -3 * hour |}.

Definition shift_from_str (s : string) : option Shift :=
  if decide (s = "UTC"%string) then Some utc_shift
  else if decide (s = "NewYork/Spring"%string) then Some new_york_spring
  else if decide (s = "NewYork/Fall"%string) then Some new_york_fall
  else if decide (s = "Santiago/Spring"%string) then Some santiago_spring
  else None.

#[export] Instance Shift_TimeZone : TimeZone Shift := {
  tz_from_str := shift_from_str;
  tz_utc := utc_shift;
  to_local := shift_to_local;
  from_local := shift_from_local;
}.

Ltac shift_cases :=
  unfold shift_from_local, shift_to_local in *; simpl in *;
  repeat match goal with
  | H : context [?a <? ?b] |- _ => destruct (Z.ltb_spec a b); simplify_eq/=
  | H : context [?a <=? ?b] |- _ => destruct (Z.leb_spec a b); simplify_eq/=
  | |- context [?a <? ?b] => destruct (Z.ltb_spec a b); simplify_eq/=
  | |- context [?a <=? ?b] => destruct (Z.leb_spec a b); simplify_eq/=
  end.

#[export] Instance Shift_TimeZoneLaws : TimeZoneLaws Shift.
Proof.
  split; simpl.
  - intros tz l u H. shift_cases; lia.
  - intros tz l a b H. shift_cases; lia.
  - intros tz u. shift_cases; try lia;
      repeat first [left; f_equal; lia | right];
      first [ exists (u + before_ tz - after_ tz); left; f_equal; lia
            | exists (u + after_ tz - before_ tz); right; f_equal; lia ].
  - intros u. shift_cases; lia.
Qed.
