(* ===== verification/Schema.v ===== *)
(** * Rows and tables

    The row types of the [model.rs] files and the tables of the tenant database
    (and of the control database where an operation writes both), keyed by
    their primary keys. A [MkDb] is the whole persistent state; [on_<table>]
    updates one table. *)

From S2P Require Import Prelude.
From stdpp Require Import base gmap strings list.
From Stdlib Require Import ZArith.

Abbreviation DateTime := Z (only parsing).
Abbreviation Uuid := N (only parsing).
Abbreviation Bytes := string (only parsing).

(** ** String constants of the schema *)

Module class.
Definition TRANSACTIONAL : string := "transactional".
Definition MARKETING : string := "marketing".
Definition AUTH : string := "auth".
End class.

Module channel.
Definition SMS : string := "sms".
Definition EMAIL : string := "email".
Definition WHATSAPP : string := "whatsapp".
End channel.

Module scope.
Definition GLOBAL : string := "global".
Definition CHANNEL : string := "channel".
Definition PRODUCER : string := "producer".
Definition PRODUCER_CHANNEL : string := "producer_channel".
Definition CAMPAIGN : string := "campaign".
End scope.

Module platform_scope.
Definition PLATFORM : string := "platform".
Definition TENANT : string := "tenant".
End platform_scope.

Module on_queued.
Definition HOLD : string := "hold".
Definition DISCARD : string := "discard".
End on_queued.

Module enforcement.
Definition HARD : string := "hard".
Definition SOFT : string := "soft".
End enforcement.

Module granularity.
Definition MINUTE : string := "minute".
Definition DAY : string := "day".
End granularity.

Module verification_mode.
Definition ENFORCE : string := "enforce".
Definition OBSERVE : string := "observe".
End verification_mode.

(** ** The ledger and its queue *)

(** [dispatcher::model::ClaimedOutbox], which mirrors the [outbox] table. *)
Record Outbox : Type := MkOutbox {
  ob_id : Uuid;
  ob_created_at : DateTime;
  ob_channel : string;
  ob_class : string;
  ob_priority : Z;
  ob_customer_id : Uuid;
  ob_address_id : Uuid;
  ob_producer_id : Uuid;
  ob_campaign_id : option string;
  ob_next_attempt_at : DateTime;
  ob_expires_at : option DateTime;
  ob_cancelled_at : option DateTime;
  ob_attempts : Z;
  ob_leased_until : option DateTime;
}.

Definition ob_set_lease (l : option DateTime) (r : Outbox) : Outbox :=
  MkOutbox (ob_id r) (ob_created_at r) (ob_channel r) (ob_class r) (ob_priority r)
    (ob_customer_id r) (ob_address_id r) (ob_producer_id r) (ob_campaign_id r)
    (ob_next_attempt_at r) (ob_expires_at r) (ob_cancelled_at r) (ob_attempts r) l.
Definition ob_set_attempts (n : Z) (r : Outbox) : Outbox :=
  MkOutbox (ob_id r) (ob_created_at r) (ob_channel r) (ob_class r) (ob_priority r)
    (ob_customer_id r) (ob_address_id r) (ob_producer_id r) (ob_campaign_id r)
    (ob_next_attempt_at r) (ob_expires_at r) (ob_cancelled_at r) n (ob_leased_until r).
Definition ob_set_next (t : DateTime) (r : Outbox) : Outbox :=
  MkOutbox (ob_id r) (ob_created_at r) (ob_channel r) (ob_class r) (ob_priority r)
    (ob_customer_id r) (ob_address_id r) (ob_producer_id r) (ob_campaign_id r)
    t (ob_expires_at r) (ob_cancelled_at r) (ob_attempts r) (ob_leased_until r).
Definition ob_set_cancelled (c : option DateTime) (r : Outbox) : Outbox :=
  MkOutbox (ob_id r) (ob_created_at r) (ob_channel r) (ob_class r) (ob_priority r)
    (ob_customer_id r) (ob_address_id r) (ob_producer_id r) (ob_campaign_id r)
    (ob_next_attempt_at r) (ob_expires_at r) c (ob_attempts r) (ob_leased_until r).

(** A [comms_request] row; the primary key is [(created_at, id)]. *)
Record CommsRequest : Type := MkRequest {
  cr_tenant_id : Uuid;
  cr_customer_id : Uuid;
  cr_channel : string;
  cr_class : string;
  cr_template_id : string;
  cr_template_version : Z;
  cr_campaign_id : option string;
  cr_destination_hmac : Bytes;
  cr_destination_ciphertext : Bytes;
  cr_payload_ciphertext : option Bytes;
  cr_producer_id : Uuid;
  cr_scheduled_for : option DateTime;
  cr_expires_at : option DateTime;
  cr_final_status : option string;
  cr_finalized_at : option DateTime;
}.

Definition cr_finalize (status : string) (at_ : DateTime) (r : CommsRequest) : CommsRequest :=
  MkRequest (cr_tenant_id r) (cr_customer_id r) (cr_channel r) (cr_class r) (cr_template_id r)
    (cr_template_version r) (cr_campaign_id r) (cr_destination_hmac r)
    (cr_destination_ciphertext r) (cr_payload_ciphertext r) (cr_producer_id r)
    (cr_scheduled_for r) (cr_expires_at r) (Some status) (Some at_).

(** [(occurred_at, comms_request_id, event_type, provider_ref)], unique. *)
Abbreviation EventKey := (Z * N * string * string)%type (only parsing).

Record CommsEvent : Type := MkEvent {
  ce_customer_id : Uuid;
  ce_provider_status : option string;
  ce_provider_payload_ciphertext : option Bytes;
}.

Record Idempotency : Type := MkIdempotency {
  id_comms_request_id : Uuid;
  id_expires_at : DateTime;
}.

Record Suppression : Type := MkSuppression {
  su_reason : string;
  su_added_at : DateTime;
  su_review_at : DateTime;
}.

Record Consent : Type := MkConsent {
  co_opted_in : bool;
  co_source : string;
  co_updated_at : DateTime;
}.

(** ** Customers *)

Record Customer : Type := MkCustomer {
  cu_id : Uuid;
  cu_locale : string;
  cu_timezone : string;
  cu_provisional : bool;
  cu_source_system : option string;
  cu_source_updated_at : option DateTime;
  cu_created_at : DateTime;
}.

Record CustomerAddress : Type := MkAddress {
  ca_id : Uuid;
  ca_customer_id : Uuid;
  ca_kind : string;
  ca_value_ciphertext : Bytes;
  ca_value_hmac : Bytes;
  ca_rank : Z;
  ca_label : option string;
  ca_verified_at : option DateTime;
  ca_active_from : DateTime;
  ca_active_to : option DateTime;
  ca_source_updated_at : DateTime;
}.

Record CustomerDek : Type := MkCustomerDek {
  dk_wrapped_dek : string;
  dk_created_at : DateTime;
  dk_shredded_at : option DateTime;
}.

(** ** Kill switches *)

Record KillSwitch : Type := MkSwitch {
  ks_id : Uuid;
  ks_scope : string;
  ks_scope_key : option string;
  ks_on_queued : string;
  ks_engaged_by : string;
  ks_engaged_at : DateTime;
  ks_reason : string;
  ks_released_by : option string;
  ks_released_at : option DateTime;
}.

Record PlatformKillSwitch : Type := MkPlatformSwitch {
  pk_id : Uuid;
  pk_scope : string;
  pk_tenant_id : option Uuid;
  pk_engaged_by : string;
  pk_engaged_at : DateTime;
  pk_reason : string;
  pk_released_by : option string;
  pk_released_at : option DateTime;
}.

(** ** Producer quotas *)

(** [(producer_id, channel, class)]. *)
Abbreviation QuotaKey := (N * string * string)%type (only parsing).
(** [(producer_id, channel, class, granularity, window_start)]. *)
Abbreviation UsageKey := (N * string * string * string * Z)%type (only parsing).

Record ProducerQuota : Type := MkQuota {
  pq_per_minute : option Z;
  pq_per_day : option Z;
  pq_enforcement : string;
}.

Record ProducerQuotaOverride : Type := MkOverride {
  po_producer_id : Uuid;
  po_channel : string;
  po_class : string;
  po_per_day : Z;
  po_valid_from : DateTime;
  po_valid_to : DateTime;
  po_approved_by : string;
  po_reason : string;
}.

Record UsageCount : Type := MkUsage { us_sent : Z; us_blocked : Z }.

(** ** Delivery receipts *)

Record OrphanEvent : Type := MkOrphan {
  oe_received_at : DateTime;
  oe_provider : string;
  oe_provider_ref : string;
  oe_occurred_at : DateTime;
  oe_event_type : string;
  oe_provider_status : option string;
  oe_provider_payload_raw : option string;
  oe_reconcile_attempts : Z;
}.

Record StagingReceipt : Type := MkStaging {
  st_received_at : DateTime;
  st_provider : string;
  st_provider_ref : string;
  st_occurred_at : DateTime;
  st_event_type : string;
  st_provider_status : option string;
  st_provider_payload_raw : string;
}.

Record Template : Type := MkTemplate {
  te_channel : string;
  te_body : string;
  te_approved_by : string;
  te_approved_at : DateTime;
}.

(** A [platform_audit] row; [detail] is the JSON object the operation records,
    its members in order and [None] for [null]. *)
Record AuditRow : Type := MkAudit {
  au_actor : string;
  au_action : string;
  au_tenant_id : option Uuid;
  au_detail : list (string * option string);
  au_at : DateTime;
}.

(** ** The database *)

Record Db : Type := MkDb {
  db_outbox : gmap Uuid Outbox;
  db_request : gmap (DateTime * Uuid) CommsRequest;
  db_event : gmap EventKey CommsEvent;
  db_idempotency : gmap (Uuid * string) Idempotency;
  db_suppression : gmap string Suppression;
  db_consent : gmap (Uuid * string) Consent;
  db_address : gmap Uuid CustomerAddress;
  db_customer : gmap Uuid Customer;
  db_external_id : gmap (string * string) Uuid;
  db_alias : gmap Uuid Uuid;
  db_dek : gmap Uuid CustomerDek;
  db_kill_switch : gmap Uuid KillSwitch;
  db_quota : gmap QuotaKey ProducerQuota;
  db_override : gmap Uuid ProducerQuotaOverride;
  db_usage : gmap UsageKey UsageCount;
  db_orphan : gmap Uuid OrphanEvent;
  db_staging : gmap Uuid StagingReceipt;
  db_template : gmap (string * Z * string) Template;
  db_platform_switch : gmap Uuid PlatformKillSwitch;
  db_audit : list AuditRow;
}.

Definition empty_db : Db :=
  MkDb ∅ ∅ ∅ ∅ ∅ ∅ ∅ ∅ ∅ ∅ ∅ ∅ ∅ ∅ ∅ ∅ ∅ ∅ ∅ [].

Definition on_outbox (f : gmap Uuid Outbox → gmap Uuid Outbox) (d : Db) : Db :=
  MkDb
       (f (db_outbox d)) (db_request d) (db_event d) (db_idempotency d) (db_suppression d)
       (db_consent d) (db_address d) (db_customer d) (db_external_id d) (db_alias d)
       (db_dek d) (db_kill_switch d) (db_quota d) (db_override d) (db_usage d) (db_orphan
       d) (db_staging d) (db_template d) (db_platform_switch d) (db_audit d).
Definition on_request (f : gmap (DateTime * Uuid) CommsRequest → gmap (DateTime * Uuid) CommsRequest) (d : Db) : Db :=
  MkDb
       (db_outbox d) (f (db_request d)) (db_event d) (db_idempotency d) (db_suppression d)
       (db_consent d) (db_address d) (db_customer d) (db_external_id d) (db_alias d)
       (db_dek d) (db_kill_switch d) (db_quota d) (db_override d) (db_usage d) (db_orphan
       d) (db_staging d) (db_template d) (db_platform_switch d) (db_audit d).
Definition on_event (f : gmap EventKey CommsEvent → gmap EventKey CommsEvent) (d : Db) : Db :=
  MkDb
       (db_outbox d) (db_request d) (f (db_event d)) (db_idempotency d) (db_suppression d)
       (db_consent d) (db_address d) (db_customer d) (db_external_id d) (db_alias d)
       (db_dek d) (db_kill_switch d) (db_quota d) (db_override d) (db_usage d) (db_orphan
       d) (db_staging d) (db_template d) (db_platform_switch d) (db_audit d).
Definition on_idempotency (f : gmap (Uuid * string) Idempotency → gmap (Uuid * string) Idempotency) (d : Db) : Db :=
  MkDb
       (db_outbox d) (db_request d) (db_event d) (f (db_idempotency d)) (db_suppression d)
       (db_consent d) (db_address d) (db_customer d) (db_external_id d) (db_alias d)
       (db_dek d) (db_kill_switch d) (db_quota d) (db_override d) (db_usage d) (db_orphan
       d) (db_staging d) (db_template d) (db_platform_switch d) (db_audit d).
Definition on_suppression (f : gmap string Suppression → gmap string Suppression) (d : Db) : Db :=
  MkDb
       (db_outbox d) (db_request d) (db_event d) (db_idempotency d) (f (db_suppression d))
       (db_consent d) (db_address d) (db_customer d) (db_external_id d) (db_alias d)
       (db_dek d) (db_kill_switch d) (db_quota d) (db_override d) (db_usage d) (db_orphan
       d) (db_staging d) (db_template d) (db_platform_switch d) (db_audit d).
Definition on_consent (f : gmap (Uuid * string) Consent → gmap (Uuid * string) Consent) (d : Db) : Db :=
  MkDb
       (db_outbox d) (db_request d) (db_event d) (db_idempotency d) (db_suppression d) (f
       (db_consent d)) (db_address d) (db_customer d) (db_external_id d) (db_alias d)
       (db_dek d) (db_kill_switch d) (db_quota d) (db_override d) (db_usage d) (db_orphan
       d) (db_staging d) (db_template d) (db_platform_switch d) (db_audit d).
Definition on_address (f : gmap Uuid CustomerAddress → gmap Uuid CustomerAddress) (d : Db) : Db :=
  MkDb
       (db_outbox d) (db_request d) (db_event d) (db_idempotency d) (db_suppression d)
       (db_consent d) (f (db_address d)) (db_customer d) (db_external_id d) (db_alias d)
       (db_dek d) (db_kill_switch d) (db_quota d) (db_override d) (db_usage d) (db_orphan
       d) (db_staging d) (db_template d) (db_platform_switch d) (db_audit d).
Definition on_customer (f : gmap Uuid Customer → gmap Uuid Customer) (d : Db) : Db :=
  MkDb
       (db_outbox d) (db_request d) (db_event d) (db_idempotency d) (db_suppression d)
       (db_consent d) (db_address d) (f (db_customer d)) (db_external_id d) (db_alias d)
       (db_dek d) (db_kill_switch d) (db_quota d) (db_override d) (db_usage d) (db_orphan
       d) (db_staging d) (db_template d) (db_platform_switch d) (db_audit d).
Definition on_external_id (f : gmap (string * string) Uuid → gmap (string * string) Uuid) (d : Db) : Db :=
  MkDb
       (db_outbox d) (db_request d) (db_event d) (db_idempotency d) (db_suppression d)
       (db_consent d) (db_address d) (db_customer d) (f (db_external_id d)) (db_alias d)
       (db_dek d) (db_kill_switch d) (db_quota d) (db_override d) (db_usage d) (db_orphan
       d) (db_staging d) (db_template d) (db_platform_switch d) (db_audit d).
Definition on_alias (f : gmap Uuid Uuid → gmap Uuid Uuid) (d : Db) : Db :=
  MkDb
       (db_outbox d) (db_request d) (db_event d) (db_idempotency d) (db_suppression d)
       (db_consent d) (db_address d) (db_customer d) (db_external_id d) (f (db_alias d))
       (db_dek d) (db_kill_switch d) (db_quota d) (db_override d) (db_usage d) (db_orphan
       d) (db_staging d) (db_template d) (db_platform_switch d) (db_audit d).
Definition on_dek (f : gmap Uuid CustomerDek → gmap Uuid CustomerDek) (d : Db) : Db :=
  MkDb
       (db_outbox d) (db_request d) (db_event d) (db_idempotency d) (db_suppression d)
       (db_consent d) (db_address d) (db_customer d) (db_external_id d) (db_alias d) (f
       (db_dek d)) (db_kill_switch d) (db_quota d) (db_override d) (db_usage d) (db_orphan
       d) (db_staging d) (db_template d) (db_platform_switch d) (db_audit d).
Definition on_kill_switch (f : gmap Uuid KillSwitch → gmap Uuid KillSwitch) (d : Db) : Db :=
  MkDb
       (db_outbox d) (db_request d) (db_event d) (db_idempotency d) (db_suppression d)
       (db_consent d) (db_address d) (db_customer d) (db_external_id d) (db_alias d)
       (db_dek d) (f (db_kill_switch d)) (db_quota d) (db_override d) (db_usage d)
       (db_orphan d) (db_staging d) (db_template d) (db_platform_switch d) (db_audit d).
Definition on_quota (f : gmap QuotaKey ProducerQuota → gmap QuotaKey ProducerQuota) (d : Db) : Db :=
  MkDb
       (db_outbox d) (db_request d) (db_event d) (db_idempotency d) (db_suppression d)
       (db_consent d) (db_address d) (db_customer d) (db_external_id d) (db_alias d)
       (db_dek d) (db_kill_switch d) (f (db_quota d)) (db_override d) (db_usage d)
       (db_orphan d) (db_staging d) (db_template d) (db_platform_switch d) (db_audit d).
Definition on_override (f : gmap Uuid ProducerQuotaOverride → gmap Uuid ProducerQuotaOverride) (d : Db) : Db :=
  MkDb
       (db_outbox d) (db_request d) (db_event d) (db_idempotency d) (db_suppression d)
       (db_consent d) (db_address d) (db_customer d) (db_external_id d) (db_alias d)
       (db_dek d) (db_kill_switch d) (db_quota d) (f (db_override d)) (db_usage d)
       (db_orphan d) (db_staging d) (db_template d) (db_platform_switch d) (db_audit d).
Definition on_usage (f : gmap UsageKey UsageCount → gmap UsageKey UsageCount) (d : Db) : Db :=
  MkDb
       (db_outbox d) (db_request d) (db_event d) (db_idempotency d) (db_suppression d)
       (db_consent d) (db_address d) (db_customer d) (db_external_id d) (db_alias d)
       (db_dek d) (db_kill_switch d) (db_quota d) (db_override d) (f (db_usage d))
       (db_orphan d) (db_staging d) (db_template d) (db_platform_switch d) (db_audit d).
Definition on_orphan (f : gmap Uuid OrphanEvent → gmap Uuid OrphanEvent) (d : Db) : Db :=
  MkDb
       (db_outbox d) (db_request d) (db_event d) (db_idempotency d) (db_suppression d)
       (db_consent d) (db_address d) (db_customer d) (db_external_id d) (db_alias d)
       (db_dek d) (db_kill_switch d) (db_quota d) (db_override d) (db_usage d) (f
       (db_orphan d)) (db_staging d) (db_template d) (db_platform_switch d) (db_audit d).
Definition on_staging (f : gmap Uuid StagingReceipt → gmap Uuid StagingReceipt) (d : Db) : Db :=
  MkDb
       (db_outbox d) (db_request d) (db_event d) (db_idempotency d) (db_suppression d)
       (db_consent d) (db_address d) (db_customer d) (db_external_id d) (db_alias d)
       (db_dek d) (db_kill_switch d) (db_quota d) (db_override d) (db_usage d) (db_orphan
       d) (f (db_staging d)) (db_template d) (db_platform_switch d) (db_audit d).
Definition on_template (f : gmap (string * Z * string) Template → gmap (string * Z * string) Template) (d : Db) : Db :=
  MkDb
       (db_outbox d) (db_request d) (db_event d) (db_idempotency d) (db_suppression d)
       (db_consent d) (db_address d) (db_customer d) (db_external_id d) (db_alias d)
       (db_dek d) (db_kill_switch d) (db_quota d) (db_override d) (db_usage d) (db_orphan
       d) (db_staging d) (f (db_template d)) (db_platform_switch d) (db_audit d).
Definition on_platform_switch (f : gmap Uuid PlatformKillSwitch → gmap Uuid PlatformKillSwitch) (d : Db) : Db :=
  MkDb
       (db_outbox d) (db_request d) (db_event d) (db_idempotency d) (db_suppression d)
       (db_consent d) (db_address d) (db_customer d) (db_external_id d) (db_alias d)
       (db_dek d) (db_kill_switch d) (db_quota d) (db_override d) (db_usage d) (db_orphan
       d) (db_staging d) (db_template d) (f (db_platform_switch d)) (db_audit d).
Definition on_audit (f : list AuditRow → list AuditRow) (d : Db) : Db :=
  MkDb
       (db_outbox d) (db_request d) (db_event d) (db_idempotency d) (db_suppression d)
       (db_consent d) (db_address d) (db_customer d) (db_external_id d) (db_alias d)
       (db_dek d) (db_kill_switch d) (db_quota d) (db_override d) (db_usage d) (db_orphan
       d) (db_staging d) (db_template d) (db_platform_switch d) (f (db_audit d)).

#[export] Instance Outbox_eq_dec : EqDecision Outbox.
Proof. solve_decision. Defined.
#[export] Instance KillSwitch_eq_dec : EqDecision KillSwitch.
Proof. solve_decision. Defined.
#[export] Instance PlatformKillSwitch_eq_dec : EqDecision PlatformKillSwitch.
Proof. solve_decision. Defined.
#[export] Instance CommsRequest_eq_dec : EqDecision CommsRequest.
Proof. solve_decision. Defined.

(** What a provider call looks like from outside: channel, destination, body. *)
Record Call : Type := MkCall { call_channel : string; call_destination : string; call_body : string }.

Abbreviation W := (world Db Call).
Abbreviation Eff := (M Db Call).
