(* ===== verification/KillSwitch.v ===== *)
(** * Kill switches

    Models [src/kill_switch] and the row shape of [src/platform_kill_switch]:
    the scope of a switch, the exclusion the claim loop derives from a set of
    switches, the in-process cache with its refresh, the per-request check of
    the ingest service, and the engage/release operations. *)

From S2P Require Import Prelude RustStd Schema.
From stdpp Require Import base gmap strings list sorting.
From Stdlib Require Import ZArith Lia.

Local Open Scope effect_scope.

(** [Uuid::parse_str], [Uuid::to_string] and [Uuid::as_bytes] of the [uuid] crate. *)
Class UuidText := {
  parse_str : string → option N;
  uuid_str : N → string;
  uuid_bytes : N → string;
}.

(** Decides every [bool_decide] and simplifies the boolean connectives. *)
Ltac bool_cases :=
  repeat case_bool_decide; simplify_eq/=;
  rewrite ?orb_false_r, ?orb_true_r, ?andb_true_r, ?andb_false_r; simpl;
  try done; try congruence; try naive_solver.

Lemma bool_decide_snoc {A} `{EqDecision A} (x y : A) (l : list A) :
  bool_decide (x ∉ (l ++ [y])) = bool_decide (x ∉ l) && negb (bool_decide (y = x)).
Proof.
  assert ((x ∉ (l ++ [y])) ↔ (x ∉ l) ∧ (y ≠ x)) as Hiff.
  { rewrite elem_of_app, list_elem_of_singleton. intuition congruence. }
  rewrite (bool_decide_ext _ _ Hiff), bool_decide_and.
  by rewrite (bool_decide_not (y = x)).
Qed.

Definition map_values {K V} `{Countable K} (m : gmap K V) : list V := (map_to_list m).*2.

Section Switch.
Context `{!UuidText}.

(** ** The scope of one switch *)

Definition split_producer_channel (scope_key : string) : option (N * string) :=
  match split_once ":" scope_key with
  | None => None
  | Some (producer, ch) =>
      match parse_str producer with
      | None => None
      | Some id => Some (id, ch)
      end
  end.

Definition is_active (s : KillSwitch) : bool := bool_decide (ks_released_at s = None).

Definition producer_id (s : KillSwitch) : option N :=
  match ks_scope_key s with Some k => parse_str k | None => None end.

Definition producer_channel_parts (s : KillSwitch) : option (N * string) :=
  match ks_scope_key s with Some k => split_producer_channel k | None => None end.

Definition matches (s : KillSwitch) (ch : string) (producer : N)
    (campaign : option string) : bool :=
  if decide (ks_scope s = scope.GLOBAL) then true
  else if decide (ks_scope s = scope.CHANNEL) then
    bool_decide (ks_scope_key s = Some ch)
  else if decide (ks_scope s = scope.PRODUCER) then
    bool_decide (producer_id s = Some producer)
  else if decide (ks_scope s = scope.PRODUCER_CHANNEL) then
    match producer_channel_parts s with
    | Some (id, c) => bool_decide (id = producer) && bool_decide (c = ch)
    | None => false
    end
  else if decide (ks_scope s = scope.CAMPAIGN) then
    bool_decide (is_Some campaign) && bool_decide (ks_scope_key s = campaign)
  else false.

(** [matches] on the columns of an outbox row. *)
Definition matches_row (s : KillSwitch) (r : Outbox) : bool :=
  matches s (ob_channel r) (ob_producer_id r) (ob_campaign_id r).

(** ** The claim exclusion of one channel *)

Record ChannelExclusion : Type := MkExclusion {
  blocked_entirely : bool;
  blocked_producer_ids : list N;
  blocked_campaign_ids : list string;
}.

Definition no_exclusion : ChannelExclusion := MkExclusion false [] [].

Definition block_entirely (e : ChannelExclusion) : ChannelExclusion :=
  MkExclusion true (blocked_producer_ids e) (blocked_campaign_ids e).
Definition block_producer (id : N) (e : ChannelExclusion) : ChannelExclusion :=
  MkExclusion (blocked_entirely e) (blocked_producer_ids e ++ [id]) (blocked_campaign_ids e).
Definition block_campaign (c : string) (e : ChannelExclusion) : ChannelExclusion :=
  MkExclusion (blocked_entirely e) (blocked_producer_ids e) (blocked_campaign_ids e ++ [c]).

(** The body of the loop in [exclusion_for_channel]. *)
Definition exclude_one (ch : string) (e : ChannelExclusion) (s : KillSwitch) : ChannelExclusion :=
  if decide (ks_scope s = scope.GLOBAL) then block_entirely e
  else if decide (ks_scope s = scope.CHANNEL ∧ ks_scope_key s = Some ch) then block_entirely e
  else if decide (ks_scope s = scope.PRODUCER) then
    match producer_id s with Some id => block_producer id e | None => e end
  else if decide (ks_scope s = scope.PRODUCER_CHANNEL) then
    match producer_channel_parts s with
    | Some (id, c) => if decide (c = ch) then block_producer id e else e
    | None => e
    end
  else if decide (ks_scope s = scope.CAMPAIGN) then
    match ks_scope_key s with Some c => block_campaign c e | None => e end
  else e.

Definition exclusion_for_channel (switches : list KillSwitch) (ch : string) : ChannelExclusion :=
  fold_left (exclude_one ch) switches no_exclusion.

(** The part of the claim query's [WHERE] clause that an exclusion adds:
    [producer_id <> ALL(..) AND (campaign_id IS NULL OR campaign_id <> ALL(..))]. *)
Definition admits (e : ChannelExclusion) (r : Outbox) : bool :=
  bool_decide (ob_producer_id r ∉ blocked_producer_ids e) &&
  match ob_campaign_id r with
  | None => true
  | Some c => bool_decide (c ∉ blocked_campaign_ids e)
  end.

Definition excluded (e : ChannelExclusion) (r : Outbox) : bool :=
  blocked_entirely e || negb (admits e r).

Lemma excluded_none r : excluded no_exclusion r = false.
Proof. unfold excluded, admits; simpl. by destruct (ob_campaign_id r). Qed.

Lemma excluded_entirely e r : excluded (block_entirely e) r = true.
Proof. done. Qed.

Lemma excluded_producer id e r :
  excluded (block_producer id e) r = excluded e r || bool_decide (id = ob_producer_id r).
Proof.
  unfold excluded, admits; simpl. destruct (blocked_entirely e); [done|]; simpl.
  rewrite bool_decide_snoc. by destruct (ob_campaign_id r); bool_cases.
Qed.

Lemma excluded_campaign c e r :
  excluded (block_campaign c e) r = excluded e r || bool_decide (Some c = ob_campaign_id r).
Proof.
  unfold excluded, admits; simpl. destruct (blocked_entirely e); [done|]; simpl.
  destruct (ob_campaign_id r) as [c'|]; [|bool_cases].
  rewrite bool_decide_snoc. bool_cases.
Qed.

Lemma exclude_one_spec e s r :
  excluded (exclude_one (ob_channel r) e s) r = excluded e r || matches_row s r.
Proof.
  unfold exclude_one, matches_row, matches.
  destruct (decide (ks_scope s = scope.GLOBAL)) as [Hg|Hg]; [by rewrite orb_true_r|].
  destruct (decide (ks_scope s = scope.CHANNEL)) as [Hc|Hc].
  { destruct (decide (ks_scope s = scope.CHANNEL ∧ _)) as [[_ Hk]|Hk]; [|rewrite !decide_False by (rewrite Hc; discriminate)].
    - rewrite excluded_entirely. bool_cases.
    - bool_cases. }
  rewrite decide_False by naive_solver.
  destruct (decide (ks_scope s = scope.PRODUCER)) as [_|_].
  { destruct (producer_id s) as [id|]; rewrite ?excluded_producer; bool_cases. }
  destruct (decide (ks_scope s = scope.PRODUCER_CHANNEL)) as [_|_].
  { destruct (producer_channel_parts s) as [[id c]|]; [|bool_cases].
    case_decide; rewrite ?excluded_producer; bool_cases. }
  destruct (decide (ks_scope s = scope.CAMPAIGN)) as [_|_]; [|bool_cases].
  destruct (ks_scope_key s) as [c|], (ob_campaign_id r) as [c'|] eqn:Hr;
    rewrite ?excluded_campaign, ?Hr; bool_cases.
Qed.

Lemma exclusion_fold e switches r :
  excluded (fold_left (exclude_one (ob_channel r)) switches e) r
  = excluded e r || existsb (λ s, matches_row s r) switches.
Proof.
  revert e. induction switches as [|s ss IH]; intros e; simpl; [by rewrite orb_false_r|].
  rewrite IH, exclude_one_spec. by rewrite orb_assoc.
Qed.

(** A row is excluded exactly when one of the switches covers it. *)
Lemma excluded_existsb switches r :
  excluded (exclusion_for_channel switches (ob_channel r)) r
  = existsb (λ s, matches_row s r) switches.
Proof. unfold exclusion_for_channel. by rewrite exclusion_fold, excluded_none. Qed.

Lemma existsb_matches switches r :
  existsb (λ s, matches_row s r) switches = true ↔ ∃ s, s ∈ switches ∧ matches_row s r = true.
Proof.
  rewrite existsb_exists. by setoid_rewrite <- list_elem_of_In.
Qed.
End Switch.

(** ** Platform switches *)

(** [PlatformKillSwitch::applies_to]. *)
Definition applies_to (p : PlatformKillSwitch) (tenant : N) : bool :=
  if decide (pk_scope p = platform_scope.PLATFORM) then true
  else if decide (pk_scope p = platform_scope.TENANT) then
    bool_decide (pk_tenant_id p = Some tenant)
  else false.

(** [PlatformKillSwitch::as_kill_switch]. *)
Definition as_kill_switch (p : PlatformKillSwitch) : KillSwitch :=
  MkSwitch (pk_id p) scope.GLOBAL None on_queued.HOLD (pk_engaged_by p) (pk_engaged_at p)
    (pk_reason p) (pk_released_by p) (pk_released_at p).

(** [kill_switch::repo::list_active]. *)
Definition list_active (d : Db) : list KillSwitch :=
  filter (λ s, ks_released_at s = None) (map_values (db_kill_switch d)).

Definition engaged_before (p q : PlatformKillSwitch) : Prop :=
  (pk_engaged_at p <= pk_engaged_at q)%Z.
#[export] Instance engaged_before_dec : RelDecision engaged_before.
Proof. intros p q. unfold engaged_before. apply _. Defined.

(** [platform_kill_switch::repo::list_active_for_tenant]. *)
Definition list_active_for_tenant (tenant : N) (d : Db) : list PlatformKillSwitch :=
  merge_sort engaged_before
    (filter (λ p, pk_released_at p = None ∧
       (pk_scope p = platform_scope.PLATFORM
        ∨ (pk_scope p = platform_scope.TENANT ∧ pk_tenant_id p = Some tenant)))
      (map_values (db_platform_switch d))).

(** ** The in-process cache *)

Record RefreshDelta : Type := MkDelta {
  newly_engaged : list KillSwitch;
  released : list KillSwitch;
}.

Record ActiveSet : Type := MkActive {
  as_switches : gmap N KillSwitch;
  as_platform_ids : gset N;
}.

Definition empty_active : ActiveSet := MkActive ∅ ∅.

(** [fresh.into_iter().map(|s| (s.id, s)).collect()] into a [HashMap]: a later
    switch replaces an earlier one with its id. *)
Definition index_by_id (l : list KillSwitch) : gmap N KillSwitch :=
  foldl (λ m s, <[ks_id s := s]> m) ∅ l.

(** The part of [refresh_with_platform] after both reads: [rows] is [None]
    when the control database could not be read. *)
Definition merge_refresh (guard : ActiveSet) (tenant_rows : list KillSwitch)
    (rows : option (list PlatformKillSwitch)) : ActiveSet * RefreshDelta :=
  let '(fresh, platform_ids) :=
    match rows with
    | Some rows => (tenant_rows ++ (as_kill_switch <$> rows), list_to_set (pk_id <$> rows))
    | None => (tenant_rows ++ omap (λ id, as_switches guard !! id) (elements (as_platform_ids guard)),
               as_platform_ids guard)
    end in
  let fresh_ids : gset N := list_to_set (ks_id <$> fresh) in
  (MkActive (index_by_id fresh) platform_ids,
   MkDelta (filter (λ s, as_switches guard !! ks_id s = None) fresh)
           (filter (λ s, ks_id s ∉ fresh_ids) (map_values (as_switches guard)))).

(** [KillSwitchCache::refresh_with_platform]; the cache is threaded as a value,
    its write lock covers the merge. *)
Definition refresh_with_platform (guard : ActiveSet) (platform : option N)
    : Eff SqlxError (ActiveSet * RefreshDelta) :=
  fresh ←! query (λ _, list_active);
  match platform with
  | None => eret (merge_refresh guard fresh (Some []))
  | Some tenant =>
      rows ←! etry (query (λ _, list_active_for_tenant tenant));
      match rows with
      | Ok rows => eret (merge_refresh guard fresh (Some rows))
      | Err _ => eret (merge_refresh guard fresh None)
      end
  end.

(** [KillSwitchCache::refresh]. *)
Definition refresh (guard : ActiveSet) : Eff SqlxError (ActiveSet * RefreshDelta) :=
  refresh_with_platform guard None.

(** [KillSwitchCache::active_snapshot]. *)
Definition active_snapshot (a : ActiveSet) : list KillSwitch := map_values (as_switches a).

Definition PLATFORM_SCOPE : string := "platform".

(** [KillSwitchCache::blocking_scope]. *)
Definition blocking_scope `{!UuidText} (a : ActiveSet) (ch : string) (producer : N)
    (campaign : option string) : option string :=
  if decide (as_platform_ids a = ∅) then
    ks_scope <$> (snd <$> list_find (λ s, matches s ch producer campaign = true) (map_values (as_switches a)))
  else Some PLATFORM_SCOPE.

(** One turn of [run_refresh_loop]: a failed refresh keeps the cache and calls
    no handler. *)
Definition refresh_turn (guard : ActiveSet) (platform : option N)
    : Eff SqlxError (ActiveSet * option RefreshDelta) :=
  r ←! etry (refresh_with_platform guard platform);
  match r with
  | Ok (a, delta) => eret (a, Some delta)
  | Err _ => eret (guard, None)
  end.

(** *** What the cache holds *)

(** The cache indexes switches by their own id, and every platform entry is
    present as a region-wide hold. *)
Definition active_wf (a : ActiveSet) : Prop :=
  (∀ id s, as_switches a !! id = Some s → ks_id s = id) ∧
  (∀ id, id ∈ as_platform_ids a →
     ∃ s, as_switches a !! id = Some s ∧ ks_scope s = scope.GLOBAL ∧ ks_on_queued s = on_queued.HOLD).

Lemma elem_of_map_values {K V} `{Countable K} (m : gmap K V) v :
  v ∈ map_values m ↔ ∃ k, m !! k = Some v.
Proof.
  unfold map_values. rewrite list_elem_of_fmap. split.
  - intros ([k x] & -> & Hin). exists k. by apply elem_of_map_to_list.
  - intros [k Hk]. exists (k, v). split; [done|]. by apply elem_of_map_to_list.
Qed.

Lemma index_by_id_fold l m id :
  (foldl (λ m s, <[ks_id s := s]> m) m l : gmap N KillSwitch) !! id
  = match last (filter (λ s, ks_id s = id) l) with Some s => Some s | None => m !! id end.
Proof.
  revert m. induction l as [|s l IH]; intros m; simpl; [done|]. rewrite IH.
  rewrite filter_cons. destruct (decide (ks_id s = id)) as [<-|Hne].
  - rewrite last_cons. destruct (last _); [done|]. by rewrite lookup_insert_eq.
  - destruct (last _); [done|]. by rewrite lookup_insert_ne.
Qed.

Lemma index_by_id_Some l id s :
  index_by_id l !! id = Some s → s ∈ l ∧ ks_id s = id.
Proof.
  unfold index_by_id. rewrite index_by_id_fold, lookup_empty.
  destruct (last _) as [x|] eqn:Hl; [|done]. intros [= ->].
  apply last_Some_elem_of, list_elem_of_filter in Hl. tauto.
Qed.

Lemma index_by_id_in l s : s ∈ l → ∃ s', index_by_id l !! ks_id s = Some s' ∧ s' ∈ l.
Proof.
  intros Hin. unfold index_by_id. rewrite index_by_id_fold, lookup_empty.
  destruct (last (filter (λ x, ks_id x = ks_id s) l)) as [x|] eqn:Hl.
  - exists x. split; [done|]. apply last_Some_elem_of, list_elem_of_filter in Hl. tauto.
  - apply last_None in Hl. exfalso.
    assert (s ∈ filter (λ x, ks_id x = ks_id s) l) as H by by apply list_elem_of_filter.
    rewrite Hl in H. by apply not_elem_of_nil in H.
Qed.

Lemma index_by_id_None l id : index_by_id l !! id = None ↔ id ∉ ks_id <$> l.
Proof.
  rewrite list_elem_of_fmap. split.
  - intros Hn (s & -> & Hin). destruct (index_by_id_in l s Hin) as (? & ? & ?). congruence.
  - intros Hn. destruct (index_by_id l !! id) as [s|] eqn:He; [|done].
    apply index_by_id_Some in He as [? <-]. naive_solver.
Qed.

(** The switches a refresh merges: tenant rows, then the platform rows read, or
    those already held when the control database could not be read. *)
Definition fresh_switches (guard : ActiveSet) (tenant_rows : list KillSwitch)
    (rows : option (list PlatformKillSwitch)) : list KillSwitch :=
  tenant_rows ++
  match rows with
  | Some rows => as_kill_switch <$> rows
  | None => omap (λ id, as_switches guard !! id) (elements (as_platform_ids guard))
  end.

Lemma merge_refresh_switches guard tr rows :
  as_switches (merge_refresh guard tr rows).1 = index_by_id (fresh_switches guard tr rows).
Proof. by destruct rows. Qed.

Lemma merge_refresh_delta guard tr rows :
  (merge_refresh guard tr rows).2 =
  MkDelta (filter (λ s, as_switches guard !! ks_id s = None) (fresh_switches guard tr rows))
    (filter (λ s, ks_id s ∉ (list_to_set (ks_id <$> fresh_switches guard tr rows) : gset N))
       (map_values (as_switches guard))).
Proof. by destruct rows. Qed.

(** The platform entries of a refresh that read the control database, and of
    one that did not. *)
Lemma merge_refresh_platform guard tr rows :
  as_platform_ids (merge_refresh guard tr rows).1 =
  match rows with Some rows => list_to_set (pk_id <$> rows) | None => as_platform_ids guard end.
Proof. by destruct rows. Qed.

Lemma last_filter_app_r {A} (P : A → Prop) `{∀ x, Decision (P x)} (l1 l2 : list A) y :
  y ∈ l2 → P y → ∃ x, last (filter P (l1 ++ l2)) = Some x ∧ x ∈ l2.
Proof.
  intros Hy HP. rewrite filter_app, last_app.
  destruct (last (filter P l2)) as [x|] eqn:Hl.
  - exists x. split; [done|]. by apply last_Some_elem_of, list_elem_of_filter in Hl as [??].
  - apply last_None in Hl. exfalso.
    assert (y ∈ filter P l2) as Hin by by apply list_elem_of_filter.
    rewrite Hl in Hin. by apply not_elem_of_nil in Hin.
Qed.

Lemma merge_refresh_wf guard tr rows :
  active_wf guard → active_wf (merge_refresh guard tr rows).1.
Proof.
  intros [Hid Hpl]. split.
  { intros id s. rewrite merge_refresh_switches. by intros [_ ?]%index_by_id_Some. }
  intros id. rewrite merge_refresh_platform, merge_refresh_switches.
  unfold index_by_id, fresh_switches. rewrite index_by_id_fold, lookup_empty.
  destruct rows as [rows|].
  - rewrite elem_of_list_to_set, list_elem_of_fmap. intros (p & -> & Hp).
    destruct (last_filter_app_r (λ s, ks_id s = pk_id p) tr (as_kill_switch <$> rows) (as_kill_switch p))
      as (x & -> & Hx); [by apply list_elem_of_fmap_2|done|].
    apply list_elem_of_fmap in Hx as (q & -> & _). by exists (as_kill_switch q).
  - intros Hin. destruct (Hpl id Hin) as (s & Hs & _).
    destruct (last_filter_app_r (λ s, ks_id s = id) tr
      (omap (λ id, as_switches guard !! id) (elements (as_platform_ids guard))) s)
      as (x & -> & Hx).
    + apply list_elem_of_omap. exists id. split; [by apply elem_of_elements|done].
    + by apply Hid.
    + apply list_elem_of_omap in Hx as (k & Hk & Hkx). apply elem_of_elements in Hk.
      destruct (Hpl k Hk) as (x' & ? & ? & ?). simplify_eq. by exists x.
Qed.

Lemma merge_refresh_released guard tr rows s :
  active_wf guard →
  s ∈ released (merge_refresh guard tr rows).2 ↔
  as_switches guard !! ks_id s = Some s ∧ as_switches (merge_refresh guard tr rows).1 !! ks_id s = None.
Proof.
  intros [Hid _]. rewrite merge_refresh_delta, merge_refresh_switches; simpl.
  rewrite list_elem_of_filter, elem_of_map_values, index_by_id_None, elem_of_list_to_set.
  split; [|naive_solver]. intros (Hn & k & Hk). by rewrite <- (Hid _ _ Hk) in Hk.
Qed.

Lemma merge_refresh_newly guard tr rows id :
  id ∈ ks_id <$> newly_engaged (merge_refresh guard tr rows).2 ↔
  as_switches guard !! id = None ∧ is_Some (as_switches (merge_refresh guard tr rows).1 !! id).
Proof.
  rewrite merge_refresh_delta, merge_refresh_switches; simpl. rewrite list_elem_of_fmap. split.
  - intros (s & -> & Hs). apply list_elem_of_filter in Hs as [Hn Hin].
    destruct (index_by_id_in _ _ Hin) as (x & -> & _). eauto.
  - intros (Hn & x & Hx). apply index_by_id_Some in Hx as [Hin <-].
    exists x. split; [done|]. by apply list_elem_of_filter.
Qed.

(** A refresh is the merge of what its two reads returned. *)
Lemma refresh_with_platform_inv guard platform w w' a delta :
  refresh_with_platform guard platform w = (w', Ok (a, delta)) →
  ∃ tr rows, (a, delta) = merge_refresh guard tr rows.
Proof.
  unfold refresh_with_platform, ebind, etry.
  destruct (query _ w) as [w1 [tr|e]]; [|done].
  destruct platform as [t|]; [|intros [<- _]%eret_inv; eauto].
  destruct (query _ w1) as [w2 [rows|e]]; intros [<- _]%eret_inv; eauto.
Qed.

Lemma blocking_scope_Some `{!UuidText} a ch producer campaign :
  is_Some (blocking_scope a ch producer campaign) ↔
  as_platform_ids a ≠ ∅ ∨
  ∃ s, s ∈ active_snapshot a ∧ matches s ch producer campaign = true.
Proof.
  unfold blocking_scope. destruct (decide (as_platform_ids a = ∅)) as [He|He]; [|naive_solver].
  rewrite !fmap_is_Some. split.
  - intros [[i s] Hs]. right. apply list_find_Some in Hs as (Hl & Hm & _).
    exists s. split; [|done]. by eapply list_elem_of_lookup_2.
  - intros [?|(s & Hin & Hm)]; [done|].
    destruct (list_find _ _) eqn:Hf; [by eauto|]. exfalso.
    apply list_find_None in Hf. rewrite Forall_forall in Hf. by apply (Hf s).
Qed.

(** ** Engage and release *)

Inductive ConfigureError : Type :=
| CfgDatabase (e : SqlxError)
| AlreadyEngaged.

Definition ALREADY_ENGAGED_CONSTRAINT : string := "kill_switch_scope_coalesce_idx".

Definition coalesce (o : option string) : string := default "" o.

(** Two rows that the unique index on live [(scope, COALESCE(scope_key, ''))]
    pairs does not allow together. *)
Definition same_live_scope (s1 s2 : KillSwitch) : Prop :=
  ks_released_at s1 = None ∧ ks_released_at s2 = None
  ∧ ks_scope s1 = ks_scope s2 ∧ coalesce (ks_scope_key s1) = coalesce (ks_scope_key s2).
#[export] Instance same_live_scope_dec : RelDecision same_live_scope.
Proof. intros s1 s2. unfold same_live_scope. apply _. Defined.

(** [INSERT INTO kill_switch]. *)
Definition insert_switch (s : KillSwitch) (d : Db) : result (Db * unit) SqlxError :=
  if decide (is_Some (db_kill_switch d !! ks_id s)) then Err (SqlConstraint "kill_switch_pkey")
  else if decide (Exists (same_live_scope s) (map_values (db_kill_switch d))) then
    Err (SqlConstraint ALREADY_ENGAGED_CONSTRAINT)
  else Ok (on_kill_switch (insert (ks_id s) s) d, tt).

(** [platform_audit::record]. *)
Definition audit_record (actor action : string) (tenant : option N)
    (detail : list (string * option string)) : Eff SqlxError unit :=
  exec (λ t, on_audit (λ l, l ++ [MkAudit actor action tenant detail t])).

Definition valid_scope (s : string) : bool :=
  bool_decide (s ∈ [scope.GLOBAL; scope.CHANNEL; scope.PRODUCER; scope.PRODUCER_CHANNEL; scope.CAMPAIGN]).
Definition valid_on_queued (s : string) : bool :=
  bool_decide (s ∈ [on_queued.HOLD; on_queued.DISCARD]).

Definition mark_released (actor : string) (t : Z) (s : KillSwitch) : KillSwitch :=
  MkSwitch (ks_id s) (ks_scope s) (ks_scope_key s) (ks_on_queued s) (ks_engaged_by s)
    (ks_engaged_at s) (ks_reason s) (Some actor) (Some t).

(** [UPDATE kill_switch SET released_by, released_at WHERE id AND released_at
    IS NULL RETURNING id]. *)
Definition release_switch (id : N) (actor : string) (t : Z) (d : Db) : Db * option N :=
  match db_kill_switch d !! id with
  | Some s => if decide (ks_released_at s = None)
              then (on_kill_switch (insert id (mark_released actor t s)) d, Some id)
              else (d, None)
  | None => (d, None)
  end.

(** [engage] and [release] over the two pools they are given: [run] is a statement on
    the tenant's, [audit] is [platform_audit::record] on the control pool. *)
Section Configure.
Context {D : Type} (run : ∀ A, (Z → Db → result (Db * A) SqlxError) → M D Call SqlxError A).
Context (audit : string → string → option N → list (string * option string) → M D Call SqlxError unit).
Arguments run {A}.

Definition audit_engage (actor : string) (tenant : N) (scope_value : string)
    (scope_key : option string) (on_queued_value reason outcome : string) : M D Call SqlxError unit :=
  audit actor "kill_switch.engage" (Some tenant)
    [("scope", Some scope_value); ("scope_key", scope_key); ("on_queued", Some on_queued_value);
     ("reason", Some reason); ("outcome", Some outcome)].

(** [kill_switch::configure::engage]; [id] is the fresh [Uuid::new_v4()]. *)
Definition engage_via (id : N) (tenant : N) (scope_value : string) (scope_key : option string)
    (on_queued_value reason actor : string) : M D Call ConfigureError N :=
  if negb (valid_scope scope_value) || negb (valid_on_queued on_queued_value) then
    elift CfgDatabase (audit_engage actor tenant scope_value scope_key on_queued_value reason "rejected") ;!
    ethrow (CfgDatabase (SqlConfiguration
      (if negb (valid_scope scope_value) then "unrecognised kill_switch scope"
       else "unrecognised kill_switch on_queued value")))
  else
    r ←! etry (run (λ t, insert_switch
           (MkSwitch id scope_value scope_key on_queued_value actor t reason None None)));
    match r with
    | Ok _ =>
        elift CfgDatabase (audit_engage actor tenant scope_value scope_key on_queued_value reason "engaged") ;!
        eret id
    | Err (SqlConstraint c) =>
        if decide (c = ALREADY_ENGAGED_CONSTRAINT) then
          elift CfgDatabase (audit_engage actor tenant scope_value scope_key on_queued_value reason "already_engaged") ;!
          ethrow AlreadyEngaged
        else ethrow (CfgDatabase (SqlConstraint c))
    | Err e => ethrow (CfgDatabase e)
    end.

(** [kill_switch::configure::release]. *)
Definition release_via `{!UuidText} (tenant id : N) (actor : string) : M D Call ConfigureError string :=
  released ←! elift CfgDatabase (run (λ t d, Ok (release_switch id actor t d)));
  let outcome := if released is Some _ then "released"%string else "idempotent"%string in
  elift CfgDatabase (audit actor "kill_switch.release" (Some tenant)
    [("id", Some (uuid_str id)); ("outcome", Some outcome)]) ;!
  eret outcome.
End Configure.

(** The two on one tenant's database. *)
Definition engage : N → N → string → option string → string → string → string → Eff ConfigureError N :=
  engage_via (λ A, sql) audit_record.
Definition release `{!UuidText} : N → N → string → Eff ConfigureError string := release_via (λ A, sql) audit_record.

(** ** Blast radius *)

(** The arms of [blast_radius]'s query: [None] is the early [Ok(Vec::new())]. *)
Definition blast_filter `{!UuidText} (scope_value : string) (scope_key : option string)
    : option (Outbox → bool) :=
  if decide (scope_value = scope.GLOBAL) then Some (λ _, true)
  else if decide (scope_value = scope.CHANNEL) then
    c ← scope_key; Some (λ r, bool_decide (ob_channel r = c))
  else if decide (scope_value = scope.PRODUCER) then
    p ← (scope_key ≫= parse_str); Some (λ r, bool_decide (ob_producer_id r = p))
  else if decide (scope_value = scope.PRODUCER_CHANNEL) then
    pc ← (scope_key ≫= split_producer_channel);
    Some (λ r, bool_decide (ob_producer_id r = pc.1) && bool_decide (ob_channel r = pc.2))
  else if decide (scope_value = scope.CAMPAIGN) then
    c ← scope_key; Some (λ r, bool_decide (ob_campaign_id r = Some c))
  else None.

Definition count_by_class (l : list Outbox) : gmap string nat :=
  foldr (λ r m, <[ob_class r := S (default 0 (m !! ob_class r))]> m) ∅ l.

(** [kill_switch::repo::blast_radius]. *)
Definition blast_radius `{!UuidText} (scope_value : string) (scope_key : option string)
    (d : Db) : gmap string nat :=
  match blast_filter scope_value scope_key with
  | None => ∅
  | Some f =>
      count_by_class (filter (λ r, ob_cancelled_at r = None ∧ f r = true) (map_values (db_outbox d)))
  end.

(** *** Lemmas *)

(** No two live switches share a scope, and rows sit under their own id. *)
Definition switches_wf (d : Db) : Prop :=
  (∀ id s, db_kill_switch d !! id = Some s → ks_id s = id) ∧
  (∀ i j s1 s2, db_kill_switch d !! i = Some s1 → db_kill_switch d !! j = Some s2 →
     same_live_scope s1 s2 → i = j).

(** What a process may do to the switches: keep them well formed. *)
Definition switches_preserved (d d' : Db) : Prop := switches_wf d → switches_wf d'.
#[export] Instance switches_preserved_pre : PreOrder switches_preserved.
Proof. split; [by intros d H|]. intros d1 d2 d3 H1 H2 H. auto. Qed.

Lemma insert_switch_wf s d d' u :
  insert_switch s d = Ok (d', u) → switches_preserved d d'.
Proof.
  unfold insert_switch. case_decide as Hn; [done|]. case_decide as Hex; [done|].
  intros [= <- _] [Hid Hu]. apply eq_None_not_Some in Hn.
  assert (∀ k x, db_kill_switch d !! k = Some x → ¬ same_live_scope s x) as Hno.
  { intros k x Hk Hs. apply Hex, Exists_exists. exists x.
    split; [by apply elem_of_map_values; eauto|done]. }
  split; simpl.
  - intros id x. rewrite lookup_insert. case_decide; [naive_solver|]. apply Hid.
  - intros i j s1 s2. rewrite !lookup_insert. repeat case_decide; intros; simplify_eq; [done|..].
    + exfalso. by eapply Hno.
    + exfalso. eapply (Hno i s1); [done|]. unfold same_live_scope in *. naive_solver.
    + by eapply Hu.
Qed.

Lemma release_switch_wf id actor t d d' o :
  release_switch id actor t d = (d', o) → switches_preserved d d'.
Proof.
  unfold release_switch. destruct (db_kill_switch d !! id) as [s|] eqn:Hs; [|by intros [= <- _]].
  case_decide; intros [= <- _]; [|by intros ?]. intros [Hid Hu]. split; simpl.
  - intros k x. rewrite lookup_insert. case_decide; [|apply Hid]. intros [= <-]. simpl. naive_solver.
  - intros i j s1 s2. rewrite !lookup_insert. repeat case_decide; intros; simplify_eq; [done|..].
    + unfold same_live_scope in *; simpl in *; naive_solver.
    + unfold same_live_scope in *; simpl in *; naive_solver.
    + by eapply Hu.
Qed.

Lemma count_by_class_lookup l c :
  default 0 (count_by_class l !! c) = length (filter (λ r, ob_class r = c) l).
Proof.
  induction l as [|r l IH]; simpl; [done|]. rewrite filter_cons, lookup_insert.
  case_decide as H; [|exact IH]. subst. simpl. by rewrite IH.
Qed.

(** The filter of a scope is the switch's own [matches]. *)
Lemma blast_filter_matches `{!UuidText} s r :
  match blast_filter (ks_scope s) (ks_scope_key s) with Some f => f r | None => false end
  = matches_row s r.
Proof.
  unfold blast_filter, matches_row, matches, producer_id, producer_channel_parts.
  destruct (decide (ks_scope s = scope.GLOBAL)); [done|].
  destruct (decide (ks_scope s = scope.CHANNEL)).
  { destruct (ks_scope_key s); simpl; bool_cases. }
  destruct (decide (ks_scope s = scope.PRODUCER)).
  { destruct (ks_scope_key s) as [k|]; simpl; [|bool_cases]. destruct (parse_str k); simpl; bool_cases. }
  destruct (decide (ks_scope s = scope.PRODUCER_CHANNEL)).
  { destruct (ks_scope_key s) as [k|]; simpl; [|bool_cases].
    destruct (split_producer_channel k) as [[p c]|]; simpl; bool_cases. }
  destruct (decide (ks_scope s = scope.CAMPAIGN)); [|done].
  destruct (ks_scope_key s) as [k|]; simpl; destruct (ob_campaign_id r); simpl; bool_cases.
Qed.

Lemma audit_record_calm a b c e (w : W) :
  w_env w = [] →
  audit_record a b c e w
  = (set_db (on_audit (λ l, l ++ [MkAudit a b c e (w_now w)]) (w_db w)) w, Ok tt).
Proof. intros. unfold audit_record. by rewrite exec_calm. Qed.

Lemma insert_switch_dup k s0 s d :
  db_kill_switch d !! ks_id s = None → db_kill_switch d !! k = Some s0 → same_live_scope s s0 →
  insert_switch s d = Err (SqlConstraint ALREADY_ENGAGED_CONSTRAINT).
Proof.
  intros Hn Hk Hs. unfold insert_switch. rewrite decide_False by (rewrite Hn; by intros [? ?]).
  rewrite decide_True; [done|]. apply Exists_exists. exists s0.
  split; [apply elem_of_map_values; eauto|done].
Qed.

(** What a successful engage leaves behind when nothing interferes. *)
Lemma engage_calm_inv id tenant sc key onq reason actor (w w1 : W) x :
  calm w → engage id tenant sc key onq reason actor w = (w1, Ok x) →
  calm w1 ∧ valid_scope sc = true ∧
  db_kill_switch (w_db w1) !! id
    = Some (MkSwitch id sc key onq actor (w_now w) reason None None).
Proof.
  intros [He Htx]. unfold engage, engage_via, ebind, elift, etry, audit_engage.
  destruct (valid_scope sc), (valid_on_queued onq); simpl;
    try (rewrite audit_record_calm by done; discriminate).
  rewrite sql_calm by done.
  destruct (insert_switch _ _) as [[d []]|[]] eqn:Hins; try discriminate.
  2: { case_decide; [rewrite audit_record_calm by done|]; discriminate. }
  rewrite audit_record_calm by done. intros [= <- _]. split_and!; [done..|]; simpl.
  unfold insert_switch in Hins. repeat case_decide; try discriminate.
  injection Hins as <-. simpl. by rewrite lookup_insert_eq.
Qed.

(** ** Properties *)

Section Properties.
Context `{!UuidText}.

(** The exclusion the dispatcher builds for a channel is exact: a row of
    that channel is left out of the claim query's candidates if and only if
    some switch it was built from covers the row by [KillSwitch::matches]. *)
Theorem exclusion_exact (switches : list KillSwitch) (r : Outbox) :
  excluded (exclusion_for_channel switches (ob_channel r)) r = true
  ↔ ∃ s, s ∈ switches ∧
      matches s (ob_channel r) (ob_producer_id r) (ob_campaign_id r) = true.
Proof. rewrite excluded_existsb. apply existsb_matches. Qed.

(** Ingest and dispatch agree: a request is refused with a kill-switch
    error exactly when the row it would create is held back from the claim
    loop by the same cache contents. *)
Theorem ingest_blocks_what_dispatch_holds (a : ActiveSet) (r : Outbox) :
  active_wf a →
  is_Some (blocking_scope a (ob_channel r) (ob_producer_id r) (ob_campaign_id r))
  ↔ excluded (exclusion_for_channel (active_snapshot a) (ob_channel r)) r = true.
Proof.
  intros [_ Hpl]. rewrite excluded_existsb, existsb_matches, blocking_scope_Some.
  split; [intros [Hne|?]|auto]; [|done].
  apply set_choose_L in Hne as [id Hid]. destruct (Hpl id Hid) as (s & Hs & Hg & _).
  exists s. split; [apply elem_of_map_values; eauto|].
  unfold matches_row, matches. by rewrite decide_True.
Qed.

(** The blast radius shown before an engage counts, class by class, the
    uncancelled queued rows that a switch of that scope would cover. *)
Theorem blast_radius_counts_covered (s : KillSwitch) (d : Db) (c : string) :
  default 0 (blast_radius (ks_scope s) (ks_scope_key s) d !! c)
  = length (filter (λ r, ob_class r = c ∧ ob_cancelled_at r = None ∧ matches_row s r = true)
              (map_values (db_outbox d))).
Proof.
  unfold blast_radius. pose proof (blast_filter_matches s) as Hm.
  destruct (blast_filter (ks_scope s) (ks_scope_key s)) as [f|].
  - rewrite count_by_class_lookup, list_filter_filter. f_equal.
    apply list_filter_iff. intros r. by rewrite Hm.
  - rewrite lookup_empty; simpl. induction (map_values (db_outbox d)) as [|r l IH]; [done|].
    rewrite filter_cons, decide_False; [done|]. rewrite <- Hm. naive_solver.
Qed.
End Properties.

(** A refresh reports exactly what changed: it keeps the cache well formed,
    names as released the switches that were cached and no longer are, and as
    newly engaged the ids that are cached now and were not before. *)
Theorem refresh_reports_exactly_the_changes guard platform (w w' : W) a delta :
  active_wf guard →
  refresh_with_platform guard platform w = (w', Ok (a, delta)) →
  active_wf a
  ∧ (∀ s, s ∈ released delta ↔
       as_switches guard !! ks_id s = Some s ∧ as_switches a !! ks_id s = None)
  ∧ (∀ id, id ∈ ks_id <$> newly_engaged delta ↔
       as_switches guard !! id = None ∧ is_Some (as_switches a !! id)).
Proof.
  intros Hwf Hr. destruct (refresh_with_platform_inv _ _ _ _ _ _ Hr) as (tr & rows & Heq).
  replace a with (merge_refresh guard tr rows).1 by by rewrite <- Heq.
  replace delta with (merge_refresh guard tr rows).2 by by rewrite <- Heq.
  split_and!; [by apply merge_refresh_wf|intros s|intros id].
  - by apply merge_refresh_released.
  - by apply merge_refresh_newly.
Qed.

(** A merge without platform rows carries the entries it held over unchanged; all others
    are the tenant's. *)
Lemma merge_refresh_carries guard tr id s :
  active_wf guard → id ∈ as_platform_ids guard → as_switches guard !! id = Some s →
  as_switches (merge_refresh guard tr None).1 !! id = Some s.
Proof.
  intros [Hid _] Hin Hs. rewrite merge_refresh_switches. unfold index_by_id, fresh_switches.
  rewrite index_by_id_fold, lookup_empty.
  destruct (last_filter_app_r (λ s, ks_id s = id) tr
    (omap (λ id, as_switches guard !! id) (elements (as_platform_ids guard))) s) as (x & Hl & Hx);
    [apply list_elem_of_omap; exists id; by rewrite elem_of_elements|by apply Hid|].
  rewrite Hl. apply list_elem_of_omap in Hx as (k & _ & Hk).
  apply last_Some_elem_of, list_elem_of_filter in Hl as [Hx _]. pose proof (Hid _ _ Hk). congruence.
Qed.
Lemma merge_refresh_own guard tr id s :
  active_wf guard → id ∉ as_platform_ids guard → as_switches (merge_refresh guard tr None).1 !! id = Some s → s ∈ tr.
Proof.
  intros [Hid _] Hn. rewrite merge_refresh_switches. intros [Hin <-]%index_by_id_Some. unfold fresh_switches in Hin.
  apply elem_of_app in Hin as [|(k & Hk%elem_of_elements & Hx)%list_elem_of_omap]; [done|]. by rewrite (Hid _ _ Hx) in Hn.
Qed.

(** C40. An outage of the control database never looks like a platform switch releasing:
    in a turn of the refresh loop that reads the tenant's switches and fails to read the
    platform's, every platform entry of the cache stays as it was, is not reported as
    released and, if there is one, still blocks every request, while the tenant's own
    switches are those just read. A turn that cannot read the tenant's switches leaves the
    cache alone and reports nothing. *)
Theorem control_outage_keeps_platform_switches `{!UuidText} guard tenant (w : W) :
  active_wf guard →
  let own := query (λ _, list_active) w in
  let platform := query (λ _, list_active_for_tenant tenant) own.1 in
  (∀ rows e, own.2 = Ok rows → platform.2 = Err e →
     ∃ a delta, refresh_turn guard (Some tenant) w = (platform.1, Ok (a, Some delta))
       ∧ as_platform_ids a = as_platform_ids guard
       ∧ (∀ id, id ∈ as_platform_ids guard →
            as_switches a !! id = as_switches guard !! id ∧ (id ∉ ks_id <$> released delta)
            ∧ (∀ ch producer campaign, blocking_scope a ch producer campaign = Some PLATFORM_SCOPE))
       ∧ (∀ s, s ∈ rows → is_Some (as_switches a !! ks_id s))
       ∧ (∀ id s, id ∉ as_platform_ids guard → as_switches a !! id = Some s → s ∈ rows))
  ∧ (∀ e, own.2 = Err e → refresh_turn guard (Some tenant) w = (own.1, Ok (guard, None))).
Proof.
  intros Hwf own platform. subst platform. unfold refresh_turn, refresh_with_platform, ebind, etry. fold own.
  destruct own as [w1 r1]. cbn [fst snd]. split; [|by intros e ->]. intros rows e -> He.
  destruct (query _ w1) as [w2 r2]. cbn [fst snd] in *. subst r2.
  set (m := merge_refresh guard rows None). exists m.1, m.2.
  assert (as_platform_ids m.1 = as_platform_ids guard) as Hp by done.
  split_and!; [done|done| | |intros id s; by apply merge_refresh_own].
  - intros id Hin. destruct (proj2 Hwf id Hin) as (s & Hs & _).
    pose proof (merge_refresh_carries guard rows id s Hwf Hin Hs) as Ha.
    split_and!; [by rewrite Hs| |].
    + intros (x & -> & Hx)%list_elem_of_fmap. apply merge_refresh_released in Hx; [|done]. destruct Hx as [_ Hx]. congruence.
    + intros. unfold blocking_scope. rewrite Hp, decide_False; [done|]. set_solver.
  - intros s Hs. unfold m. rewrite merge_refresh_switches.
    destruct (index_by_id_in (fresh_switches guard rows None) s) as (x & -> & _); [|eauto]. unfold fresh_switches. set_solver.
Qed.

(** At most one live switch per scope: whatever fails and whatever
    interleaves with them, engage and release keep rows under their own id and
    never leave two unreleased rows with the same scope and key. *)
Theorem live_switches_stay_unique `{!UuidText} :
  (∀ id tenant sc key onq reason actor,
     guar switches_preserved (engage id tenant sc key onq reason actor)) ∧
  (∀ tenant id actor, guar switches_preserved (release tenant id actor)).
Proof.
  assert (∀ a b c d, guar (C:=Call) switches_preserved (audit_record a b c d)) as Haudit.
  { intros. apply guar_exec; [apply _|]. by intros t x Hx. }
  split; intros; unfold engage, release, engage_via, release_via, audit_engage; step_guar; try by apply Haudit.
  - apply guar_sql; [apply _|]. intros t d d' u. apply insert_switch_wf.
  - apply guar_sql; [apply _|]. intros t d d' o [= Hr].
    by apply (release_switch_wf id actor t d d' o).
Qed.

(** A second engage of a scope that is live is refused as already engaged
    and leaves the switches as they were, [NULL] and the empty key counting as
    the same scope. *)
Theorem engage_twice_refused (w w1 : W) id1 id2 tenant sc key1 key2 onq1 onq2 reason1 reason2 actor1 actor2 :
  calm w → engage id1 tenant sc key1 onq1 reason1 actor1 w = (w1, Ok id1) →
  valid_on_queued onq2 = true → db_kill_switch (w_db w1) !! id2 = None →
  coalesce key1 = coalesce key2 →
  (engage id2 tenant sc key2 onq2 reason2 actor2 w1).2 = Err AlreadyEngaged
  ∧ db_kill_switch (w_db (engage id2 tenant sc key2 onq2 reason2 actor2 w1).1) = db_kill_switch (w_db w1).
Proof.
  intros Hc H1 Hv2 Hf2 Hk. destruct (engage_calm_inv _ _ _ _ _ _ _ _ _ _ Hc H1) as ([He Htx] & Hvs & Hl).
  unfold engage, engage_via, ebind, elift, etry, audit_engage. rewrite Hvs, Hv2; simpl.
  rewrite sql_calm by done.
  erewrite insert_switch_dup; [|exact Hf2|exact Hl|by unfold same_live_scope; simpl].
  simpl. by rewrite audit_record_calm.
Qed.

(** ** Concrete runs *)

Definition sample_uuid : UuidText := {|
  parse_str s := if decide (s = "7"%string) then Some 7%N else None;
  uuid_str n := if decide (n = 7%N) then "7"%string else ""%string;
  uuid_bytes _ := "0123456789abcdef"%string;
|}.

Definition sample_switch : KillSwitch :=
  MkSwitch 3%N scope.CHANNEL (Some channel.SMS) on_queued.HOLD "ops" 0 "outage" None None.
Definition sample_platform : PlatformKillSwitch :=
  MkPlatformSwitch 5%N platform_scope.PLATFORM None "root" 0 "incident" None None.

(** A cache with one tenant switch and one platform switch, as a refresh that
    read both databases leaves it. *)
Definition sample_active : ActiveSet := (merge_refresh empty_active [sample_switch] (Some [sample_platform])).1.

Lemma sample_active_wf : active_wf sample_active.
Proof.
  apply merge_refresh_wf. split; [by intros id s|]. intros id Hid. by apply not_elem_of_empty in Hid.
Qed.

Definition sample_row : Outbox :=
  MkOutbox 1%N 10 channel.EMAIL class.MARKETING 1 1%N 2%N 7%N None 50 None None 0 None.

Lemma ingest_dispatch_witness :
  excluded (exclusion_for_channel (H:=sample_uuid) (active_snapshot sample_active) channel.EMAIL) sample_row = true.
Proof.
  apply (ingest_blocks_what_dispatch_holds (H:=sample_uuid) sample_active sample_row sample_active_wf).
  vm_compute. by eexists.
Defined.

Definition sample_db : Db := on_kill_switch (λ _, {[3%N := sample_switch]}) empty_db.

Lemma refresh_changes_witness :
  5%N ∉ ks_id <$> newly_engaged (merge_refresh empty_active [sample_switch] (Some [])).2.
Proof.
  destruct (refresh_reports_exactly_the_changes empty_active None (World sample_db 0 false [] [])
    (World sample_db 0 false [] [])
    (merge_refresh empty_active [sample_switch] (Some [])).1
    (merge_refresh empty_active [sample_switch] (Some [])).2) as (_ & _ & Hnew).
  - split; [by intros id s|]. intros id Hid. by apply not_elem_of_empty in Hid.
  - vm_compute. reflexivity.
  - intros H. apply Hnew in H as [_ [x Hx]]. vm_compute in Hx. discriminate Hx.
Defined.

(** The tenant's switches are read and the control database does not answer. *)
Definition control_down : W := World sample_db 0 false [Move 0 NoFault id; Move 0 FaultBefore id] [].
Lemma control_outage_witness :
  ∃ w a delta, refresh_turn sample_active (Some 1%N) control_down = (w, Ok (a, Some delta))
    ∧ as_switches a !! 5%N = as_switches sample_active !! 5%N ∧ 5%N ∉ ks_id <$> released delta.
Proof.
  destruct (control_outage_keeps_platform_switches (H:=sample_uuid) sample_active 1%N control_down sample_active_wf) as [H _].
  destruct (H [sample_switch] SqlIo) as (a & delta & Ht & _ & Hk & _); [vm_compute; reflexivity|vm_compute; reflexivity|].
  destruct (Hk 5%N) as (Hs & Hr & _); [vm_compute; reflexivity|].
  eexists _, a, delta. split; [exact Ht|]. split; [exact Hs|exact Hr].
Defined.

Lemma engage_twice_witness :
  (engage 4%N 1%N scope.GLOBAL (Some ""%string) on_queued.DISCARD "again" "ops"
     (engage 3%N 1%N scope.GLOBAL None on_queued.HOLD "outage" "ops" (World empty_db 0 false [] [])).1).2
  = Err AlreadyEngaged.
Proof.
  apply (engage_twice_refused (World empty_db 0 false [] [])
    (engage 3%N 1%N scope.GLOBAL None on_queued.HOLD "outage" "ops" (World empty_db 0 false [] [])).1
    3%N 4%N 1%N scope.GLOBAL None (Some ""%string) on_queued.HOLD on_queued.DISCARD "outage" "again" "ops" "ops").
  - split; reflexivity.
  - vm_compute. reflexivity.
  - reflexivity.
  - vm_compute. reflexivity.
  - reflexivity.
Defined.
