(* ===== verification/Quota.v ===== *)
(** * Producer quotas

    Models [src/producer_quota/tracker.rs] with the reads and writes of
    [src/producer_quota/repo.rs] it uses: the in-process counters, the gate
    [check_and_record], the limit cache with its overrides, and the flush and
    rebuild of the counters through [producer_usage]. *)

From S2P Require Import Prelude RustStd Time Schema.
From stdpp Require Import base gmap strings list.
From Stdlib Require Import ZArith Lia Sorted.

Local Open Scope effect_scope.
Local Open Scope Z_scope.

Record EffectiveQuota : Type := MkEffective {
  eq_per_minute : option Z;
  eq_per_day : option Z;
  eq_enforcement : string;
}.

Record Counters : Type := MkCounters {
  minute_window : option Z;
  minute_sent : Z;
  minute_blocked : Z;
  day_window : option Z;
  day_sent : Z;
  day_blocked : Z;
}.

Definition default_counters : Counters := MkCounters None 0 0 None 0 0.

Inductive QuotaDecision : Type :=
| Admit
| SoftBreach
| Defer (next_attempt_at : Z).

Definition is_defer (q : QuotaDecision) : bool := match q with Defer _ => true | _ => false end.

Section Tracker.
Context {Tz : Type} `{!TimeZone Tz}.

Record QuotaTracker : Type := MkTracker {
  qt_tz : Tz;
  qt_config : gmap QuotaKey EffectiveQuota;
  qt_counters : gmap QuotaKey Counters;
}.

Definition set_counters (f : gmap QuotaKey Counters → gmap QuotaKey Counters)
    (q : QuotaTracker) : QuotaTracker :=
  MkTracker (qt_tz q) (qt_config q) (f (qt_counters q)).

(** [QuotaTracker::new]. *)
Definition new (tz_name : string) : QuotaTracker :=
  MkTracker (default tz_utc (tz_from_str tz_name)) ∅ ∅.

(** ** Windows *)

Definition minute_window_start (now : Z) : Z := duration_trunc now minute.

(** The fallback reads the wall-clock midnight as if it were UTC. *)
Definition resolve_local_midnight (tz : Tz) (naive_midnight : Z) : Z :=
  match earliest (from_local tz naive_midnight) with
  | Some u => u
  | None => naive_midnight
  end.

Definition day_window_start (tz : Tz) (now : Z) : Z :=
  resolve_local_midnight tz (and_time (date_naive (to_local tz now)) 0).

Definition next_day_window_start (tz : Tz) (now : Z) : Z :=
  resolve_local_midnight tz (and_time (date_naive (to_local tz now) + 1) 0).

(** [roll_window] on the minute and on the day fields. *)
Definition roll_minute (fresh : Z) (c : Counters) : Counters :=
  if decide (minute_window c = Some fresh) then c
  else MkCounters (Some fresh) 0 0 (day_window c) (day_sent c) (day_blocked c).
Definition roll_day (fresh : Z) (c : Counters) : Counters :=
  if decide (day_window c = Some fresh) then c
  else MkCounters (minute_window c) (minute_sent c) (minute_blocked c) (Some fresh) 0 0.

Definition bump_sent (c : Counters) : Counters :=
  MkCounters (minute_window c) (minute_sent c + 1) (minute_blocked c)
    (day_window c) (day_sent c + 1) (day_blocked c).
Definition bump_day_blocked (c : Counters) : Counters :=
  MkCounters (minute_window c) (minute_sent c) (minute_blocked c)
    (day_window c) (day_sent c) (day_blocked c + 1).
Definition bump_minute_blocked (c : Counters) : Counters :=
  MkCounters (minute_window c) (minute_sent c) (minute_blocked c + 1)
    (day_window c) (day_sent c) (day_blocked c).

(** [counters.entry(key).or_default()] rolled to the windows of [now]. *)
Definition rolled (q : QuotaTracker) (key : QuotaKey) (now : Z) : Counters :=
  roll_day (day_window_start (qt_tz q) now)
    (roll_minute (minute_window_start now)
      (default default_counters (qt_counters q !! key))).

(** [QuotaTracker::record_admit]. *)
Definition record_admit (q : QuotaTracker) (key : QuotaKey) (now : Z) : QuotaTracker :=
  set_counters (insert key (bump_sent (rolled q key now))) q.

Definition breach (limit : option Z) (sent : Z) : bool :=
  match limit with Some l => l <=? sent | None => false end.

(** [QuotaTracker::check_and_record]. *)
Definition check_and_record (q : QuotaTracker) (producer : N) (ch class_value : string)
    (now : Z) : QuotaTracker * QuotaDecision :=
  let key := (producer, ch, class_value) in
  if decide (class_value = class.AUTH) then (record_admit q key now, Admit)
  else match qt_config q !! key with
  | None => (record_admit q key now, Admit)
  | Some effective =>
      let entry := rolled q key now in
      let day_breach := breach (eq_per_day effective) (day_sent entry) in
      let minute_breach := breach (eq_per_minute effective) (minute_sent entry) in
      if day_breach || minute_breach then
        if decide (eq_enforcement effective = enforcement.HARD) then
          if day_breach then
            (set_counters (insert key (bump_day_blocked entry)) q,
             Defer (next_day_window_start (qt_tz q) now))
          else
            (set_counters (insert key (bump_minute_blocked entry)) q,
             Defer (minute_window_start now + minute))
        else (set_counters (insert key (bump_sent entry)) q, SoftBreach)
      else (set_counters (insert key (bump_sent entry)) q, Admit)
  end.

(** ** The limit cache *)

(** [repo::load_active_overrides]. *)
Definition load_active_overrides (now : Z) (d : Db) : list ProducerQuotaOverride :=
  filter (λ o, po_valid_from o <= now ∧ now < po_valid_to o) ((map_to_list (db_override d)).*2).

Definition effective_of (p : ProducerQuota) : EffectiveQuota :=
  MkEffective (pq_per_minute p) (pq_per_day p) (pq_enforcement p).

Definition raise_per_day (n : Z) (e : EffectiveQuota) : EffectiveQuota :=
  MkEffective (eq_per_minute e)
    (Some (match eq_per_day e with None => n | Some base => Z.max base n end))
    (eq_enforcement e).

(** The loop over the active overrides. *)
Definition apply_override (merged : gmap QuotaKey EffectiveQuota) (o : ProducerQuotaOverride)
    : gmap QuotaKey EffectiveQuota :=
  alter (raise_per_day (po_per_day o)) (po_producer_id o, po_channel o, po_class o) merged.

Definition merge_config (quotas : gmap QuotaKey ProducerQuota) (overrides : list ProducerQuotaOverride)
    : gmap QuotaKey EffectiveQuota :=
  fold_left apply_override overrides (effective_of <$> quotas).

(** [QuotaTracker::refresh_config]. *)
Definition refresh_config (q : QuotaTracker) (now : Z) : Eff SqlxError QuotaTracker :=
  quotas ←! query (λ _, db_quota);
  overrides ←! query (λ _, load_active_overrides now);
  eret (MkTracker (qt_tz q) (merge_config quotas overrides) (qt_counters q)).

(** ** Flush and rebuild *)

(** The rows one key contributes to a flush. *)
Definition usage_rows (kc : QuotaKey * Counters) : list (UsageKey * UsageCount) :=
  let '((p, ch, cl), c) := kc in
  match minute_window c with
  | Some ws => [((p, ch, cl, granularity.MINUTE, ws), MkUsage (minute_sent c) (minute_blocked c))]
  | None => []
  end ++
  match day_window c with
  | Some ws => [((p, ch, cl, granularity.DAY, ws), MkUsage (day_sent c) (day_blocked c))]
  | None => []
  end.

(** One upsert of [repo::flush_usage]. *)
Definition flush_row (row : UsageKey * UsageCount) : Eff SqlxError unit :=
  exec (λ _, on_usage (insert row.1 row.2)).

Fixpoint flush_rows (rows : list (UsageKey * UsageCount)) : Eff SqlxError unit :=
  match rows with
  | [] => eret tt
  | row :: rows => flush_row row ;! flush_rows rows
  end.

(** [repo::flush_usage]: the upserts in one transaction. *)
Definition flush_usage (rows : list (UsageKey * UsageCount)) : Eff SqlxError unit :=
  transaction (flush_rows rows) (λ _, true).

(** [QuotaTracker::flush]. *)
Definition flush (q : QuotaTracker) : Eff SqlxError unit :=
  let rows := map_to_list (qt_counters q) ≫= usage_rows in
  if decide (rows = []) then eret tt else flush_usage rows.

(** [repo::load_current_usage]. *)
Definition load_current_usage (minute_start day_start : Z) (d : Db) : list (UsageKey * UsageCount) :=
  filter (λ '((p, ch, cl, g, ws), _),
      (g = granularity.MINUTE ∧ ws = minute_start) ∨ (g = granularity.DAY ∧ ws = day_start))
    (map_to_list (db_usage d)).

(** The body of the loop in [rebuild_from_db]. *)
Definition restore_row (m : gmap QuotaKey Counters) (row : UsageKey * UsageCount)
    : gmap QuotaKey Counters :=
  let '((p, ch, cl, g, ws), u) := row in
  let c := default default_counters (m !! (p, ch, cl)) in
  <[(p, ch, cl) :=
      if decide (g = granularity.MINUTE) then
        MkCounters (Some ws) (us_sent u) (us_blocked u) (day_window c) (day_sent c) (day_blocked c)
      else
        MkCounters (minute_window c) (minute_sent c) (minute_blocked c) (Some ws) (us_sent u) (us_blocked u)]> m.

(** [QuotaTracker::rebuild_from_db]. *)
Definition rebuild_from_db (q : QuotaTracker) (now : Z) : Eff SqlxError QuotaTracker :=
  rows ←! query (λ _, load_current_usage (minute_window_start now) (day_window_start (qt_tz q) now));
  eret (set_counters (λ m, fold_left restore_row rows m) q).
End Tracker.

Arguments QuotaTracker Tz : clear implicits.

(** ** The two windows, uniformly *)

Inductive gran : Type := Minute | Day.
#[export] Instance gran_eq_dec : EqDecision gran.
Proof. solve_decision. Defined.

Definition g_window (g : gran) (c : Counters) : option Z :=
  match g with Minute => minute_window c | Day => day_window c end.
Definition g_sent (g : gran) (c : Counters) : Z :=
  match g with Minute => minute_sent c | Day => day_sent c end.
Definition g_limit (g : gran) (e : EffectiveQuota) : option Z :=
  match g with Minute => eq_per_minute e | Day => eq_per_day e end.

Section Windows.
Context {Tz : Type} `{!TimeZone Tz}.
Implicit Types (q : QuotaTracker Tz) (key : QuotaKey).

Definition g_start (g : gran) (tz : Tz) (now : Z) : Z :=
  match g with Minute => minute_window_start now | Day => day_window_start tz now end.

(** What has been sent for [key] in the window starting at [m]. *)
Definition sent_in (g : gran) (m : Z) q key : Z :=
  match qt_counters q !! key with
  | Some c => if decide (g_window g c = Some m) then g_sent g c else 0
  | None => 0
  end.

Lemma g_window_rolled g q key now : g_window g (rolled q key now) = Some (g_start g (qt_tz q) now).
Proof. unfold rolled, roll_day, roll_minute. destruct g; simpl; repeat case_decide; done. Qed.

Lemma g_sent_rolled g q key now :
  g_sent g (rolled q key now) = sent_in g (g_start g (qt_tz q) now) q key.
Proof.
  unfold rolled, roll_day, roll_minute, sent_in.
  destruct (qt_counters q !! key) as [c|]; simpl; destruct g; simpl;
    repeat (case_decide; simpl in *); congruence || done.
Qed.

(** The step a call makes, seen through the counters of one key. *)
Lemma check_and_record_step q p ch cl now q' dec :
  check_and_record q p ch cl now = (q', dec) →
  qt_tz q' = qt_tz q ∧ qt_config q' = qt_config q ∧
  (∀ key, key ≠ (p, ch, cl) → qt_counters q' !! key = qt_counters q !! key) ∧
  ∃ c, qt_counters q' !! (p, ch, cl) = Some c ∧
    (∀ g, g_window g c = Some (g_start g (qt_tz q) now)) ∧
    (∀ g, g_sent g c = sent_in g (g_start g (qt_tz q) now) q (p, ch, cl)
                       + (if is_defer dec then 0 else 1)).
Proof.
  intros H.
  assert (∃ c0, q' = set_counters (insert (p, ch, cl) c0) q ∧
    (c0 = bump_sent (rolled q (p, ch, cl) now) ∧ is_defer dec = false ∨
     (c0 = bump_day_blocked (rolled q (p, ch, cl) now)
      ∨ c0 = bump_minute_blocked (rolled q (p, ch, cl) now)) ∧ is_defer dec = true)) as (c0 & -> & Hc).
  { unfold check_and_record, record_admit in H.
    repeat case_match; simplify_eq; eexists; (split; [done|]); simpl; tauto. }
  simpl. split_and!; [done..| |].
  - intros key Hne. by rewrite lookup_insert_ne.
  - exists c0. rewrite lookup_insert_eq. split_and!; [done|..]; intros g.
    + rewrite <- (g_window_rolled g q (p, ch, cl) now).
      destruct Hc as [[-> _]|[[->| ->] _]]; by destruct g.
    + rewrite <- g_sent_rolled. destruct Hc as [[-> ->]|[[->| ->] ->]]; destruct g; simpl; lia.
Qed.

Lemma sent_in_step g m q p ch cl now q' dec :
  check_and_record q p ch cl now = (q', dec) →
  sent_in g m q' (p, ch, cl) =
    if decide (m = g_start g (qt_tz q) now)
    then sent_in g m q (p, ch, cl) + (if is_defer dec then 0 else 1) else 0.
Proof.
  intros H. destruct (check_and_record_step _ _ _ _ _ _ _ H) as (_ & _ & _ & c & Hc & Hw & Hs).
  unfold sent_in at 1. rewrite Hc, Hw. repeat case_decide; simplify_eq; [by rewrite Hs|done].
Qed.

(** A hard limit that is used up defers the call. *)
Lemma hard_breach_defers g q p ch cl now q' dec e limit :
  cl ≠ class.AUTH → qt_config q !! (p, ch, cl) = Some e →
  eq_enforcement e = enforcement.HARD → g_limit g e = Some limit →
  limit <= sent_in g (g_start g (qt_tz q) now) q (p, ch, cl) →
  check_and_record q p ch cl now = (q', dec) → is_defer dec = true.
Proof.
  intros Ha Hcfg Hh Hl Hle H. unfold check_and_record in H. rewrite decide_False, Hcfg in H by done.
  rewrite <- g_sent_rolled in Hle.
  assert (breach (g_limit g e) (g_sent g (rolled q (p, ch, cl) now)) = true) as Hb.
  { rewrite Hl; simpl. by apply Z.leb_le. }
  rewrite decide_True in H by done.
  destruct g; simpl in Hb; rewrite Hb in H; rewrite ?orb_true_r in H; simpl in H;
    repeat case_match; by simplify_eq.
Qed.

(** ** Runs of the gate *)

(** A call of the gate: producer, channel, class and the time it is made. *)
Definition gate_call : Type := (N * string * string) * Z.

Fixpoint run_gate q (calls : list gate_call) : QuotaTracker Tz * list QuotaDecision :=
  match calls with
  | [] => (q, [])
  | ((p, ch, cl), now) :: calls =>
      let '(q1, dec) := check_and_record q p ch cl now in
      let '(q2, decs) := run_gate q1 calls in
      (q2, dec :: decs)
  end.

(** How many of a run's calls for [key] in the window at [m] were let through. *)
Fixpoint let_through (g : gran) (tz : Tz) key (m : Z)
    (calls : list gate_call) (decs : list QuotaDecision) : Z :=
  match calls, decs with
  | (key', now) :: calls, dec :: decs =>
      (if decide (key' = key ∧ g_start g tz now = m) then (if is_defer dec then 0 else 1) else 0)
      + let_through g tz key m calls decs
  | _, _ => 0
  end.

(** Windows never start earlier for a later call. *)
Definition windows_ordered (g : gran) (tz : Tz) (calls : list gate_call) : Prop :=
  StronglySorted (λ c1 c2 : gate_call, g_start g tz c1.2 <= g_start g tz c2.2) calls.

Lemma let_through_later g tz key m calls decs :
  Forall (λ c : gate_call, m < g_start g tz c.2) calls → let_through g tz key m calls decs = 0.
Proof.
  intros H. revert decs. induction H as [|[k now] calls Hm _ IH]; intros [|dec decs]; simpl; try done.
  rewrite IH, decide_False; [done|]. simpl in Hm. intros [_ ?]. lia.
Qed.

Lemma hard_limit_run g q p ch cl e limit calls :
  cl ≠ class.AUTH → qt_config q !! (p, ch, cl) = Some e →
  eq_enforcement e = enforcement.HARD → g_limit g e = Some limit →
  windows_ordered g (qt_tz q) calls →
  (∀ c w, qt_counters q !! (p, ch, cl) = Some c → g_window g c = Some w →
     Forall (λ x : gate_call, w <= g_start g (qt_tz q) x.2) calls) →
  ∀ m, sent_in g m q (p, ch, cl) <= limit →
    let_through g (qt_tz q) (p, ch, cl) m calls (run_gate q calls).2
    + sent_in g m q (p, ch, cl) <= limit.
Proof.
  intros Ha Hcfg Hh Hl. revert q Hcfg.
  induction calls as [|[[[p' ch'] cl'] now] calls IH]; intros q Hcfg Hord Hwin m Hm; simpl; [lia|].
  inversion Hord as [|?? Hord' Hall]; subst. simpl in *.
  destruct (check_and_record q p' ch' cl' now) as [q1 dec] eqn:Hck.
  destruct (check_and_record_step _ _ _ _ _ _ _ Hck) as (Htz & Hc & Hother & c & Hcc & Hw & _).
  assert (∀ m', sent_in g m' q1 (p, ch, cl) <= limit →
    let_through g (qt_tz q) (p, ch, cl) m' calls (run_gate q1 calls).2
    + sent_in g m' q1 (p, ch, cl) <= limit) as IH1.
  { rewrite <- Htz. apply IH; [by rewrite Hc|by rewrite Htz|]. rewrite Htz. intros c1 w Hc1 Hw1.
    destruct (decide ((p, ch, cl) = (p', ch', cl'))) as [Heq|Hne].
    - rewrite <- Heq in Hcc. rewrite Hcc in Hc1. injection Hc1 as <-. rewrite Hw in Hw1. by simplify_eq.
    - rewrite Hother in Hc1 by done. specialize (Hwin _ _ Hc1 Hw1). by inversion Hwin. }
  destruct (run_gate q1 calls) as [q2 decs]; simpl in *.
  destruct (decide ((p', ch', cl') = (p, ch, cl))) as [Heq|Hne].
  2: { rewrite decide_False by tauto.
       assert (sent_in g m q1 (p, ch, cl) = sent_in g m q (p, ch, cl)) as Hsame.
       { unfold sent_in. by rewrite Hother. }
       rewrite <- Hsame in Hm |- *. specialize (IH1 m Hm). lia. }
  simplify_eq. pose proof (sent_in_step g m _ _ _ _ _ _ _ Hck) as Hstep.
  destruct (decide (m = g_start g (qt_tz q) now)) as [->|Hne].
  - rewrite decide_True by done.
    assert (is_defer dec = false → sent_in g (g_start g (qt_tz q) now) q (p, ch, cl) < limit) as Hroom.
    { intros Hd. destruct (Z.lt_ge_cases (sent_in g (g_start g (qt_tz q) now) q (p, ch, cl)) limit); [done|].
      exfalso. enough (is_defer dec = true) by congruence. by eapply hard_breach_defers. }
    specialize (IH1 (g_start g (qt_tz q) now)). rewrite Hstep in IH1.
    destruct (is_defer dec); [specialize (IH1 ltac:(lia))|specialize (Hroom eq_refl); specialize (IH1 ltac:(lia))]; lia.
  - rewrite decide_False by naive_solver. specialize (IH1 m). rewrite Hstep in IH1.
    unfold sent_in in *. destruct (qt_counters q !! (p, ch, cl)) as [c0|] eqn:Hc0; [|specialize (IH1 ltac:(lia)); lia].
    case_decide as Hw0; [|specialize (IH1 ltac:(lia)); lia].
    specialize (Hwin _ _ eq_refl Hw0). apply Forall_cons in Hwin as [Hm1 _]. simpl in Hm1.
    rewrite let_through_later; [lia|].
    eapply Forall_impl; [exact Hall|]. intros x ?. simpl in *. lia.
Qed.
End Windows.

Section Usage.
Context {Tz : Type} `{!TimeZone Tz}.
Implicit Types (q : QuotaTracker Tz).

Definition upsert_all (rows : list (UsageKey * UsageCount)) (m : gmap UsageKey UsageCount)
    : gmap UsageKey UsageCount :=
  foldl (λ m r, <[r.1 := r.2]> m) m rows.

Lemma flush_rows_calm rows (w : W) :
  w_env w = [] → flush_rows rows w = (set_db (on_usage (upsert_all rows) (w_db w)) w, Ok tt).
Proof.
  revert w. induction rows as [|row rows IH]; intros w He.
  - simpl. unfold eret. destruct w as [[] ? ? ? ?]; done.
  - simpl. unfold ebind, flush_row. rewrite exec_calm by done. rewrite IH by done. done.
Qed.

Lemma flush_calm q (w : W) :
  calm w → flush q w =
    (set_db (on_usage (upsert_all (map_to_list (qt_counters q) ≫= usage_rows)) (w_db w)) w, Ok tt).
Proof.
  intros Hc. unfold flush. case_decide as Hn.
  { rewrite Hn. unfold eret. by destruct w as [[] ? ? ? ?]. }
  unfold flush_usage. set (d' := on_usage _ _).
  rewrite (transaction_calm _ _ w (set_db d' w) tt);
    [by rewrite set_tx_set_db, set_tx_calm|done|by rewrite flush_rows_calm by apply Hc|apply Hc|done].
Qed.

Lemma upsert_all_lookup rows m k v :
  (k, v) ∈ rows → (∀ v', (k, v') ∈ rows → v' = v) → upsert_all rows m !! k = Some v.
Proof.
  unfold upsert_all. induction rows as [|[k' v'] rows IH] using rev_ind; [by intros ?%not_elem_of_nil|].
  rewrite foldl_snoc; simpl. intros Hin Hf. destruct (decide (k' = k)) as [->|Hne].
  - rewrite lookup_insert_eq. f_equal. apply Hf, elem_of_app. right. by apply list_elem_of_singleton.
  - rewrite lookup_insert_ne by done. apply IH.
    + apply elem_of_app in Hin as [?|Heq%list_elem_of_singleton]; [done|]. by simplify_eq.
    + intros v'' ?. apply Hf, elem_of_app. by left.
Qed.

(** The usage row of a counter's window. *)
Definition usage_of (g : gran) (c : Counters) : UsageCount :=
  match g with
  | Minute => MkUsage (minute_sent c) (minute_blocked c)
  | Day => MkUsage (day_sent c) (day_blocked c)
  end.
Definition g_name (g : gran) : string :=
  match g with Minute => granularity.MINUTE | Day => granularity.DAY end.

Lemma elem_of_usage_rows key c (k : UsageKey) u :
  (k, u) ∈ usage_rows (key, c) ↔
  ∃ g ws, g_window g c = Some ws ∧ k = (key, g_name g, ws) ∧ u = usage_of g c.
Proof.
  destruct key as [[p ch] cl]. unfold usage_rows. rewrite elem_of_app. split.
  - intros [H|H].
    + destruct (minute_window c) as [ws|] eqn:Hw; [|by apply not_elem_of_nil in H].
      apply list_elem_of_singleton in H. simplify_eq. by exists Minute, ws.
    + destruct (day_window c) as [ws|] eqn:Hw; [|by apply not_elem_of_nil in H].
      apply list_elem_of_singleton in H. simplify_eq. by exists Day, ws.
  - intros (g & ws & Hw & -> & ->). destruct g; simpl in *; rewrite Hw; [left|right];
      by apply list_elem_of_singleton.
Qed.

Lemma flushed_lookup q (m : gmap UsageKey UsageCount) key c g ws :
  qt_counters q !! key = Some c → g_window g c = Some ws →
  upsert_all (map_to_list (qt_counters q) ≫= usage_rows) m !! (key, g_name g, ws)
  = Some (usage_of g c).
Proof.
  intros Hc Hw. apply upsert_all_lookup.
  - apply list_elem_of_bind. exists (key, c). split; [|by apply elem_of_map_to_list].
    apply elem_of_usage_rows. eauto.
  - intros v' Hv. apply list_elem_of_bind in Hv as ([key' c'] & Hr & Hin).
    apply elem_of_map_to_list in Hin. apply elem_of_usage_rows in Hr as (g' & ws' & Hw' & Hk & ->).
    simplify_eq. destruct g, g'; simpl in *; try done.
Qed.

(** The window of one granularity, its counts included. *)
Definition g_part (g : gran) (o : option Counters) : option Z * UsageCount :=
  let c := default default_counters o in (g_window g c, usage_of g c).

Lemma restore_row_part g m key g' ws u k :
  g_part g (restore_row m ((key, g_name g', ws), u) !! k) =
    if decide (k = key ∧ g = g') then (Some ws, u) else g_part g (m !! k).
Proof.
  destruct key as [[p ch] cl]. unfold restore_row.
  destruct (decide (k = (p, ch, cl))) as [->|Hne].
  - rewrite lookup_insert_eq. destruct g, g'; simpl;
      try rewrite decide_True by done; try rewrite decide_False by (intros [? ?]; done);
      unfold g_part; simpl; by destruct u.
  - rewrite lookup_insert_ne by done. rewrite decide_False; [done|tauto].
Qed.

Lemma restore_rows_part g rows m k ws u :
  Forall (λ r : UsageKey * UsageCount, ∃ key g' ws' u', r = ((key, g_name g', ws'), u')) rows →
  ((k, g_name g, ws), u) ∈ rows →
  (∀ ws' u', ((k, g_name g, ws'), u') ∈ rows → ws' = ws ∧ u' = u) →
  g_part g (fold_left restore_row rows m !! k) = (Some ws, u).
Proof.
  induction rows as [|r rows IH] using rev_ind; [by intros ? ?%not_elem_of_nil|].
  intros Hall Hin Hf. rewrite fold_left_app; simpl.
  apply Forall_app in Hall as [Hall Hr]. apply Forall_singleton in Hr as (key & g' & ws' & u' & ->).
  rewrite restore_row_part. case_decide as Hd.
  - destruct Hd as [-> ->]. destruct (Hf ws' u') as [-> ->]; [|done].
    apply elem_of_app. right. by apply list_elem_of_singleton.
  - apply IH; [done| |intros; apply Hf, elem_of_app; by left].
    apply elem_of_app in Hin as [?|Heq%list_elem_of_singleton]; [done|]. exfalso. apply Hd.
    destruct g, g'; simplify_eq/=; done.
Qed.

Lemma g_part_full o c :
  is_Some (g_window Minute c) → (∀ g, g_part g o = (g_window g c, usage_of g c)) → o = Some c.
Proof.
  intros [ws Hws] H. pose proof (H Minute) as Hm. pose proof (H Day) as Hd.
  destruct o as [c'|]; unfold g_part in *; simpl in *; [|congruence].
  destruct c, c'; simpl in *; simplify_eq. done.
Qed.
End Usage.

(** ** Overrides *)

Definition override_key (o : ProducerQuotaOverride) : QuotaKey :=
  (po_producer_id o, po_channel o, po_class o).

Lemma apply_overrides_lookup os m key :
  fold_left apply_override os m !! key
  = (λ e, fold_left (λ e o, if decide (override_key o = key) then raise_per_day (po_per_day o) e else e) os e)
    <$> m !! key.
Proof.
  revert m. induction os as [|o os IH]; intros m; simpl; [by destruct (m !! key)|].
  rewrite IH. unfold apply_override. rewrite lookup_alter. unfold override_key.
  case_decide; subst; by destruct (m !! _).
Qed.

Lemma raise_fold key os pm b en :
  fold_left (λ e o, if decide (override_key o = key) then raise_per_day (po_per_day o) e else e) os
    (MkEffective pm (Some b) en)
  = MkEffective pm (Some (fold_left Z.max (po_per_day <$> filter (λ o, override_key o = key) os) b)) en.
Proof.
  revert b. induction os as [|o os IH]; intros b; simpl; [done|].
  rewrite filter_cons. case_decide; simpl; by rewrite <- IH.
Qed.

Lemma fold_max_bounds l b : b <= fold_left Z.max l b ∧ ∀ x, x ∈ l → x <= fold_left Z.max l b.
Proof.
  revert b. induction l as [|y l IH]; intros b; simpl.
  - split; [lia|]. by intros x ?%not_elem_of_nil.
  - destruct (IH (Z.max b y)) as [H1 H2]. split; [lia|]. intros x [->|?]%elem_of_cons; [lia|auto].
Qed.

(** ** Properties *)

Section Properties.
Context {Tz : Type} `{!TimeZone Tz} `{!TimeZoneLaws Tz}.

(** C35. A hard quota is a hard ceiling: over any run of the gate, in any
    interleaving of producers, the messages let through for a key in any one
    minute (or day) window never exceed its per-minute (per-day) limit, as
    long as the windows of later calls do not start earlier. *)
Theorem hard_quota_never_exceeded g (q : QuotaTracker Tz) p ch cl e limit calls m :
  cl ≠ class.AUTH → qt_config q !! (p, ch, cl) = Some e →
  eq_enforcement e = enforcement.HARD → g_limit g e = Some limit → 0 <= limit →
  qt_counters q !! (p, ch, cl) = None → windows_ordered g (qt_tz q) calls →
  let_through g (qt_tz q) (p, ch, cl) m calls (run_gate q calls).2 <= limit.
Proof.
  intros Ha Hcfg Hh Hl H0 Hn Hord.
  assert (sent_in g m q (p, ch, cl) = 0) as Hz by (unfold sent_in; by rewrite Hn).
  pose proof (hard_limit_run g q p ch cl e limit calls Ha Hcfg Hh Hl Hord) as H.
  specialize (H ltac:(by rewrite Hn) m). rewrite Hz in H. lia.
Qed.

(** Only a hard quota defers: authentication traffic, keys without a
    quota and soft quotas are always let through, and the message is counted
    in both current windows. *)
Theorem only_hard_quotas_defer (q q' : QuotaTracker Tz) p ch cl now dec :
  check_and_record q p ch cl now = (q', dec) →
  (∀ e, cl ≠ class.AUTH → qt_config q !! (p, ch, cl) = Some e → eq_enforcement e ≠ enforcement.HARD) →
  is_defer dec = false ∧
  ∀ g, sent_in g (g_start g (qt_tz q) now) q' (p, ch, cl)
       = sent_in g (g_start g (qt_tz q) now) q (p, ch, cl) + 1.
Proof.
  intros H Hno. assert (is_defer dec = false) as Hd.
  { unfold check_and_record in H. repeat case_match; simplify_eq; try done;
      exfalso; eapply Hno; eauto. }
  split; [done|]. intros g. rewrite (sent_in_step _ _ _ _ _ _ _ _ _ H), decide_True by done.
  by rewrite Hd.
Qed.

(** A deferral lies in the future: a minute breach reschedules past the
    current instant, and so does a day breach in a zone whose clock is never
    set back and whose next midnight exists. *)
Theorem defer_is_in_the_future (q q' : QuotaTracker Tz) p ch cl now t :
  never_set_back (qt_tz q) →
  from_local (qt_tz q) (and_time (date_naive (to_local (qt_tz q) now) + 1) 0) ≠ LNone →
  check_and_record q p ch cl now = (q', Defer t) → now < t.
Proof.
  intros Hmono Hex H.
  assert (t = next_day_window_start (qt_tz q) now ∨ t = minute_window_start now + minute) as [->| ->].
  { unfold check_and_record in H. repeat case_match; simplify_eq; auto. }
  - unfold next_day_window_start, resolve_local_midnight.
    destruct (earliest _) as [u|] eqn:Hu; [|by destruct (from_local _ _)].
    apply from_local_sound in Hu. destruct (Z.lt_ge_cases now u) as [?|Hle]; [done|].
    specialize (Hmono u now Hle). rewrite Hu in Hmono. exfalso.
    pose proof (and_time_date_time (to_local (qt_tz q) now)).
    pose proof (time_of_bound (to_local (qt_tz q) now)). unfold and_time in *. lia.
  - unfold minute_window_start. pose proof (duration_trunc_bound now minute). unfold minute in *.
    assert (0 < 60 * second) by done. lia.
Qed.

(** Counters survive a restart: after a flush, a tracker rebuilt from
    [producer_usage] within the same minute and day holds every counter of
    those windows unchanged. *)
Theorem flush_then_rebuild_restores (q q0 : QuotaTracker Tz) now (w : W) key c :
  calm w → qt_tz q0 = qt_tz q →
  qt_counters q !! key = Some c →
  (∀ g, g_window g c = Some (g_start g (qt_tz q) now)) →
  ∃ w1 w2 q', flush q w = (w1, Ok tt) ∧ rebuild_from_db q0 now w1 = (w2, Ok q') ∧
    qt_counters q' !! key = Some c.
Proof.
  intros Hw Htz Hc Hwin. do 3 eexists. split; [by apply flush_calm|]. split.
  { unfold rebuild_from_db, ebind. rewrite query_calm by apply Hw. done. }
  simpl. apply g_part_full; [rewrite Hwin; eauto|]. intros g. rewrite Hwin.
  apply restore_rows_part.
  - apply Forall_forall. intros [[[[[p ch] cl] gn] ws] u] Hin.
    apply list_elem_of_filter in Hin as [[[-> _]|[-> _]] _]; [by exists (p, ch, cl), Minute, ws, u|].
    by exists (p, ch, cl), Day, ws, u.
  - apply list_elem_of_filter. split.
    + destruct key as [[p ch] cl]. rewrite Htz. destruct g; [left|right]; done.
    + apply elem_of_map_to_list. simpl. by apply flushed_lookup.
  - intros ws' u' Hin. apply list_elem_of_filter in Hin as [Hws Hin].
    assert (ws' = g_start g (qt_tz q) now) as ->.
    { destruct key as [[p ch] cl]. rewrite Htz in Hws. destruct g; simpl in *; naive_solver. }
    split; [done|]. apply elem_of_map_to_list in Hin. simpl in Hin.
    rewrite (flushed_lookup q _ key c g _ Hc (Hwin g)) in Hin. by simplify_eq.
Qed.
End Properties.

(** Overrides only raise a ceiling that is set: the effective per-day limit
    is the largest of the quota's own limit and the active overrides of its key,
    and nothing else of the quota changes. *)
Theorem overrides_only_raise_a_set_ceiling quotas overrides key pq base :
  quotas !! key = Some pq → pq_per_day pq = Some base →
  ∃ limit, merge_config quotas overrides !! key
           = Some (MkEffective (pq_per_minute pq) (Some limit) (pq_enforcement pq))
    ∧ base <= limit
    ∧ (∀ o, o ∈ overrides → override_key o = key → po_per_day o <= limit)
    ∧ (limit = base ∨ ∃ o, o ∈ overrides ∧ override_key o = key ∧ po_per_day o = limit).
Proof.
  intros Hq Hb. unfold merge_config. rewrite apply_overrides_lookup, lookup_fmap, Hq; simpl.
  unfold effective_of. rewrite Hb, raise_fold.
  set (l := po_per_day <$> filter (λ o, override_key o = key) overrides).
  exists (fold_left Z.max l base). split; [done|].
  destruct (fold_max_bounds l base) as [H1 H2]. split_and!; [done|..].
  - intros o Ho Hk. apply H2, list_elem_of_fmap_2. by apply list_elem_of_filter.
  - assert (∀ l b, fold_left Z.max l b = b ∨ fold_left Z.max l b ∈ l) as Hin.
    { clear. induction l as [|y l IH]; intros b; simpl; [by left|].
      destruct (IH (Z.max b y)) as [Heq|Hin]; [|right; by apply elem_of_cons; right].
      rewrite Heq. destruct (Z.max_spec b y) as [[_ ->]|[_ ->]]; [right; by apply elem_of_cons; left|by left]. }
    destruct (Hin l base) as [->|Hl]; [by left|right].
    apply list_elem_of_fmap in Hl as (o & -> & Ho). apply list_elem_of_filter in Ho. naive_solver.
Qed.

(** An override on a quota that sets no daily limit imposes one: a hard
    producer that has already sent as many messages as the override grants is
    deferred, although without the override it would be let through. *)
Theorem override_caps_an_unlimited_quota {Tz} `{!TimeZone Tz} (tz : Tz) counters p ch cl o now :
  cl ≠ class.AUTH → override_key o = (p, ch, cl) →
  let quotas := {[ (p, ch, cl) := MkQuota None None enforcement.HARD ]} in
  let tracker os := MkTracker tz (merge_config quotas os) counters in
  po_per_day o <= sent_in Day (day_window_start tz now) (tracker [o]) (p, ch, cl) →
  is_defer (check_and_record (tracker [o]) p ch cl now).2 = true
  ∧ is_defer (check_and_record (tracker []) p ch cl now).2 = false.
Proof.
  intros Ha Hk quotas tracker Hs. split.
  - destruct (check_and_record (tracker [o]) p ch cl now) as [q' dec] eqn:Hc; simpl.
    apply (hard_breach_defers Day (tracker [o]) p ch cl now q' dec
      (MkEffective None (Some (po_per_day o)) enforcement.HARD) (po_per_day o)); try done.
    simpl. unfold merge_config. rewrite apply_overrides_lookup. unfold quotas.
    rewrite lookup_fmap, lookup_singleton_eq; simpl. rewrite decide_True by done. done.
  - unfold check_and_record. rewrite decide_False by done. unfold tracker, quotas, merge_config; simpl.
    by rewrite lookup_fmap, lookup_singleton_eq.
Qed.

(** ** Concrete runs *)

Definition demo_key : QuotaKey := (7%N, channel.SMS, class.MARKETING).
Definition demo_tracker (tz : Shift) (per_minute per_day : option Z) : QuotaTracker Shift :=
  MkTracker tz {[ demo_key := MkEffective per_minute per_day enforcement.HARD ]} ∅.

(** Where midnight does not exist, a day breach can be rescheduled to an
    instant that has already passed: at 23:00 in Santiago on the eve of its
    clock change the deferral of a producer that used up its day lands three
    hours in the past. *)
Theorem day_defer_can_land_in_the_past :
  ∃ now t, (check_and_record (demo_tracker santiago_spring None (Some 0))
              7%N channel.SMS class.MARKETING now).2 = Defer t ∧ t = now - 3 * hour.
Proof. exists (1788663600 * second). eexists. split; [vm_compute; reflexivity|vm_compute; reflexivity]. Qed.

Lemma hard_quota_witness :
  let_through Minute utc_shift demo_key 0
    [(demo_key, 0); (demo_key, 1); (demo_key, 2); (demo_key, 3)]
    (run_gate (demo_tracker utc_shift (Some 2) None)
       [(demo_key, 0); (demo_key, 1); (demo_key, 2); (demo_key, 3)]).2 <= 2.
Proof.
  apply (hard_quota_never_exceeded Minute (demo_tracker utc_shift (Some 2) None)
    7%N channel.SMS class.MARKETING (MkEffective (Some 2) None enforcement.HARD) 2);
    try done; try reflexivity.
  repeat (constructor; [|repeat constructor; vm_compute; discriminate]). constructor.
Defined.

Lemma only_hard_witness :
  is_defer (check_and_record (new "UTC" : QuotaTracker Shift) 7%N channel.SMS class.MARKETING 5).2 = false.
Proof.
  apply (only_hard_quotas_defer (new "UTC" : QuotaTracker Shift)
    (check_and_record (new "UTC" : QuotaTracker Shift) 7%N channel.SMS class.MARKETING 5).1
    7%N channel.SMS class.MARKETING 5); [reflexivity|].
  intros e _ H. vm_compute in H. discriminate.
Defined.

Lemma defer_future_witness :
  5 < next_day_window_start utc_shift 5.
Proof.
  apply (defer_is_in_the_future (demo_tracker utc_shift None (Some 0))
    (check_and_record (demo_tracker utc_shift None (Some 0)) 7%N channel.SMS class.MARKETING 5).1
    7%N channel.SMS class.MARKETING 5).
  - intros u v Huv. simpl. unfold shift_to_local. simpl. repeat case_match; lia.
  - vm_compute. discriminate.
  - vm_compute. reflexivity.
Defined.

Definition demo_sent : QuotaTracker Shift :=
  (check_and_record (demo_tracker utc_shift (Some 2) None) 7%N channel.SMS class.MARKETING 5).1.

Lemma flush_rebuild_witness :
  ∃ w1 w2 q', flush demo_sent (World empty_db 5 false [] [] : W) = (w1, Ok tt)
    ∧ rebuild_from_db (demo_tracker utc_shift (Some 2) None) 6 w1 = (w2, Ok q')
    ∧ qt_counters q' !! demo_key = Some (MkCounters (Some 0) 1 0 (Some 0) 1 0).
Proof.
  apply (flush_then_rebuild_restores demo_sent).
  - done.
  - done.
  - vm_compute. reflexivity.
  - intros []; vm_compute; reflexivity.
Defined.

Definition demo_override : ProducerQuotaOverride :=
  MkOverride 7%N channel.SMS class.MARKETING 50 0 100 "ops" "campaign".

Lemma overrides_raise_witness :
  ∃ limit, merge_config {[ demo_key := MkQuota None (Some 10) enforcement.HARD ]} [demo_override] !! demo_key
           = Some (MkEffective None (Some limit) enforcement.HARD)
    ∧ 10 <= limit
    ∧ (∀ o, o ∈ [demo_override] → override_key o = demo_key → po_per_day o <= limit)
    ∧ (limit = 10 ∨ ∃ o, o ∈ [demo_override] ∧ override_key o = demo_key ∧ po_per_day o = limit).
Proof.
  apply (overrides_only_raise_a_set_ceiling
    {[ demo_key := MkQuota None (Some 10) enforcement.HARD ]} [demo_override] demo_key
    (MkQuota None (Some 10) enforcement.HARD) 10); reflexivity.
Defined.

Definition demo_zero_override : ProducerQuotaOverride :=
  MkOverride 7%N channel.SMS class.MARKETING 0 0 100 "ops" "campaign".

Lemma override_caps_witness :
  let quotas := {[ (7%N, channel.SMS, class.MARKETING) := MkQuota None None enforcement.HARD ]} in
  let tracker os := MkTracker utc_shift (merge_config quotas os) ∅ in
  is_defer (check_and_record (tracker [demo_zero_override]) 7%N channel.SMS class.MARKETING 5).2 = true
  ∧ is_defer (check_and_record (tracker []) 7%N channel.SMS class.MARKETING 5).2 = false.
Proof.
  refine (override_caps_an_unlimited_quota utc_shift ∅ 7%N channel.SMS class.MARKETING
    demo_zero_override 5 _ eq_refl _); [discriminate|vm_compute; discriminate].
Defined.
