(* ===== verification/QuietHours.v ===== *)
(** * Quiet hours

    Models [src/quiet_hours/window.rs]: the local window a send must avoid and
    the instant it is rescheduled to. The random jitter is an argument, a number
    of milliseconds within the range the code draws from. *)

From S2P Require Import Prelude Time.
From stdpp Require Import base strings list.
From Stdlib Require Import ZArith Lia.

Local Open Scope Z_scope.

Definition JITTER_MAX_MS : Z := 30 * 60 * 1000.
Definition MAX_GAP_SEARCH : Z := 4 * hour.

(** The two columns of [QuietHoursPolicy] the gate reads: times of day. *)
Record QuietHoursPolicy : Type := MkPolicy {
  qh_start_local : Z;
  qh_end_local : Z;
}.

Definition policy_wf (p : QuietHoursPolicy) : Prop :=
  0 <= qh_start_local p < day ∧ 0 <= qh_end_local p < day.

Definition wraps (p : QuietHoursPolicy) : bool := qh_end_local p <? qh_start_local p.

Definition in_window (p : QuietHoursPolicy) (t : Z) : bool :=
  if wraps p then (qh_start_local p <=? t) || (t <? qh_end_local p)
  else (qh_start_local p <=? t) && (t <? qh_end_local p).

Section Window.
Context {Tz : Type} `{!TimeZone Tz}.

(** The loop of [resolve_local]: a minute forward while the wall-clock time
    does not exist, up to the deadline. *)
Fixpoint resolve_loop (tz : Tz) (fuel : nat) (candidate deadline : Z) : option Z :=
  match fuel with
  | 0%nat => None
  | S fuel =>
      match from_local tz candidate with
      | LSingle u => Some u
      | LAmbiguous u _ => Some u
      | LNone =>
          let candidate := candidate + minute in
          if deadline <? candidate then None else resolve_loop tz fuel candidate deadline
      end
  end.

(** The search takes at most 241 turns: the candidate and 240 minutes after it. *)
Definition gap_fuel : nat := 241.

Definition resolve_local (tz : Tz) (date time : Z) : option Z :=
  let candidate := and_time date time in
  resolve_loop tz gap_fuel candidate (candidate + MAX_GAP_SEARCH).

(** [Tz::from_str(customer_tz).or_else(|_| Tz::from_str(tenant_default_tz)).ok()]. *)
Definition effective_tz (customer_tz tenant_default_tz : string) : option Tz :=
  match tz_from_str customer_tz with
  | Some tz => Some tz
  | None => tz_from_str tenant_default_tz
  end.

(** The date the window that contains the local time [l] ends on. *)
Definition end_date (p : QuietHoursPolicy) (l : Z) : Z :=
  if wraps p && (qh_start_local p <=? time_of l) then date_naive l + 1 else date_naive l.

Definition resolve_reschedule (now : Z) (customer_tz tenant_default_tz : string)
    (p : QuietHoursPolicy) (jitter_ms : Z) : option Z :=
  match effective_tz customer_tz tenant_default_tz with
  | None => None
  | Some tz =>
      let local_now := to_local tz now in
      if negb (in_window p (time_of local_now)) then None
      else match resolve_local tz (end_date p local_now) (qh_end_local p) with
           | None => None
           | Some window_end => Some (window_end + jitter_ms * millisecond)
           end
  end.

(** ** When the gate lets a message through *)

(** The gate has nothing to hold back, said without the search: no zone is known;
    or the local time lies outside the window on the face of the clock; or it lies
    inside and no minute of the four hours from the next end of the window on exists. *)
Definition gate_open (now : Z) (customer_tz tenant_default_tz : string) (p : QuietHoursPolicy) : Prop :=
  (tz_from_str (Tz:=Tz) customer_tz = None ∧ tz_from_str (Tz:=Tz) tenant_default_tz = None)
  ∨ ∃ tz, (tz_from_str customer_tz = Some tz ∨ tz_from_str (Tz:=Tz) customer_tz = None ∧ tz_from_str tenant_default_tz = Some tz)
    ∧ let local_now := to_local tz now in
      let window_end := local_now + (qh_end_local p - time_of local_now) mod day in
      ((qh_end_local p - qh_start_local p) mod day <= (time_of local_now - qh_start_local p) mod day
       ∨ ∀ k, (k <= 240)%nat → from_local tz (window_end + Z.of_nat k * minute) = LNone).

(** ** Lemmas *)

(** More fuel than the search needs changes nothing. *)
Lemma resolve_loop_fuel tz n m c deadline :
  deadline < c + Z.of_nat n * minute → (n <= m)%nat →
  resolve_loop tz m c deadline = resolve_loop tz n c deadline ∨ n = 0%nat.
Proof.
  revert m c. induction n as [|n IH]; intros [|m] c Hd Hle; simpl; auto; [lia|].
  left. destruct (from_local tz c); [|done..].
  destruct (Z.ltb_spec deadline (c + minute)); [done|].
  destruct (IH m (c + minute)) as [?| ->]; [lia..|done|].
  simpl in Hd. lia.
Qed.

(** The first existing wall-clock minute at or after [c]. *)
Definition first_valid_minute (tz : Tz) (c : Z) (k : nat) (u : Z) : Prop :=
  earliest (from_local tz (c + Z.of_nat k * minute)) = Some u
  ∧ ∀ j, (j < k)%nat → from_local tz (c + Z.of_nat j * minute) = LNone.

Lemma resolve_loop_Some tz n c deadline u :
  resolve_loop tz n c deadline = Some u →
  ∃ k, (k < n)%nat ∧ first_valid_minute tz c k u ∧ (k = 0%nat ∨ c + Z.of_nat k * minute <= deadline).
Proof.
  revert c. induction n as [|n IH]; intros c; simpl; [done|].
  destruct (from_local tz c) as [|v|v x] eqn:Hc.
  - destruct (Z.ltb_spec deadline (c + minute)); [done|]. intros Hs.
    destruct (IH _ Hs) as (k & Hk & [Hu Hj] & Hd). exists (S k). split; [lia|].
    replace (c + Z.of_nat (S k) * minute) with (c + minute + Z.of_nat k * minute) by lia.
    split; [|destruct Hd as [->|]; right; lia]. split.
    + by replace (c + Z.of_nat (S k) * minute) with (c + minute + Z.of_nat k * minute) by lia.
    + intros [|j] Hlt; [by rewrite Z.add_0_r|].
      replace (c + Z.of_nat (S j) * minute) with (c + minute + Z.of_nat j * minute) by lia.
      apply Hj. lia.
  - intros [= ->]. exists 0%nat. split; [lia|]. split; [|by left].
    split; [simpl; by rewrite Z.add_0_r, Hc|]. intros j Hlt. lia.
  - intros [= ->]. exists 0%nat. split; [lia|]. split; [|by left].
    split; [simpl; by rewrite Z.add_0_r, Hc|]. intros j Hlt. lia.
Qed.

Lemma resolve_loop_finds tz n c deadline k u :
  first_valid_minute tz c k u → (k < n)%nat → c + Z.of_nat k * minute <= deadline →
  resolve_loop tz n c deadline = Some u.
Proof.
  revert c k. induction n as [|n IH]; intros c k [Hu Hj] Hk Hd; [lia|]; simpl.
  destruct k as [|k].
  - simpl in Hu. rewrite Z.add_0_r in Hu. destruct (from_local tz c); simplify_eq/=; done.
  - pose proof (Hj 0%nat ltac:(lia)) as H0. simpl in H0. rewrite Z.add_0_r in H0. rewrite H0.
    destruct (Z.ltb_spec deadline (c + minute)); [time_lia|].
    apply (IH _ k); [|lia|lia]. split.
    + by replace (c + minute + Z.of_nat k * minute) with (c + Z.of_nat (S k) * minute) by lia.
    + intros j Hlt. replace (c + minute + Z.of_nat j * minute) with (c + Z.of_nat (S j) * minute) by lia.
      apply Hj. lia.
Qed.
Lemma resolve_loop_None tz n c deadline k :
  resolve_loop tz n c deadline = None → (k < n)%nat → (k = 0%nat ∨ c + Z.of_nat k * minute <= deadline) →
  from_local tz (c + Z.of_nat k * minute) = LNone.
Proof.
  revert c k. induction n as [|n IH]; intros c k Hn Hk Hd; [lia|]. simpl in Hn.
  destruct (from_local tz c) eqn:Hc; [|done..]. destruct k as [|k]; [by rewrite Z.add_0_r|].
  destruct (Z.ltb_spec deadline (c + minute)); [time_lia|].
  replace (c + Z.of_nat (S k) * minute) with (c + minute + Z.of_nat k * minute) by lia.
  apply IH; [done|lia|right; lia].
Qed.
End Window.

(** ** Properties *)

(** The window test is the test on the clock face: a local time is inside
    if and only if it is reached from the start of the window in less than the
    window's length, going around midnight when the window wraps. *)
Theorem in_window_is_circular p t :
  policy_wf p → 0 <= t < day →
  in_window p t = ((t - qh_start_local p) mod day <? (qh_end_local p - qh_start_local p) mod day).
Proof.
  intros [Hs He] Ht. unfold in_window, wraps.
  set (s := qh_start_local p) in *. set (e := qh_end_local p) in *.
  assert (∀ x, 0 <= x < day → (x - s) mod day = if s <=? x then x - s else x - s + day) as Hmod.
  { intros x Hx. destruct (Z.leb_spec s x).
    - apply Z.mod_small. lia.
    - symmetry. apply (Z.mod_unique_pos _ _ (-1)); lia. }
  rewrite !Hmod by done.
  destruct (Z.ltb_spec e s); destruct (Z.leb_spec s t); destruct (Z.leb_spec s e); simpl; try lia;
    symmetry; first [apply Z.ltb_lt; lia | apply Z.ltb_ge; lia
      | apply eq_true_iff_eq; rewrite !Z.ltb_lt; lia].
Qed.

(** Inside the window, its end is the next time the clock shows that time. *)
Lemma end_date_is_next p l :
  policy_wf p → in_window p (time_of l) = true →
  and_time (end_date p l) (qh_end_local p) = l + (qh_end_local p - time_of l) mod day.
Proof.
  intros [Hs He] Hin. pose proof (and_time_date_time l) as Hl. pose proof (time_of_bound l) as Ht.
  unfold in_window, end_date, wraps, and_time in *. set (s := qh_start_local p) in *. set (e := qh_end_local p) in *.
  set (x := time_of l) in *.
  assert ((e - x) mod day = if x <=? e then e - x else e - x + day) as ->.
  { destruct (Z.leb_spec x e); [apply Z.mod_small; lia|]. symmetry. apply (Z.mod_unique_pos _ _ (-1)); lia. }
  destruct (Z.ltb_spec e s); destruct (Z.leb_spec s x); destruct (Z.ltb_spec x e); destruct (Z.leb_spec x e); simpl in *; try done; lia.
Qed.

(** The gate skips its work exactly where it may. *)
Lemma reschedule_None {Tz : Type} `{!TimeZone Tz} now ctz dtz p jitter :
  policy_wf p → resolve_reschedule (Tz:=Tz) now ctz dtz p jitter = None → gate_open (Tz:=Tz) now ctz dtz p.
Proof.
  intros Hp. unfold resolve_reschedule, effective_tz, gate_open.
  destruct (tz_from_str ctz) as [tz|]; [|destruct (tz_from_str dtz) as [tz|]; [|by left]].
  all: intros Hr; right; exists tz; (split; [eauto|]); cbv zeta in *; rewrite (in_window_is_circular _ _ Hp (time_of_bound _)) in Hr.
  all: destruct (Z.ltb_spec ((time_of (to_local tz now) - qh_start_local p) mod day) ((qh_end_local p - qh_start_local p) mod day)); [right|left; lia].
  all: rewrite <- end_date_is_next by (done || (rewrite in_window_is_circular by (done || apply time_of_bound); by apply Z.ltb_lt)).
  all: simpl in Hr; destruct (resolve_local tz _ _) eqn:E; [done|]; intros k Hk.
  all: eapply resolve_loop_None; [exact E|unfold gap_fuel; lia|right; unfold MAX_GAP_SEARCH; time_lia].
Qed.

Section Properties.
Context {Tz : Type} `{!TimeZone Tz} `{!TimeZoneLaws Tz}.

(** Where a send is rescheduled, it is to the end of the window it is in
    plus at most half an hour: the base instant shows the window's end on the
    local clock, rounded forward to the first minute that exists if the end
    falls into a gap, and it is the earliest such instant. *)
Theorem reschedule_is_window_end_plus_jitter now ctz dtz p jitter t :
  0 <= jitter <= JITTER_MAX_MS →
  resolve_reschedule (Tz:=Tz) now ctz dtz p jitter = Some t →
  ∃ tz base k, effective_tz ctz dtz = Some tz
    ∧ in_window p (time_of (to_local tz now)) = true
    ∧ first_valid_minute tz (and_time (end_date p (to_local tz now)) (qh_end_local p)) k base
    ∧ (k <= 240)%nat
    ∧ to_local tz base
      = and_time (end_date p (to_local tz now)) (qh_end_local p) + Z.of_nat k * minute
    ∧ base <= t <= base + 30 * minute.
Proof.
  intros Hj. unfold resolve_reschedule. destruct (effective_tz ctz dtz) as [tz|]; [|done].
  destruct (in_window _ _) eqn:Hin; [|done]; simpl.
  destruct (resolve_local _ _ _) as [base|] eqn:Hr; [|done]. intros [= <-].
  apply resolve_loop_Some in Hr as (k & Hk & Hfirst & _). unfold gap_fuel in Hk.
  exists tz, base, k. split_and!; try done; [lia|by apply from_local_sound, Hfirst|..];
    unfold JITTER_MAX_MS, minute, second, millisecond in *; lia.
Qed.

(** In a zone whose clock is never set back, a send inside the window is
    rescheduled to a strictly later instant, unless the window's end falls
    into a gap of more than four hours; a send outside it goes out now. *)
Theorem quiet_hours_decision now ctz dtz p jitter tz :
  policy_wf p → 0 <= jitter → effective_tz ctz dtz = Some tz → never_set_back tz →
  (∃ k u, (k <= 240)%nat
     ∧ first_valid_minute tz (and_time (end_date p (to_local tz now)) (qh_end_local p)) k u) →
  if in_window p (time_of (to_local tz now))
  then ∃ t, resolve_reschedule now ctz dtz p jitter = Some t ∧ now < t
  else resolve_reschedule now ctz dtz p jitter = None.
Proof.
  intros [Hs He] Hj Htz Hmono (k & u & Hk & Hfirst). unfold resolve_reschedule. rewrite Htz.
  destruct (in_window _ _) eqn:Hin; [|done]; simpl. unfold resolve_local.
  rewrite (resolve_loop_finds tz gap_fuel _ _ k u Hfirst);
    [|unfold gap_fuel; lia|unfold MAX_GAP_SEARCH; time_lia].
  eexists. split; [done|].
  destruct Hfirst as [Hu _]. apply from_local_sound in Hu.
  enough (now < u) by time_lia.
  destruct (Z.lt_ge_cases now u) as [?|Hle]; [done|]. specialize (Hmono u now Hle).
  pose proof (and_time_date_time (to_local tz now)). pose proof (time_of_bound (to_local tz now)).
  rewrite Hu in Hmono. unfold in_window, end_date, and_time in *.
  destruct (wraps p) eqn:Hw; unfold wraps in Hw; simpl in *.
  - apply orb_true_iff in Hin. rewrite Z.leb_le, Z.ltb_lt in Hin.
    destruct (Z.leb_spec (qh_start_local p) (time_of (to_local tz now)));
      time_lia.
  - apply andb_true_iff in Hin. rewrite Z.leb_le, Z.ltb_lt in Hin.
    time_lia.
Qed.

(** The gap search terminates within its fuel: any larger number of turns
    resolves every local time to the same instant. *)
Theorem gap_search_terminates (tz : Tz) date time m :
  (gap_fuel <= m)%nat →
  resolve_loop tz m (and_time date time) (and_time date time + MAX_GAP_SEARCH)
  = resolve_local tz date time.
Proof.
  intros Hm. destruct (resolve_loop_fuel tz gap_fuel m (and_time date time)
    (and_time date time + MAX_GAP_SEARCH)) as [?|?]; [|done|done|done].
  unfold MAX_GAP_SEARCH, gap_fuel. time_lia.
Qed.
End Properties.

(** ** Concrete windows *)

(** On the night the clock is set back, a send inside the repeated hour is
    rescheduled into the past: in New York at the second 01:15 of 1 November
    2026, a window that ends at 01:30 yields an instant 45 minutes earlier. *)
Theorem set_back_reschedules_into_the_past :
  resolve_reschedule (Tz:=Shift) (1793513700 * second) "NewYork/Fall" "UTC"
    (MkPolicy 0 (90 * minute)) 0 = Some (1793513700 * second - 45 * minute).
Proof. vm_compute. reflexivity. Qed.

Lemma in_window_witness : in_window (MkPolicy (22 * hour) (7 * hour)) (23 * hour)
  = ((23 * hour - 22 * hour) mod day <? (7 * hour - 22 * hour) mod day).
Proof.
  apply (in_window_is_circular (MkPolicy (22 * hour) (7 * hour)) (23 * hour));
    [split; simpl; unfold day, hour, minute, second, millisecond; lia
    |unfold day, hour, minute, second, millisecond; lia].
Defined.

(** A window that ends at 02:30 on the day New York skips from 02:00 to 03:00. *)
Lemma reschedule_witness :
  ∃ tz base k, effective_tz (Tz:=Shift) "NewYork/Spring" "UTC" = Some tz
      ∧ in_window (MkPolicy 0 (150 * minute)) (time_of (to_local tz (1772949600 * second))) = true
      ∧ first_valid_minute tz (and_time (end_date (MkPolicy 0 (150 * minute))
          (to_local tz (1772949600 * second))) (150 * minute)) k base
      ∧ (k <= 240)%nat
      ∧ to_local tz base
        = and_time (end_date (MkPolicy 0 (150 * minute)) (to_local tz (1772949600 * second)))
            (150 * minute) + Z.of_nat k * minute
      ∧ base <= 1772953200 * second <= base + 30 * minute.
Proof.
  apply (reschedule_is_window_end_plus_jitter (Tz:=Shift) (1772949600 * second) "NewYork/Spring" "UTC"
    (MkPolicy 0 (150 * minute)) 0); [unfold JITTER_MAX_MS; lia|vm_compute; reflexivity].
Defined.

Lemma quiet_hours_witness :
  ∃ t, resolve_reschedule (Tz:=Shift) (23 * hour) "UTC" "UTC" (MkPolicy (22 * hour) (7 * hour)) 0 = Some t
    ∧ 23 * hour < t.
Proof.
  refine (quiet_hours_decision (Tz:=Shift) (23 * hour) "UTC" "UTC" (MkPolicy (22 * hour) (7 * hour)) 0
    utc_shift _ _ eq_refl _ _); [vm_compute; intuition discriminate|lia| |].
  - intros u v Huv. simpl. unfold shift_to_local; simpl. repeat case_match; lia.
  - exists 0%nat. eexists. split; [lia|]. split; [vm_compute; reflexivity|]. intros j Hlt. lia.
Defined.

Lemma gap_search_witness :
  resolve_loop utc_shift 300 (and_time 0 0) (and_time 0 0 + MAX_GAP_SEARCH) = resolve_local utc_shift 0 0.
Proof. apply (gap_search_terminates utc_shift 0 0 300). vm_compute. lia. Defined.
