(* ===== verification/Dek.v ===== *)
(** * Customer keys: cipher envelope, key cache, key lifecycle

    Models [src/encryption.rs], [src/key_cache.rs], and
    [src/customer_dek/{lifecycle,repo}.rs]. AES-GCM, the LRU cache crate and Vault
    Transit are interfaces with the laws the code relies on. *)

From S2P Require Import Prelude RustStd Time Schema.
From stdpp Require Import base gmap strings list.
From Stdlib Require Import ZArith Lia.

Local Open Scope effect_scope.
Local Open Scope Z_scope.

(** ** The cipher envelope *)

Inductive EncryptionError : Type := InvalidKeyLength | BlobTooShort | AeadError.

Definition NONCE_LEN : nat := 12.
Definition KEY_LEN : nat := 32.

(** [Aes256Gcm]: key, nonce, associated data, message. *)
Class Aead : Type := {
  aead_encrypt : string → string → string → string → option string;
  aead_decrypt : string → string → string → string → option string;
}.

(** Authenticated encryption inverts itself under the same key, nonce and
    associated data. *)
Class AeadLaws `{!Aead} : Prop := {
  aead_inverse key nonce aad msg ct :
    aead_encrypt key nonce aad msg = Some ct → aead_decrypt key nonce aad ct = Some msg;
}.

Section Envelope.
Context `{!Aead}.

(** [encryption::encrypt] with the nonce [Nonce::generate()] drew. *)
Definition encrypt (nonce dek aad plaintext : string) : result string EncryptionError :=
  if negb (String.length dek =? KEY_LEN)%nat then Err InvalidKeyLength
  else match aead_encrypt dek nonce aad plaintext with
       | None => Err AeadError
       | Some ciphertext => Ok (nonce +:+ ciphertext)
       end.

(** [encryption::decrypt]. *)
Definition decrypt (dek aad blob : string) : result string EncryptionError :=
  if negb (String.length dek =? KEY_LEN)%nat then Err InvalidKeyLength
  else if (String.length blob <? NONCE_LEN)%nat then Err BlobTooShort
  else match aead_decrypt dek (str_take NONCE_LEN blob) aad (str_drop NONCE_LEN blob) with
       | None => Err AeadError
       | Some plaintext => Ok plaintext
       end.
End Envelope.

(** ** The key cache *)

Abbreviation CacheEntry := (string * Z)%type (only parsing).

(** [lru::LruCache]: what it holds, and its three operations. *)
Class Lru (C : Type) : Type := {
  lru_view : C → gmap N CacheEntry;
  lru_get : N → C → C * option CacheEntry;
  lru_put : N → CacheEntry → C → C;
  lru_pop : N → C → C;
}.

(** A get finds what is held and drops nothing; a put holds the new entry and may
    evict others; a pop removes its key. *)
Class LruLaws (C : Type) `{!Lru C} : Prop := {
  lru_get_spec k c : (lru_get k c).2 = lru_view c !! k ∧ lru_view (lru_get k c).1 = lru_view c;
  lru_put_spec k e c : lru_view (lru_put k e c) !! k = Some e ∧ lru_view (lru_put k e c) ⊆ <[k := e]> (lru_view c);
  lru_pop_spec k c : lru_view (lru_pop k c) = delete k (lru_view c);
}.

Record KeyCache (C : Type) : Type := MkCache { kc_inner : C; kc_ttl : Z }.
Arguments MkCache {C} _ _.
Arguments kc_inner {C} _.
Arguments kc_ttl {C} _.

Section KeyCache.
Context {C : Type} `{!Lru C}.

(** [KeyCache::get] at an instant: a stale hit is evicted. *)
Definition cache_get (key : N) (now : Z) (c : KeyCache C) : KeyCache C * option string :=
  match lru_get key (kc_inner c) with
  | (inner, Some (plaintext, cached_at)) =>
      if now - cached_at <? kc_ttl c then (MkCache inner (kc_ttl c), Some plaintext)
      else (MkCache (lru_pop key inner) (kc_ttl c), None)
  | (inner, None) => (MkCache inner (kc_ttl c), None)
  end.

(** [KeyCache::put]. *)
Definition cache_put (key : N) (plaintext : string) (now : Z) (c : KeyCache C) : KeyCache C :=
  MkCache (lru_put key (plaintext, now) (kc_inner c)) (kc_ttl c).
End KeyCache.

(** ** The key service *)

Inductive KeyStoreError : Type := Client | Protocol (msg : string).

Inductive CustomerDekError : Type :=
| DekDatabase (e : SqlxError)
| DekVault (e : KeyStoreError)
| DekPanic.

(** [Dek]: what [create_dek] returns. *)
Record Dek : Type := MkDek { dek_plaintext : string; dek_wrapped : string }.

(** The [KeyStore] trait, at the tenant's mount. *)
Record KeyStore : Type := MkKeyStore {
  create_dek : Eff KeyStoreError Dek;
  unwrap_dek : string → Eff KeyStoreError string;
}.

(** Vault Transit keeps out of the tenant database, and unwraps a wrapped key to
    the one plaintext it was generated with. *)
Class VaultLaws (ks : KeyStore) (plain : string → string) : Prop := {
  create_mute : mute (create_dek ks);
  unwrap_mute s : mute (unwrap_dek ks s);
  create_forward : forward (create_dek ks);
  unwrap_forward s : forward (unwrap_dek ks s);
  create_guar (R : relation Db) `{!PreOrder R} : guar R (create_dek ks);
  unwrap_guar (R : relation Db) `{!PreOrder R} s : guar R (unwrap_dek ks s);
  create_plain w w' d : create_dek ks w = (w', Ok d) → dek_plaintext d = plain (dek_wrapped d);
  unwrap_plain s w w' p : unwrap_dek ks s w = (w', Ok p) → p = plain s;
}.

(** [customer_dek::repo::find]. *)
Definition find_dek (customer : N) (d : Db) : option CustomerDek := db_dek d !! customer.

(** [customer_dek::repo::insert_if_absent]: [true] when this call's row won. *)
Definition insert_if_absent (customer : N) (wrapped : string) (created_at : Z) (d : Db) : Db * bool :=
  match db_dek d !! customer with
  | Some _ => (d, false)
  | None => (on_dek (<[customer := MkCustomerDek wrapped created_at None]>) d, true)
  end.

(** What the key lookup does after a cache miss, on a store whose tenant tables
    [run] reaches, with the two calls to Vault. *)
Section Lookup.
Context {D : Type} (run : ∀ A, (Z → Db → result (Db * A) SqlxError) → M D Call SqlxError A).
Context (create : M D Call KeyStoreError Dek) (unwrap : string → M D Call KeyStoreError string).
Arguments run {A}.

Definition lookup_or_create (customer : N) : M D Call CustomerDekError string :=
  row ←! elift DekDatabase (run (λ _ d, Ok (d, find_dek customer d)));
  match row with
  | Some row => elift DekVault (unwrap (dk_wrapped_dek row))
  | None =>
      dek ←! elift DekVault create;
      now ←! utc_now;
      won ←! elift DekDatabase (run (λ _ d, Ok (insert_if_absent customer (dek_wrapped dek) now d)));
      if won : bool then eret (dek_plaintext dek)
      else
        row ←! elift DekDatabase (run (λ _ d, Ok (d, find_dek customer d)));
        row ←! eof (ok_or row DekPanic);
        elift DekVault (unwrap (dk_wrapped_dek row))
  end.
End Lookup.

Definition load_or_create (ks : KeyStore) (customer : N) : Eff CustomerDekError string :=
  lookup_or_create (λ A, sql) (create_dek ks) (unwrap_dek ks) customer.

Section Lifecycle.
Context {C : Type} `{!Lru C}.

(** [get_or_create_dek]: the cache is process memory and keeps what was put
    into it whatever the outcome. *)
Definition cached_dek {D} (load : M D Call CustomerDekError string) (customer : N) (cache : KeyCache C)
    (w : world D Call) : world D Call * (KeyCache C * result string CustomerDekError) :=
  match cache_get customer (w_now w) cache with
  | (cache1, Some plaintext) => (w, (cache1, Ok plaintext))
  | (cache1, None) =>
      match load w with
      | (w1, Ok plaintext) => (w1, (cache_put customer plaintext (w_now w1) cache1, Ok plaintext))
      | (w1, Err e) => (w1, (cache1, Err e))
      end
  end.
Definition get_or_create_dek (ks : KeyStore) (customer : N) (cache : KeyCache C) (w : W)
    : W * (KeyCache C * result string CustomerDekError) :=
  cached_dek (load_or_create ks customer) customer cache w.
End Lifecycle.

Record PreProvisionOutcome : Type := MkOutcome { created : nat; already_existed : nat }.

(** [pre_provision_deks]; [run] is a statement on the tenant's pool. *)
Fixpoint pre_provision_via {D} (run : ∀ A, (Z → Db → result (Db * A) SqlxError) → M D Call SqlxError A)
    (create : M D Call KeyStoreError Dek) (customers : list N) (o : PreProvisionOutcome)
    : M D Call CustomerDekError PreProvisionOutcome :=
  match customers with
  | [] => eret o
  | c :: customers =>
      row ←! elift DekDatabase (run _ (λ _ d, Ok (d, find_dek c d)));
      match row with
      | Some _ => pre_provision_via run create customers (MkOutcome (created o) (S (already_existed o)))
      | None =>
          dek ←! elift DekVault create;
          now ←! utc_now;
          won ←! elift DekDatabase (run _ (λ _ d, Ok (insert_if_absent c (dek_wrapped dek) now d)));
          pre_provision_via run create customers
            (if won : bool then MkOutcome (S (created o)) (already_existed o)
             else MkOutcome (created o) (S (already_existed o)))
      end
  end.

(** What callers rely on of a key service: it makes no provider call, does not
    turn the clock back and writes nothing but the key table, so it stays within
    every relation that allows key updates. *)
Class DekService (dek : N → Eff CustomerDekError string) : Prop := {
  dek_mute c : mute (dek c);
  dek_forward c : forward (dek c);
  dek_guar (R : relation Db) `{!PreOrder R} c : (∀ f d, R d (on_dek f d)) → guar R (dek c);
}.

(** ** Lemmas *)

(** The key table only ever gains rows. *)
Definition keys_persist (d d' : Db) : Prop :=
  ∀ c row, db_dek d !! c = Some row → db_dek d' !! c = Some row.
#[export] Instance keys_persist_pre : PreOrder keys_persist.
Proof. split; [by intros d c row|]. intros d1 d2 d3 H1 H2 c row H. auto. Qed.

(** [p] is the plaintext of the customer's key on file. *)
Definition key_on_file (plain : string → string) (c : N) (p : string) (d : Db) : Prop :=
  ∃ row, db_dek d !! c = Some row ∧ p = plain (dk_wrapped_dek row).

Lemma key_on_file_stable R plain c p :
  (∀ d d', R d d' → keys_persist d d') → stable R (key_on_file plain c p).
Proof. intros HR d d' Hd (row & Hr & ->). exists row. by split; [apply (HR d)|]. Qed.

(** Relations on databases in which keys are only ever added, and may be. *)
Class KeyRel (R : relation Db) : Prop := {
  key_rel_pre :: PreOrder R;
  key_rel_persist d d' : R d d' → keys_persist d d';
  key_rel_insert c row d : db_dek d !! c = None → R d (on_dek (<[c := row]>) d);
}.

#[export] Instance keys_persist_rel : KeyRel keys_persist.
Proof.
  split; [apply _|done|]. intros c row d Hc c' row' Hr. simpl. by rewrite lookup_insert_ne by congruence.
Qed.

Lemma insert_if_absent_rel R `{!KeyRel R} c wr t d : R d (insert_if_absent c wr t d).1.
Proof.
  unfold insert_if_absent. destruct (db_dek d !! c) eqn:Hc; simpl; [reflexivity|by apply key_rel_insert].
Qed.

Section KeyLemmas.
Context (R : relation Db) `{HR : !KeyRel R}.
Context (ks : KeyStore) (plain : string → string) `{HV : !VaultLaws ks plain}.

Definition no_panic (e : CustomerDekError) : Prop := e ≠ DekPanic.

Lemma unwrap_hoare c row :
  hoare R (λ d, db_dek d !! c = Some row)
    (elift DekVault (unwrap_dek ks (dk_wrapped_dek row))) (key_on_file plain c) no_panic.
Proof.
  apply hoare_lift. eapply (hoare_weaken _ _ (λ d, db_dek d !! c = Some row)); [|done| |].
  - apply (hoare_guar R _ _ (λ p, p = plain (dk_wrapped_dek row)) (λ _, True)).
    + apply unwrap_guar, _.
    + intros d d' Hd. by apply (key_rel_persist (R:=R)).
    + intros w w' a. apply unwrap_plain.
    + done.
  - intros p d [Hd ->]. by exists row.
  - intros e _. hnf. discriminate.
Qed.

Lemma load_or_create_hoare c :
  hoare R (λ _, True) (load_or_create ks c) (key_on_file plain c) no_panic.
Proof.
  unfold load_or_create, lookup_or_create. eapply hoare_bind; [apply _| |].
  { apply hoare_lift, (hoare_query _ _ (λ _, find_dek c) (λ o d, o = db_dek d !! c)); [done|hnf; discriminate|done]. }
  intros [row|]; [eapply hoare_weaken; [apply unwrap_hoare|by intros d ?|done..]|].
  eapply hoare_bind; [apply _| |].
  { apply hoare_lift, (hoare_weaken _ _ (λ _, True) _ _ (λ d _, dek_plaintext d = plain (dek_wrapped d)) _ (λ _, True)).
    - eapply hoare_weaken; [apply (hoare_guar R (λ _, True) _
        (λ d, dek_plaintext d = plain (dek_wrapped d)) (λ _, True)); [apply create_guar, _|done| |done]
        |done|by intros ?? [_ ?]|done].
      intros w w' a. apply create_plain.
    - done.
    - intros a d Ha. exact Ha.
    - intros e _. hnf. discriminate. }
  intros dek. eapply hoare_bind; [apply _|apply (hoare_now _ _ (λ _ _, dek_plaintext dek = plain (dek_wrapped dek))); done|].
  intros now. eapply hoare_bind; [apply _| |].
  { apply hoare_lift, (hoare_sql _ _ _ (λ won d, if won : bool then key_on_file plain c (dek_plaintext dek) d
       else is_Some (db_dek d !! c))); [done|hnf; discriminate|]. intros t d Hp.
    pose proof (insert_if_absent_rel R c (dek_wrapped dek) now d) as Hins.
    unfold insert_if_absent in *. destruct (db_dek d !! c) as [row|] eqn:Hc; (split; [exact Hins|]).
    - by rewrite Hc.
    - exists (MkCustomerDek (dek_wrapped dek) now None). simpl. by rewrite lookup_insert_eq. }
  intros [|].
  { apply hoare_ret; [apply _|]. intros d Hd. exact Hd. }
  eapply hoare_bind; [apply _| |].
  { apply hoare_lift, (hoare_query _ _ (λ _, find_dek c) (λ o d, is_Some o ∧ o = db_dek d !! c)); [|hnf; discriminate|done].
    intros d d' Hd [row Hr]. exists row. by apply (key_rel_persist (R:=R) d). }
  intros row. eapply hoare_bind; [apply _| |].
  { apply (hoare_of _ _ _ (λ r d, db_dek d !! c = Some r)). intros d [[r ->] Hd]. by rewrite <- Hd. }
  intros r. apply unwrap_hoare.
Qed.

(** The lookup behind the cache writes nothing but the key table. *)
Lemma load_or_create_guar (R' : relation Db) `{!PreOrder R'} k :
  (∀ f d, R' d (on_dek f d)) → guar R' (load_or_create ks k).
Proof.
  intros Hd. pose proof (λ s, unwrap_guar (ks:=ks) R' s). pose proof (create_guar (ks:=ks) R').
  pose proof (guar_query (C:=Call) R' (λ _, find_dek k)) as Hq. unfold query in Hq.
  unfold load_or_create, lookup_or_create. step_guar. apply guar_sql; [done|]. intros t d d' b.
  unfold insert_if_absent. destruct (db_dek d !! k); intros [= <- _]; [reflexivity|apply Hd].
Qed.
End KeyLemmas.

Section CacheLemmas.
Context {C : Type} `{!Lru C} `{!LruLaws C}.
Implicit Types c : KeyCache C.

(** Every key the cache holds is the one on file. *)
Definition cache_ok (plain : string → string) c (d : Db) : Prop :=
  ∀ k p t, lru_view (kc_inner c) !! k = Some (p, t) → key_on_file plain k p d.

Lemma cache_ok_stable R plain c : (∀ d d', R d d' → keys_persist d d') → stable R (cache_ok plain c).
Proof. intros HR d d' Hd Hc k p t Hk. eapply (key_on_file_stable R); [exact HR|exact Hd|eauto]. Qed.

Lemma cache_get_spec key now c :
  (cache_get key now c).2 =
    (match lru_view (kc_inner c) !! key with
     | Some (p, t) => if now - t <? kc_ttl c then Some p else None
     | None => None
     end)
  ∧ lru_view (kc_inner (cache_get key now c).1) ⊆ lru_view (kc_inner c).
Proof.
  unfold cache_get. destruct (lru_get_spec key (kc_inner c)) as [H1 H2].
  destruct (lru_get key (kc_inner c)) as [inner [[p t]|]]; simpl in *; rewrite <- H1; simpl.
  - destruct (now - t <? kc_ttl c); simpl; (split; [done|]); [by rewrite H2|].
    rewrite lru_pop_spec, H2. apply delete_subseteq.
  - split; [done|]. by rewrite H2.
Qed.

Lemma cache_get_ok plain key now c d : cache_ok plain c d → cache_ok plain (cache_get key now c).1 d.
Proof.
  intros Hc k p t Hk. apply (Hc k p t). destruct (cache_get_spec key now c) as [_ Hs].
  by eapply lookup_weaken.
Qed.

Lemma cache_put_ok plain key p now c d :
  cache_ok plain c d → key_on_file plain key p d → cache_ok plain (cache_put key p now c) d.
Proof.
  intros Hc Hp k q t Hk. destruct (lru_put_spec key (p, now) (kc_inner c)) as [_ Hs].
  eapply lookup_weaken in Hk; [|exact Hs]. destruct (decide (k = key)) as [->|Hne].
  - rewrite lookup_insert_eq in Hk. by simplify_eq.
  - rewrite lookup_insert_ne in Hk by done. by eapply Hc.
Qed.

Context (R : relation Db) `{HR : !KeyRel R}.
Context (ks : KeyStore) (plain : string → string) `{HV : !VaultLaws ks plain}.

Lemma get_or_create_dek_ok customer c (w : W) :
  rely R w → cache_ok plain c (w_db w) →
  let '(w', (c', r)) := get_or_create_dek ks customer c w in
  rely R w' ∧ R (w_db w) (w_db w') ∧ cache_ok plain c' (w_db w') ∧
  match r with Ok p => key_on_file plain customer p (w_db w') | Err e => e ≠ DekPanic end.
Proof.
  intros Hr Hc. unfold get_or_create_dek, cached_dek.
  pose proof (cache_get_ok plain customer (w_now w) c (w_db w) Hc) as Hc1.
  destruct (cache_get_spec customer (w_now w) c) as [Hg _].
  destruct (cache_get customer (w_now w) c) as [c1 [p|]]; simpl in *.
  - split_and!; [done|reflexivity|done|].
    destruct (lru_view (kc_inner c) !! customer) as [[p' t]|] eqn:Hv; [|done].
    destruct (_ <? _); simplify_eq. by eapply Hc.
  - destruct (load_or_create_hoare R ks plain customer w Hr I) as (H1 & H2 & H3).
    destruct (load_or_create ks customer w) as [w1 [p|e]]; simpl in *; split_and!; try done.
    + apply cache_put_ok; [by eapply (cache_ok_stable R); [apply key_rel_persist|..]|done].
    + by eapply (cache_ok_stable R); [apply key_rel_persist|..].
Qed.

(** The key lookup, whatever the cache holds, is a key service. *)
Definition dek_with (c : KeyCache C) (customer : N) : Eff CustomerDekError string :=
  λ w, let '(w', (_, r)) := get_or_create_dek ks customer c w in (w', r).

#[export] Instance dek_with_service c : DekService (dek_with c).
Proof.
  assert (∀ k, mute (load_or_create ks k)) as Hm.
  { intros k. pose proof (create_mute (ks:=ks)). pose proof (unwrap_mute (ks:=ks)).
    unfold load_or_create, lookup_or_create. solve_mute. }
  assert (∀ k, forward (load_or_create ks k)) as Hf.
  { intros k. pose proof (create_forward (ks:=ks)). pose proof (unwrap_forward (ks:=ks)).
    unfold load_or_create, lookup_or_create. solve_forward. }
  split.
  - intros k w. unfold dek_with, get_or_create_dek, cached_dek. destruct (cache_get _ _ _) as [c1 [p|]]; [done|].
    specialize (Hm k w). by destruct (load_or_create ks k w) as [w1 [p|e]].
  - intros k w. unfold dek_with, get_or_create_dek, cached_dek. destruct (cache_get _ _ _) as [c1 [p|]]; simpl; [lia|].
    specialize (Hf k w). by destruct (load_or_create ks k w) as [w1 [p|e]].
  - intros R' HR' k Hd w Hr. unfold dek_with, get_or_create_dek, cached_dek.
    destruct (cache_get _ _ _) as [c1 [p|]]; [split; [reflexivity|done]|].
    pose proof (load_or_create_guar ks plain R' k Hd) as Hg.
    specialize (Hg w Hr). by destruct (load_or_create ks k w) as [w1 [p|e]].
Qed.
End CacheLemmas.

Lemma decrypt_encrypt `{!Aead} `{!AeadLaws} nonce dek aad plaintext blob :
  String.length nonce = NONCE_LEN → encrypt nonce dek aad plaintext = Ok blob →
  decrypt dek aad blob = Ok plaintext.
Proof.
  intros Hn. unfold encrypt, decrypt. destruct (String.length dek =? KEY_LEN)%nat; cbn [negb]; [|done].
  destruct (aead_encrypt _ _ _ _) as [ct|] eqn:He; [|done]. intros [= <-].
  rewrite str_length_app, Hn. destruct (Nat.ltb_spec (NONCE_LEN + String.length ct) NONCE_LEN); [lia|].
  rewrite <- Hn, str_take_app, str_drop_app. by rewrite (aead_inverse _ _ _ _ _ He).
Qed.

(** ** Properties *)

(** What is encrypted decrypts: a blob made under a 32-byte key, a 12-byte
    nonce and some associated data decrypts under the same key and associated
    data to the text it was made from. *)
Theorem decrypt_inverts_encrypt `{!Aead} `{!AeadLaws} nonce dek aad plaintext blob :
  String.length nonce = NONCE_LEN → encrypt nonce dek aad plaintext = Ok blob →
  decrypt dek aad blob = Ok plaintext.
Proof. apply decrypt_encrypt. Qed.

(** C36. One key per customer: among processes that never drop or replace a key
    row, a key lookup that succeeds returns the plaintext of the row on file,
    cached or not, created by this call or by a concurrent one; a later lookup by
    any process with a sound cache returns the same key; and the lookup never
    reaches its panic. *)
Theorem one_key_per_customer {C1 C2 : Type} `{!Lru C1} `{!LruLaws C1} `{!Lru C2} `{!LruLaws C2}
    (ks : KeyStore) (plain : string → string)
    customer (c1 c1' : KeyCache C1) (c2 c2' : KeyCache C2) (w1 w1' w2 w2' : W) r1 r2 :
  VaultLaws ks plain →
  rely keys_persist w1 → cache_ok plain c1 (w_db w1) →
  get_or_create_dek ks customer c1 w1 = (w1', (c1', r1)) →
  rely keys_persist w2 → cache_ok plain c2 (w_db w2) → keys_persist (w_db w1') (w_db w2) →
  get_or_create_dek ks customer c2 w2 = (w2', (c2', r2)) →
  (∀ p, r1 = Ok p → key_on_file plain customer p (w_db w1'))
  ∧ (∀ p q, r1 = Ok p → r2 = Ok q → p = q) ∧ r1 ≠ Err DekPanic ∧ cache_ok plain c1' (w_db w1').
Proof.
  intros HV Hr1 Hc1 H1 Hr2 Hc2 HR H2.
  pose proof (get_or_create_dek_ok keys_persist ks plain customer c1 w1 Hr1 Hc1) as Hg1. rewrite H1 in Hg1.
  pose proof (get_or_create_dek_ok keys_persist ks plain customer c2 w2 Hr2 Hc2) as Hg2. rewrite H2 in Hg2.
  destruct Hg1 as (_ & _ & Ho1 & Hk1), Hg2 as (_ & HR2 & _ & Hk2). split_and!.
  - by intros p ->.
  - intros p q -> ->. destruct Hk1 as (row1 & Hx1 & ->), Hk2 as (row2 & Hx2 & ->).
    apply HR, HR2 in Hx1. congruence.
  - intros ->. by apply Hk1.
  - done.
Qed.

(** The cache serves a key only while it is fresh: a hit returns the entry put
    last under that key no more than the time to live ago, and a stale entry is a
    miss; right after a put the key is served until its time to live is over. *)
Theorem cache_serves_fresh_entries_only {C : Type} `{!Lru C} `{!LruLaws C} key p now now' (c : KeyCache C) :
  (∀ q, (cache_get key now c).2 = Some q →
     ∃ t, lru_view (kc_inner c) !! key = Some (q, t) ∧ now - t < kc_ttl c)
  ∧ (cache_get key now' (cache_put key p now c)).2 = (if now' - now <? kc_ttl c then Some p else None).
Proof.
  split.
  - intros q. destruct (cache_get_spec key now c) as [-> _].
    destruct (lru_view (kc_inner c) !! key) as [[p' t]|]; [|done].
    destruct (Z.ltb_spec (now - t) (kc_ttl c)); [|done]. intros [= <-]. eauto.
  - destruct (cache_get_spec key now' (cache_put key p now c)) as [-> _]. simpl.
    by destruct (lru_put_spec key (p, now) (kc_inner c)) as [-> _].
Qed.

(** ** Concrete instances *)

(** Least recently used over an association list, newest first. *)
Record ListLru : Type := MkLru { ll_capacity : nat; ll_entries : list (N * CacheEntry) }.

Definition ll_without (k : N) (l : list (N * CacheEntry)) : list (N * CacheEntry) :=
  filter (λ p, p.1 ≠ k) l.

#[export] Instance list_lru : Lru ListLru := {|
  lru_view c := list_to_map (ll_entries c);
  lru_get k c :=
    match (list_to_map (ll_entries c) : gmap N CacheEntry) !! k with
    | Some e => (MkLru (ll_capacity c) ((k, e) :: ll_without k (ll_entries c)), Some e)
    | None => (c, None)
    end;
  lru_put k e c := MkLru (ll_capacity c) ((k, e) :: take (ll_capacity c - 1) (ll_without k (ll_entries c)));
  lru_pop k c := MkLru (ll_capacity c) (ll_without k (ll_entries c));
|}.

Lemma ll_without_map k l : (list_to_map (ll_without k l) : gmap N CacheEntry) = delete k (list_to_map l).
Proof.
  unfold ll_without. induction l as [|[k' e] l IH]; simpl; [by rewrite delete_empty|].
  rewrite filter_cons. case_decide as Hk; simpl in *.
  - rewrite IH. rewrite delete_insert_ne by done. done.
  - subst. by rewrite IH, delete_insert_eq.
Qed.

Lemma take_map_subseteq n (l : list (N * CacheEntry)) :
  (list_to_map (take n l) : gmap N CacheEntry) ⊆ list_to_map l.
Proof.
  revert n. induction l as [|[k e] l IH]; intros [|n]; simpl; [done| done |apply map_empty_subseteq|].
  by apply insert_mono.
Qed.

#[export] Instance list_lru_laws : LruLaws ListLru.
Proof.
  split.
  - intros k c. simpl. destruct ((list_to_map (ll_entries c) : gmap N CacheEntry) !! k) as [e|] eqn:He; [|done].
    split; [done|]. simpl. rewrite ll_without_map, insert_delete_eq. by apply insert_id.
  - intros k e c. simpl. split; [by rewrite lookup_insert_eq|].
    etransitivity; [apply insert_mono, take_map_subseteq|].
    by rewrite ll_without_map, insert_delete_eq.
  - intros k c. simpl. apply ll_without_map.
Qed.

(** A cipher that hides nothing, for evaluation. *)
Definition demo_aead : Aead := {|
  aead_encrypt _ _ _ msg := Some msg;
  aead_decrypt _ _ _ ct := Some ct;
|}.
Definition demo_dek : string := "0123456789abcdef0123456789abcdef".

#[export] Instance demo_aead_laws : AeadLaws (H:=demo_aead).
Proof. split. simpl. by intros key nonce aad msg ct [= ->]. Qed.

Definition demo_keystore : KeyStore :=
  MkKeyStore (eret (MkDek demo_dek "vault:v1:k")) (λ _, eret demo_dek).

#[export] Instance demo_vault_laws : VaultLaws demo_keystore (λ _, demo_dek).
Proof.
  split; [done|done|apply forward_ret|intros s; apply forward_ret|intros R HR; by apply guar_ret
    |intros R HR s; by apply guar_ret| |].
  - by intros w w' d [<- _]%eret_inv.
  - by intros s w w' p [<- _]%eret_inv.
Qed.

Lemma decrypt_witness : decrypt (H:=demo_aead) demo_dek "row" "nonce-of-12-hello" = Ok "hello"%string.
Proof.
  apply (decrypt_inverts_encrypt (H:=demo_aead) "nonce-of-12-" demo_dek "row" "hello"); vm_compute; reflexivity.
Defined.

Definition demo_cache : KeyCache ListLru := MkCache (MkLru 2 []) hour.

Lemma one_key_witness :
  key_on_file (λ _, demo_dek) 1%N demo_dek
    (w_db (get_or_create_dek demo_keystore 1%N demo_cache (World empty_db 0 false [] [])).1).
Proof.
  assert (∀ d t, cache_ok (λ _, demo_dek) demo_cache (w_db (World (C:=Call) d t false [] []))) as Hc.
  { intros d t k p t' Hk. change ((∅ : gmap N CacheEntry) !! k = Some (p, t')) in Hk. by rewrite lookup_empty in Hk. }
  assert ((get_or_create_dek demo_keystore 1%N demo_cache (World empty_db 0 false [] [])).2.2 = Ok demo_dek)
    as Hr by (vm_compute; reflexivity).
  destruct (get_or_create_dek demo_keystore 1%N demo_cache (World empty_db 0 false [] []))
    as [w1 [c1 r1]] eqn:H1.
  simpl in Hr.
  destruct (get_or_create_dek demo_keystore 1%N demo_cache (World (w_db w1) 5 false [] []))
    as [w2 [c2 r2]] eqn:H2.
  destruct (one_key_per_customer demo_keystore (λ _, demo_dek) 1%N demo_cache c1 demo_cache c2
    (World empty_db 0 false [] []) w1 (World (w_db w1) 5 false [] []) w2 r1 r2 demo_vault_laws
    (conj (Forall_nil_2 _) eq_refl) (Hc empty_db 0) H1 (conj (Forall_nil_2 _) eq_refl) (Hc (w_db w1) 5)
    (λ c row H, H) H2) as [Hk _].
  exact (Hk demo_dek Hr).
Defined.
