(* ===== verification/Render.v ===== *)
(** * Template rendering

    Models [src/template/render.rs]: placeholder substitution, checked against a
    declarative reading of a template as literal text and placeholders. *)

From S2P Require Import Prelude RustStd.
From stdpp Require Import base gmap strings.
From Stdlib Require Import Lia.

Local Open Scope string_scope.

Inductive RenderError : Type :=
| MissingVariable (key : string)
| UnterminatedPlaceholder (rest : string).

Definition OPEN : string := "{{".
Definition CLOSE : string := "}}".

(** The [while let] of [render]; each round consumes the two brace pairs, so the
    length of the text bounds the rounds. *)
Fixpoint render_loop (fuel : nat) (variables : gmap string string) (acc rest : string)
    : result string RenderError :=
  match fuel with
  | O => Ok (acc +:+ rest)
  | S fuel =>
      match str_find OPEN rest with
      | None => Ok (acc +:+ rest)
      | Some start =>
          let acc := acc +:+ str_take start rest in
          let after_open := str_drop (start + 2) rest in
          match str_find CLOSE after_open with
          | None => Err (UnterminatedPlaceholder (str_drop start rest))
          | Some end_ =>
              let key := trim (str_take end_ after_open) in
              match variables !! key with
              | None => Err (MissingVariable key)
              | Some value => render_loop fuel variables (acc +:+ value) (str_drop (end_ + 2) after_open)
              end
          end
      end
  end.

(** [render]. *)
Definition render (body : string) (variables : gmap string string) : result string RenderError :=
  render_loop (S (String.length body)) variables "" body.

(** ** The declarative reading *)

(** [s] is [before], then the first [pat], then [after]. *)
Definition splits_at (pat s before after : string) : Prop :=
  s = before +:+ pat +:+ after
  ∧ ∀ j, j < String.length before → String.prefix pat (str_drop j s) = false.

Definition contains (pat s : string) : Prop := ∃ a b, s = a +:+ pat +:+ b.

(** A template is literal text, or text, a closed placeholder and a template. *)
Inductive renders (variables : gmap string string) : string → result string RenderError → Prop :=
| renders_text body : ¬ contains OPEN body → renders variables body (Ok body)
| renders_value body before after key rest value out :
    splits_at OPEN body before after → splits_at CLOSE after key rest →
    variables !! trim key = Some value → renders variables rest (Ok out) →
    renders variables body (Ok (before +:+ value +:+ out))
| renders_later_error body before after key rest value e :
    splits_at OPEN body before after → splits_at CLOSE after key rest →
    variables !! trim key = Some value → renders variables rest (Err e) →
    renders variables body (Err e)
| renders_missing body before after key rest :
    splits_at OPEN body before after → splits_at CLOSE after key rest →
    variables !! trim key = None → renders variables body (Err (MissingVariable (trim key)))
| renders_open body before after :
    splits_at OPEN body before after → ¬ contains CLOSE after →
    renders variables body (Err (UnterminatedPlaceholder (OPEN +:+ after))).

(** ** Lemmas *)

Lemma find_splits pat s i :
  str_find pat s = Some i → splits_at pat s (str_take i s) (str_drop (i + String.length pat) s).
Proof.
  intros H. destruct (str_find_Some _ _ _ H) as [Hs Hl]. split; [done|]. intros j Hj.
  rewrite Hl in Hj. by eapply str_find_first.
Qed.

Lemma find_none pat s : str_find pat s = None ↔ ¬ contains pat s.
Proof.
  split.
  - intros H (a & b & ->). apply (str_find_None pat _ (String.length a) H).
    rewrite str_drop_app. apply str_prefix_app.
  - intros H. destruct (str_find pat s) as [i|] eqn:Hf; [|done]. destruct H.
    destruct (str_find_Some _ _ _ Hf) as [Hs _]. by eexists _, _.
Qed.

(** A first occurrence is found, at one place only. *)
Lemma splits_find pat s before after :
  splits_at pat s before after → str_find pat s = Some (String.length before)
  ∧ before = str_take (String.length before) s
  ∧ after = str_drop (String.length before + String.length pat) s.
Proof.
  intros [Hs Hf].
  assert (str_find pat s = Some (String.length before)) as Hfind.
  { destruct (str_find pat s) as [i|] eqn:Hi.
    - f_equal. destruct (Nat.lt_trichotomy i (String.length before)) as [Hlt|[?|Hgt]]; [|done|].
      + specialize (Hf i Hlt). destruct (str_find_Some _ _ _ Hi) as [Hs' Hl].
        rewrite Hs' in Hf. rewrite <- Hl in Hf at 1. rewrite str_drop_app, str_prefix_app in Hf. done.
      + pose proof (str_find_first _ _ _ (String.length before) Hi Hgt) as Hp.
        rewrite Hs, str_drop_app, str_prefix_app in Hp. done.
    - apply find_none in Hi. destruct Hi. rewrite Hs. by exists before, after. }
  split; [done|]. rewrite Hs, str_take_app. split; [done|].
  rewrite <- str_length_app, <- str_app_assoc. by rewrite str_drop_app.
Qed.

(** One round of the loop by the first placeholder of the text. *)
Lemma render_loop_rest fuel variables acc rest :
  String.length rest < fuel →
  ∃ r, renders variables rest r ∧
    render_loop fuel variables acc rest = match r with Ok out => Ok (acc +:+ out) | Err e => Err e end.
Proof.
  revert acc rest. induction fuel as [|fuel IH]; intros acc rest Hlen; [lia|]. cbn [render_loop].
  destruct (str_find OPEN rest) as [start|] eqn:Ho.
  2:{ exists (Ok rest). split; [by apply renders_text, find_none|done]. }
  pose proof (find_splits _ _ _ Ho) as Hso. change (String.length OPEN) with 2 in Hso.
  destruct (str_find_Some _ _ _ Ho) as [Hrest Hstart].
  set (after := str_drop (start + 2) rest) in *. cbv zeta.
  destruct (str_find CLOSE after) as [e|] eqn:Hc.
  2:{ exists (Err (UnterminatedPlaceholder (OPEN +:+ after))). split.
      - eapply renders_open; [exact Hso|by apply find_none].
      - do 2 f_equal. rewrite Hrest at 1. rewrite <- Hstart at 1. by rewrite str_drop_app. }
  pose proof (find_splits _ _ _ Hc) as Hsc. change (String.length CLOSE) with 2 in Hsc.
  destruct (variables !! trim (str_take e after)) as [value|] eqn:Hv.
  2:{ exists (Err (MissingVariable (trim (str_take e after)))). split; [|done]. by eapply renders_missing. }
  destruct (IH (acc +:+ str_take start rest +:+ value) (str_drop (e + 2) after)) as (r & Hr & Hrun).
  { unfold after. rewrite !str_length_drop. pose proof (f_equal String.length Hrest) as Hl.
    rewrite !str_length_app in Hl. change (String.length OPEN) with 2 in Hl. lia. }
  rewrite str_app_assoc, Hrun. destruct r as [out|err].
  - exists (Ok (str_take start rest +:+ value +:+ out)). split; [by eapply renders_value|].
    by rewrite !str_app_assoc.
  - exists (Err err). split; [by eapply renders_later_error|done].
Qed.

Lemma splits_unique pat s b1 a1 b2 a2 : splits_at pat s b1 a1 → splits_at pat s b2 a2 → b1 = b2 ∧ a1 = a2.
Proof.
  intros H1 H2. destruct (splits_find _ _ _ _ H1) as (F1 & B1 & A1), (splits_find _ _ _ _ H2) as (F2 & B2 & A2).
  rewrite F1 in F2. injection F2 as HF. split; [rewrite B1, B2|rewrite A1, A2]; by rewrite HF.
Qed.

Lemma splits_contains pat s b a : splits_at pat s b a → contains pat s.
Proof. intros [-> _]. by exists b, a. Qed.

(** A template has one reading. *)
Lemma renders_functional variables body r1 r2 : renders variables body r1 → renders variables body r2 → r1 = r2.
Proof.
  intros H1. revert r2.
  induction H1 as [body Hn|body b a k rest v out Ho Hc Hv Hr IH|body b a k rest v e Ho Hc Hv Hr IH
    |body b a k rest Ho Hc Hv|body b a Ho Hn]; intros r2 H2;
    inversion H2; subst; clear H2;
    try (exfalso; eauto using splits_contains; fail);
    repeat match goal with
    | H1 : splits_at ?p ?s ?b ?a, H2 : splits_at ?p ?s ?b' ?a' |- _ =>
        destruct (splits_unique _ _ _ _ _ _ H1 H2) as [-> ->]; clear H2
    end; simplify_eq/=; try done;
    try match goal with IH : ∀ r, _ → _ = r, H : renders _ _ ?r |- _ => specialize (IH _ H) end;
    simplify_eq/=; try done; exfalso; eauto using splits_contains.
Qed.

(** ** Properties *)

(** C38. Rendering is total and follows the declarative reading: [render] always
    returns, and it returns a text or an error exactly when the template reads as
    that; the values are inserted as they are, never read as template text. *)
Theorem render_follows_the_reading body variables r :
  render body variables = r ↔ renders variables body r.
Proof.
  destruct (render_loop_rest (S (String.length body)) variables "" body) as (r' & Hr' & Hrun); [lia|].
  unfold render. rewrite Hrun. split.
  - intros <-. by destruct r'.
  - intros Hr. rewrite (renders_functional _ _ _ _ Hr' Hr). by destruct r.
Qed.

(** Text without an opening brace pair is rendered as it is. *)
Lemma plain_text_is_rendered_verbatim body variables :
  ¬ contains OPEN body → render body variables = Ok body.
Proof.
  intros Hn. destruct (render_loop_rest (S (String.length body)) variables "" body) as (r & Hr & Hrun); [lia|].
  unfold render. rewrite Hrun. rewrite (renders_functional _ _ _ _ Hr (renders_text variables body Hn)). done.
Qed.

Example render_example :
  render "Hi {{ name }}, {{name}}!" {[ "name" := "{{x}}" ]} = Ok "Hi {{x}}, {{x}}!".
Proof. vm_compute. reflexivity. Qed.
Example render_open_example : render "Hi {{name" ∅ = Err (UnterminatedPlaceholder "{{name").
Proof. vm_compute. reflexivity. Qed.
