(* ===== verification/Customer.v ===== *)
(** * Customer and address resolution

    Models [src/customer/resolve.rs], [src/customer/repo.rs] and
    [src/customer/model.rs]: alias chains, the lookups, and the provisional
    customers and addresses minted when a lookup finds nothing. The key lookup
    with its cache is a service of which only the interface is used. *)

From S2P Require Import Prelude RustStd Time Schema KillSwitch Dek.
From stdpp Require Import base gmap strings list.
From Stdlib Require Import ZArith Lia.

Local Open Scope effect_scope.
Local Open Scope Z_scope.

Module kind.
Definition EMAIL : string := "email".
Definition MSISDN : string := "msisdn".
Definition WHATSAPP : string := "whatsapp".
Definition PUSH : string := "push".
Definition POSTAL : string := "postal".
End kind.

(** [kind_for_channel]; [None] is its [unreachable!]. *)
Definition kind_for_channel (ch : string) : option string :=
  if decide (ch = channel.SMS) then Some kind.MSISDN
  else if decide (ch = channel.EMAIL) then Some kind.EMAIL
  else if decide (ch = channel.WHATSAPP) then Some kind.WHATSAPP
  else None.

(** ** Queries *)

Definition ALIAS_HOP_LIMIT : nat := 8.

Definition find_by_id (id : N) (d : Db) : option Customer := db_customer d !! id.

(** The hops of [expand_alias]. *)
Fixpoint alias_hops (hops : nat) (current : N) : Eff SqlxError N :=
  match hops with
  | O => eret current
  | S hops =>
      next ←! query (λ _ d, db_alias d !! current);
      match next with
      | Some next_id => alias_hops hops next_id
      | None => eret current
      end
  end.
Definition expand_alias (id : N) : Eff SqlxError N := alias_hops ALIAS_HOP_LIMIT id.

(** The recursive query of [alias_set]: the ids merged into those of one level. *)
Definition merged_into (level : gset N) (d : Db) : gset N :=
  dom (filter (λ p, p.2 ∈ level) (db_alias d)).
Fixpoint alias_levels (depth : nat) (level : gset N) (d : Db) : gset N :=
  level ∪ match depth with O => ∅ | S depth => alias_levels depth (merged_into level d) d end.
Definition alias_set (canonical_id : N) (d : Db) : gset N :=
  alias_levels ALIAS_HOP_LIMIT {[canonical_id]} d.

Definition find_customer_by_external_id (system external_id : string) (d : Db) : option N :=
  db_external_id d !! (system, external_id).

(** The row is current. *)
Definition active (a : CustomerAddress) : Prop := ca_active_to a = None.

Definition find_active_address_by_hmac (kind hmac : string) (d : Db) : option CustomerAddress :=
  head (filter (λ a, ca_kind a = kind ∧ ca_value_hmac a = hmac ∧ ca_active_to a = None)
    (map_values (db_address d))).

Definition find_active_address_for_customer (customer : N) (kind hmac : string) (d : Db)
    : option CustomerAddress :=
  head (filter (λ a, ca_customer_id a = customer ∧ ca_kind a = kind ∧ ca_value_hmac a = hmac
                     ∧ ca_active_to a = None) (map_values (db_address d))).

(** ** Statements of a transaction *)

(** [SELECT MAX(rank)], [NULL] on no row. *)
Definition max_rank (customer : N) (kind : string) (d : Db) : option Z :=
  foldl (λ m a, Some (match m with Some r => Z.max r (ca_rank a) | None => ca_rank a end)) None
    (filter (λ a, ca_customer_id a = customer ∧ ca_kind a = kind ∧ ca_active_to a = None)
       (map_values (db_address d))).

(** [next_rank_for_update]: locking the customer's row fails when there is none. The
    increment of the [i16] wraps around, as in a release build; a debug build panics at the
    32767th address of one kind. *)
Definition next_rank_for_update (customer : N) (kind : string) : Eff SqlxError Z :=
  sql (λ _ d, match db_customer d !! customer with None => Err SqlRowNotFound | Some _ => Ok (d, tt) end) ;!
  m ←! query (λ _, max_rank customer kind);
  eret (i16_wrap (default 0 m + 1)).

Definition insert_customer (id : N) (locale timezone : string) (provisional : bool)
    (source_updated_at : option Z) (created_at : Z) : Eff SqlxError bool :=
  sql (λ _ d, match db_customer d !! id with
              | Some _ => Ok (d, false)
              | None => Ok (on_customer (<[id := MkCustomer id locale timezone provisional None
                                            source_updated_at created_at]>) d, true)
              end).

(** [customer_external_id.customer_id] references [customer]. *)
Definition insert_external_id (system external_id : string) (customer : N) : Eff SqlxError bool :=
  sql (λ _ d, match db_external_id d !! (system, external_id) with
              | Some _ => Ok (d, false)
              | None =>
                  match db_customer d !! customer with
                  | None => Err (SqlConstraint "customer_external_id_customer_id_fkey")
                  | Some _ => Ok (on_external_id (<[(system, external_id) := customer]>) d, true)
                  end
              end).

(** The active row [b] stands where [a] would. *)
Definition same_value (a b : CustomerAddress) : Prop :=
  ca_kind a = ca_kind b ∧ ca_value_hmac a = ca_value_hmac b ∧ ca_active_to b = None.
Definition same_rank (a b : CustomerAddress) : Prop :=
  ca_customer_id a = ca_customer_id b ∧ ca_kind a = ca_kind b ∧ ca_rank a = ca_rank b
  ∧ ca_active_to b = None.
#[export] Instance same_value_dec a b : Decision (same_value a b).
Proof. unfold same_value. apply _. Defined.
#[export] Instance same_rank_dec a b : Decision (same_rank a b).
Proof. unfold same_rank. apply _. Defined.

(** The insert with its one arbiter index; the primary key, the rank index and the
    reference to [customer] are violations. *)
Definition add_address (a : CustomerAddress) (d : Db) : result (Db * bool) SqlxError :=
  if decide (Exists (same_value a) (map_values (db_address d))) then Ok (d, false)
  else if decide (is_Some (db_address d !! ca_id a)) then Err (SqlConstraint "customer_address_pkey")
  else if decide (Exists (same_rank a) (map_values (db_address d))) then
    Err (SqlConstraint "customer_address_customer_id_kind_rank_idx")
  else match db_customer d !! ca_customer_id a with
       | None => Err (SqlConstraint "customer_address_customer_id_fkey")
       | Some _ => Ok (on_address (<[ca_id a := a]>) d, true)
       end.

Definition insert_address (id customer : N) (kind ciphertext hmac : string) (rank active_from
    source_updated_at : Z) : Eff SqlxError bool :=
  sql (λ _, add_address (MkAddress id customer kind ciphertext hmac rank None None active_from None
                           source_updated_at)).

(** ** Resolution *)

Inductive ResolutionInput : Type :=
| Explicit (id : N)
| External (system external_id : string)
| AddressOnly.

Record Resolved : Type := MkResolved { rs_customer_id : N; rs_address_id : N; rs_locale : option string }.

Inductive ResolveError : Type :=
| RDatabase (e : SqlxError)
| RVault (e : KeyStoreError)
| REncryption (e : EncryptionError)
| RPanic.

Definition of_dek_error (e : CustomerDekError) : ResolveError :=
  match e with DekDatabase e => RDatabase e | DekVault e => RVault e | DekPanic => RPanic end.

Definition non_provisional_locale (c : Customer) : option string :=
  if cu_provisional c then None else Some (cu_locale c).

(** What the ingest handlers use of the key code: the lookup with its cache, a
    put into that cache, and Vault itself. *)
Record KeyService : Type := MkKeyService {
  sv_get_dek : N → Eff CustomerDekError string;
  sv_cache_put : N → string → Eff CustomerDekError unit;
  sv_vault : KeyStore;
}.

(** The random draws of one request: uuids and nonces. *)
Record Draws : Type := MkDraws {
  dr_customer_id : N;
  dr_address_id : N;
  dr_request_id : N;
  dr_nonce : N → string;
}.

Section Resolve.
Context `{!UuidText} `{AE : !Aead}.
Context (svc : KeyService) (hmac_of : string → string) (locale timezone : string).

(** The re-read after an address insert lost its race, with its [expect]. *)
Definition find_winner (kind hmac : string) : Eff ResolveError CustomerAddress :=
  winner ←! elift RDatabase (query (λ _, find_active_address_by_hmac kind hmac));
  eof (ok_or winner RPanic).

Definition mint_provisional_customer (id : N) : Eff ResolveError unit :=
  elift RDatabase (transaction
    (now ←! utc_now; insert_customer id locale timezone true None now) (λ _, true)) ;! eret tt.

Definition mint_provisional_customer_with_external_id (fresh : N) (system external_id : string)
    : Eff ResolveError N :=
  now ←! utc_now;
  inserted ←! elift RDatabase (transaction
    (insert_customer fresh locale timezone true None now ;!
     insert_external_id system external_id fresh) (λ inserted, inserted));
  if inserted : bool then eret fresh
  else
    winner ←! elift RDatabase (query (λ _, find_customer_by_external_id system external_id));
    eof (ok_or winner RPanic).

Definition mint_provisional_customer_and_address (dr : Draws) (kind hmac destination : string)
    : Eff ResolveError (N * N) :=
  now ←! utc_now;
  dek ←! elift RVault (create_dek (sv_vault svc));
  ciphertext ←! eof (map_err REncryption
    (encrypt (dr_nonce dr 0) (dek_plaintext dek) (uuid_bytes (dr_address_id dr)) destination));
  inserted ←! elift RDatabase (transaction
    (insert_customer (dr_customer_id dr) locale timezone true None now ;!
     inserted ←! insert_address (dr_address_id dr) (dr_customer_id dr) kind ciphertext hmac 1 now now;
     if inserted : bool then
       sql (λ _ d, Ok (insert_if_absent (dr_customer_id dr) (dek_wrapped dek) now d)) ;! eret true
     else eret false) (λ inserted, inserted));
  if inserted : bool then
    elift of_dek_error (sv_cache_put svc (dr_customer_id dr) (dek_plaintext dek)) ;!
    eret (dr_customer_id dr, dr_address_id dr)
  else
    winner ←! find_winner kind hmac;
    eret (ca_customer_id winner, ca_id winner).

(** The locale of the customer a lookup ended at. *)
Definition locale_of (customer : N) : Eff ResolveError (option string) :=
  row ←! elift RDatabase (query (λ _, find_by_id customer));
  eret (match row with Some row => non_provisional_locale row | None => None end).

(** The find-or-create of an address for a known customer, at the end of [resolve]. *)
Definition resolve_address (dr : Draws) (customer : N) (locale_found : option string)
    (kind hmac destination : string) : Eff ResolveError Resolved :=
  found ←! elift RDatabase (query (λ _, find_active_address_for_customer customer kind hmac));
  match found with
  | Some address => eret (MkResolved customer (ca_id address) locale_found)
  | None =>
      dek ←! elift of_dek_error (sv_get_dek svc customer);
      ciphertext ←! eof (map_err REncryption
        (encrypt (dr_nonce dr 0) dek (uuid_bytes (dr_address_id dr)) destination));
      now ←! utc_now;
      inserted ←! elift RDatabase (transaction
        (rank ←! next_rank_for_update customer kind;
         insert_address (dr_address_id dr) customer kind ciphertext hmac rank now now)
        (λ inserted, inserted));
      if inserted : bool then eret (MkResolved customer (dr_address_id dr) locale_found)
      else
        winner ←! find_winner kind hmac;
        if decide (ca_customer_id winner = customer) then
          eret (MkResolved customer (ca_id winner) locale_found)
        else
          l ←! locale_of (ca_customer_id winner);
          eret (MkResolved (ca_customer_id winner) (ca_id winner) l)
  end.

(** [resolve]. *)
Definition resolve (dr : Draws) (input : ResolutionInput) (destination ch : string)
    : Eff ResolveError Resolved :=
  kind ←! eof (ok_or (kind_for_channel ch) RPanic);
  let hmac := hmac_of destination in
  match input with
  | Explicit id =>
      id ←! elift RDatabase (expand_alias id);
      row ←! elift RDatabase (query (λ _, find_by_id id));
      match row with
      | Some row => resolve_address dr id (non_provisional_locale row) kind hmac destination
      | None =>
          mint_provisional_customer id ;!
          resolve_address dr id None kind hmac destination
      end
  | External system external_id =>
      found ←! elift RDatabase (query (λ _, find_customer_by_external_id system external_id));
      match found with
      | Some id =>
          row ←! elift RDatabase (query (λ _, find_by_id id));
          row ←! eof (ok_or row RPanic);
          resolve_address dr id (non_provisional_locale row) kind hmac destination
      | None =>
          id ←! mint_provisional_customer_with_external_id (dr_customer_id dr) system external_id;
          resolve_address dr id None kind hmac destination
      end
  | AddressOnly =>
      found ←! elift RDatabase (query (λ _, find_active_address_by_hmac kind hmac));
      match found with
      | Some address =>
          l ←! locale_of (ca_customer_id address);
          eret (MkResolved (ca_customer_id address) (ca_id address) l)
      | None =>
          ids ←! mint_provisional_customer_and_address dr kind hmac destination;
          eret (MkResolved ids.1 ids.2 None)
      end
  end.
End Resolve.

(** ** What stays true of the customer tables *)

(** References hold, rows sit under their ids, and no two active rows share a
    value or a rank. *)
Record customer_wf (d : Db) : Prop := {
  cw_external k id : db_external_id d !! k = Some id → is_Some (db_customer d !! id);
  cw_address id a : db_address d !! id = Some a →
    ca_id a = id ∧ is_Some (db_customer d !! ca_customer_id a);
  cw_value i j a b : db_address d !! i = Some a → db_address d !! j = Some b →
    ca_active_to a = None → same_value a b → a = b;
  cw_rank i j a b : db_address d !! i = Some a → db_address d !! j = Some b →
    ca_active_to a = None → same_rank a b → a = b;
}.

(** What every process may do to these tables while a request is resolved: add. *)
Record grows (d d' : Db) : Prop := {
  gr_customer id : is_Some (db_customer d !! id) → is_Some (db_customer d' !! id);
  gr_external : db_external_id d ⊆ db_external_id d';
  gr_address : db_address d ⊆ db_address d';
  gr_keys : keys_persist d d';
  gr_idempotency : db_idempotency d ⊆ db_idempotency d';
  gr_template : db_template d ⊆ db_template d';
  gr_wf : customer_wf d → customer_wf d';
}.

#[export] Instance grows_pre : PreOrder grows.
Proof.
  split.
  - intros d. by split.
  - intros d1 d2 d3 [] []. split; eauto; by etransitivity.
Qed.

(** A write that leaves the customer tables alone. *)
Lemma grows_same d d' :
  db_customer d' = db_customer d → db_external_id d' = db_external_id d →
  db_address d' = db_address d → keys_persist d d' → db_idempotency d ⊆ db_idempotency d' →
  db_template d' = db_template d → grows d d'.
Proof.
  intros H1 H2 H3 H4 H5 H6. split; rewrite ?H1, ?H2, ?H3, ?H6; try done.
  intros []. split; rewrite ?H1, ?H2, ?H3; eauto.
Qed.

#[export] Instance grows_key_rel : KeyRel grows.
Proof.
  split; [apply _|by intros d d' []|]. intros c row d Hc. apply grows_same; [done..| |done|done].
  by apply (key_rel_insert (R:=keys_persist)).
Qed.

Lemma wf_stable : stable grows customer_wf.
Proof. intros d d' HR. by apply HR. Qed.

(** *** Inserts *)

Lemma add_customer_grows id c d :
  db_customer d !! id = None → grows d (on_customer (<[id := c]>) d).
Proof.
  intros Hn. assert (∀ i, is_Some (db_customer d !! i) → is_Some (<[id := c]> (db_customer d) !! i)) as Hi.
  { intros i [x Hx]. destruct (decide (id = i)) as [->|]; [congruence|]. rewrite lookup_insert_ne; eauto. }
  split; simpl; [exact Hi|done|done|by intros ??|done|done|]. intros [H1 H2 H3 H4]. split; simpl; eauto.
  intros i a Ha. destruct (H2 i a Ha). auto.
Qed.

Lemma add_external_grows k id d :
  db_external_id d !! k = None → is_Some (db_customer d !! id) →
  grows d (on_external_id (<[k := id]>) d).
Proof.
  intros Hn Hc. split; simpl; [done|by apply insert_subseteq|done|by intros ??|done|done|].
  intros [H1 H2 H3 H4]. split; simpl; eauto. intros k' id'. destruct (decide (k = k')) as [->|].
  - rewrite lookup_insert_eq. by intros [= <-].
  - rewrite lookup_insert_ne by done. apply H1.
Qed.

Lemma add_address_spec a d d' b :
  ca_active_to a = None → add_address a d = Ok (d', b) →
  grows d d' ∧ (if b then db_address d' !! ca_id a = Some a
                else d' = d ∧ ∃ i x, db_address d !! i = Some x ∧ same_value a x).
Proof.
  intros Hact. unfold add_address. case_decide as Hv.
  { intros [= <- <-]. split; [reflexivity|]. split; [done|].
    apply Exists_exists in Hv as (x & Hx & Hs). apply elem_of_map_values in Hx as [i Hi]. eauto. }
  case_decide as Hid; [done|]. case_decide as Hr; [done|].
  destruct (db_customer d !! ca_customer_id a) as [c|] eqn:Hc; [|done]. intros [= <- <-].
  assert (db_address d !! ca_id a = None) as Hn by (by apply eq_None_not_Some).
  split; [|simpl; by rewrite lookup_insert_eq].
  assert (∀ (P : CustomerAddress → CustomerAddress → Prop) (Pd : ∀ x y, Decision (P x y)),
    ¬ Exists (P a) (map_values (db_address d)) → (∀ x y, P x y → ca_active_to x = None → P y x) →
    (∀ i j x y, db_address d !! i = Some x → db_address d !! j = Some y → ca_active_to x = None → P x y → x = y) →
    ∀ i j x y, <[ca_id a := a]> (db_address d) !! i = Some x → <[ca_id a := a]> (db_address d) !! j = Some y →
      ca_active_to x = None → P x y → x = y) as Huniq.
  { intros P Pd Hne Hsym Hold i j x y Hi Hj Hx Hp.
    assert (∀ k z, db_address d !! k = Some z → ¬ P a z) as Hno.
    { intros k z Hk Hz. apply Hne, Exists_exists. exists z. split; [apply elem_of_map_values; eauto|done]. }
    apply lookup_insert_Some in Hi as [[_ <-]|[_ Hi]], Hj as [[_ <-]|[_ Hj]]; [done| | |by eapply Hold].
    - by destruct (Hno j y Hj).
    - by destruct (Hno i x Hi (Hsym _ _ Hp Hx)). }
  split; simpl; [done|done|by apply insert_subseteq|by intros ??|done|done|]. intros [H1 H2 H3 H4]. split; simpl; eauto.
  - intros i x. destruct (decide (ca_id a = i)) as [<-|].
    + rewrite lookup_insert_eq. intros [= <-]. split; [done|]. rewrite Hc. by eexists.
    + rewrite lookup_insert_ne by done. apply H2.
  - apply Huniq; [apply _|done| |done].
    unfold same_value. intros x y (-> & -> & _) ?. done.
  - apply Huniq; [apply _|done| |done].
    unfold same_rank. intros x y (-> & -> & -> & _) ?. done.
Qed.

Lemma find_by_hmac_Some kind hmac d a :
  customer_wf d → find_active_address_by_hmac kind hmac d = Some a →
  db_address d !! ca_id a = Some a ∧ ca_kind a = kind ∧ ca_value_hmac a = hmac ∧ ca_active_to a = None.
Proof.
  intros Hwf Hf. apply head_Some_elem_of, list_elem_of_filter in Hf as [(Hk & Hh & Ha) Hin].
  apply elem_of_map_values in Hin as [i Hi]. by destruct (cw_address _ Hwf i a Hi) as [-> _].
Qed.

Lemma find_by_hmac_is_Some kind hmac d i x :
  db_address d !! i = Some x → ca_kind x = kind → ca_value_hmac x = hmac → ca_active_to x = None →
  is_Some (find_active_address_by_hmac kind hmac d).
Proof.
  intros Hx Hk Hh Ha. unfold find_active_address_by_hmac.
  assert (x ∈ filter (λ a, ca_kind a = kind ∧ ca_value_hmac a = hmac ∧ ca_active_to a = None)
    (map_values (db_address d))) as Hin.
  { apply list_elem_of_filter. split; [done|]. apply elem_of_map_values. eauto. }
  destruct (filter _ _) as [|y l]; [by apply not_elem_of_nil in Hin|]. simpl. eauto.
Qed.

Lemma find_for_customer_Some customer kind hmac d a :
  customer_wf d → find_active_address_for_customer customer kind hmac d = Some a →
  db_address d !! ca_id a = Some a ∧ ca_customer_id a = customer ∧ ca_kind a = kind
  ∧ ca_value_hmac a = hmac ∧ ca_active_to a = None.
Proof.
  intros Hwf Hf. apply head_Some_elem_of, list_elem_of_filter in Hf as [(Hc & Hk & Hh & Ha) Hin].
  apply elem_of_map_values in Hin as [i Hi]. by destruct (cw_address _ Hwf i a Hi) as [-> _].
Qed.

(** ** Resolution among other processes *)

(** What resolution relies on of the key service: a lookup returns the key on
    file, and neither it nor the cache panics. [cold_service], which reads the table each
    time, satisfies it; that the cache in front of it agrees with the table is shown
    in [Dek]. *)
Class KeyServiceLaws (svc : KeyService) (plain : string → string) : Prop := {
  svc_vault :: VaultLaws (sv_vault svc) plain;
  svc_get R `{!KeyRel R} c : hoare R (λ _, True) (sv_get_dek svc c) (key_on_file plain c) no_panic;
  svc_get_guar (R : relation Db) `{!PreOrder R} c : (∀ f d, R d (on_dek f d)) → guar R (sv_get_dek svc c);
  svc_put R `{!PreOrder R} P c p : stable R P → hoare R P (sv_cache_put svc c p) (λ _, P) no_panic;
}.

(** The address is on file for the customer, active, with this kind and value. *)
Definition resolved_to (kind hmac : string) (customer address : N) (d : Db) : Prop :=
  customer_wf d ∧ ∃ a, db_address d !! address = Some a ∧ ca_customer_id a = customer
    ∧ ca_kind a = kind ∧ ca_value_hmac a = hmac ∧ ca_active_to a = None.

Lemma resolved_to_stable kind hmac c a : stable grows (resolved_to kind hmac c a).
Proof.
  intros d d' HR (Hwf & x & Hx & Hrest). split; [by apply HR|]. exists x. split; [|done].
  eapply lookup_weaken; [exact Hx|apply HR].
Qed.

Definition has_customer (id : N) (d : Db) : Prop := is_Some (db_customer d !! id).
Lemma has_customer_stable id : stable grows (has_customer id).
Proof. intros d d' HR. by apply HR. Qed.

(** An active address with this kind and value is on file. *)
Definition value_taken (kind hmac : string) (d : Db) : Prop :=
  ∃ i x, db_address d !! i = Some x ∧ ca_kind x = kind ∧ ca_value_hmac x = hmac ∧ ca_active_to x = None.
Lemma value_taken_stable kind hmac : stable grows (value_taken kind hmac).
Proof.
  intros d d' [] (i & x & Hx & Hrest). exists i, x. split; [by eapply lookup_weaken|done].
Qed.
#[export] Hint Resolve resolved_to_stable has_customer_stable value_taken_stable wf_stable : core.

Definition no_rpanic (e : ResolveError) : Prop := e ≠ RPanic.
#[export] Hint Extern 1 (no_rpanic _) => (hnf; discriminate) : core.
#[export] Hint Extern 1 ((_ ∘ _) _) => (hnf; discriminate) : core.

Lemma dek_no_rpanic e : no_panic e → (no_rpanic ∘ of_dek_error) e.
Proof. unfold no_panic, no_rpanic, compose. by destruct e. Qed.

Lemma insert_customer_tx id l tz p s t :
  tx_post (C:=Call) (insert_customer id l tz p s t) (λ d d' _, grows d d' ∧ has_customer id d'
    ∧ db_external_id d' = db_external_id d ∧ db_address d' = db_address d).
Proof.
  apply tx_post_sql. intros _ d d' b. unfold has_customer. destruct (db_customer d !! id) as [c|] eqn:Hc.
  - intros [= <- _]. split_and!; [reflexivity|by rewrite Hc|done..].
  - intros [= <- _]. split_and!; [by apply add_customer_grows| |done..]. simpl. rewrite lookup_insert_eq. by eexists.
Qed.

Lemma insert_external_tx system ext id :
  tx_post (C:=Call) (insert_external_id system ext id)
    (λ d d' b, has_customer id d → grows d d' ∧
       if b then has_customer id d' else is_Some (db_external_id d !! (system, ext))).
Proof.
  apply tx_post_sql. intros _ d d' b. destruct (db_external_id d !! (system, ext)) as [x|] eqn:Hx.
  { intros [= <- <-] _. split; [reflexivity|eauto]. }
  unfold has_customer. destruct (db_customer d !! id) as [c|] eqn:Hc; [|done]. intros [= <- <-] _.
  split; [apply add_external_grows; [done|by rewrite Hc]|]. simpl. rewrite Hc. by eexists.
Qed.

Lemma insert_address_tx id customer kind ct hmac rank t u :
  tx_post (C:=Call) (insert_address id customer kind ct hmac rank t u)
    (λ d d' b, grows d d' ∧ if b then customer_wf d → resolved_to kind hmac customer id d'
                            else d' = d ∧ value_taken kind hmac d).
Proof.
  apply tx_post_sql. intros _ d d' b Hadd. apply add_address_spec in Hadd as [Hg Hb]; [|done].
  split; [done|]. destruct b.
  - intros Hwf. split; [by apply Hg|]. eexists. by split; [exact Hb|].
  - destruct Hb as [-> (i & x & Hx & Hk & Hh & Ha)]. split; [done|]. exists i, x. simpl in *. done.
Qed.

(** A read of the winner after a lost race finds one. *)
Lemma find_winner_hoare kind hmac :
  hoare (C:=Call) grows (λ d, customer_wf d ∧ value_taken kind hmac d)
    (find_winner kind hmac)
    (λ a, resolved_to kind hmac (ca_customer_id a) (ca_id a)) no_rpanic.
Proof.
  unfold find_winner. eapply hoare_bind; [apply _| |].
  { apply hoare_lift, (hoare_query _ _ _ (λ o d, is_Some o ∧ customer_wf d ∧ o = find_active_address_by_hmac kind hmac d));
      [auto|auto|]. intros _ d [Hwf (i & x & Hx & Hk & Hh & Ha)]. split_and!; [by eapply find_by_hmac_is_Some|done|done]. }
  intros o. apply hoare_of; [apply _|]. intros d ([a ->] & Hwf & Hf). simpl. symmetry in Hf.
  destruct (find_by_hmac_Some _ _ _ _ Hwf Hf) as (H1 & H2 & H3 & H4). split; [done|]. by exists a.
Qed.

Section ResolveLemmas.
Context `{!UuidText} `{AE : !Aead}.
Context (svc : KeyService) (plain : string → string) `{HS : !KeyServiceLaws svc plain}.
Context (hmac_of : string → string) (locale timezone : string).
Implicit Types dr : Draws.

Lemma mint_customer_hoare id :
  hoare grows customer_wf (mint_provisional_customer locale timezone id)
    (λ _ d, customer_wf d ∧ has_customer id d) no_rpanic.
Proof.
  unfold mint_provisional_customer. eapply hoare_bind; [apply _| |].
  2:{ intros b. apply hoare_ret; [apply _|]. intros d Hd. exact Hd. }
  apply hoare_lift, (hoare_transaction _ _ _ _ (λ _ d, customer_wf d ∧ has_customer id d)); [auto|auto|].
  eapply tx_post_bind; [by apply (tx_post_now (λ d d' _, d' = d))|]. intros now.
  eapply tx_post_weaken; [apply insert_customer_tx|]. simpl. intros d d' b (Hg & Hc & _) d0 -> Hwf.
  split; [done|]. split; [by apply Hg|done].
Qed.

Lemma mint_external_hoare fresh system ext :
  hoare grows customer_wf (mint_provisional_customer_with_external_id locale timezone fresh system ext)
    (λ id d, customer_wf d ∧ has_customer id d) no_rpanic.
Proof.
  unfold mint_provisional_customer_with_external_id.
  eapply hoare_bind; [apply _|apply (hoare_now _ _ (λ _, customer_wf)); auto|]. intros now.
  eapply hoare_bind; [apply _| |].
  { apply hoare_lift, (hoare_transaction _ _ _ _ (λ (b : bool) d, customer_wf d ∧
      if b then has_customer fresh d else is_Some (db_external_id d !! (system, ext)))); [auto|auto|].
    eapply tx_post_bind; [apply insert_customer_tx|]. intros b0.
    eapply tx_post_weaken; [apply insert_external_tx|]. simpl. intros d1 d2 b Hb0 d0 (Hg & Hc & Hext & _) Hwf.
    destruct (Hb0 Hc) as [Hg2 Hb]. destruct b.
    - split; [by etransitivity|]. split; [|done]. by apply Hg2, Hg.
    - split; [done|]. by rewrite <- Hext. }
  intros [|].
  - apply hoare_ret; [apply _|]. done.
  - eapply hoare_bind; [apply _| |].
    { apply hoare_lift, (hoare_query _ _ _ (λ o d, customer_wf d ∧ is_Some o ∧ o = db_external_id d !! (system, ext)));
        [|auto|by intros _ d [? ?]].
      apply stable_and; [auto|]. intros d d' HR [x Hx]. exists x. eapply lookup_weaken; [exact Hx|apply HR]. }
    intros o. apply hoare_of; [apply _|]. intros d (Hwf & [x ->] & Hx). simpl. split; [done|].
    by eapply cw_external.
Qed.

Lemma encrypt_hoare (P : Db → Prop) nonce dek aad text :
  hoare (C:=Call) grows P (eof (map_err REncryption (encrypt nonce dek aad text))) (λ _, P) no_rpanic.
Proof. apply hoare_of; [apply _|]. intros d Hd. destruct (encrypt _ _ _ _); simpl; auto. Qed.

Lemma mint_address_hoare dr kind hmac destination :
  hoare grows customer_wf
    (mint_provisional_customer_and_address svc locale timezone dr kind hmac destination)
    (λ ids, resolved_to kind hmac ids.1 ids.2) no_rpanic.
Proof.
  unfold mint_provisional_customer_and_address.
  eapply hoare_bind; [apply _|apply (hoare_now _ _ (λ _, customer_wf)); auto|]. intros now.
  eapply hoare_bind; [apply _| |].
  { apply hoare_lift. eapply (hoare_weaken _ _ customer_wf);
      [apply (hoare_guar grows _ _ (λ _, True) (λ _, True)); [apply create_guar, _|auto..]|done| |auto].
    intros dek d [Hd _]. exact Hd. }
  intros dek. eapply hoare_bind; [apply _|apply encrypt_hoare|]. intros ct.
  eapply hoare_bind; [apply _| |].
  { apply hoare_lift, (hoare_transaction _ _ _ _ (λ (b : bool) d,
      if b then resolved_to kind hmac (dr_customer_id dr) (dr_address_id dr) d
      else customer_wf d ∧ value_taken kind hmac d)); [auto|auto|].
    eapply tx_post_bind; [apply insert_customer_tx|]. intros b0.
    eapply tx_post_bind; [apply insert_address_tx|]. intros [|].
    - eapply (tx_post_bind _ _ (λ d d' _, grows d d')).
      + apply tx_post_sql. intros _ d d' b [= Hi].
        replace d' with (insert_if_absent (dr_customer_id dr) (dek_wrapped dek) now d).1 by by rewrite Hi.
        apply (insert_if_absent_rel grows).
      + intros b. apply tx_post_ret. intros d2 d1 H2 d0' [H3 H4] d0 (H5 & _) Hwf. simpl.
        split; [etransitivity; [exact H5|]; etransitivity; [exact H3|exact H2]|]. eapply resolved_to_stable; [exact H2|]. by apply H4, H5.
    - apply tx_post_ret. intros d d1 [H1 (-> & Hv)] d0 (H5 & _ & _ & Ha) Hwf. simpl. split; [done|].
      unfold value_taken in *. by rewrite <- Ha. }
  intros [|].
  - set (P := resolved_to kind hmac (dr_customer_id dr) (dr_address_id dr)).
    eapply (hoare_bind _ _ _ _ (λ _, P)); [|].
    + apply hoare_lift. eapply (hoare_weaken _ _ P _ _ (λ _, P) _ no_panic);
        [apply svc_put; [apply _|unfold P; auto]|auto|auto|]. apply dek_no_rpanic.
    + intros []. apply hoare_ret; [apply _|]. auto.
  - eapply hoare_bind; [apply _|apply find_winner_hoare|]. intros a. apply hoare_ret; [apply _|]. auto.
Qed.

Lemma next_rank_tx customer kind :
  tx_post (C:=Call) (next_rank_for_update customer kind) (λ d d' _, d' = d).
Proof.
  unfold next_rank_for_update. eapply (tx_post_bind _ _ (λ d d' _, d' = d)).
  - apply tx_post_sql. intros _ d d' u. destruct (db_customer d !! customer); [|done]. by intros [= <- _].
  - intros u. eapply (tx_post_bind _ _ (λ d d' _, d' = d)).
    + apply tx_post_sql. by intros _ d d' a [= <- _].
    + intros m. apply tx_post_ret. by intros d d1 -> d0 ->.
Qed.

Lemma locale_of_hoare P c : stable grows P → hoare grows P (locale_of c) (λ _, P) no_rpanic.
Proof.
  intros HP. unfold locale_of. eapply hoare_bind; [apply _|apply hoare_lift, (hoare_query _ _ _ (λ _, P)); auto|].
  intros o. apply hoare_ret; [apply _|]. auto.
Qed.

Lemma resolve_address_hoare dr customer l kind hmac destination :
  hoare grows customer_wf (resolve_address svc dr customer l kind hmac destination)
    (λ r, resolved_to kind hmac (rs_customer_id r) (rs_address_id r)) no_rpanic.
Proof.
  unfold resolve_address. eapply hoare_bind; [apply _| |].
  { apply hoare_lift, (hoare_query _ _ _ (λ o d, customer_wf d ∧
      ∀ a, o = Some a → resolved_to kind hmac customer (ca_id a) d)); [auto|auto|].
    intros _ d Hwf. split; [done|]. intros a Ha. split; [done|].
    destruct (find_for_customer_Some _ _ _ _ _ Hwf Ha) as (H1 & H2). by exists a. }
  intros [a|].
  { apply hoare_ret; [apply _|]. intros d [_ Ha]. by apply Ha. }
  eapply hoare_bind; [apply _| |].
  { apply hoare_lift. eapply (hoare_weaken _ _ (λ d, customer_wf d ∧ True));
      [apply hoare_frame; [auto|apply (svc_get grows)]|by intros d [? _]| |].
    - intros dek d [Hd _]. exact Hd.
    - apply dek_no_rpanic. }
  intros dek. eapply hoare_bind; [apply _|apply encrypt_hoare|]. intros ct.
  eapply hoare_bind; [apply _|apply (hoare_now _ _ (λ _, customer_wf)); auto|]. intros now.
  eapply hoare_bind; [apply _| |].
  { apply hoare_lift, (hoare_transaction _ _ _ _ (λ (b : bool) d,
      if b then resolved_to kind hmac customer (dr_address_id dr) d
      else customer_wf d ∧ value_taken kind hmac d)); [auto|auto|].
    eapply tx_post_bind; [apply next_rank_tx|]. intros rank.
    eapply tx_post_weaken; [apply insert_address_tx|]. simpl. intros d d' [|] [Hg Hb] d0 -> Hwf.
    - split; [done|]. by apply Hb.
    - split; [done|]. by destruct Hb as [-> ?]. }
  intros [|]; [apply hoare_ret; [apply _|]; auto|].
  eapply hoare_bind; [apply _|apply find_winner_hoare|]. intros a.
  case_decide as Hc; [apply hoare_ret; [apply _|]; rewrite <- Hc; auto|].
  eapply hoare_bind; [apply _|apply locale_of_hoare; auto|].
  intros o. apply hoare_ret; [apply _|]. auto.
Qed.

Lemma alias_hops_hoare P n c : stable grows P → hoare grows P (alias_hops n c) (λ _, P) (λ _, True).
Proof.
  intros HP. revert c. induction n as [|n IH]; intros c; cbn [alias_hops].
  - apply hoare_ret; [apply _|auto].
  - eapply (hoare_bind _ _ _ _ (λ _, P)); [apply hoare_query; auto; apply _|]. intros [x|]; [apply IH|].
    apply hoare_ret; [apply _|auto].
Qed.

Lemma resolve_hoare dr input destination ch kind :
  kind_for_channel ch = Some kind →
  hoare grows customer_wf (resolve svc hmac_of locale timezone dr input destination ch)
    (λ r, resolved_to kind (hmac_of destination) (rs_customer_id r) (rs_address_id r)) no_rpanic.
Proof.
  intros Hk. unfold resolve. rewrite Hk.
  eapply (hoare_bind _ _ _ _ (λ k d, k = kind ∧ customer_wf d)); [by apply hoare_of; [apply _|]|].
  intros k. cbv zeta. apply (hoare_pull _ (k = kind)); intros ->. destruct input as [id|system ext|].
  - eapply (hoare_bind _ _ _ _ (λ _, customer_wf)).
    { apply hoare_lift. eapply hoare_weaken; [apply alias_hops_hoare; auto|auto|auto|auto]. }
    intros id'. eapply (hoare_bind _ _ _ _ (λ _, customer_wf)); [apply hoare_lift, hoare_query; auto; apply _|].
    intros [row|]; [apply resolve_address_hoare|].
    eapply hoare_bind; [apply _|apply mint_customer_hoare|]. intros u.
    eapply hoare_pre; [apply resolve_address_hoare|by intros d [? _]].
  - eapply (hoare_bind _ _ _ _ (λ o d, customer_wf d ∧ ∀ id, o = Some id → has_customer id d)).
    { apply hoare_lift, hoare_query; [apply _|auto|auto|]. intros _ d Hwf. split; [done|]. intros id Hid.
      by eapply cw_external. }
    intros [id|].
    + apply (hoare_pre _ _ (λ d, customer_wf d ∧ has_customer id d)); [|naive_solver].
      eapply (hoare_bind _ _ _ _ (λ o d, is_Some o ∧ customer_wf d)).
      { apply hoare_lift, hoare_query; [apply _|auto|auto|by intros _ d [? ?]]. }
      intros o. apply hoare_pull. intros [row ->]. simpl.
      eapply (hoare_bind _ _ _ _ (λ _, customer_wf)); [apply hoare_of; [apply _|auto]|].
      intros row'. apply resolve_address_hoare.
    + eapply hoare_bind; [apply _| |].
      * eapply hoare_pre; [apply mint_external_hoare|by intros d [? _]].
      * intros id. eapply hoare_pre; [apply resolve_address_hoare|by intros d [? _]].
  - eapply (hoare_bind _ _ _ _ (λ o d, customer_wf d
      ∧ ∀ a, o = Some a → resolved_to kind (hmac_of destination) (ca_customer_id a) (ca_id a) d)).
    { apply hoare_lift, hoare_query; [apply _|auto|auto|]. intros _ d Hwf. split; [done|]. intros a Ha.
      split; [done|]. destruct (find_by_hmac_Some _ _ _ _ Hwf Ha) as (H1 & H2). by exists a. }
    intros [a|].
    + apply (hoare_pre _ _ (resolved_to kind (hmac_of destination) (ca_customer_id a) (ca_id a))); [|naive_solver].
      eapply hoare_bind; [apply _|apply locale_of_hoare; auto|]. intros l.
      apply hoare_ret; [apply _|auto].
    + eapply hoare_bind; [apply _| |].
      * eapply hoare_pre; [apply mint_address_hoare|by intros d [? _]].
      * intros ids. apply hoare_ret; [apply _|auto].
Qed.
End ResolveLemmas.

(** Resolution writes customers, their external ids, addresses and keys, and no
    other table: it stays within every relation that allows those. *)
Section ResolveFrame.
Context `{!UuidText} `{AE : !Aead}.
Context (svc : KeyService) (plain : string → string) `{HS : !KeyServiceLaws svc plain}.
Context (R : relation Db) `{!PreOrder R}.
Context (Rc : ∀ f d, R d (on_customer f d)) (Re : ∀ f d, R d (on_external_id f d)).
Context (Ra : ∀ f d, R d (on_address f d)) (Rk : ∀ f d, R d (on_dek f d)).

Lemma insert_customer_frame id l tz pr u t : tx_guar R (insert_customer id l tz pr u t).
Proof.
  apply tx_guar_sql. intros t' d d' b. destruct (db_customer d !! id); intros [= <- _]; [reflexivity|apply Rc].
Qed.
Lemma insert_external_frame sy ex id : tx_guar R (insert_external_id sy ex id).
Proof.
  apply tx_guar_sql. intros t d d' b. destruct (db_external_id d !! _); [intros [= <- _]; reflexivity|].
  destruct (db_customer d !! id); intros [=]; subst; apply Re.
Qed.
Lemma insert_address_frame id c k ct h r a u : tx_guar R (insert_address id c k ct h r a u).
Proof.
  apply tx_guar_sql. intros t d d' b. unfold add_address. repeat case_decide; try (intros [= <- _]; reflexivity); try done.
  destruct (db_customer d !! _); intros [=]; subst; apply Ra.
Qed.
Lemma next_rank_frame c k : tx_guar R (next_rank_for_update c k).
Proof.
  unfold next_rank_for_update. step_guar. apply tx_guar_sql. intros t d d' b.
  destruct (db_customer d !! c); intros [=]; subst; reflexivity.
Qed.
Hint Resolve insert_customer_frame insert_external_frame insert_address_frame next_rank_frame : effects.

Lemma expand_alias_frame id : guar R (expand_alias id).
Proof.
  unfold expand_alias. generalize ALIAS_HOP_LIMIT. intros n. revert id.
  induction n as [|n IH]; intros id; cbn [alias_hops]; step_guar.
Qed.

Lemma resolve_frame hmac_of locale timezone dr input destination ch :
  guar R (resolve svc hmac_of locale timezone dr input destination ch).
Proof.
  pose proof (λ c, svc_get_guar (svc:=svc) R c Rk). pose proof (create_guar (ks:=sv_vault svc) R).
  pose proof expand_alias_frame.
  assert (∀ c p, guar R (sv_cache_put svc c p)) as Hput.
  { intros c p w Hr. destruct (svc_put (svc:=svc) (plain:=plain) R (λ _, True) c p) with (w := w) as (Hp1 & Hp2 & _); done. }
  assert (∀ c wr t, tx_guar R (sql (λ _ d, Ok (insert_if_absent c wr t d)) : Eff SqlxError bool)) as Hdek.
  { intros c wr t. apply tx_guar_sql. intros t' d d' b. unfold insert_if_absent.
    destruct (db_dek d !! c); intros [= <- _]; [reflexivity|apply Rk]. }
  unfold resolve, resolve_address, mint_provisional_customer, mint_provisional_customer_with_external_id,
    mint_provisional_customer_and_address, find_winner, locale_of.
  step_guar.
Qed.
End ResolveFrame.

(** ** Alias chains *)

(** The id exactly [k] merges on. *)
Fixpoint hops (k : nat) (x : N) (d : Db) : option N :=
  match k with O => Some x | S k => y ← db_alias d !! x; hops k y d end.

(** [expand_alias] without the waits. *)
Fixpoint alias_walk (n : nat) (x : N) (d : Db) : N :=
  match n with
  | O => x
  | S n => match db_alias d !! x with Some y => alias_walk n y d | None => x end
  end.

Lemma alias_hops_calm n x (w : W) : calm w → alias_hops n x w = (w, Ok (alias_walk n x (w_db w))).
Proof.
  intros Hc. revert x. induction n as [|n IH]; intros x; [done|]. cbn [alias_hops alias_walk].
  unfold ebind. rewrite query_calm by apply Hc. destruct (db_alias (w_db w) !! x); [apply IH|done].
Qed.

Lemma hops_snoc k x d : hops (S k) x d = (y ← hops k x d; db_alias d !! y).
Proof.
  revert x. induction k as [|k IH]; intros x.
  - simpl. by destruct (db_alias d !! x).
  - change (hops (S (S k)) x d) with (y ← db_alias d !! x; hops (S k) y d).
    change (hops (S k) x d) with (y ← db_alias d !! x; hops k y d).
    destruct (db_alias d !! x) as [y|]; simpl; [apply IH|done].
Qed.

Lemma alias_levels_elem n level d x :
  x ∈ alias_levels n level d ↔ ∃ k y, (k <= n)%nat ∧ y ∈ level ∧ hops k x d = Some y.
Proof.
  assert (∀ l z, z ∈ merged_into l d ↔ ∃ y, y ∈ l ∧ db_alias d !! z = Some y) as Hm.
  { intros l z. unfold merged_into. rewrite elem_of_dom. split.
    - intros [y [Hy Hl]%map_lookup_filter_Some]. eauto.
    - intros (y & Hl & Hy). exists y. by apply map_lookup_filter_Some. }
  revert level. induction n as [|n IH]; intros level; cbn [alias_levels]; rewrite elem_of_union.
  - split; [intros [Hx|Hx]; [by exists 0%nat, x|set_solver]|].
    intros (k & y & Hk & Hy & Hh). assert (k = 0%nat) as -> by lia. simpl in Hh. simplify_eq. by left.
  - rewrite IH. split.
    + intros [Hx|(k & z & Hk & Hz & Hh)]; [exists 0%nat, x; split_and!; [lia|done|done]|].
      apply Hm in Hz as (y & Hy & Ha). exists (S k), y. split_and!; [lia|done|]. rewrite hops_snoc, Hh. done.
    + intros (k & y & Hk & Hy & Hh). destruct k as [|k]; [simpl in Hh; simplify_eq; by left|right].
      rewrite hops_snoc in Hh. destruct (hops k x d) as [z|] eqn:Hz; [|done]. simpl in Hh.
      exists k, z. split_and!; [lia| |done]. apply Hm. eauto.
Qed.

Lemma alias_walk_hops n x c d :
  db_alias d !! c = None → alias_walk n x d = c ↔ ∃ k, (k <= n)%nat ∧ hops k x d = Some c.
Proof.
  intros Hc. revert x. induction n as [|n IH]; intros x; cbn [alias_walk].
  - split; [intros ->; by exists 0%nat|]. intros (k & Hk & Hh). assert (k = 0%nat) as -> by lia. simpl in Hh. congruence.
  - destruct (db_alias d !! x) as [y|] eqn:Hx.
    + rewrite IH. split.
      * intros (k & Hk & Hh). exists (S k). split; [lia|]. simpl. by rewrite Hx.
      * intros ([|k] & Hk & Hh); simpl in Hh; [simplify_eq|]. rewrite Hx in Hh. simpl in Hh. exists k. split; [lia|done].
    + split; [intros ->; exists 0%nat; split; [lia|done]|].
      intros ([|k] & Hk & Hh); simpl in Hh; [congruence|]. by rewrite Hx in Hh.
Qed.

(** ** Ranks *)

Lemma max_fold l m :
  (∀ r, m = Some r → ∃ r', foldl (λ m a, Some (match m with Some r => Z.max r (ca_rank a) | None => ca_rank a end)) m l = Some r' ∧ r <= r')
  ∧ (∀ a, a ∈ l → ∃ r', foldl (λ m a, Some (match m with Some r => Z.max r (ca_rank a) | None => ca_rank a end)) m l = Some r' ∧ ca_rank a <= r').
Proof.
  revert m. induction l as [|b l IH]; intros m; simpl.
  { split; [intros r ->; exists r; split; [done|lia]|]. by intros a ?%not_elem_of_nil. }
  destruct (IH (Some (match m with Some r => Z.max r (ca_rank b) | None => ca_rank b end))) as [H1 H2].
  destruct (H1 _ eq_refl) as (r' & Hr' & Hle). split.
  - intros r ->. exists r'. split; [done|lia].
  - intros a [->|Ha]%elem_of_cons; [|by apply H2]. exists r'. split; [done|]. destruct m; lia.
Qed.

Lemma max_attained l m r :
  foldl (λ m a, Some (match m with Some r => Z.max r (ca_rank a) | None => ca_rank a end)) m l = Some r →
  m = Some r ∨ ∃ a, a ∈ l ∧ ca_rank a = r.
Proof.
  revert m. induction l as [|b l IH]; intros m; simpl; [by left|]. intros [Hm|(a & Ha & Hr)]%IH.
  - injection Hm as Hm. destruct m as [r0|]; [|right; exists b; split; [by left|done]].
    destruct (Z.max_spec r0 (ca_rank b)) as [[_ Hx]|[_ Hx]]; rewrite Hx in Hm; subst; [right|by left].
    exists b. split; [by left|done].
  - right. exists a. split; [by right|done].
Qed.

(** ** Properties *)

(** C37. Resolution ends at a real address: for every kind of input, among processes
    that only add to the customer tables, a resolution that returns names a
    customer on file and an active address of that customer with the request's
    kind and destination hash; it never panics, however the races over new
    customers, external ids and addresses end, and it too only adds. *)
Theorem resolve_ends_at_a_matching_address `{!UuidText} `{AE : !Aead} svc plain hmac_of locale timezone
    dr input destination ch kind (w w' : W) r :
  KeyServiceLaws svc plain → kind_for_channel ch = Some kind →
  rely grows w → customer_wf (w_db w) →
  resolve svc hmac_of locale timezone dr input destination ch w = (w', r) →
  grows (w_db w) (w_db w') ∧ r ≠ Err RPanic ∧
  ∀ res, r = Ok res →
    has_customer (rs_customer_id res) (w_db w')
    ∧ resolved_to kind (hmac_of destination) (rs_customer_id res) (rs_address_id res) (w_db w').
Proof.
  intros HS Hk Hr Hwf Hrun.
  destruct (resolve_hoare svc plain hmac_of locale timezone dr input destination ch kind Hk w Hr Hwf)
    as (_ & Hg & Hres). rewrite Hrun in Hg, Hres. simpl in *. split_and!; [done| |].
  - intros ->. by apply Hres.
  - intros res ->. split; [|done]. destruct Hres as (Hwf' & a & Ha & <- & _).
    by apply (cw_address _ Hwf' _ a Ha).
Qed.

(** The two directions of the alias chain agree: for an id that was never merged
    away, the ids the timeline collects are exactly those that alias expansion
    takes to it within its hop limit. *)
Theorem alias_set_is_what_expands_to_it canonical x (w : W) :
  calm w → db_alias (w_db w) !! canonical = None →
  x ∈ alias_set canonical (w_db w) ↔ expand_alias x w = (w, Ok canonical).
Proof.
  intros Hc Hn. unfold expand_alias. rewrite alias_hops_calm by done. unfold alias_set. rewrite alias_levels_elem.
  transitivity (alias_walk ALIAS_HOP_LIMIT x (w_db w) = canonical); [|split; congruence].
  rewrite alias_walk_hops by done. split.
  - intros (k & y & Hk & ->%elem_of_singleton & Hh). eauto.
  - intros (k & Hk & Hh). exists k, canonical. split_and!; [done|by apply elem_of_singleton|done].
Qed.

(** A new address takes a free rank: the rank computed under the customer's row
    lock is one no active address of that customer and kind has, as long as the
    ranks have not reached the end of [smallint]. *)
Theorem next_rank_is_free customer kind d a :
  (∀ i x, db_address d !! i = Some x → i16_min <= ca_rank x < i16_max) →
  ca_customer_id a = customer → ca_kind a = kind →
  ca_rank a = i16_wrap (default 0 (max_rank customer kind d) + 1) →
  ¬ Exists (same_rank a) (map_values (db_address d)).
Proof.
  intros Hb Hc Hk Hr (x & Hx & H1 & H2 & H3 & H4)%Exists_exists. unfold max_rank in Hr.
  set (l := filter _ _) in Hr. assert (x ∈ l) as Hin.
  { apply list_elem_of_filter. split; [|done]. split_and!; congruence. }
  destruct (max_fold l None) as [_ Hm]. destruct (Hm x Hin) as (m & Hf & Hle). rewrite Hf in Hr. simpl in Hr.
  assert (i16_min <= m < i16_max) as Hmb.
  { enough (∃ i y, db_address d !! i = Some y ∧ ca_rank y = m) as (i & y & Hy & <-) by by eapply Hb.
    apply max_attained in Hf as [?|(y & Hy & Hym)]; [done|].
    apply list_elem_of_filter in Hy as [_ [i Hi]%elem_of_map_values]. eauto. }
  unfold i16_wrap, i16_min, i16_max in *. rewrite Z.mod_small in Hr by lia. lia.
Qed.

(** ** Concrete runs *)

(** The key code without a cache. *)
Definition cold_service (ks : KeyStore) : KeyService := MkKeyService (load_or_create ks) (λ _ _, eret tt) ks.

#[export] Instance cold_service_laws ks plain `{HV : !VaultLaws ks plain} : KeyServiceLaws (cold_service ks) plain.
Proof.
  split; [done| | |].
  - intros R HR c. by apply load_or_create_hoare.
  - intros R HR c. by apply (load_or_create_guar ks plain).
  - intros R HR P c p HP. apply hoare_ret; [apply _|auto].
Qed.

Definition toy_uuid : UuidText := {|
  parse_str _ := None; uuid_str _ := ""%string; uuid_bytes _ := "0123456789abcdef"%string;
|}.

Definition demo_draws : Draws := MkDraws 100 101 102 (λ _, "nonce-of-12-"%string).

Lemma empty_customer_wf : customer_wf empty_db.
Proof. split; intros; by simplify_map_eq. Qed.

Lemma resolve_witness :
  (resolve (H:=toy_uuid) (AE:=demo_aead) (cold_service demo_keystore) id "en" "UTC" demo_draws
       AddressOnly "+15550100" channel.SMS (World empty_db 0 false [] [])).2 = Ok (MkResolved 100 101 None)
  ∧ has_customer 100 (w_db (resolve (H:=toy_uuid) (AE:=demo_aead) (cold_service demo_keystore) id "en" "UTC" demo_draws
       AddressOnly "+15550100" channel.SMS (World empty_db 0 false [] [])).1).
Proof.
  assert ((resolve (H:=toy_uuid) (AE:=demo_aead) (cold_service demo_keystore) id "en" "UTC" demo_draws
       AddressOnly "+15550100" channel.SMS (World empty_db 0 false [] [])).2 = Ok (MkResolved 100 101 None)) as Hres by (vm_compute; reflexivity).
  split; [exact Hres|].
  destruct (resolve (H:=toy_uuid) (AE:=demo_aead) (cold_service demo_keystore) id "en" "UTC" demo_draws
       AddressOnly "+15550100" channel.SMS (World empty_db 0 false [] [])) as [w' r] eqn:Hrun.
  destruct (resolve_ends_at_a_matching_address (H:=toy_uuid) (AE:=demo_aead) (cold_service demo_keystore)
    (λ _, demo_dek) id "en" "UTC" demo_draws AddressOnly "+15550100" channel.SMS kind.MSISDN
    (World empty_db 0 false [] []) w' r (cold_service_laws _ _) eq_refl (conj (Forall_nil_2 _) eq_refl)
    empty_customer_wf Hrun) as (_ & _ & Hok).
  exact (proj1 (Hok _ Hres)).
Defined.

Definition demo_aliases : Db := on_alias (λ _, {[1%N := 2%N; 2%N := 3%N]}) empty_db.

Lemma alias_witness : 1%N ∈ alias_set 3 demo_aliases.
Proof.
  apply (alias_set_is_what_expands_to_it 3 1 (World demo_aliases 0 false [] [])).
  - split; reflexivity.
  - reflexivity.
  - vm_compute. reflexivity.
Defined.

Definition demo_address (id : N) (rank : Z) : CustomerAddress :=
  MkAddress id 5 kind.EMAIL "c" "h" rank None None 0 None 0.

Definition demo_addresses : Db := on_address (λ _, {[1%N := demo_address 1 1]}) empty_db.

Lemma rank_witness : ¬ Exists (same_rank (demo_address 2 2)) (map_values (db_address demo_addresses)).
Proof.
  apply (next_rank_is_free 5 kind.EMAIL demo_addresses (demo_address 2 2)).
  - intros i x Hx. unfold demo_addresses in Hx. simpl in Hx. apply lookup_singleton_Some in Hx as [_ <-].
    vm_compute. split; [discriminate|reflexivity].
  - reflexivity.
  - reflexivity.
  - vm_compute. reflexivity.
Defined.
