(* ===== verification/Outbox.v ===== *)
(** * The outbox and the ledger writes of the dispatcher

    Models [src/dispatcher/repo.rs]: the claim queries, the reads of the gates,
    and the writes that move a row along. Every SQL statement is one atomic
    step; [write_terminal] is a transaction of three. *)

From S2P Require Import Prelude RustStd Time Schema KillSwitch.
From stdpp Require Import base gmap strings list sorting.
From Stdlib Require Import ZArith Lia.

Local Open Scope effect_scope.
Local Open Scope Z_scope.

(** ** Claiming *)

(** [ORDER BY priority, next_attempt_at]. *)
Definition claim_order (r1 r2 : Outbox) : Prop :=
  ob_priority r1 < ob_priority r2
  ∨ (ob_priority r1 = ob_priority r2 ∧ ob_next_attempt_at r1 <= ob_next_attempt_at r2).
#[export] Instance claim_order_dec : RelDecision claim_order.
Proof. intros r1 r2. unfold claim_order. apply _. Defined.

(** [next_attempt_at <= now() AND leased_until IS NULL]. *)
Definition due (now : Z) (r : Outbox) : bool :=
  (ob_next_attempt_at r <=? now) && bool_decide (ob_leased_until r = None).

Definition lease (until : Z) (r : Outbox) : Outbox :=
  ob_set_attempts (ob_attempts r + 1) (ob_set_lease (Some until) r).

(** [SELECT .. WHERE f ORDER BY .. LIMIT ..]; within one statement no row is
    locked by another transaction, so [SKIP LOCKED] skips none. *)
Definition select_rows (f : Outbox → bool) (limit : nat) (d : Db) : list Outbox :=
  take limit (merge_sort claim_order (filter (λ r, f r = true) (map_values (db_outbox d)))).

Definition lease_all (until : Z) (rows : list Outbox) (m : gmap N Outbox) : gmap N Outbox :=
  foldl (λ m r, <[ob_id r := lease until r]> m) m rows.

(** [UPDATE outbox SET leased_until, attempts = attempts + 1 WHERE
    comms_request_id IN (..) RETURNING ..]: [attempts] is a [smallint]. SQL leaves
    the order of the returned rows open; here it is the order of the select. *)
Definition lease_update (f : Outbox → bool) (limit until : Z) (d : Db)
    : result (Db * list Outbox) SqlxError :=
  if limit <? 0 then Err (SqlConfiguration "LIMIT must not be negative")
  else
    let rows := select_rows f (Z.to_nat limit) d in
    if existsb (λ r, i16_max <=? ob_attempts r) rows then Err SqlNumericOutOfRange
    else Ok (on_outbox (lease_all until rows) d, lease until <$> rows).

(** The candidates of [claim]. *)
Definition claimable (ch : string) (e : ChannelExclusion) (now : Z) (r : Outbox) : bool :=
  bool_decide (ob_channel r = ch) && due now r && admits e r.

(** [repo::claim]. *)
Definition claim (ch : string) (limit until : Z) (e : ChannelExclusion) : Eff SqlxError (list Outbox) :=
  if blocked_entirely e then eret []
  else sql (λ t, lease_update (claimable ch e t) limit until).

(** The scope arms of [claim_for_scope]: [None] is the early [Ok(Vec::new())]. *)
Definition scope_filter `{!UuidText} (pinned : option string) (s : KillSwitch)
    : option (Outbox → bool) :=
  if decide (ks_scope s = scope.GLOBAL) then Some (λ _, true)
  else if decide (ks_scope s = scope.CHANNEL) then
    match ks_scope_key s with
    | None => None
    | Some switch_channel =>
        match pinned with
        | Some p => if decide (p ≠ switch_channel) then None else Some (λ _, true)
        | None => Some (λ r, bool_decide (ob_channel r = switch_channel))
        end
    end
  else if decide (ks_scope s = scope.PRODUCER) then
    match producer_id s with
    | None => None
    | Some p => Some (λ r, bool_decide (ob_producer_id r = p))
    end
  else if decide (ks_scope s = scope.PRODUCER_CHANNEL) then
    match producer_channel_parts s with
    | None => None
    | Some (p, switch_channel) =>
        match pinned with
        | Some c => if decide (c ≠ switch_channel) then None
                    else Some (λ r, bool_decide (ob_producer_id r = p))
        | None => Some (λ r, bool_decide (ob_channel r = switch_channel) && bool_decide (ob_producer_id r = p))
        end
    end
  else if decide (ks_scope s = scope.CAMPAIGN) then
    match ks_scope_key s with
    | None => None
    | Some c => Some (λ r, bool_decide (ob_campaign_id r = Some c))
    end
  else None.

Definition pinned_to (pinned : option string) (r : Outbox) : bool :=
  match pinned with Some c => bool_decide (ob_channel r = c) | None => true end.

(** [repo::claim_for_scope]. *)
Definition claim_for_scope `{!UuidText} (pinned : option string) (s : KillSwitch)
    (limit until : Z) (e : ChannelExclusion) : Eff SqlxError (list Outbox) :=
  if blocked_entirely e then eret []
  else match scope_filter pinned s with
  | None => eret []
  | Some f =>
      sql (λ t, lease_update (λ r, due t r && pinned_to pinned r && f r && admits e r) limit until)
  end.

(** ** Reads *)

(** [repo::load_ciphertexts]. *)
Definition load_ciphertexts (created_at : Z) (id : N) (d : Db) : option (string * option string) :=
  (λ r, (cr_destination_ciphertext r, cr_payload_ciphertext r)) <$> db_request d !! (created_at, id).

(** [repo::load_verified_at], a missing address flattened to unverified. *)
Definition load_verified_at (address : N) (d : Db) : option Z :=
  db_address d !! address ≫= ca_verified_at.

(** [repo::load_customer_timezone]. *)
Definition load_customer_timezone (customer : N) (d : Db) : option string :=
  cu_timezone <$> db_customer d !! customer.

(** [repo::is_suppressed] at the database's time. *)
Definition is_suppressed (created_at : Z) (id : N) (t : Z) (d : Db) : bool :=
  match db_request d !! (created_at, id) with
  | None => false
  | Some r => match db_suppression d !! cr_destination_hmac r with
              | Some s => t <? su_review_at s
              | None => false
              end
  end.

(** [repo::is_consented]. *)
Definition is_consented (address : N) (cl : string) (d : Db) : bool :=
  match db_consent d !! (address, cl) with Some c => co_opted_in c | None => false end.

(** [repo::is_cancelled]: [fetch_one] fails when the row is gone. *)
Definition is_cancelled (id : N) : Eff SqlxError bool :=
  sql (λ _ d, match db_outbox d !! id with
              | Some r => Ok (d, bool_decide (is_Some (ob_cancelled_at r)))
              | None => Err SqlRowNotFound
              end).

(** ** Writes *)

(** [INSERT INTO comms_event .. ON CONFLICT DO NOTHING]. *)
Definition insert_event (key : EventKey) (ev : CommsEvent) (d : Db) : Db :=
  on_event (λ m, match m !! key with Some _ => m | None => <[key := ev]> m end) d.

(** [repo::record_event]. *)
Definition record_event (id customer : N) (event_type : string) : Eff SqlxError unit :=
  now ←! utc_now;
  exec (λ _, insert_event (now, id, event_type, ""%string) (MkEvent customer None None)).

(** [repo::reschedule_retry]. *)
Definition reschedule (id : N) (next : Z) (d : Db) : Db :=
  on_outbox (alter (λ r, ob_set_next next (ob_set_lease None r)) id) d.
Definition reschedule_retry (id : N) (next : Z) : Eff SqlxError unit :=
  exec (λ _, reschedule id next).

(** [repo::clear_stale_leases]. *)
Definition clear_leases (d : Db) : Db := on_outbox (fmap (ob_set_lease None)) d.
Definition clear_stale_leases : Eff SqlxError nat :=
  sql (λ _ d, Ok (clear_leases d,
    length (filter (λ r, is_Some (ob_leased_until r)) (map_values (db_outbox d))))).

(** [UPDATE comms_request SET final_status, finalized_at WHERE created_at AND id]. *)
Definition finalize (created_at : Z) (id : N) (status : string) (at_ : Z) (d : Db) : Db :=
  on_request (alter (cr_finalize status at_) (created_at, id)) d.

Definition delete_outbox (id : N) (d : Db) : Db := on_outbox (delete id) d.

(** The arguments of [repo::write_terminal]. *)
Record Terminal : Type := MkTerminal {
  tm_created_at : Z;
  tm_id : N;
  tm_customer_id : N;
  tm_event_type : string;
  tm_provider_ref : option string;
  tm_provider_status : option string;
  tm_final_status : string;
}.

Definition terminal_event (a : Terminal) (now : Z) : Db → Db :=
  insert_event (now, tm_id a, tm_event_type a, default ""%string (tm_provider_ref a))
    (MkEvent (tm_customer_id a) (tm_provider_status a) None).

(** What a terminal write does as a whole. *)
Definition terminal_effect (a : Terminal) (now : Z) (d : Db) : Db :=
  delete_outbox (tm_id a)
    (finalize (tm_created_at a) (tm_id a) (tm_final_status a) now (terminal_event a now d)).

(** [repo::write_terminal]. *)
Definition write_terminal (a : Terminal) : Eff SqlxError unit :=
  now ←! utc_now;
  transaction
    (exec (λ _, terminal_event a now) ;!
     exec (λ _, finalize (tm_created_at a) (tm_id a) (tm_final_status a) now) ;!
     exec (λ _, delete_outbox (tm_id a)))
    (λ _, true).

(** A terminal write for a claimed row with one word for event and status. *)
Definition terminal_for (r : Outbox) (status : string) (pref pstatus : option string) : Terminal :=
  MkTerminal (ob_created_at r) (ob_id r) (ob_customer_id r) status pref pstatus status.

(** ** Lemmas *)

(** Rows sit under their own id. *)
Definition outbox_wf (d : Db) : Prop := ∀ id r, db_outbox d !! id = Some r → ob_id r = id.

Lemma select_rows_elem f n d r :
  r ∈ select_rows f n d → f r = true ∧ ∃ id, db_outbox d !! id = Some r.
Proof.
  unfold select_rows. intros H.
  apply (elem_of_take _ _ _) in H as (i & Hi & _). apply list_elem_of_lookup_2 in Hi.
  rewrite merge_sort_Permutation in Hi. apply list_elem_of_filter in Hi as [Hf Hin].
  split; [done|]. by apply elem_of_map_values.
Qed.

Lemma NoDup_map_values_id d : outbox_wf d → NoDup (ob_id <$> map_values (db_outbox d)).
Proof.
  intros Hwf. unfold map_values. rewrite <- list_fmap_compose.
  replace (((ob_id ∘ snd) <$> map_to_list (db_outbox d))) with ((map_to_list (db_outbox d)).*1).
  - apply NoDup_fst_map_to_list.
  - apply list_fmap_ext. intros i [k r] Hi. simpl. symmetry. apply Hwf.
    apply elem_of_map_to_list. by eapply list_elem_of_lookup_2.
Qed.

Lemma select_rows_NoDup f n d : outbox_wf d → NoDup (ob_id <$> select_rows f n d).
Proof.
  intros Hwf. unfold select_rows. rewrite fmap_take.
  eapply sublist_NoDup; [|apply sublist_take].
  rewrite merge_sort_Permutation.
  eapply sublist_NoDup; [by apply NoDup_map_values_id|]. by apply fmap_sublist, sublist_filter.
Qed.

Lemma lease_all_lookup until rows m id :
  NoDup (ob_id <$> rows) →
  lease_all until rows m !! id =
    match list_find (λ r, ob_id r = id) rows with
    | Some (_, r) => Some (lease until r)
    | None => m !! id
    end.
Proof.
  unfold lease_all. revert m. induction rows as [|r rows IH]; intros m Hnd; simpl; [done|].
  apply NoDup_cons in Hnd as [Hni Hnd]. rewrite IH by done. case_decide as Hid.
  - subst. destruct (list_find _ rows) as [[i x]|] eqn:Hf.
    + apply list_find_Some in Hf as (Hl & Hx & _). exfalso. apply Hni.
      rewrite <- Hx. apply list_elem_of_fmap_2. by eapply list_elem_of_lookup_2.
    + by rewrite lookup_insert_eq.
  - destruct (list_find _ rows) as [[i x]|]; simpl; [done|]. by rewrite lookup_insert_ne.
Qed.

#[export] Instance claim_order_trans : Transitive claim_order.
Proof. intros r1 r2 r3. unfold claim_order. lia. Qed.
#[export] Instance claim_order_total : Total claim_order.
Proof. intros r1 r2. unfold claim_order. lia. Qed.

(** Everything a lease update does to the rows it selected and to the others. *)
Lemma lease_update_Ok f limit until d d' rows :
  outbox_wf d → lease_update f limit until d = Ok (d', rows) →
  outbox_wf d' ∧ Z.of_nat (length rows) <= limit ∧ NoDup (ob_id <$> rows)
  ∧ (∀ r', r' ∈ rows → ∃ r, db_outbox d !! ob_id r' = Some r ∧ f r = true
        ∧ r' = lease until r ∧ ob_attempts r < i16_max ∧ db_outbox d' !! ob_id r' = Some r')
  ∧ (∀ id, id ∉ ob_id <$> rows → db_outbox d' !! id = db_outbox d !! id)
  ∧ d' = on_outbox (λ _, db_outbox d') d.
Proof.
  intros Hwf. unfold lease_update. destruct (Z.ltb_spec limit 0) as [|Hlim]; [done|].
  set (sel := select_rows f (Z.to_nat limit) d).
  destruct (existsb _ sel) eqn:Hov; [done|]. intros [= <- <-].
  pose proof (select_rows_NoDup f (Z.to_nat limit) d Hwf) as Hnd. fold sel in Hnd.
  assert (∀ r, r ∈ sel → ob_attempts r < i16_max) as Hatt.
  { intros r Hr. destruct (Z.lt_ge_cases (ob_attempts r) i16_max) as [?|Hge]; [done|].
    assert (existsb (λ r, i16_max <=? ob_attempts r) sel = true); [|congruence].
    apply existsb_exists. exists r. split; [by apply list_elem_of_In|by apply Z.leb_le]. }
  assert (ob_id <$> (lease until <$> sel) = ob_id <$> sel) as Hids.
  { rewrite <- list_fmap_compose. by apply list_fmap_ext. }
  assert (∀ r, r ∈ sel → db_outbox d !! ob_id r = Some r ∧ f r = true) as Hsel.
  { intros r Hr. apply select_rows_elem in Hr as (Hf & id & Hid). by rewrite (Hwf _ _ Hid). }
  assert (∀ r, r ∈ sel → lease_all until sel (db_outbox d) !! ob_id r = Some (lease until r)) as Hin.
  { intros r Hr. rewrite lease_all_lookup by done. destruct (list_find _ sel) as [[i x]|] eqn:Hf.
    - apply list_find_Some in Hf as (Hl & Hx & _). apply list_elem_of_lookup_2 in Hl.
      destruct (Hsel r Hr) as [H1 _], (Hsel x Hl) as [H2 _]. rewrite Hx in H2. by simplify_eq.
    - apply list_find_None in Hf. rewrite Forall_forall in Hf. by destruct (Hf r Hr). }
  assert (∀ id, id ∉ ob_id <$> sel → lease_all until sel (db_outbox d) !! id = db_outbox d !! id) as Hout.
  { intros id Hid. rewrite lease_all_lookup by done. destruct (list_find _ sel) as [[i x]|] eqn:Hf; [|done].
    apply list_find_Some in Hf as (Hl & <- & _). exfalso. apply Hid, list_elem_of_fmap_2.
    by eapply list_elem_of_lookup_2. }
  rewrite Hids. split_and!; try done.
  - intros id r. simpl. destruct (decide (id ∈ ob_id <$> sel)) as [Hi|Hi].
    + apply list_elem_of_fmap in Hi as (x & -> & Hx). rewrite (Hin x Hx). by intros [= <-].
    + rewrite (Hout id Hi). apply Hwf.
  - rewrite length_fmap. unfold sel, select_rows. rewrite length_take. lia.
  - intros r' Hr'. apply list_elem_of_fmap in Hr' as (r & -> & Hr). exists r.
    destruct (Hsel r Hr). split_and!; try done; [by apply Hatt|exact (Hin r Hr)].
Qed.

(** The rows a lease update leaves behind come after those it took. *)
Lemma lease_update_order f limit until d d' rows id r :
  lease_update f limit until d = Ok (d', rows) →
  db_outbox d !! id = Some r → f r = true → ob_id r ∉ ob_id <$> rows →
  Z.of_nat (length rows) = limit ∧ ∀ r', r' ∈ rows → claim_order r' r.
Proof.
  unfold lease_update. destruct (Z.ltb_spec limit 0) as [|Hlim]; [done|].
  destruct (existsb _ _); [done|]. intros [= _ <-] Hr Hf Hni. unfold select_rows in *.
  set (l := merge_sort claim_order _) in *.
  assert (r ∈ l) as Hin.
  { unfold l. rewrite merge_sort_Permutation. apply list_elem_of_filter.
    split; [done|]. apply elem_of_map_values. eauto. }
  assert (StronglySorted claim_order l) as Hs by (apply (StronglySorted_merge_sort claim_order)).
  rewrite <- (take_drop (Z.to_nat limit) l) in Hin. apply elem_of_app in Hin as [Hin|Hin].
  { exfalso. apply Hni. rewrite <- list_fmap_compose. apply list_elem_of_fmap. by exists r. }
  split.
  - rewrite length_fmap, length_take. destruct (Nat.le_gt_cases (Z.to_nat limit) (length l)) as [?|?]; [lia|].
    rewrite drop_ge in Hin by lia. by apply not_elem_of_nil in Hin.
  - intros r' Hr'. apply list_elem_of_fmap in Hr' as (x & -> & Hx).
    enough (claim_order x r) by (unfold claim_order in *; simpl; lia).
    rewrite <- (take_drop (Z.to_nat limit) l) in Hs.
    by eapply StronglySorted_app_1_elem_of.
Qed.

Lemma claim_inv ch limit until e (w w' : W) rows :
  claim ch limit until e w = (w', Ok rows) →
  (rows = [] ∧ blocked_entirely e = true ∧ w' = w) ∨
  (blocked_entirely e = false ∧ ∃ d', w' = set_db d' (tick w) ∧
     lease_update (claimable ch e (w_now (tick w))) limit until (w_db (tick w)) = Ok (d', rows)).
Proof.
  unfold claim. destruct (blocked_entirely e).
  - intros [<- <-]%eret_inv. by left.
  - unfold sql. intros H. right. split; [done|]. destruct (mv_fault _); [| done |];
      destruct (lease_update _ _ _ _) as [[d' rs]|]; simplify_eq; eauto.
Qed.

Lemma due_iff t r : due t r = true ↔ ob_next_attempt_at r <= t ∧ ob_leased_until r = None.
Proof. unfold due. by rewrite andb_true_iff, Z.leb_le, bool_decide_eq_true. Qed.

(** The scope arms of the drain query are the switch's own [matches]. *)
Lemma scope_filter_matches `{!UuidText} pinned s r :
  pinned_to pinned r = true →
  match scope_filter pinned s with Some f => f r | None => false end = matches_row s r.
Proof.
  intros Hp. unfold scope_filter, matches_row, matches.
  assert (∀ c, pinned = Some c → ob_channel r = c) as Hc.
  { intros c ->. simpl in Hp. by apply bool_decide_eq_true in Hp. }
  destruct (decide (ks_scope s = scope.GLOBAL)); [done|].
  destruct (decide (ks_scope s = scope.CHANNEL)).
  { destruct (ks_scope_key s) as [k|]; [|bool_cases].
    destruct pinned as [c|]; [|bool_cases]. rewrite (Hc c eq_refl). case_decide; bool_cases. }
  destruct (decide (ks_scope s = scope.PRODUCER)).
  { destruct (producer_id s); bool_cases. }
  destruct (decide (ks_scope s = scope.PRODUCER_CHANNEL)).
  { destruct (producer_channel_parts s) as [[p k]|]; [|done].
    destruct pinned as [c|]; [rewrite (Hc c eq_refl); case_decide|]; bool_cases. }
  destruct (decide (ks_scope s = scope.CAMPAIGN)); [|done].
  destruct (ks_scope_key s) as [k|]; destruct (ob_campaign_id r); bool_cases.
Qed.

Lemma outbox_lookup_delete id d id' :
  db_outbox (delete_outbox id d) !! id' = if decide (id = id') then None else db_outbox d !! id'.
Proof. simpl. rewrite lookup_delete. done. Qed.

Lemma mute_write_terminal a : mute (write_terminal a).
Proof. unfold write_terminal. solve_mute. Qed.
Lemma mute_record_event id c e : mute (record_event id c e).
Proof. unfold record_event. solve_mute. Qed.
Lemma mute_reschedule id t : mute (reschedule_retry id t).
Proof. unfold reschedule_retry. solve_mute. Qed.
Lemma mute_is_cancelled id : mute (is_cancelled id).
Proof. unfold is_cancelled. solve_mute. Qed.
Lemma mute_claim ch l u e : mute (claim ch l u e).
Proof. unfold claim. solve_mute. Qed.
Lemma mute_claim_for_scope `{!UuidText} p s l u e : mute (claim_for_scope p s l u e).
Proof. unfold claim_for_scope. solve_mute. Qed.
#[export] Hint Resolve mute_write_terminal mute_record_event mute_reschedule mute_is_cancelled
  mute_claim mute_claim_for_scope : effects.

Lemma forward_write_terminal a : forward (write_terminal a).
Proof. unfold write_terminal. solve_forward. Qed.
Lemma forward_record_event id c e : forward (record_event id c e).
Proof. unfold record_event. solve_forward. Qed.
Lemma forward_reschedule id t : forward (reschedule_retry id t).
Proof. unfold reschedule_retry. solve_forward. Qed.
Lemma forward_is_cancelled id : forward (is_cancelled id).
Proof. unfold is_cancelled. solve_forward. Qed.
Lemma forward_claim_for_scope `{!UuidText} p s l u e : forward (claim_for_scope p s l u e).
Proof. unfold claim_for_scope. solve_forward. Qed.
#[export] Hint Resolve forward_write_terminal forward_record_event forward_reschedule
  forward_is_cancelled forward_claim_for_scope : effects.

Lemma guar_write_terminal (R : relation Db) `{!PreOrder R} a :
  (∀ t d, R d (terminal_effect a t d)) → guar R (write_terminal a).
Proof.
  intros HR. unfold write_terminal. apply guar_bind; [done|by apply guar_now|]. intros now.
  apply guar_transaction; [done|].
  eapply (tx_post_bind _ _ (λ d d' _, d' = terminal_event a now d)); [by apply tx_post_exec|]. intros _.
  eapply (tx_post_bind _ _
    (λ d d' _, d' = finalize (tm_created_at a) (tm_id a) (tm_final_status a) now d)); [by apply tx_post_exec|].
  intros _. apply tx_post_exec. intros t d d1 -> d0 -> _. apply HR.
Qed.

Lemma write_terminal_calm a (w : W) :
  calm w → write_terminal a w = (set_db (terminal_effect a (w_now w) (w_db w)) w, Ok tt).
Proof.
  intros Hc. unfold write_terminal, ebind at 1. rewrite utc_now_calm by apply Hc.
  set (d' := terminal_effect _ _ _).
  rewrite (transaction_calm _ _ w (set_db d' w) tt); [by rewrite set_tx_set_db, set_tx_calm|done| |apply Hc|done].
  unfold ebind. rewrite !exec_calm by apply Hc. done.
Qed.

(** ** Properties *)

(** A claim leases only rows that are free to go: each row it returns was
    unleased, due at the database's time, on its channel and not covered by the
    exclusion; it is now leased with one more attempt, no row is returned twice,
    at most [limit] are, and every other row is untouched. *)
Theorem claim_takes_only_free_due_rows ch limit until e (w w' : W) rows :
  outbox_wf (w_db (tick w)) → claim ch limit until e w = (w', Ok rows) →
  NoDup (ob_id <$> rows) ∧ (rows = [] ∨ Z.of_nat (length rows) <= limit)
  ∧ (∀ r', r' ∈ rows → ∃ r, db_outbox (w_db (tick w)) !! ob_id r' = Some r
        ∧ r' = lease until r ∧ ob_leased_until r = None
        ∧ ob_next_attempt_at r <= w_now (tick w) ∧ ob_channel r = ch ∧ excluded e r = false
        ∧ db_outbox (w_db w') !! ob_id r' = Some r')
  ∧ (rows ≠ [] → ∀ id, id ∉ ob_id <$> rows → db_outbox (w_db w') !! id = db_outbox (w_db (tick w)) !! id).
Proof.
  intros Hwf Hc. apply claim_inv in Hc as [(-> & _ & _)|(Hb & d' & -> & Hu)].
  { split_and!; [constructor|by left|by intros ? ?%not_elem_of_nil|done]. }
  destruct (lease_update_Ok _ _ _ _ _ _ Hwf Hu) as (_ & Hlen & Hnd & Hin & Hout & _).
  split_and!; [done|by right| |by intros _].
  intros r' Hr'. destruct (Hin r' Hr') as (r & Hr & Hf & -> & _ & Hd'). exists r.
  unfold claimable in Hf. rewrite !andb_true_iff, bool_decide_eq_true, due_iff in Hf.
  destruct Hf as [[Hch [Hdue Hl]] Had]. split_and!; try done.
  unfold excluded. by rewrite Hb, Had.
Qed.

(** Claims serve the queue in order: when a candidate is left behind, the
    batch is full and nothing in it has a later place by priority and then by
    due time. *)
Theorem claim_serves_in_priority_order ch limit until e (w w' : W) rows id r :
  claim ch limit until e w = (w', Ok rows) → blocked_entirely e = false →
  db_outbox (w_db (tick w)) !! id = Some r → claimable ch e (w_now (tick w)) r = true →
  ob_id r ∉ ob_id <$> rows →
  Z.of_nat (length rows) = limit ∧ ∀ r', r' ∈ rows → claim_order r' r.
Proof.
  intros Hc Hb Hr Hf Hni. apply claim_inv in Hc as [(_ & ? & _)|(_ & d' & _ & Hu)]; [congruence|].
  by eapply lease_update_order.
Qed.

(** A lease never times out by itself: a row that is leased is claimed by no
    channel loop and by no drain, at whatever time; clearing the stale leases
    makes every row unleased again and changes nothing else of it. *)
Theorem leased_rows_wait_for_a_lease_sweep `{!UuidText} :
  (∀ ch limit until e (w w' : W) rows id r t,
     outbox_wf (w_db (tick w)) → claim ch limit until e w = (w', Ok rows) →
     db_outbox (w_db (tick w)) !! id = Some r → ob_leased_until r = Some t →
     id ∉ ob_id <$> rows) ∧
  (∀ pinned s limit until e (w w' : W) rows id r t,
     outbox_wf (w_db (tick w)) → claim_for_scope pinned s limit until e w = (w', Ok rows) →
     db_outbox (w_db (tick w)) !! id = Some r → ob_leased_until r = Some t →
     id ∉ ob_id <$> rows) ∧
  (∀ d id, db_outbox (clear_leases d) !! id = ob_set_lease None <$> db_outbox d !! id).
Proof.
  assert (∀ f limit until d d' rows id r t,
    outbox_wf d → (∀ x, f x = true → ob_leased_until x = None) →
    lease_update f limit until d = Ok (d', rows) →
    db_outbox d !! id = Some r → ob_leased_until r = Some t → id ∉ ob_id <$> rows) as Hgen.
  { intros f limit until d d' rows id r t Hwf Hf Hu Hr Hl Hin.
    destruct (lease_update_Ok _ _ _ _ _ _ Hwf Hu) as (_ & _ & _ & Hrows & _).
    apply list_elem_of_fmap in Hin as (r' & -> & Hr'). destruct (Hrows r' Hr') as (x & Hx & Hfx & _).
    simplify_eq. apply Hf in Hfx. congruence. }
  split_and!.
  - intros ch limit until e w w' rows id r t Hwf Hc Hr Hl.
    apply claim_inv in Hc as [(-> & _)|(_ & d' & _ & Hu)]; [apply not_elem_of_nil|].
    eapply Hgen; [done| |done..]. intros x Hx. unfold claimable in Hx.
    rewrite !andb_true_iff, due_iff in Hx. tauto.
  - intros pinned s limit until e w w' rows id r t Hwf Hc Hr Hl. unfold claim_for_scope in Hc.
    destruct (blocked_entirely e); [apply eret_inv in Hc as [<- _]; apply not_elem_of_nil|].
    destruct (scope_filter pinned s) as [f|]; [|apply eret_inv in Hc as [<- _]; apply not_elem_of_nil].
    unfold sql in Hc. destruct (mv_fault _); [| done |];
      destruct (lease_update _ _ _ _) as [[d' rs]|] eqn:Hu; simplify_eq.
    eapply Hgen; [done| |done..]. intros x Hx. simpl in Hx. rewrite !andb_true_iff, due_iff in Hx. tauto.
  - intros d id. simpl. by rewrite lookup_fmap.
Qed.

(** A terminal write is all or nothing: whatever fails inside it and
    whatever other processes do around it, it stays within any relation that
    contains the complete effect (event recorded, request finalized, row
    removed), however little that relation allows in between. *)
Theorem terminal_write_is_atomic (R : relation Db) `{!PreOrder R} (a : Terminal) :
  (∀ t d, R d (terminal_effect a t d)) → guar R (write_terminal a).
Proof. apply guar_write_terminal, _. Qed.

(** A drain claims only its own scope: a row is a candidate of the drain
    query of a switch, pinned to a channel or not, exactly when the switch
    covers it by [KillSwitch::matches] and no still-engaged switch excludes it. *)
Theorem drain_claims_only_its_scope `{!UuidText} pinned s (e : ChannelExclusion) t r :
  blocked_entirely e = false →
  match scope_filter pinned s with
  | Some f => due t r && pinned_to pinned r && f r && admits e r
  | None => false
  end
  = due t r && pinned_to pinned r && matches_row s r && negb (excluded e r).
Proof.
  intros Hb. unfold excluded. rewrite Hb; simpl. rewrite negb_involutive.
  destruct (pinned_to pinned r) eqn:Hp.
  - pose proof (scope_filter_matches pinned s r Hp) as Hm.
    destruct (scope_filter pinned s); rewrite <- Hm; [done|]. by rewrite andb_false_r.
  - rewrite andb_false_r; simpl. by destruct (scope_filter pinned s).
Qed.

(** ** Concrete rows *)

Definition demo_row (id : N) (prio next : Z) (leased : option Z) : Outbox :=
  MkOutbox id 10 channel.SMS class.MARKETING prio 1%N 2%N 7%N None next None None 0 leased.

Definition demo_request : CommsRequest :=
  MkRequest 1%N 1%N channel.SMS class.MARKETING "welcome" 1 None "hmac" "nonce-of-12-dest" (Some "nonce-of-12-body") 7%N
    None None None None.

Definition demo_db (rows : list Outbox) : Db :=
  on_request (λ _, list_to_map ((λ r, ((ob_created_at r, ob_id r), demo_request)) <$> rows))
    (on_outbox (λ _, list_to_map ((λ r, (ob_id r, r)) <$> rows)) empty_db).

Definition demo_world (rows : list Outbox) (now : Z) : W := World (demo_db rows) now false [] [].

Lemma demo_outbox_wf rows : outbox_wf (demo_db rows).
Proof.
  intros id r. unfold demo_db; simpl. intros H. apply elem_of_list_to_map_2, list_elem_of_fmap in H.
  destruct H as (x & H & _). by simplify_eq.
Qed.

Definition demo_queue : list Outbox := [demo_row 1 2 50 None; demo_row 2 1 60 None; demo_row 3 1 60 (Some 99)].

Lemma claim_witness :
  NoDup (ob_id <$> [lease 500 (demo_row 2 1 60 None)])
  ∧ ∀ r', r' ∈ [lease 500 (demo_row 2 1 60 None)] → ob_channel r' = channel.SMS.
Proof.
  assert (claim channel.SMS 1 500 no_exclusion (demo_world demo_queue 100)
    = ((claim channel.SMS 1 500 no_exclusion (demo_world demo_queue 100)).1,
       Ok [lease 500 (demo_row 2 1 60 None)])) as Hc by (vm_compute; reflexivity).
  destruct (claim_takes_only_free_due_rows channel.SMS 1 500 no_exclusion (demo_world demo_queue 100)
    _ _ (demo_outbox_wf _) Hc) as (Hnd & _ & Hrows & _).
  split; [exact Hnd|]. intros r' Hr'. destruct (Hrows r' Hr') as (r & _ & -> & _ & _ & Hch & _). exact Hch.
Defined.

Lemma claim_order_witness :
  Z.of_nat (length [lease 500 (demo_row 2 1 60 None)]) = 1
  ∧ ∀ r', r' ∈ [lease 500 (demo_row 2 1 60 None)] → claim_order r' (demo_row 1 2 50 None).
Proof.
  apply (claim_serves_in_priority_order channel.SMS 1 500 no_exclusion (demo_world demo_queue 100)
    (claim channel.SMS 1 500 no_exclusion (demo_world demo_queue 100)).1
    [lease 500 (demo_row 2 1 60 None)] 1%N (demo_row 1 2 50 None)); try (vm_compute; reflexivity).
  intros H. apply list_elem_of_singleton in H. discriminate H.
Defined.

(** The relation of the processes that only ever finish this row. *)
Definition demo_terminal : Terminal :=
  terminal_for (demo_row 1 2 50 None) "sent" (Some "ref") (Some "accepted").

Lemma terminal_atomic_witness :
  guar (C:=Call) (rtc (λ d d', ∃ t, d' = terminal_effect demo_terminal t d)) (write_terminal demo_terminal).
Proof. apply (terminal_write_is_atomic _ demo_terminal). intros t d. apply rtc_once. by exists t. Defined.

Definition demo_uuid : UuidText := {|
  parse_str s := if decide (s = "7"%string) then Some 7%N else None;
  uuid_str n := if decide (n = 7%N) then "7"%string else ""%string;
  uuid_bytes _ := "0123456789abcdef"%string;
|}.

Definition demo_switch (sc : string) (key : option string) : KillSwitch :=
  MkSwitch 40%N sc key on_queued.HOLD "ops" 0 "incident" None None.

Lemma drain_scope_witness :
  (due 100 (demo_row 1 2 50 None) && pinned_to (Some channel.SMS) (demo_row 1 2 50 None)
   && matches_row (H:=demo_uuid) (demo_switch scope.PRODUCER_CHANNEL (Some "7:sms")) (demo_row 1 2 50 None)
   && negb (excluded no_exclusion (demo_row 1 2 50 None))) = true.
Proof.
  rewrite <- (drain_claims_only_its_scope (H:=demo_uuid) (Some channel.SMS)
    (demo_switch scope.PRODUCER_CHANNEL (Some "7:sms")) no_exclusion 100 (demo_row 1 2 50 None) eq_refl).
  vm_compute. reflexivity.
Defined.
