(* ===== verification/Worker.v ===== *)
(** * The dispatcher's gate chain

    Models [src/dispatcher/worker.rs] and the sender interface of
    [src/sender/mod.rs]: the backoff, the gates a claimed row passes through in
    order, the send with its retry policy, and one turn of the channel loop. The
    provider and the key service are parameters of the context. *)

From S2P Require Import Prelude RustStd Time Schema KillSwitch Quota QuietHours Dek Outbox.
From stdpp Require Import base gmap strings list pretty.
From Stdlib Require Import ZArith Lia.

Local Open Scope effect_scope.
Local Open Scope Z_scope.

(** ** The sender interface *)

Record SendOutcome : Type := MkSent { provider_ref : string; provider_status : string }.

Inductive SenderError : Type :=
| Http
| Provider (status : Z) (body : string).

Definition is_retryable (e : SenderError) : bool :=
  match e with Http => true | Provider status _ => 500 <=? status end.

(** The status is printed in decimal. *)
Definition provider_status_of (e : SenderError) : option string :=
  match e with Provider status _ => Some (pretty status) | Http => None end.

(** ** Errors *)

Inductive DispatchError : Type :=
| DDatabase (e : SqlxError)
| DDek (e : CustomerDekError)
| DEncryption (e : EncryptionError)
| DInvalidUtf8
| DMissingRequest (id : N)
| DMissingPayload (id : N).

(** ** Backoff *)

Definition CLAIM_BATCH_SIZE : Z := 20.
Definition LEASE_DURATION : Z := 2 * minute.
Definition POLL_INTERVAL : Z := 1 * second.
Definition CLAIM_RETRY_DELAY : Z := 1 * second.
Definition MAX_SEND_ATTEMPTS : Z := 8.
Definition BACKOFF_BASE_MS : Z := 30000.
Definition BACKOFF_MULTIPLIER : Z := 2.
Definition BACKOFF_CAP_MS : Z := 1800000.

Definition backoff_ms (attempts : Z) : Z :=
  let exponent := as_u32 (Z.min (i16_saturating_sub attempts 1) 6) in
  Z.min (i64_saturating_mul BACKOFF_BASE_MS (i64_saturating_pow BACKOFF_MULTIPLIER exponent))
        BACKOFF_CAP_MS.

(** The largest jitter [backoff_delay] draws. *)
Definition jitter_bound (delay_ms : Z) : Z := Z.max (Z.quot delay_ms 2) 1.

Definition backoff_delay (attempts jitter_ms : Z) : Z :=
  (backoff_ms attempts + jitter_ms) * millisecond.

(** ** What a dispatcher process is given *)

Section Worker.
Context {Tz : Type} `{!TimeZone Tz} `{!UuidText} `{AE : !Aead}.

Record DispatcherContext : Type := MkContext {
  dc_channel : string;
  (** [Sender::send]: the reply may depend on everything sent before. *)
  dc_send : list Call → string → string → result SendOutcome SenderError;
  (** [customer_dek::lifecycle::get_or_create_dek] for a customer. *)
  dc_dek : N → Eff CustomerDekError string;
  (** [rand::rng().random_range(0..=bound)], drawn at an instant. *)
  dc_rand : Z → Z → Z;
  dc_verification_mode : string;
  dc_default_timezone : string;
  dc_quiet_hours : option QuietHoursPolicy;
}.

(** Whether a row goes on to the next gate or is done. *)
Inductive gate : Type := Proceed | Stop.

Definition finish (a : Terminal) : Eff DispatchError gate :=
  elift DDatabase (write_terminal a) ;! eret Stop.

Definition expiry_gate (row : Outbox) : Eff DispatchError gate :=
  match ob_expires_at row with
  | None => eret Proceed
  | Some expires_at =>
      now ←! utc_now;
      if expires_at <=? now then finish (terminal_for row "expired" None None)
      else eret Proceed
  end.

Definition suppression_gate (row : Outbox) : Eff DispatchError gate :=
  b ←! elift DDatabase (query (is_suppressed (ob_created_at row) (ob_id row)));
  if b : bool then finish (terminal_for row "suppressed_list" None None) else eret Proceed.

(** [matches!(row.class.as_str(), class::TRANSACTIONAL | class::MARKETING)]. *)
Definition verified_class (row : Outbox) : bool :=
  bool_decide (ob_class row = class.TRANSACTIONAL) || bool_decide (ob_class row = class.MARKETING).

Definition verification_gate (ctx : DispatcherContext) (row : Outbox) : Eff DispatchError gate :=
  if verified_class row then
    v ←! elift DDatabase (query (λ _, load_verified_at (ob_address_id row)));
    match v with
    | Some _ => eret Proceed
    | None =>
        if decide (dc_verification_mode ctx = verification_mode.ENFORCE) then
          finish (terminal_for row "unverified_address" None None)
        else
          elift DDatabase (record_event (ob_id row) (ob_customer_id row) "unverified_address") ;!
          eret Proceed
    end
  else eret Proceed.

Definition consent_gate (row : Outbox) : Eff DispatchError gate :=
  if decide (ob_class row = class.MARKETING) then
    c ←! elift DDatabase (query (λ _, is_consented (ob_address_id row) (ob_class row)));
    if c : bool then eret Proceed else finish (terminal_for row "suppressed_consent" None None)
  else eret Proceed.

(** One gate after another, stopping at the first that ends the row. *)
Definition and_then (g1 g2 : Eff DispatchError gate) : Eff DispatchError gate :=
  r ←! g1; match r with Stop => eret Stop | Proceed => g2 end.

(** The gates ahead of the quota. *)
Definition early_gates (ctx : DispatcherContext) (row : Outbox) : Eff DispatchError gate :=
  and_then (expiry_gate row)
    (and_then (suppression_gate row)
      (and_then (verification_gate ctx row) (consent_gate row))).

Definition quiet_gate (ctx : DispatcherContext) (row : Outbox) : Eff DispatchError gate :=
  match dc_quiet_hours ctx with
  | None => eret Proceed
  | Some policy =>
      tz ←! elift DDatabase (query (λ _, load_customer_timezone (ob_customer_id row)));
      now ←! utc_now;
      match resolve_reschedule now (default (dc_default_timezone ctx) tz) (dc_default_timezone ctx)
              policy (dc_rand ctx now JITTER_MAX_MS) with
      | Some next => elift DDatabase (reschedule_retry (ob_id row) next) ;! eret Stop
      | None => eret Proceed
      end
  end.

Definition decrypt_text (dek : string) (row : Outbox) (c : string)
    : result string DispatchError :=
  match decrypt dek (uuid_bytes (ob_id row)) c with
  | Err e => Err (DEncryption e)
  | Ok b => ok_or (from_utf8 b) DInvalidUtf8
  end.

(** The provider call: time passes, and the call is on the record whatever
    the provider answers. *)
Definition send_call (ctx : DispatcherContext) (destination body : string)
    : Eff DispatchError (result SendOutcome SenderError) :=
  λ w, let w' := tick w in
       (add_call (MkCall (dc_channel ctx) destination body) w',
        Ok (dc_send ctx (w_trace w') destination body)).

(** What follows the reply. *)
Definition settle (ctx : DispatcherContext) (row : Outbox) (reply : result SendOutcome SenderError)
    : Eff DispatchError unit :=
  match reply with
  | Ok outcome =>
      elift DDatabase (write_terminal (terminal_for row "sent"
        (Some (provider_ref outcome)) (Some (provider_status outcome))))
  | Err err =>
      if is_retryable err && (ob_attempts row <? MAX_SEND_ATTEMPTS) then
        now ←! utc_now;
        elift DDatabase (reschedule_retry (ob_id row)
          (now + backoff_delay (ob_attempts row)
                   (dc_rand ctx now (jitter_bound (backoff_ms (ob_attempts row))))))
      else
        elift DDatabase (write_terminal (terminal_for row "failed" None
          (provider_status_of err)))
  end.

(** Decrypt, re-read the cancellation, send. *)
Definition deliver (ctx : DispatcherContext) (row : Outbox) : Eff DispatchError unit :=
  c ←! elift DDatabase (query (λ _, load_ciphertexts (ob_created_at row) (ob_id row)));
  ciphertexts ←! eof (ok_or c (DMissingRequest (ob_id row)));
  dek ←! elift DDek (dc_dek ctx (ob_customer_id row));
  destination ←! eof (decrypt_text dek row ciphertexts.1);
  payload ←! eof (ok_or ciphertexts.2 (DMissingPayload (ob_id row)));
  body ←! eof (decrypt_text dek row payload);
  cancelled ←! elift DDatabase (is_cancelled (ob_id row));
  if cancelled : bool then
    elift DDatabase (write_terminal (terminal_for row "cancelled" None None))
  else
    reply ←! send_call ctx destination body;
    settle ctx row reply.

Definition after_quota (ctx : DispatcherContext) (row : Outbox) : Eff DispatchError unit :=
  g ←! quiet_gate ctx row;
  match g with Stop => eret tt | Proceed => deliver ctx row end.

(** [try_process]: the quota tracker is process memory, so it is updated
    whatever comes of the row. *)
Definition try_process (ctx : DispatcherContext) (quota : QuotaTracker Tz) (row : Outbox) (w : W)
    : W * (QuotaTracker Tz * result unit DispatchError) :=
  match early_gates ctx row w with
  | (w1, Err e) => (w1, (quota, Err e))
  | (w1, Ok Stop) => (w1, (quota, Ok tt))
  | (w1, Ok Proceed) =>
      let w2 := tick w1 in
      let '(quota', decision) :=
        check_and_record quota (ob_producer_id row) (ob_channel row) (ob_class row) (w_now w2) in
      let '(w3, r) :=
        match decision with
        | Defer next => elift DDatabase (reschedule_retry (ob_id row) next) w2
        | _ => after_quota ctx row w2
        end in
      (w3, (quota', r))
  end.

(** [process_one]: a failure is logged, not propagated. *)
Definition process_one (ctx : DispatcherContext) (quota : QuotaTracker Tz) (row : Outbox) (w : W)
    : W * QuotaTracker Tz :=
  let '(w', (quota', _)) := try_process ctx quota row w in (w', quota').

Fixpoint process_all (ctx : DispatcherContext) (quota : QuotaTracker Tz) (rows : list Outbox) (w : W)
    : W * QuotaTracker Tz :=
  match rows with
  | [] => (w, quota)
  | row :: rows =>
      let '(w1, quota1) := process_one ctx quota row w in process_all ctx quota1 rows w1
  end.

(** [DispatcherContext::claim_exclusion]: engaged switches and those still
    draining after release. *)
Definition claim_exclusion (active : ActiveSet) (draining : gmap N KillSwitch) (ch : string)
    : ChannelExclusion :=
  exclusion_for_channel (active_snapshot active ++ map_values draining) ch.

(** The inner loop of [run_channel_loop]: a failed claim is retried after a
    delay, for ever, with the lease end and the exclusion it started with;
    [fuel] bounds the tries the model runs. *)
Fixpoint claim_until_ok (fuel : nat) (ch : string) (leased_until : Z) (e : ChannelExclusion) (w : W)
    : W * option (list Outbox) :=
  match fuel with
  | O => (w, None)
  | S fuel =>
      match claim ch CLAIM_BATCH_SIZE leased_until e w with
      | (w1, Ok rows) => (w1, Some rows)
      | (w1, Err _) => claim_until_ok fuel ch leased_until e (sleep CLAIM_RETRY_DELAY w1)
      end
  end.

(** One turn of the loop of [run_channel_loop]; an empty claim waits for a
    notification or the poll interval. *)
Definition channel_turn (fuel : nat) (ctx : DispatcherContext) (active : ActiveSet)
    (draining : gmap N KillSwitch) (quota : QuotaTracker Tz) (w : W) : W * QuotaTracker Tz :=
  let w0 := tick w in
  match claim_until_ok fuel (dc_channel ctx) (w_now w0 + LEASE_DURATION)
          (claim_exclusion active draining (dc_channel ctx)) w0 with
  | (w1, None) => (w1, quota)
  | (w1, Some []) => (tick w1, quota)
  | (w1, Some rows) => process_all ctx quota rows w1
  end.
End Worker.

Arguments DispatcherContext : clear implicits.

(** ** Backoff lemmas *)

Lemma backoff_ms_attempts n : 1 <= n <= i16_max →
  backoff_ms n = Z.min (BACKOFF_BASE_MS * 2 ^ Z.min (n - 1) 6) BACKOFF_CAP_MS.
Proof.
  intros Hn. unfold backoff_ms, i16_saturating_sub, as_u32, i16_max in *.
  rewrite (clamp_id i16_min 32767) by (unfold i16_min; lia).
  rewrite (Z.mod_small (Z.min (n - 1) 6)) by (unfold u32_modulus; lia).
  set (e := Z.min (n - 1) 6). assert (0 <= e <= 6) as He by (unfold e; lia).
  assert (2 ^ 0 <= 2 ^ e <= 2 ^ 6) as Hp by (split; apply Z.pow_le_mono_r; lia). simpl in Hp.
  unfold i64_saturating_pow, i64_saturating_mul, BACKOFF_MULTIPLIER, BACKOFF_BASE_MS.
  rewrite !clamp_id; [done| |]; unfold i64_min, i64_max; rewrite ?clamp_id; unfold i64_min, i64_max; lia.
Qed.

Lemma backoff_ms_range n : i16_min <= n <= i16_max → BACKOFF_BASE_MS <= backoff_ms n <= BACKOFF_CAP_MS.
Proof.
  intros Hn. destruct (Z.le_gt_cases 1 n) as [H1|H1].
  - rewrite backoff_ms_attempts by lia.
    assert (2 ^ 0 <= 2 ^ Z.min (n - 1) 6) by (apply Z.pow_le_mono_r; lia).
    unfold BACKOFF_BASE_MS, BACKOFF_CAP_MS in *. simpl in *. lia.
  - unfold backoff_ms. set (e := as_u32 _).
    assert (63 <= e) as He.
    { unfold e, as_u32, i16_saturating_sub, clamp, u32_modulus, i16_min, i16_max in *.
      pose proof (Z.mod_unique_pos (Z.min (Z.max (-32768) (Z.min 32767 (n - 1))) 6) 4294967296 (-1)
        (Z.min (Z.max (-32768) (Z.min 32767 (n - 1))) 6 + 4294967296)) as Hm.
      rewrite <- Hm; lia. }
    assert (2 ^ 63 <= 2 ^ e) as Hp by (apply Z.pow_le_mono_r; lia).
    unfold i64_saturating_pow, BACKOFF_MULTIPLIER. 
    replace (clamp i64_min i64_max (2 ^ e)) with i64_max
      by (unfold clamp, i64_min, i64_max; change (2 ^ 63) with 9223372036854775808 in Hp; lia).
    vm_compute. split; discriminate.
Qed.

(** ** The calls a row makes *)

(** What other processes may do to the database without undoing [B]. *)
Definition keeps (B : Db → Prop) : relation Db := λ d d', B d → B d'.
#[export] Instance keeps_pre B : PreOrder (keeps B).
Proof. split; [by intros d H|]. intros d1 d2 d3 H1 H2 H. auto. Qed.

(** [never B m a]: among processes that keep [B], [m] does not end in [a]. *)
Definition never {E A} (B : Db → Prop) (m : Eff E A) (a : A) : Prop :=
  ∀ w, rely (keeps B) w → B (w_db w) → (m w).2 ≠ Ok a.

Section Calls.
Context {Tz : Type} `{!TimeZone Tz} `{!UuidText} `{AE : !Aead}.
Context (ctx : DispatcherContext) `{!DekService (dc_dek ctx)}.
Implicit Types (row : Outbox) (quota : QuotaTracker Tz).

Lemma mute_finish a : mute (finish a).
Proof. unfold finish. solve_mute. Qed.
Hint Resolve mute_finish : effects.

Lemma mute_early_gates row : mute (early_gates ctx row).
Proof.
  unfold early_gates, and_then, expiry_gate, suppression_gate, verification_gate, consent_gate.
  solve_mute.
Qed.

Lemma mute_quiet_gate row : mute (quiet_gate ctx row).
Proof. unfold quiet_gate. solve_mute. Qed.

Lemma mute_settle row reply : mute (settle ctx row reply).
Proof. unfold settle. solve_mute. Qed.

(** *** The clock *)

Lemma forward_try_process quota row w : w_now w <= w_now (try_process ctx quota row w).1.
Proof.
  assert (forward (early_gates ctx row)) as He.
  { unfold early_gates, and_then, expiry_gate, suppression_gate, verification_gate, consent_gate, finish.
    solve_forward. }
  assert (forward (after_quota ctx row)) as Ha.
  { pose proof dek_forward. unfold after_quota, quiet_gate, deliver, settle. solve_forward.
    intros w'. apply tick_now_le. }
  unfold try_process. specialize (He w). destruct (early_gates ctx row w) as [w1 [[]|e]]; simpl in *; [|done..].
  pose proof (tick_now_le w1). destruct (check_and_record _ _ _ _ _) as [quota' [| |next]].
  - specialize (Ha (tick w1)). destruct (after_quota _ _ _); simpl in *. lia.
  - specialize (Ha (tick w1)). destruct (after_quota _ _ _); simpl in *. lia.
  - pose proof (forward_reschedule (ob_id row) next (tick w1)) as Hr. unfold elift.
    destruct (reschedule_retry _ _ _); simpl in *. lia.
Qed.

(** The part of [deliver] before the provider is called: [Some] is a
    destination and a body to send, [None] a row found cancelled. *)
Definition prepare row : Eff DispatchError (option (string * string)) :=
  c ←! elift DDatabase (query (λ _, load_ciphertexts (ob_created_at row) (ob_id row)));
  ciphertexts ←! eof (ok_or c (DMissingRequest (ob_id row)));
  dek ←! elift DDek (dc_dek ctx (ob_customer_id row));
  destination ←! eof (decrypt_text dek row ciphertexts.1);
  payload ←! eof (ok_or ciphertexts.2 (DMissingPayload (ob_id row)));
  body ←! eof (decrypt_text dek row payload);
  cancelled ←! elift DDatabase (is_cancelled (ob_id row));
  if cancelled : bool then
    elift DDatabase (write_terminal (terminal_for row "cancelled" None None)) ;! eret None
  else eret (Some (destination, body)).

Lemma mute_prepare row : mute (prepare row).
Proof. unfold prepare. pose proof dek_mute. solve_mute. Qed.

Lemma deliver_prepare row w :
  deliver ctx row w =
    match prepare row w with
    | (w', Err e) => (w', Err e)
    | (w', Ok None) => (w', Ok tt)
    | (w', Ok (Some (dst, body))) => ebind (send_call ctx dst body) (settle ctx row) w'
    end.
Proof.
  set (F := λ p : W * result (option (string * string)) DispatchError,
    match p with
    | (w', Err e) => (w', Err e)
    | (w', Ok None) => (w', Ok tt)
    | (w', Ok (Some (dst, body))) => ebind (send_call ctx dst body) (settle ctx row) w'
    end).
  change (deliver ctx row w = F (prepare row w)). unfold deliver, prepare.
  do 7 (apply (ebind_through F); [done|]; intros ? ?).
  case_match; [|done]. unfold ebind. by destruct (elift _ _ _) as [? [[]|]].
Qed.

Lemma after_quota_trace row w :
  w_trace (after_quota ctx row w).1 = w_trace w
  ∨ ∃ dst body, w_trace (after_quota ctx row w).1 = w_trace w ++ [MkCall (dc_channel ctx) dst body].
Proof.
  unfold after_quota. unfold ebind. pose proof (mute_quiet_gate row w) as Hq.
  destruct (quiet_gate ctx row w) as [w1 [[]|e]]; simpl in *; [|by left..].
  rewrite !deliver_prepare, <- Hq. pose proof (mute_prepare row w1) as Hp.
  destruct (prepare row w1) as [w2 [[[dst body]|]|e]]; simpl in *; [|by left..].
  right. exists dst, body. unfold ebind, send_call; simpl.
  by rewrite mute_settle; simpl; rewrite Hp.
Qed.

Lemma try_process_trace quota row w :
  w_trace (try_process ctx quota row w).1 = w_trace w
  ∨ ∃ dst body, w_trace (try_process ctx quota row w).1 = w_trace w ++ [MkCall (dc_channel ctx) dst body].
Proof.
  unfold try_process. pose proof (mute_early_gates row w) as He.
  destruct (early_gates ctx row w) as [w1 [[]|e]]; simpl in *; [|by left..].
  destruct (check_and_record _ _ _ _ _) as [quota' dec]. rewrite <- He.
  destruct dec as [| |next].
  - pose proof (after_quota_trace row (tick w1)) as Ha. by destruct (after_quota ctx row (tick w1)).
  - pose proof (after_quota_trace row (tick w1)) as Ha. by destruct (after_quota ctx row (tick w1)).
  - left. pose proof (mute_reschedule (ob_id row) next (tick w1)) as Hr. unfold elift.
    by destruct (reschedule_retry _ _ _).
Qed.

(** *** Blocks that hold for good *)

(** The row was cancelled, or someone already finished it. *)
Definition cancelled_or_gone row (d : Db) : Prop :=
  ∀ r, db_outbox d !! ob_id row = Some r → is_Some (ob_cancelled_at r).
Definition no_consent row (d : Db) : Prop :=
  ob_class row = class.MARKETING ∧ is_consented (ob_address_id row) (ob_class row) d = false.
Definition unverified row (d : Db) : Prop :=
  verified_class row = true ∧ dc_verification_mode ctx = verification_mode.ENFORCE
  ∧ load_verified_at (ob_address_id row) d = None.

(** A block that the dispatcher's own writes for a row leave in place. *)
Record durable (row : Outbox) (B : Db → Prop) : Prop := {
  durable_event k ev d : B d → B (insert_event k ev d);
  durable_terminal a t d : tm_id a = ob_id row → B d → B (terminal_effect a t d);
  durable_dek f d : B d → B (on_dek f d);
}.

Lemma durable_cancelled row : durable row (cancelled_or_gone row).
Proof.
  split; unfold cancelled_or_gone; simpl; try done. intros a t d <- _ r. by rewrite lookup_delete_eq.
Qed.
Lemma durable_consent row : durable row (no_consent row).
Proof. by split. Qed.
Lemma durable_unverified row : durable row (unverified row).
Proof. by split. Qed.

Section Durable.
Context (row : Outbox) (B : Db → Prop) (HB : durable row B).

Lemma guar_finish st pref ps : guar (keeps B) (finish (terminal_for row st pref ps)).
Proof.
  unfold finish. step_guar. apply guar_write_terminal; [apply _|].
  intros t d ?. by apply (durable_terminal _ _ HB).
Qed.

Lemma guar_record id c e : guar (keeps B) (record_event id c e).
Proof.
  unfold record_event. step_guar. apply guar_exec; [apply _|].
  intros t d ?. by apply (durable_event _ _ HB).
Qed.

Lemma guar_expiry : guar (keeps B) (expiry_gate row).
Proof. unfold expiry_gate. step_guar. apply guar_finish. Qed.
Lemma guar_suppression : guar (keeps B) (suppression_gate row).
Proof. unfold suppression_gate. step_guar. apply guar_finish. Qed.
Lemma guar_verification : guar (keeps B) (verification_gate ctx row).
Proof. unfold verification_gate. step_guar; [apply guar_finish|apply guar_record]. Qed.
Lemma guar_consent : guar (keeps B) (consent_gate row).
Proof. unfold consent_gate. step_guar. apply guar_finish. Qed.

Lemma never_and_then_l g1 g2 :
  never B g1 Proceed → never B (and_then g1 g2) Proceed.
Proof.
  intros Hn w Hr Hb. unfold and_then, ebind. specialize (Hn w Hr Hb).
  by destruct (g1 w) as [w' [[]|e]].
Qed.
Lemma never_and_then_r g1 g2 :
  guar (keeps B) g1 → never B g2 Proceed → never B (and_then g1 g2) Proceed.
Proof.
  intros Hg Hn w Hr Hb. unfold and_then, ebind. destruct (Hg w Hr) as [H1 H2].
  destruct (g1 w) as [w' [[]|e]]; simpl in *; [|done..]. by apply Hn, H1.
Qed.
End Durable.

Lemma sql_read_never {A} (B : Db → Prop) (f : Z → Db → A) (bad : A) :
  (∀ t d, B d → f t d ≠ bad) → never B (query f) bad.
Proof.
  intros Hf w Hr Hb. destruct (rely_tick_pre (keeps B) w Hr) as [H1 _]. unfold query, sql.
  destruct (mv_fault _); simpl; [|done..]. intros [= Hbad]. by apply (Hf _ _ (H1 Hb) Hbad).
Qed.

Lemma never_consent row : never (no_consent row) (consent_gate row) Proceed.
Proof.
  intros w Hr Hb. destruct Hb as [Hc Hn] eqn:?. unfold consent_gate. rewrite decide_True by done.
  unfold ebind, elift. pose proof (sql_read_never (no_consent row)
    (λ _, is_consented (ob_address_id row) (ob_class row)) true) as Hq.
  specialize (Hq ltac:(by intros t d [_ ->]) w Hr Hb).
  destruct (query _ w) as [w1 [[]|e]]; simpl in *; [done| |done].
  unfold finish, ebind. by destruct (elift _ _ w1) as [? [[]|]].
Qed.

Lemma never_verified row : never (unverified row) (verification_gate ctx row) Proceed.
Proof.
  intros w Hr Hb. unfold verification_gate. destruct Hb as (Hv & Hm & Hn) eqn:?. rewrite Hv.
  unfold ebind at 1, elift at 1. 
  pose proof (λ v, sql_read_never (unverified row) (λ _, load_verified_at (ob_address_id row)) (Some v)) as Hq.
  specialize (λ v, Hq v ltac:(by intros t d (_ & _ & ->)) w Hr Hb).
  destruct (query _ w) as [w1 [[v|]|e]]; simpl in *; [by destruct (Hq v)| |done].
  rewrite decide_True by done. unfold finish, ebind. by destruct (elift _ _ w1) as [? [[]|]].
Qed.

(** A row stopped before the quota makes no call. *)
Lemma early_stop_no_call B quota row w :
  never B (early_gates ctx row) Proceed → rely (keeps B) w → B (w_db w) →
  w_trace (try_process ctx quota row w).1 = w_trace w.
Proof.
  intros Hn Hr Hb. specialize (Hn w Hr Hb). unfold try_process.
  pose proof (mute_early_gates row w). by destruct (early_gates ctx row w) as [w1 [[]|e]].
Qed.

(** *** Cancellation *)

Lemma reschedule_keeps_cancelled row id next d :
  cancelled_or_gone row d → cancelled_or_gone row (reschedule id next d).
Proof.
  intros Hc r. unfold reschedule; simpl. destruct (decide (id = ob_id row)) as [->|Hne].
  - rewrite lookup_alter_eq. destruct (db_outbox d !! ob_id row) as [r0|] eqn:Hr; simpl; [|done].
    intros [= <-]. by apply (Hc r0).
  - rewrite lookup_alter_ne by done. apply Hc.
Qed.

Lemma guar_reschedule_cancelled row id next :
  guar (keeps (cancelled_or_gone row)) (reschedule_retry id next).
Proof.
  unfold reschedule_retry. apply guar_exec; [apply _|]. intros t d Hd. by apply reschedule_keeps_cancelled.
Qed.

Lemma guar_early_gates row B : durable row B → guar (keeps B) (early_gates ctx row).
Proof.
  intros HB. unfold early_gates, and_then. step_guar;
    eauto using guar_expiry, guar_suppression, guar_verification, guar_consent.
Qed.

Lemma guar_quiet_gate row : guar (keeps (cancelled_or_gone row)) (quiet_gate ctx row).
Proof. unfold quiet_gate. step_guar. apply guar_reschedule_cancelled. Qed.

Lemma is_cancelled_never row : never (cancelled_or_gone row) (is_cancelled (ob_id row)) false.
Proof.
  intros w Hr Hb. destruct (rely_tick_pre (keeps (cancelled_or_gone row)) w Hr) as [H1 _].
  specialize (H1 Hb). unfold is_cancelled, sql.
  destruct (db_outbox (w_db (tick w)) !! ob_id row) as [r|] eqn:Hl; [|by destruct (mv_fault _)].
  rewrite (bool_decide_true _ (H1 r Hl)). by destruct (mv_fault _).
Qed.

Lemma never_bind_r {E A B'} (B : Db → Prop) (m : Eff E A) (k : A → Eff E B') b :
  guar (keeps B) m → (∀ a, never B (k a) b) → never B (ebind m k) b.
Proof.
  intros Hg Hk w Hr Hb. unfold ebind. destruct (Hg w Hr) as [H1 H2].
  destruct (m w) as [w1 [a|e]]; simpl in *; [|done]. by apply Hk, H1.
Qed.

Lemma prepare_never row p : never (cancelled_or_gone row) (prepare row) (Some p).
Proof.
  assert (guar (keeps (cancelled_or_gone row)) (dc_dek ctx (ob_customer_id row))) as Hd.
  { apply dek_guar; [apply _|]. by intros f d Hc. }
  unfold prepare. do 6 (apply never_bind_r; [by step_guar|intro]).
  intros w Hr Hb. unfold ebind, elift. pose proof (is_cancelled_never row w Hr Hb) as Hc.
  destruct (is_cancelled (ob_id row) w) as [w1 [[]|e]]; simpl in *; [|done..].
  by destruct (write_terminal _ w1) as [? [[]|]].
Qed.

Lemma cancelled_no_call quota row w :
  rely (keeps (cancelled_or_gone row)) w → cancelled_or_gone row (w_db w) →
  w_trace (try_process ctx quota row w).1 = w_trace w.
Proof.
  intros Hr Hb. unfold try_process. pose proof (mute_early_gates row w) as He.
  destruct (guar_early_gates row _ (durable_cancelled row) w Hr) as [H1 H2]. specialize (H1 Hb).
  destruct (early_gates ctx row w) as [w1 [[]|e]]; simpl in *; [|done..]. rewrite <- He.
  destruct (rely_tick_pre (keeps (cancelled_or_gone row)) w1 H2) as [H3 H4]. specialize (H3 H1).
  assert (w_trace (after_quota ctx row (tick w1)).1 = w_trace w1) as Ha.
  { unfold after_quota, ebind. pose proof (mute_quiet_gate row (tick w1)) as Hq.
    destruct (guar_quiet_gate row (tick w1) H4) as [H5 H6]. specialize (H5 H3).
    destruct (quiet_gate ctx row (tick w1)) as [w2 [[]|e]]; simpl in *; [|done..].
    rewrite deliver_prepare. pose proof (mute_prepare row w2) as Hp.
    pose proof (λ p, prepare_never row p w2 H6 H5) as Hn.
    destruct (prepare row w2) as [w3 [[p|]|e]]; simpl in *; [by destruct (Hn p)|congruence..]. }
  destruct (check_and_record _ _ _ _ _) as [quota' [| |next]];
    [by destruct (after_quota ctx row (tick w1))..|].
  pose proof (mute_reschedule (ob_id row) next (tick w1)) as Hm. unfold elift.
  by destruct (reschedule_retry _ _ _).
Qed.
End Calls.

(** ** The gate chain in a world that stands still *)

Section Policy.
Context {Tz : Type} `{!TimeZone Tz} `{!UuidText} `{AE : !Aead}.
Context (ctx : DispatcherContext).
Implicit Types (row : Outbox) (quota : QuotaTracker Tz).

(** Why a row is stopped before the quota: the first reason of the table
    that applies. *)
Definition expired row (now : Z) : bool :=
  match ob_expires_at row with Some e => e <=? now | None => false end.
Definition unverified_now row (d : Db) : bool :=
  verified_class row && bool_decide (load_verified_at (ob_address_id row) d = None).
Definition enforcing : bool := bool_decide (dc_verification_mode ctx = verification_mode.ENFORCE).
Definition gate_table row (now : Z) (d : Db) : list (bool * string) :=
  [ (expired row now, "expired");
    (is_suppressed (ob_created_at row) (ob_id row) now d, "suppressed_list");
    (unverified_now row d && enforcing, "unverified_address");
    (bool_decide (ob_class row = class.MARKETING)
       && negb (is_consented (ob_address_id row) (ob_class row) d), "suppressed_consent") ]%string.
Definition block_reason row (now : Z) (d : Db) : option string :=
  snd <$> find fst (gate_table row now d).

(** The note left by the advisory verification mode. *)
Definition noted row (now : Z) (d : Db) : Db :=
  if unverified_now row d && negb enforcing then
    insert_event (now, ob_id row, "unverified_address"%string, ""%string)
      (MkEvent (ob_customer_id row) None None) d
  else d.

Definition stopped row (s : string) (w : W) : W * result gate DispatchError :=
  (set_db (terminal_effect (terminal_for row s None None) (w_now w) (w_db w)) w, Ok Stop).

Lemma finish_calm row s w :
  calm w → finish (terminal_for row s None None) w = stopped row s w.
Proof. intros Hc. unfold finish, ebind, elift. by rewrite write_terminal_calm. Qed.

Lemma expiry_calm row w :
  calm w → expiry_gate row w = if expired row (w_now w) then stopped row "expired" w else (w, Ok Proceed).
Proof.
  intros Hc. unfold expiry_gate, expired. destruct (ob_expires_at row) as [e|]; [|done].
  unfold ebind. rewrite utc_now_calm by apply Hc. destruct (e <=? w_now w); [|done]. by apply finish_calm.
Qed.

Lemma suppression_calm row w :
  calm w → suppression_gate row w =
    if is_suppressed (ob_created_at row) (ob_id row) (w_now w) (w_db w)
    then stopped row "suppressed_list" w else (w, Ok Proceed).
Proof.
  intros Hc. unfold suppression_gate, ebind, elift. rewrite query_calm by apply Hc; simpl.
  case_match; [|done]. by apply finish_calm.
Qed.

Lemma record_event_calm id c e (w : W) :
  calm w → record_event id c e w =
    (set_db (insert_event (w_now w, id, e, ""%string) (MkEvent c None None) (w_db w)) w, Ok tt).
Proof.
  intros Hc. unfold record_event, ebind. rewrite utc_now_calm by apply Hc. by rewrite exec_calm by apply Hc.
Qed.

Lemma verification_calm row w :
  calm w → verification_gate ctx row w =
    if unverified_now row (w_db w) && enforcing then stopped row "unverified_address" w
    else (set_db (noted row (w_now w) (w_db w)) w, Ok Proceed).
Proof.
  intros Hc. unfold verification_gate, noted, unverified_now, enforcing.
  destruct (verified_class row); simpl; [|by rewrite set_db_same].
  unfold ebind at 1, elift at 1. rewrite query_calm by apply Hc; simpl.
  destruct (load_verified_at _ _) as [v|]; simpl; [by rewrite set_db_same|].
  case_decide as Hm; [rewrite (bool_decide_true _ Hm)|rewrite (bool_decide_false _ Hm)]; simpl.
  - by apply finish_calm.
  - unfold ebind, elift. by rewrite record_event_calm.
Qed.

Lemma consent_calm row w :
  calm w → consent_gate row w =
    if bool_decide (ob_class row = class.MARKETING)
       && negb (is_consented (ob_address_id row) (ob_class row) (w_db w))
    then stopped row "suppressed_consent" w else (w, Ok Proceed).
Proof.
  intros Hc. unfold consent_gate. case_decide as Hm; [rewrite (bool_decide_true _ Hm)|by rewrite (bool_decide_false _ Hm)].
  unfold ebind, elift. rewrite query_calm by apply Hc; simpl.
  destruct (is_consented _ _ _); simpl; [done|]. by apply finish_calm.
Qed.

Lemma noted_consent row now d a c : is_consented a c (noted row now d) = is_consented a c d.
Proof. unfold noted. by destruct (_ && _). Qed.

Lemma early_gates_calm row w :
  calm w → early_gates ctx row w =
    match block_reason row (w_now w) (w_db w) with
    | Some s => stopped row s (if decide (s = "suppressed_consent")%string
                               then set_db (noted row (w_now w) (w_db w)) w else w)
    | None => (set_db (noted row (w_now w) (w_db w)) w, Ok Proceed)
    end.
Proof.
  intros Hc. unfold early_gates, and_then, block_reason; simpl. unfold ebind.
  rewrite expiry_calm by done. destruct (expired row _); [done|].
  rewrite suppression_calm by done. destruct (is_suppressed _ _ _ _); [done|].
  rewrite verification_calm by done. destruct (_ && enforcing); [done|].
  rewrite consent_calm by done. simpl. rewrite noted_consent. by destruct (_ && _).
Qed.

(** *** Through the provider *)

(** What a delivery depends on: the request is on file, its two texts decrypt
    under the customer's key, and the row is still there and not cancelled. *)
Record deliverable row (w : W) (dek destination body : string) : Prop := {
  dl_calm : calm w;
  dl_dek : dc_dek ctx (ob_customer_id row) w = (w, Ok dek);
  dl_texts : ∃ dc pc, load_ciphertexts (ob_created_at row) (ob_id row) (w_db w) = Some (dc, Some pc)
    ∧ decrypt_text dek row dc = Ok destination ∧ decrypt_text dek row pc = Ok body;
  dl_row : ∃ r, db_outbox (w_db w) !! ob_id row = Some r ∧ ob_cancelled_at r = None;
}.

Lemma deliver_calm row w dek destination body :
  deliverable row w dek destination body →
  deliver ctx row w =
    settle ctx row (dc_send ctx (w_trace w) destination body)
      (add_call (MkCall (dc_channel ctx) destination body) w).
Proof.
  intros [Hc Hd (dc & pc & Hl & H1 & H2) (r & Hr & Hn)].
  unfold deliver, ebind, elift, eof. rewrite query_calm by apply Hc; simpl. rewrite Hl; simpl.
  rewrite Hd; simpl. rewrite H1; simpl. rewrite H2. unfold is_cancelled. rewrite sql_calm by apply Hc.
  rewrite Hr, Hn; simpl. rewrite set_db_same. unfold send_call. by rewrite tick_calm by apply Hc.
Qed.

Definition retry_at row (now : Z) : Z :=
  now + backoff_delay (ob_attempts row) (dc_rand ctx now (jitter_bound (backoff_ms (ob_attempts row)))).

Lemma settle_calm row reply w :
  calm w → settle ctx row reply w =
    (set_db (match reply with
             | Ok o => terminal_effect (terminal_for row "sent" (Some (provider_ref o)) (Some (provider_status o)))
                         (w_now w) (w_db w)
             | Err e =>
                 if is_retryable e && (ob_attempts row <? MAX_SEND_ATTEMPTS)
                 then reschedule (ob_id row) (retry_at row (w_now w)) (w_db w)
                 else terminal_effect (terminal_for row "failed" None (provider_status_of e))
                        (w_now w) (w_db w)
             end) w, Ok tt).
Proof.
  intros Hc. unfold settle. destruct reply as [o|e].
  - unfold elift. by rewrite write_terminal_calm.
  - destruct (_ && _).
    + unfold ebind, elift, reschedule_retry. rewrite utc_now_calm by apply Hc. by rewrite exec_calm by apply Hc.
    + unfold elift. by rewrite write_terminal_calm.
Qed.

Lemma calm_rely (R : relation Db) (w : W) : calm w → rely R w.
Proof. intros [He Ht]. unfold rely. by rewrite He. Qed.
End Policy.

(** ** The claim loop *)

(** A row free to be claimed has not exhausted its [smallint] counter. *)
Definition attempts_ok (d : Db) : Prop :=
  outbox_wf d ∧ ∀ id r, db_outbox d !! id = Some r → ob_leased_until r = None → ob_attempts r < i16_max.

Lemma lease_update_attempts_ok ch e t limit until d :
  0 <= limit → attempts_ok d →
  ∃ d' rows, lease_update (claimable ch e t) limit until d = Ok (d', rows) ∧ attempts_ok d'.
Proof.
  intros Hl [Hwf Ha].
  assert (∃ d' rows, lease_update (claimable ch e t) limit until d = Ok (d', rows)) as (d' & rows & Hu).
  { unfold lease_update. destruct (Z.ltb_spec limit 0); [lia|].
    destruct (existsb _ _) eqn:Hex; [exfalso|by eauto].
    apply existsb_exists in Hex as (r & Hr & Hge). apply list_elem_of_In, select_rows_elem in Hr as (Hf & id & Hid).
    unfold claimable in Hf. rewrite !andb_true_iff, due_iff in Hf. destruct Hf as [[_ [_ Hf]] _].
    apply Z.leb_le in Hge. specialize (Ha id r Hid Hf). lia. }
  exists d', rows. split; [done|].
  destruct (lease_update_Ok _ _ _ _ _ _ Hwf Hu) as (Hwf' & _ & _ & Hin & Hout & _).
  split; [done|]. intros id r Hr Hn. destruct (decide (id ∈ ob_id <$> rows)) as [Hi|Hi].
  - apply list_elem_of_fmap in Hi as (r' & -> & Hr'). destruct (Hin r' Hr') as (x & _ & _ & -> & _ & Hd').
    rewrite Hr in Hd'. simplify_eq/=.
  - rewrite (Hout id Hi) in Hr. by apply (Ha id).
Qed.

Lemma claim_attempts_ok ch until e (w : W) :
  rely (keeps attempts_ok) w → attempts_ok (w_db w) →
  rely (keeps attempts_ok) (claim ch CLAIM_BATCH_SIZE until e w).1
  ∧ attempts_ok (w_db (claim ch CLAIM_BATCH_SIZE until e w).1)
  ∧ ((∃ rows, (claim ch CLAIM_BATCH_SIZE until e w).2 = Ok rows)
     ∨ (length (w_env (claim ch CLAIM_BATCH_SIZE until e w).1) < length (w_env w))%nat).
Proof.
  intros Hr Hb. destruct (rely_tick_pre (keeps attempts_ok) w Hr) as [H1 H2]. specialize (H1 Hb).
  unfold claim. destruct (blocked_entirely e); [split_and!; [done..|left; by exists []]|].
  destruct (lease_update_attempts_ok ch e (w_now (tick w)) CLAIM_BATCH_SIZE until (w_db (tick w)))
    as (d' & rows & Hu & Hd'); [done|done|]. unfold sql. rewrite Hu.
  destruct (mv_fault (next_move w)) eqn:Hf; simpl; split_and!; try done; [left; by exists rows| |];
    right; unfold next_move in Hf; destruct (w_env w); simpl in *; [done|lia|done|lia].
Qed.

Lemma claim_until_ok_spec n ch until e (w : W) :
  rely (keeps attempts_ok) w → attempts_ok (w_db w) →
  (length (w_env w) < n)%nat →
  ∃ w' rows, claim_until_ok n ch until e w = (w', Some rows)
    ∧ rely (keeps attempts_ok) w' ∧ attempts_ok (w_db w').
Proof.
  revert w. induction n as [|n IH]; intros w Hr Hb Hn; [lia|]. simpl.
  destruct (claim_attempts_ok ch until e w Hr Hb) as (H1 & H2 & H3).
  destruct (claim _ _ _ _ w) as [w1 [rows|err]]; simpl in *; [by eauto|].
  destruct H3 as [[rows [=]]|H3].
  destruct (rely_sleep (keeps attempts_ok) CLAIM_RETRY_DELAY w1 H1) as [H4 H5]. apply IH; [done|by apply H4|].
  simpl. destruct (w_env w1); simpl in *; lia.
Qed.

(** The rows a claim loop ends with come from one successful claim. *)
Lemma claim_until_ok_last n ch until e (w w' : W) rows :
  rely (keeps attempts_ok) w → attempts_ok (w_db w) →
  claim_until_ok n ch until e w = (w', Some rows) →
  ∃ w0, attempts_ok (w_db (tick w0)) ∧ claim ch CLAIM_BATCH_SIZE until e w0 = (w', Ok rows).
Proof.
  revert w. induction n as [|n IH]; intros w Hr Hb; simpl; [done|].
  destruct (claim_attempts_ok ch until e w Hr Hb) as (H1 & H2 & _).
  destruct (claim _ _ _ _ w) as [w1 [rows1|err]] eqn:Hc; simpl in *.
  - intros [= -> ->]. exists w. split; [|done]. by apply (rely_tick_pre (keeps attempts_ok) w Hr).
  - destruct (rely_sleep (keeps attempts_ok) CLAIM_RETRY_DELAY w1 H1) as [H4 H5]. apply IH; [done|by apply H4].
Qed.

(** ** Properties *)

Section Properties.
Context {Tz : Type} `{!TimeZone Tz} `{!UuidText} `{AE : !Aead}.
Context (ctx : DispatcherContext).
Implicit Types (row : Outbox) (quota : QuotaTracker Tz) (w : W).

(** C1. One provider call per claimed row at most: whatever fails, whatever
    other processes do and however long it takes, processing a row adds no
    call or exactly one to what was sent before. *)
Theorem at_most_one_call_per_row quota row w :
  DekService (dc_dek ctx) →
  w_trace (try_process ctx quota row w).1 = w_trace w
  ∨ ∃ dst body, w_trace (try_process ctx quota row w).1 = w_trace w ++ [MkCall (dc_channel ctx) dst body].
Proof. intros ?. by apply try_process_trace. Qed.

(** A cancelled row is never sent: if the row is cancelled or already
    finished when its processing starts, and other processes do not
    un-cancel or re-create it, no provider call is made, under any faults and
    interleaving. *)
Theorem cancelled_rows_are_never_sent quota row w :
  DekService (dc_dek ctx) →
  rely (keeps (cancelled_or_gone row)) w → cancelled_or_gone row (w_db w) →
  w_trace (try_process ctx quota row w).1 = w_trace w.
Proof. intros ?. by apply cancelled_no_call. Qed.

(** Consent and verification fail closed: a marketing row whose address
    has no opt-in, or (in enforcing mode) a transactional or marketing row
    whose address is unverified, makes no provider call as long as nobody
    grants the opt-in or verifies the address meanwhile; failed reads do not
    open the gate. *)
Theorem blocked_addresses_get_nothing quota row w (B : Db → Prop) :
  B = no_consent row ∨ B = unverified ctx row →
  rely (keeps B) w → B (w_db w) →
  w_trace (try_process ctx quota row w).1 = w_trace w.
Proof.
  intros [-> | ->] Hr Hb; (eapply early_stop_no_call; [|done..]); unfold early_gates.
  - pose proof (durable_consent row).
    do 3 (apply never_and_then_r; [eauto using guar_expiry, guar_suppression, guar_verification|]).
    apply never_consent.
  - pose proof (durable_unverified ctx row).
    do 2 (apply never_and_then_r; [eauto using guar_expiry, guar_suppression|]).
    apply never_and_then_l, never_verified.
Qed.

(** C33. The gates ahead of the quota implement the policy table: in a world
    that stands still the row is finalized with the first applicable reason
    of expired, on the suppression list, unverified under enforcement and
    without marketing consent; if none applies it goes on, with an
    [unverified_address] note exactly when the address is unverified and
    verification is advisory. *)
Theorem gates_implement_the_policy_table row w :
  calm w →
  early_gates ctx row w =
    match block_reason ctx row (w_now w) (w_db w) with
    | Some s => stopped row s (if decide (s = "suppressed_consent")%string
                               then set_db (noted ctx row (w_now w) (w_db w)) w else w)
    | None => (set_db (noted ctx row (w_now w) (w_db w)) w, Ok Proceed)
    end.
Proof. apply early_gates_calm. Qed.

(** C2. A send means every gate was open: if processing a row in a world that
    stands still calls the provider, then no reason of the policy table
    applies, the quota did not defer, the row is present and not cancelled,
    and, where a quiet-hours policy of two times of day is set, the recipient's local time lies
    outside its window on the face of the clock, or the gate had to be skipped:
    neither the customer's nor the tenant's time zone is known, or the end of
    the window falls into a gap of more than four hours of the local clock. *)
Theorem a_send_means_every_gate_was_open quota row w :
  DekService (dc_dek ctx) → calm w →
  w_trace (try_process ctx quota row w).1 ≠ w_trace w →
  block_reason ctx row (w_now w) (w_db w) = None
  ∧ is_defer (check_and_record quota (ob_producer_id row) (ob_channel row) (ob_class row) (w_now w)).2 = false
  ∧ (∀ policy, dc_quiet_hours ctx = Some policy → policy_wf policy →
       gate_open (Tz:=Tz) (w_now w)
         (default (dc_default_timezone ctx) (load_customer_timezone (ob_customer_id row) (w_db w)))
         (dc_default_timezone ctx) policy)
  ∧ (∃ r, db_outbox (w_db w) !! ob_id row = Some r ∧ ob_cancelled_at r = None).
Proof.
  intros Hdek Hc Hsend.
  assert (∃ r, db_outbox (w_db w) !! ob_id row = Some r ∧ ob_cancelled_at r = None) as Hrow.
  { destruct (db_outbox (w_db w) !! ob_id row) as [r|] eqn:Hr; [destruct (ob_cancelled_at r) eqn:Hx|]; [|by eauto|];
      destruct Hsend; apply (cancelled_no_call ctx quota row w); try (by apply calm_rely);
      intros r'; rewrite Hr; [|done]; intros [= <-]; by rewrite Hx. }
  revert Hsend. unfold try_process. rewrite early_gates_calm by done.
  destruct (block_reason ctx row _ _) as [s|].
  { intros Hsend. destruct Hsend. unfold stopped; simpl. by case_decide. }
  set (d' := noted ctx row (w_now w) (w_db w)). rewrite tick_calm by apply Hc. simpl.
  destruct (check_and_record _ _ _ _ _) as [quota' dec]; simpl.
  assert (load_customer_timezone (ob_customer_id row) d' = load_customer_timezone (ob_customer_id row) (w_db w)) as Htz.
  { unfold d', noted. by destruct (_ && _). }
  assert (w_trace (after_quota ctx row (set_db d' w)).1 ≠ w_trace w →
    ∀ policy, dc_quiet_hours ctx = Some policy → policy_wf policy →
    gate_open (Tz:=Tz) (w_now w)
      (default (dc_default_timezone ctx) (load_customer_timezone (ob_customer_id row) (w_db w)))
      (dc_default_timezone ctx) policy) as Hq.
  { unfold after_quota, quiet_gate. intros Hsend policy Hp Hpw. eapply (reschedule_None _ _ _ _ (dc_rand ctx (w_now w) JITTER_MAX_MS) Hpw).
    rewrite Hp in Hsend. revert Hsend.
    unfold ebind, elift. rewrite query_calm by apply Hc. cbn [map_err]. rewrite utc_now_calm by apply Hc; simpl.
    rewrite Htz. destruct (resolve_reschedule _ _ _ _ _) as [t|]; [|done].
    unfold reschedule_retry. rewrite exec_calm by apply Hc. done. }
  destruct dec as [| |next]; intros Hsend; simpl in Hsend.
  - destruct (after_quota _ _ _). split_and!; auto.
  - destruct (after_quota _ _ _). split_and!; auto.
  - destruct Hsend. unfold elift, reschedule_retry. by rewrite exec_calm by apply Hc.
Qed.

(** The provider's reply decides the row's fate: a deliverable row is sent
    once, with its decrypted destination and body; success finalizes it as
    sent with the provider's reference, a transport error or 5xx reply below
    eight attempts frees it for a retry between one and one and a half backoff
    delays later, and anything else finalizes it as failed. *)
Theorem reply_decides_the_rows_fate row w dek destination body :
  deliverable ctx row w dek destination body →
  (∀ t b, 0 <= b → 0 <= dc_rand ctx t b <= b) → i16_min <= ob_attempts row <= i16_max →
  ∃ w', deliver ctx row w = (w', Ok tt)
  ∧ w_trace w' = w_trace w ++ [MkCall (dc_channel ctx) destination body]
  ∧ match dc_send ctx (w_trace w) destination body with
    | Ok o => w_db w' = terminal_effect
        (terminal_for row "sent" (Some (provider_ref o)) (Some (provider_status o))) (w_now w) (w_db w)
    | Err e =>
        if is_retryable e && (ob_attempts row <? MAX_SEND_ATTEMPTS) then
          ∃ delay, w_db w' = reschedule (ob_id row) (w_now w + delay) (w_db w)
            ∧ 2 * backoff_ms (ob_attempts row) * millisecond <= 2 * delay
            ∧ 2 * delay <= 3 * backoff_ms (ob_attempts row) * millisecond
        else w_db w' = terminal_effect (terminal_for row "failed" None (provider_status_of e))
                         (w_now w) (w_db w)
    end.
Proof.
  intros Hd Hrand Ha. rewrite (deliver_calm ctx row w dek destination body Hd).
  rewrite settle_calm by apply Hd. eexists. split; [done|]. split; [done|]. simpl.
  destruct (dc_send _ _ _ _) as [o|e]; [done|]. destruct (_ && _); [|done].
  exists (backoff_delay (ob_attempts row)
    (dc_rand ctx (w_now w) (jitter_bound (backoff_ms (ob_attempts row))))).
  split; [done|]. pose proof (backoff_ms_range _ Ha) as Hr. unfold backoff_delay, jitter_bound in *.
  specialize (Hrand (w_now w) (Z.max (backoff_ms (ob_attempts row) ÷ 2) 1) ltac:(lia)).
  set (j := dc_rand ctx _ _) in *. set (b := backoff_ms _) in *. clearbody j b.
  rewrite Z.quot_div_nonneg in Hrand by (unfold BACKOFF_BASE_MS in Hr; lia).
  unfold millisecond, BACKOFF_BASE_MS, BACKOFF_CAP_MS in *.
  pose proof (Z.mul_div_le b 2). lia.
Qed.
End Properties.

(** The backoff doubles from half a minute to half an hour: for a claimed
    row's attempt count the delay without jitter is [30 s * 2^(n-1)] up to the
    cap, it never shrinks from one attempt to the next, and with any admissible
    jitter it stays between thirty seconds and forty-five minutes. *)
Theorem backoff_doubles_up_to_the_cap n jitter :
  1 <= n < i16_max → 0 <= jitter <= jitter_bound (backoff_ms n) →
  backoff_ms n = Z.min (BACKOFF_BASE_MS * 2 ^ (n - 1)) BACKOFF_CAP_MS
  ∧ backoff_ms n <= backoff_ms (n + 1)
  ∧ 30 * second <= backoff_delay n jitter <= 45 * minute.
Proof.
  intros Hn Hj.
  assert (BACKOFF_BASE_MS <= backoff_ms n <= BACKOFF_CAP_MS) as Hr
    by (apply backoff_ms_range; unfold i16_min; lia).
  rewrite (backoff_ms_attempts (n + 1)) by lia. unfold backoff_delay.
  rewrite (backoff_ms_attempts n) in * by lia.
  assert (2 ^ Z.min (n - 1) 6 <= 2 ^ Z.min (n + 1 - 1) 6) by (apply Z.pow_le_mono_r; lia).
  split_and!.
  - destruct (Z.le_gt_cases (n - 1) 6) as [?|?]; [by replace (Z.min (n - 1) 6) with (n - 1) by lia|].
    replace (Z.min (n - 1) 6) with 6 by lia. assert (2 ^ 6 <= 2 ^ (n - 1)) by (apply Z.pow_le_mono_r; lia).
    unfold BACKOFF_BASE_MS, BACKOFF_CAP_MS. change (2 ^ 6) with 64 in *. lia.
  - unfold BACKOFF_BASE_MS in *. lia.
  - unfold BACKOFF_BASE_MS, second, millisecond in *. lia.
  - set (b := Z.min (_ * _) _) in *. clearbody b. unfold jitter_bound in Hj.
    rewrite Z.quot_div_nonneg in Hj by (unfold BACKOFF_BASE_MS in Hr; lia).
    pose proof (Z.mul_div_le b 2). unfold BACKOFF_BASE_MS, BACKOFF_CAP_MS in *.
    unfold minute, second, millisecond in *. lia.
Qed.

(** A channel turn claims nothing that a switch holds: the rows it goes on to
    process are covered by no engaged switch and by no released switch whose
    drain has not finished, as the process knew them when the turn started. *)
Theorem channel_turn_respects_switches `{!UuidText} n ch until active draining (w w' : W) rows r s :
  rely (keeps attempts_ok) w → attempts_ok (w_db w) →
  claim_until_ok n ch until (claim_exclusion active draining ch) w = (w', Some rows) →
  r ∈ rows → s ∈ active_snapshot active ++ map_values draining → matches_row s r = false.
Proof.
  intros Hr Hb Hc Hin Hs. destruct (claim_until_ok_last _ _ _ _ _ _ _ Hr Hb Hc) as (w0 & [Hwf _] & Hc0).
  apply claim_inv in Hc0 as [(-> & _ & _)|(Hbl & d' & -> & Hu)]; [by apply not_elem_of_nil in Hin|].
  destruct (lease_update_Ok _ _ _ _ _ _ Hwf Hu) as (_ & _ & _ & Hrows & _).
  destruct (Hrows r Hin) as (x & _ & Hf & -> & _ & _).
  unfold claimable in Hf. rewrite !andb_true_iff, bool_decide_eq_true in Hf. destruct Hf as [[Hch _] Had].
  subst ch. pose proof (excluded_existsb (active_snapshot active ++ map_values draining) x) as He.
  unfold excluded in He. unfold claim_exclusion in *. rewrite Hbl, Had in He; simpl in He.
  apply not_true_is_false. intros Hm. symmetry in He. rewrite <- not_true_iff_false in He. apply He.
  apply existsb_matches. eauto.
Qed.

(** The claim loop gets through: as long as no free row has used up its
    [smallint] attempt counter, the retries end in a successful claim as soon as
    the world's faults do. *)
Theorem claim_loop_gets_through n ch until e (w : W) :
  rely (keeps attempts_ok) w → attempts_ok (w_db w) → (length (w_env w) < n)%nat →
  ∃ w' rows, claim_until_ok n ch until e w = (w', Some rows).
Proof.
  intros Hr Hb Hn. destruct (claim_until_ok_spec n ch until e w Hr Hb Hn) as (w' & rows & H & _). eauto.
Qed.

(** ** Concrete runs *)

#[local] Existing Instance demo_uuid.
#[local] Existing Instance demo_aead.

(** A context whose key service always has the key and whose provider always
    gives the same reply. *)
Definition demo_ctx (reply : result SendOutcome SenderError) (mode : string) : DispatcherContext :=
  MkContext channel.SMS (λ _ _ _, reply) (λ _, eret demo_dek) (λ _ _, 0) mode
    "Etc/UTC" None.

#[export] Instance demo_dek_service reply mode : DekService (dc_dek (demo_ctx reply mode)).
Proof. split; [done|intros c; apply forward_ret|]. intros R ? c _. simpl. by apply guar_ret. Qed.

Definition accepted : result SendOutcome SenderError := Ok (MkSent "ref" "accepted").
Definition unavailable : result SendOutcome SenderError := Err (Provider 503 "busy").

Definition later (dt : Z) (w : W) : W :=
  World (w_db w) (w_now w + dt) (w_tx w) (w_env w) (w_trace w).

Definition demo_transactional (id : N) : Outbox :=
  MkOutbox id 10 channel.SMS class.TRANSACTIONAL 1 1%N 2%N 7%N None 50 None None 0 None.

Definition demo_quota (per_minute : option Z) : QuotaTracker Shift :=
  MkTracker utc_shift
    {[ (7%N, channel.SMS, class.TRANSACTIONAL) := MkEffective per_minute None enforcement.HARD ]} ∅.

(** Deferrals spend the retry budget: a row the quota defers seven times
    without any provider call is finalized as failed by the first retryable
    failure of its first send. *)
Theorem deferrals_spend_the_retry_budget :
  let ctx := demo_ctx unavailable verification_mode.OBSERVE in
  let turn q w := (channel_turn 1 ctx empty_active ∅ q w).1 in
  let w7 := Nat.iter 7 (λ w, later minute (turn (demo_quota (Some 0)) w))
              (demo_world [demo_transactional 1] 100) in
  let w8 := turn (demo_quota None) w7 in
  w_trace w7 = [] ∧ length (w_trace w8) = 1%nat
  ∧ (cr_final_status <$> db_request (w_db w8) !! (10, 1%N)) = Some (Some "failed"%string).
Proof. vm_compute. done. Qed.

(** A world with slow statements and lost replies, where nobody else writes. *)
Definition rough : list (move Db) :=
  [Move 5%N NoFault (λ d, d); Move 7%N FaultAfter (λ d, d); Move 1%N NoFault (λ d, d); Move 0%N FaultBefore (λ d, d)].

Lemma rough_rely B d t tr : rely (C:=Call) (keeps B) (World d t false rough tr).
Proof. split; [|done]. repeat constructor; by intros d0 Hd0. Defined.

Lemma at_most_one_witness :
  length (w_trace (try_process (demo_ctx accepted verification_mode.OBSERVE) (demo_quota None)
    (demo_transactional 1) (World (demo_db [demo_transactional 1]) 100 false rough [])).1) = 0%nat
  ∨ length (w_trace (try_process (demo_ctx accepted verification_mode.OBSERVE) (demo_quota None)
    (demo_transactional 1) (World (demo_db [demo_transactional 1]) 100 false rough [])).1) = 1%nat.
Proof.
  destruct (at_most_one_call_per_row (demo_ctx accepted verification_mode.OBSERVE) (demo_quota None)
    (demo_transactional 1) (World (demo_db [demo_transactional 1]) 100 false rough [])
    (demo_dek_service _ _)) as [H|(dst & body & H)]; rewrite H; [by left|by right].
Defined.

Definition demo_cancelled : Outbox :=
  MkOutbox 1%N 10 channel.SMS class.TRANSACTIONAL 1 1%N 2%N 7%N None 50 None (Some 60) 1 None.

Lemma cancelled_witness :
  w_trace (try_process (demo_ctx accepted verification_mode.OBSERVE) (demo_quota None)
    demo_cancelled (World (demo_db [demo_cancelled]) 100 false rough [])).1 = [].
Proof.
  apply (cancelled_rows_are_never_sent (demo_ctx accepted verification_mode.OBSERVE) (demo_quota None)
    demo_cancelled (World (demo_db [demo_cancelled]) 100 false rough []) (demo_dek_service _ _)).
  - apply rough_rely.
  - intros r. vm_compute. intros [= <-]. by eexists.
Defined.

Lemma blocked_witness :
  w_trace (try_process (demo_ctx accepted verification_mode.OBSERVE) (demo_quota None)
    (demo_row 1 1 50 None) (World (demo_db [demo_row 1 1 50 None]) 100 false rough [])).1 = [].
Proof.
  apply (blocked_addresses_get_nothing (demo_ctx accepted verification_mode.OBSERVE) (demo_quota None)
    (demo_row 1 1 50 None) (World (demo_db [demo_row 1 1 50 None]) 100 false rough [])
    (no_consent (demo_row 1 1 50 None)) (or_introl eq_refl)).
  - apply rough_rely.
  - split; vm_compute; reflexivity.
Defined.

Lemma policy_table_witness :
  (early_gates (demo_ctx accepted verification_mode.ENFORCE) (demo_row 1 1 50 None)
    (demo_world [demo_row 1 1 50 None] 100)).2 = Ok Stop
  ∧ block_reason (demo_ctx accepted verification_mode.ENFORCE) (demo_row 1 1 50 None) 100
      (demo_db [demo_row 1 1 50 None]) = Some "unverified_address"%string.
Proof.
  rewrite (gates_implement_the_policy_table (demo_ctx accepted verification_mode.ENFORCE)
    (demo_row 1 1 50 None) (demo_world [demo_row 1 1 50 None] 100) (conj eq_refl eq_refl)).
  vm_compute. done.
Defined.

Lemma open_gates_witness :
  block_reason (demo_ctx accepted verification_mode.OBSERVE) (demo_transactional 1) 100
    (demo_db [demo_transactional 1]) = None.
Proof.
  apply (a_send_means_every_gate_was_open (demo_ctx accepted verification_mode.OBSERVE) (demo_quota None)
    (demo_transactional 1) (demo_world [demo_transactional 1] 100) (demo_dek_service _ _)
    (conj eq_refl eq_refl)).
  vm_compute. discriminate.
Defined.

Lemma demo_deliverable reply :
  deliverable (demo_ctx reply verification_mode.OBSERVE) (demo_transactional 1)
    (demo_world [demo_transactional 1] 100) demo_dek "dest" "body".
Proof.
  split; [done|done| |].
  - exists "nonce-of-12-dest"%string, "nonce-of-12-body"%string. split_and!; vm_compute; reflexivity.
  - exists (demo_transactional 1). split; vm_compute; reflexivity.
Qed.

Lemma reply_witness :
  ∃ w', deliver (demo_ctx unavailable verification_mode.OBSERVE) (demo_transactional 1)
    (demo_world [demo_transactional 1] 100) = (w', Ok tt)
  ∧ w_trace w' = [MkCall channel.SMS "dest" "body"].
Proof.
  destruct (reply_decides_the_rows_fate (demo_ctx unavailable verification_mode.OBSERVE)
    (demo_transactional 1) (demo_world [demo_transactional 1] 100) demo_dek "dest" "body")
    as (w' & H1 & H2 & _).
  - apply demo_deliverable.
  - intros t b. simpl. lia.
  - vm_compute. split; discriminate.
  - exists w'. split; [exact H1|exact H2].
Defined.

Lemma backoff_witness : backoff_ms 3 = 120000 ∧ backoff_delay 3 60000 <= 45 * minute.
Proof.
  destruct (backoff_doubles_up_to_the_cap 3 60000) as (H1 & _ & H2);
    [unfold i16_max; lia|vm_compute; split; discriminate|].
  split; [rewrite H1; vm_compute; reflexivity|apply H2].
Defined.

Lemma demo_attempts_ok : attempts_ok (demo_db [demo_transactional 1]).
Proof.
  split; [apply demo_outbox_wf|]. intros id r H _. apply elem_of_list_to_map_2, list_elem_of_fmap in H.
  destruct H as (x & H & Hx). apply list_elem_of_singleton in Hx. by simplify_eq.
Qed.

Lemma switches_witness :
  matches_row (demo_switch scope.CHANNEL (Some channel.EMAIL)) (lease 500 (demo_transactional 1)) = false.
Proof.
  apply (channel_turn_respects_switches 1 channel.SMS 500 empty_active
    {[40%N := demo_switch scope.CHANNEL (Some channel.EMAIL)]}
    (demo_world [demo_transactional 1] 100)
    (claim_until_ok 1 channel.SMS 500 (claim_exclusion empty_active
      {[40%N := demo_switch scope.CHANNEL (Some channel.EMAIL)]} channel.SMS)
      (demo_world [demo_transactional 1] 100)).1 [lease 500 (demo_transactional 1)]).
  - by apply calm_rely.
  - apply demo_attempts_ok.
  - vm_compute. reflexivity.
  - apply list_elem_of_singleton. reflexivity.
  - apply list_elem_of_singleton. reflexivity.
Defined.

Lemma claim_loop_witness :
  ∃ w' rows, claim_until_ok 5 channel.SMS 500 no_exclusion
    (World (demo_db [demo_transactional 1]) 100 false rough []) = (w', Some rows).
Proof.
  apply (claim_loop_gets_through 5 channel.SMS 500 no_exclusion).
  - apply rough_rely.
  - apply demo_attempts_ok.
  - vm_compute. lia.
Defined.
