(* ===== verification/Drain.v ===== *)
(** * Release drains, engage discards, and the dispatcher's switch bookkeeping

    Models [src/dispatcher/drain.rs] and the part of [src/bin/dispatcher.rs] that
    reacts to a refresh of the kill-switch cache: the bounded terminal writes,
    the drain and discard loops, and the map of draining switches that keeps a
    released backlog out of the channel loops. *)

From S2P Require Import Prelude RustStd Time Schema KillSwitch Quota QuietHours Dek Outbox Worker.
From stdpp Require Import base gmap strings list.
From Stdlib Require Import ZArith Lia.

Local Open Scope effect_scope.
Local Open Scope Z_scope.

Definition RETRY_DELAY : Z := 1 * second.
Definition MAX_WRITE_TERMINAL_ATTEMPTS : nat := 5.

(** The [for attempt in 1..=MAX] loop of [write_expired] and [write_discarded]:
    a failure sleeps and tries again, the last one gives up. *)
Fixpoint write_with_retry (attempts : nat) (a : Terminal) (w : W) : W :=
  match attempts with
  | O => w
  | S rest =>
      match write_terminal a w with
      | (w1, Ok _) => w1
      | (w1, Err _) => match rest with O => w1 | _ => write_with_retry rest a (sleep RETRY_DELAY w1) end
      end
  end.

Definition write_expired (row : Outbox) : W → W :=
  write_with_retry MAX_WRITE_TERMINAL_ATTEMPTS (terminal_for row "expired" None None).

Definition write_discarded (row : Outbox) : W → W :=
  write_with_retry MAX_WRITE_TERMINAL_ATTEMPTS (terminal_for row "discarded" None None).

Section Drain.
Context {Tz : Type} `{!TimeZone Tz} `{!UuidText} `{AE : !Aead}.

(** The body of the drain's [for row in batch]. *)
Fixpoint drain_batch (ctx : DispatcherContext) (now : Z) (batch : list Outbox)
    (quota : QuotaTracker Tz) (w : W) : W * QuotaTracker Tz :=
  match batch with
  | [] => (w, quota)
  | row :: batch =>
      let '(w1, quota1) :=
        if expired row now then (write_expired row w, quota) else process_one ctx quota row w in
      drain_batch ctx now batch quota1 w1
  end.

(** How a run of a loop ended: the loop returned, or the turns the model runs
    are used up. *)
Inductive ended : Type := Returned | Running.

(** [drain_released_scope]: [engaged i] is the cache's engaged set as it is read
    before the claim with [i] turns left. *)
Fixpoint drain_released_scope (turns : nat) (ctx : DispatcherContext) (kill_switch : KillSwitch)
    (release_rate : Z) (engaged : nat → ActiveSet) (quota : QuotaTracker Tz) (w : W)
    : W * QuotaTracker Tz * ended :=
  match turns with
  | O => (w, quota, Running)
  | S turns =>
      let w0 := tick w in
      let exclusion := exclusion_for_channel (active_snapshot (engaged turns)) (dc_channel ctx) in
      match claim_for_scope (Some (dc_channel ctx)) kill_switch release_rate
              (w_now w0 + LEASE_DURATION) exclusion w0 with
      | (w1, Err _) =>
          drain_released_scope turns ctx kill_switch release_rate engaged quota (sleep RETRY_DELAY w1)
      | (w1, Ok []) => (w1, quota, Returned)
      | (w1, Ok batch) =>
          let w2 := tick w1 in
          let '(w3, quota3) := drain_batch ctx (w_now w2) batch quota w2 in
          drain_released_scope turns ctx kill_switch release_rate engaged quota3 (sleep (1 * second) w3)
      end
  end.

Fixpoint discard_batch (batch : list Outbox) (w : W) : W :=
  match batch with [] => w | row :: batch => discard_batch batch (write_discarded row w) end.

(** [discard_engaged_scope]. *)
Fixpoint discard_engaged_scope (turns : nat) (kill_switch : KillSwitch) (batch_size : Z) (w : W)
    : W * ended :=
  match turns with
  | O => (w, Running)
  | S turns =>
      let w0 := tick w in
      match claim_for_scope None kill_switch batch_size (w_now w0 + LEASE_DURATION) no_exclusion w0 with
      | (w1, Err _) => discard_engaged_scope turns kill_switch batch_size (sleep RETRY_DELAY w1)
      | (w1, Ok []) => (w1, Returned)
      | (w1, Ok batch) => discard_engaged_scope turns kill_switch batch_size (discard_batch batch w1)
      end
  end.
End Drain.

(** ** The dispatcher process and its switches *)

(** What the tasks of one dispatcher process share: the cache, the map of
    draining switches, the delta a refresh returned and [on_delta] has not
    handled yet, and the drain tasks with the channels each still has to
    finish. [sw_retired] collects the ids that left the engaged set. *)
Record Switchboard : Type := MkSwitchboard {
  sw_active : ActiveSet;
  sw_draining : gmap N KillSwitch;
  sw_pending : option RefreshDelta;
  sw_drains : list (KillSwitch * gset string);
  sw_discards : list KillSwitch;
  sw_retired : gset N;
}.

Definition start_board : Switchboard := MkSwitchboard empty_active ∅ None [] [] ∅.

(** [run_release_drain] is spawned with one task per channel. *)
Definition on_delta (channels : gset string) (delta : RefreshDelta) (b : Switchboard) : Switchboard :=
  let held := filter (λ s, ks_on_queued s = on_queued.HOLD) (released delta) in
  MkSwitchboard (sw_active b)
    (foldl (λ m s, <[ks_id s := s]> m) (sw_draining b) held)
    None
    (sw_drains b ++ ((λ s, (s, channels)) <$> held))
    (sw_discards b ++ filter (λ s, ks_on_queued s = on_queued.DISCARD) (newly_engaged delta))
    (sw_retired b).

(** The steps of the process, one per lock acquisition: the refresh swaps the
    cache under its write lock and returns the delta; [on_delta] runs next in
    that task, but other tasks run in parallel; a channel's drain ends; the drain
    task drops the switch once all its channels ended. Switch rows are
    written once and released once: a refresh reads no retired id and no changed
    switch. *)
Inductive board_step (channels : gset string) : relation Switchboard :=
| step_refresh b tenant_rows rows :
    sw_pending b = None →
    (∀ s, s ∈ fresh_switches (sw_active b) tenant_rows rows →
       ks_id s ∉ sw_retired b ∧ ∀ s', as_switches (sw_active b) !! ks_id s = Some s' → s' = s) →
    board_step channels b
      (let '(a, delta) := merge_refresh (sw_active b) tenant_rows rows in
       MkSwitchboard a (sw_draining b) (Some delta) (sw_drains b) (sw_discards b)
         (sw_retired b ∪ list_to_set (ks_id <$> released delta)))
| step_on_delta b delta :
    sw_pending b = Some delta → board_step channels b (on_delta channels delta b)
| step_channel_drained b pre post s left ch :
    sw_drains b = pre ++ (s, left) :: post → ch ∈ left →
    board_step channels b
      (MkSwitchboard (sw_active b) (sw_draining b) (sw_pending b)
         (pre ++ (s, left ∖ {[ch]}) :: post) (sw_discards b) (sw_retired b))
| step_drain_ends b pre post s :
    sw_drains b = pre ++ (s, ∅) :: post →
    board_step channels b
      (MkSwitchboard (sw_active b) (delete (ks_id s) (sw_draining b)) (sw_pending b)
         (pre ++ post) (sw_discards b) (sw_retired b)).

(** ** Lemmas: bounded writes *)

Lemma write_with_retry_trace n a w : w_trace (write_with_retry n a w) = w_trace w.
Proof.
  revert w. induction n as [|n IH]; intros w; simpl; [done|].
  pose proof (mute_write_terminal a w) as Hm. destruct (write_terminal a w) as [w1 [[]|e]]; simpl in *; [done|].
  destruct n; [done|]. rewrite IH. simpl. done.
Qed.

Lemma write_with_retry_now n a w : w_now w <= w_now (write_with_retry n a w).
Proof.
  revert w. induction n as [|n IH]; intros w; simpl; [lia|].
  pose proof (forward_write_terminal a w) as Hm. destruct (write_terminal a w) as [w1 [[]|e]]; simpl in *; [done|].
  destruct n; [done|]. specialize (IH (sleep RETRY_DELAY w1)). pose proof (tick_now_le w1).
  unfold sleep, RETRY_DELAY, second, millisecond in *. simpl in *. lia.
Qed.

Lemma write_with_retry_calm n a w :
  calm w → write_with_retry (S n) a w = set_db (terminal_effect a (w_now w) (w_db w)) w.
Proof. intros Hc. simpl. by rewrite write_terminal_calm. Qed.

Lemma lease_update_length f limit until d d' rows :
  lease_update f limit until d = Ok (d', rows) → 0 <= limit ∧ Z.of_nat (length rows) <= limit.
Proof.
  unfold lease_update. destruct (Z.ltb_spec limit 0) as [|Hl]; [done|].
  destruct (existsb _ _); [done|]. intros [= _ <-]. split; [done|].
  rewrite length_fmap. unfold select_rows. rewrite length_take. lia.
Qed.

Lemma claim_for_scope_inv `{!UuidText} pinned s limit until e (w w' : W) rows :
  claim_for_scope pinned s limit until e w = (w', Ok rows) →
  (rows = [] ∧ w' = w ∧ (blocked_entirely e = true ∨ scope_filter pinned s = None)) ∨
  (∃ f d', blocked_entirely e = false ∧ scope_filter pinned s = Some f ∧ w' = set_db d' (tick w) ∧
     lease_update (λ r, due (w_now (tick w)) r && pinned_to pinned r && f r && admits e r)
       limit until (w_db (tick w)) = Ok (d', rows)).
Proof.
  unfold claim_for_scope. destruct (blocked_entirely e).
  { intros [<- <-]%eret_inv. left. auto. }
  destruct (scope_filter pinned s) as [f|].
  - unfold sql. intros Hc. right. destruct (mv_fault _); [| done |];
      destruct (lease_update _ _ _ _) as [[d' rs]|] eqn:Hu; simplify_eq; eauto 10.
  - intros [<- <-]%eret_inv. left. auto.
Qed.

(** ** Lemmas: the ramp *)

Section Ramp.
Context {Tz : Type} `{!TimeZone Tz} `{!UuidText} `{AE : !Aead}.
Context (ctx : DispatcherContext) `{!DekService (dc_dek ctx)}.
Implicit Types (quota : QuotaTracker Tz) (w : W).

Definition calls w : Z := Z.of_nat (length (w_trace w)).

Lemma process_one_calls quota row w :
  calls (process_one ctx quota row w).1 <= calls w + 1
  ∧ w_now w <= w_now (process_one ctx quota row w).1.
Proof.
  pose proof (forward_try_process ctx quota row w). unfold process_one, calls in *.
  destruct (try_process_trace ctx quota row w) as [Ht|(dst & body & Ht)];
    destruct (try_process ctx quota row w) as [w' [q' r]]; simpl in *; rewrite Ht; [lia|].
  rewrite length_app; simpl. lia.
Qed.

Lemma drain_batch_calls now batch quota w :
  calls (drain_batch ctx now batch quota w).1 <= calls w + Z.of_nat (length batch)
  ∧ w_now w <= w_now (drain_batch ctx now batch quota w).1.
Proof.
  revert quota w. induction batch as [|row batch IH]; intros quota w; simpl; [lia|].
  destruct (expired row now).
  - destruct (IH quota (write_expired row w)) as [H1 H2]. unfold write_expired, calls in *.
    rewrite write_with_retry_trace in H1. 
    pose proof (write_with_retry_now MAX_WRITE_TERMINAL_ATTEMPTS (terminal_for row "expired" None None) w). lia.
  - destruct (process_one_calls quota row w) as [H1 H2].
    destruct (process_one ctx quota row w) as [w1 q1]; simpl in *. destruct (IH q1 w1). lia.
Qed.

Lemma drain_rate turns ks rate engaged quota w :
  0 <= rate →
  let w' := (drain_released_scope turns ctx ks rate engaged quota w).1.1 in
  (calls w' - calls w) * second <= rate * (w_now w' - w_now w) ∧ w_now w <= w_now w'.
Proof.
  intros Hrate. revert quota w. induction turns as [|turns IH]; intros quota w; simpl; [lia|].
  set (exc := exclusion_for_channel _ _). set (until := w_now (tick w) + LEASE_DURATION).
  pose proof (mute_claim_for_scope (Some (dc_channel ctx)) ks rate until exc (tick w)) as Hm.
  pose proof (forward_claim_for_scope (Some (dc_channel ctx)) ks rate until exc (tick w)) as Hf.
  pose proof (tick_now_le w) as Ht. rewrite tick_trace in Hm.
  destruct (claim_for_scope _ _ _ _ _ (tick w)) as [w1 [batch|e]] eqn:Hc; simpl in Hm, Hf.
  - destruct batch as [|row batch]; [unfold calls in *; simpl; rewrite Hm; nia|].
    apply claim_for_scope_inv in Hc as [(? & _)|(f & d' & _ & _ & _ & Hu)]; [done|].
    apply lease_update_length in Hu as [_ Hlen].
    destruct (drain_batch_calls (w_now (tick w1)) (row :: batch) quota (tick w1)) as [H1 H2].
    pose proof (tick_now_le w1). destruct (drain_batch _ _ _ _ _) as [w3 q3]. cbn [fst] in H1, H2.
    destruct (IH q3 (sleep (1 * second) w3)) as [H3 H4]. set (w' := (drain_released_scope _ _ _ _ _ _ _).1.1) in *.
    unfold sleep in H3, H4. pose proof (tick_now_le w3). unfold calls in *. simpl in H1, H2, H3, H4. rewrite Hm in H1.
    simpl in Hlen. unfold second, millisecond in *. nia.
  - destruct (IH quota (sleep RETRY_DELAY w1)) as [H3 H4]. set (w' := (drain_released_scope _ _ _ _ _ _ _).1.1) in *.
    pose proof (tick_now_le w1). unfold calls, sleep in *. simpl in H3, H4. rewrite Hm in H3.
    unfold RETRY_DELAY, second, millisecond in *. nia.
Qed.
End Ramp.

(** ** Lemmas: discarding *)

Section Discard.
Context `{!UuidText}.

(** A row the discard of [s] is after. *)
Definition discardable (s : KillSwitch) (now : Z) (r : Outbox) : bool := due now r && matches_row s r.

Definition discard_all (now : Z) (batch : list Outbox) (d : Db) : Db :=
  foldl (λ d row, terminal_effect (terminal_for row "discarded" None None) now d) d batch.

Lemma discard_batch_calm batch (w : W) :
  calm w → discard_batch batch w = set_db (discard_all (w_now w) batch (w_db w)) w.
Proof.
  revert w. induction batch as [|row batch IH]; intros w Hc; simpl; [by rewrite set_db_same|].
  unfold write_discarded. change MAX_WRITE_TERMINAL_ATTEMPTS with (S 4).
  rewrite write_with_retry_calm by done. by rewrite IH.
Qed.

Lemma discard_all_outbox now batch d id :
  db_outbox (discard_all now batch d) !! id =
    if decide (id ∈ ob_id <$> batch) then None else db_outbox d !! id.
Proof.
  unfold discard_all. revert d. induction batch as [|row batch IH]; intros d; simpl; [done|].
  rewrite IH. simpl. rewrite lookup_delete.
  repeat case_decide; set_solver.
Qed.

Lemma discard_all_request now batch d k :
  db_request (discard_all now batch d) !! k =
    (if decide (k ∈ (λ r, (ob_created_at r, ob_id r)) <$> batch)
     then cr_finalize "discarded" now <$> db_request d !! k else db_request d !! k).
Proof.
  unfold discard_all. revert d. induction batch as [|row batch IH]; intros d; simpl; [done|].
  rewrite IH. simpl. rewrite lookup_alter. destruct (decide ((ob_created_at row, ob_id row) = k)) as [Heq|Hne].
  - rewrite (decide_True (P := k ∈ _ :: _)) by set_solver.
    rewrite Heq. case_decide; [|done]. by destruct (db_request d !! k).
  - repeat case_decide; set_solver.
Qed.

(** One claim of the discard loop in a world that stands still. *)
Lemma claim_scope_calm s batch_size (w : W) until :
  calm w → attempts_ok (w_db w) → 1 <= batch_size →
  ∃ d' rows, claim_for_scope None s batch_size until no_exclusion w = (set_db d' w, Ok rows)
  ∧ (∀ r', r' ∈ rows → ∃ r, db_outbox (w_db w) !! ob_id r' = Some r ∧ r' = lease until r
       ∧ discardable s (w_now w) r = true)
  ∧ (∀ id, id ∉ ob_id <$> rows → db_outbox d' !! id = db_outbox (w_db w) !! id)
  ∧ (rows = [] → ∀ id r, db_outbox (w_db w) !! id = Some r → discardable s (w_now w) r = false)
  ∧ d' = on_outbox (λ _, db_outbox d') (w_db w).
Proof.
  intros Hc [Hwf Hatt] Hb.
  assert (∀ r, match scope_filter None s with Some f => f r | None => false end = matches_row s r) as Hsf.
  { intros r. by apply scope_filter_matches. }
  unfold claim_for_scope; simpl. destruct (scope_filter None s) as [f|].
  - set (g := λ r, due (w_now w) r && true && f r && admits no_exclusion r).
    assert (∀ r, g r = discardable s (w_now w) r) as Hg.
    { intros r. unfold g, discardable. rewrite Hsf.
      unfold admits; simpl. destruct (ob_campaign_id r); by rewrite !andb_true_r. }
    destruct (lease_update g batch_size until (w_db w)) as [[d' rows]|err] eqn:Hu.
    + exists d', rows. destruct (lease_update_Ok _ _ _ _ _ _ Hwf Hu) as (_ & _ & _ & Hin & Hout & Hd').
      split_and!; [| |done| |done].
      * rewrite sql_calm by apply Hc. unfold g in Hu. cbv beta. by rewrite Hu.
      * intros r' Hr'. destruct (Hin r' Hr') as (r & H1 & H2 & H3 & _). exists r. by rewrite <- Hg.
      * intros -> id r Hr. apply not_true_is_false. intros Hd. rewrite <- Hg in Hd.
        destruct (lease_update_order g batch_size until _ _ _ id r Hu Hr Hd) as [Hl _]; [by apply not_elem_of_nil|].
        simpl in Hl. lia.
    + exfalso. unfold lease_update in Hu. destruct (Z.ltb_spec batch_size 0); [lia|].
      destruct (existsb _ _) eqn:Hex; [|done].
      apply existsb_exists in Hex as (r & Hr & Hge). apply list_elem_of_In, select_rows_elem in Hr as (Hf & id & Hid).
      rewrite Hg in Hf. unfold discardable in Hf. rewrite andb_true_iff, due_iff in Hf.
      apply Z.leb_le in Hge. specialize (Hatt id r Hid (proj2 (proj1 Hf))). lia.
  - exists (w_db w), []. split_and!; [by rewrite set_db_same|by intros ? ?%not_elem_of_nil|done| |by destruct (w_db w)].
    intros _ id r _. unfold discardable. rewrite <- Hsf. by rewrite andb_false_r.
Qed.

Definition backlog (s : KillSwitch) (now : Z) (d : Db) : gmap N Outbox :=
  filter (λ p, discardable s now p.2 = true) (db_outbox d).

Lemma discard_calm turns s batch_size (w : W) :
  calm w → attempts_ok (w_db w) → 1 <= batch_size →
  (size (backlog s (w_now w) (w_db w)) < turns)%nat →
  ∃ d', discard_engaged_scope turns s batch_size w = (set_db d' w, Returned)
  ∧ (∀ id, db_outbox (w_db w) !! id = None → db_outbox d' !! id = None
       ∧ ∀ t, db_request d' !! (t, id) = db_request (w_db w) !! (t, id))
  ∧ (∀ id r, db_outbox (w_db w) !! id = Some r →
       if discardable s (w_now w) r
       then db_outbox d' !! id = None
            ∧ db_request d' !! (ob_created_at r, id)
              = cr_finalize "discarded" (w_now w) <$> db_request (w_db w) !! (ob_created_at r, id)
       else db_outbox d' !! id = Some r).
Proof.
  revert w. induction turns as [|turns IH]; intros w Hc Hatt Hb Hsz; [lia|]. cbn [discard_engaged_scope]. cbv zeta.
  rewrite tick_calm by apply Hc.
  destruct (claim_scope_calm s batch_size w (w_now w + LEASE_DURATION) Hc Hatt Hb)
    as (d1 & rows & -> & Hrows & Hrest & Hempty & Hd1). destruct rows as [|row0 rows0].
  { exists d1. split; [done|].
    assert (d1 = w_db w) as ->.
    { rewrite Hd1. replace (db_outbox d1) with (db_outbox (w_db w)); [by destruct (w_db w)|].
      apply map_eq. intros id. symmetry. apply Hrest, not_elem_of_nil. }
    split; [done|]. intros id r Hr. by rewrite (Hempty eq_refl id r Hr). }
  set (rows := row0 :: rows0) in *. clear Hempty. cbv iota. rewrite discard_batch_calm by done. simpl.
  set (d2 := discard_all (w_now w) rows d1).
  assert (∀ id, db_outbox d2 !! id = if decide (id ∈ ob_id <$> rows) then None else db_outbox (w_db w) !! id) as Ho.
  { intros id. unfold d2. rewrite discard_all_outbox. case_decide; [done|]. by apply Hrest. }
  assert (∀ k, k.2 ∉ ob_id <$> rows → db_request d2 !! k = db_request (w_db w) !! k) as Hq.
  { intros k Hk. unfold d2. rewrite discard_all_request, decide_False; [by rewrite Hd1|].
    rewrite list_elem_of_fmap. intros (r & -> & Hr). apply Hk. by apply (list_elem_of_fmap_2 ob_id rows). }
  assert (∀ id r, db_outbox (w_db w) !! id = Some r → id ∈ ob_id <$> rows →
    discardable s (w_now w) r = true ∧ db_request d2 !! (ob_created_at r, id)
      = cr_finalize "discarded" (w_now w) <$> db_request (w_db w) !! (ob_created_at r, id)) as Hin.
  { intros id r Hr Hi. apply list_elem_of_fmap in Hi as (r' & -> & Hr').
    destruct (Hrows r' Hr') as (x & Hx & -> & Hd). rewrite Hr in Hx. injection Hx as ->. split; [done|].
    unfold d2. rewrite discard_all_request, decide_True; [by rewrite Hd1|].
    apply list_elem_of_fmap. by exists (lease (w_now w + LEASE_DURATION) x). }
  destruct (IH (set_db d2 w)) as (d' & Hrun & Hgone & Hrun2); [done| |done| |].
  { destruct Hatt as [Hwf Hatt]. split.
    - intros id r. simpl. rewrite Ho. case_decide; [done|]. apply Hwf.
    - intros id r. simpl. rewrite Ho. case_decide; [done|]. apply Hatt. }
  { enough (size (backlog s (w_now w) d2) < size (backlog s (w_now w) (w_db w)))%nat by (simpl; lia).
    apply map_subset_size. destruct (Hrows row0) as (x & Hx & _ & Hdx); [by left|].
    apply map_subset_alt. split.
    - apply map_subseteq_spec. intros id r. unfold backlog. rewrite !map_lookup_filter_Some; simpl.
      rewrite Ho. case_decide; naive_solver.
    - exists (ob_id row0). split.
      + unfold backlog. rewrite map_lookup_filter_None. left. rewrite Ho, decide_True; [done|]. by left.
      + exists x. by apply map_lookup_filter_Some. }
  exists d'. simpl in Hgone, Hrun2. split; [done|]. split.
  - intros id Hid. assert (id ∉ ob_id <$> rows) as Hni.
    { rewrite list_elem_of_fmap. intros (r' & -> & Hr'). destruct (Hrows r' Hr') as (x & Hx & _). congruence. }
    destruct (Hgone id) as [H1 H2]; [by rewrite Ho; case_decide|]. split; [done|].
    intros t. rewrite H2. by apply Hq.
  - intros id r Hr. destruct (decide (id ∈ ob_id <$> rows)) as [Hi|Hi].
    + destruct (Hin id r Hr Hi) as [-> Hf]. destruct (Hgone id) as [H1 H2]; [by rewrite Ho, decide_True|].
      split; [done|]. by rewrite H2.
    + specialize (Hrun2 id r). rewrite Ho, decide_False in Hrun2 by done. specialize (Hrun2 Hr).
      destruct (discardable s (w_now w) r); [|done]. by rewrite <- (Hq (ob_created_at r, id)).
Qed.
End Discard.

(** ** Lemmas: the switchboard *)

(** The switch still holds its rows back, or is about to. *)
Definition held (b : Switchboard) (s : KillSwitch) : Prop :=
  as_switches (sw_active b) !! ks_id s = Some s
  ∨ (∃ delta, sw_pending b = Some delta ∧ s ∈ released delta)
  ∨ sw_draining b !! ks_id s = Some s.

Definition pending_released (b : Switchboard) : list KillSwitch :=
  match sw_pending b with Some delta => released delta | None => [] end.

Definition drain_ids (b : Switchboard) : list N := (λ p, ks_id p.1) <$> sw_drains b.

Record board_ok (b : Switchboard) : Prop := {
  bo_active : active_wf (sw_active b);
  bo_fresh id : id ∈ sw_retired b → as_switches (sw_active b) !! id = None;
  bo_nodup : NoDup (drain_ids b ++ (ks_id <$> pending_released b));
  bo_retired id : id ∈ drain_ids b ++ (ks_id <$> pending_released b) → id ∈ sw_retired b;
  bo_draining id : is_Some (sw_draining b !! id) → id ∈ drain_ids b;
  bo_drains s left : (s, left) ∈ sw_drains b → sw_draining b !! ks_id s = Some s;
}.

Lemma foldl_insert_lookup (l : list KillSwitch) (m : gmap N KillSwitch) id :
  NoDup (ks_id <$> l) →
  (∀ s, s ∈ l → foldl (λ m s, <[ks_id s := s]> m) m l !! ks_id s = Some s)
  ∧ (id ∉ ks_id <$> l → foldl (λ m s, <[ks_id s := s]> m) m l !! id = m !! id).
Proof.
  revert m. induction l as [|x l IH]; intros m Hnd; simpl; [split; [by intros ? ?%not_elem_of_nil|done]|].
  apply NoDup_cons in Hnd as [Hx Hnd]. destruct (IH (<[ks_id x := x]> m) Hnd) as [H1 H2]. split.
  - intros s [->|Hs]%elem_of_cons; [|by apply H1].
    rewrite index_by_id_fold. replace (filter (λ s, ks_id s = ks_id x) l) with (@nil KillSwitch).
    + simpl. by rewrite lookup_insert_eq.
    + symmetry. destruct (filter _ l) as [|y l'] eqn:Hf; [done|]. exfalso.
      assert (y ∈ filter (λ s, ks_id s = ks_id x) l) as Hy by (rewrite Hf; by left).
      apply list_elem_of_filter in Hy as [Hyx Hyl]. apply Hx. rewrite <- Hyx. by apply list_elem_of_fmap_2.
  - intros Hni. rewrite H2 by set_solver. apply lookup_insert_ne. set_solver.
Qed.

Lemma released_ids_NoDup guard tr rows :
  active_wf guard → NoDup (ks_id <$> released (merge_refresh guard tr rows).2).
Proof.
  intros [Hid _]. rewrite merge_refresh_delta; simpl.
  eapply sublist_NoDup; [|by apply fmap_sublist, sublist_filter].
  unfold map_values. rewrite <- list_fmap_compose.
  replace ((ks_id ∘ snd) <$> map_to_list (as_switches guard)) with (map_to_list (as_switches guard)).*1.
  - apply NoDup_fst_map_to_list.
  - apply list_fmap_ext. intros i [k s] Hi. simpl. symmetry. apply Hid.
    apply elem_of_map_to_list. by eapply list_elem_of_lookup_2.
Qed.

Lemma start_board_ok : board_ok start_board.
Proof.
  split; [split|..].
  - intros id x Hx. change ((∅ : gmap N KillSwitch) !! id = Some x) in Hx. by rewrite lookup_empty in Hx.
  - set_solver.
  - set_solver.
  - constructor.
  - set_solver.
  - intros id [x Hx]. change ((∅ : gmap N KillSwitch) !! id = Some x) in Hx. by rewrite lookup_empty in Hx.
  - intros s left H. by apply not_elem_of_nil in H.
Qed.

Lemma refresh_ok b tr rows :
  board_ok b → sw_pending b = None →
  (∀ s, s ∈ fresh_switches (sw_active b) tr rows →
     ks_id s ∉ sw_retired b ∧ ∀ s', as_switches (sw_active b) !! ks_id s = Some s' → s' = s) →
  board_ok (let '(a, delta) := merge_refresh (sw_active b) tr rows in
            MkSwitchboard a (sw_draining b) (Some delta) (sw_drains b) (sw_discards b)
              (sw_retired b ∪ list_to_set (ks_id <$> released delta))).
Proof.
  intros [Hwf Hfr Hnd Hret Hdr Hdrs] Hp Hret'.
  pose proof (λ s, merge_refresh_released (sw_active b) tr rows s Hwf) as Hrel.
  pose proof (released_ids_NoDup (sw_active b) tr rows Hwf) as Hnd'.
  pose proof (merge_refresh_wf (sw_active b) tr rows Hwf) as Hwf'.
  pose proof (merge_refresh_switches (sw_active b) tr rows) as Hsw.
  destruct (merge_refresh (sw_active b) tr rows) as [a delta]. simpl in *.
  unfold drain_ids, pending_released in *. rewrite Hp in *. simpl in *. rewrite app_nil_r in *.
  split; unfold drain_ids, pending_released; simpl; try done.
  - intros id. rewrite elem_of_union, elem_of_list_to_set, list_elem_of_fmap. intros [Hid|(s & -> & Hs)].
    + rewrite Hsw. apply index_by_id_None. rewrite list_elem_of_fmap. intros (s & -> & Hs). by destruct (Hret' s Hs).
    + by apply Hrel in Hs as [_ ?].
  - apply NoDup_app. split_and!; [done| |done]. intros id Hid (s & -> & Hs)%list_elem_of_fmap.
    apply Hrel in Hs as [Hs _]. rewrite Hfr in Hs; [done|]. by apply Hret.
  - intros id. rewrite elem_of_app. set_solver.
Qed.

Lemma on_delta_ok channels b delta :
  board_ok b → sw_pending b = Some delta → board_ok (on_delta channels delta b).
Proof.
  intros [Hwf Hfr Hnd Hret Hdr Hdrs] Hp. unfold drain_ids, pending_released in *. rewrite Hp in *.
  unfold on_delta. set (hl := filter (λ s, ks_on_queued s = on_queued.HOLD) (released delta)).
  apply NoDup_app in Hnd as (Hnd1 & Hdisj & Hnd2).
  assert (NoDup (ks_id <$> hl)) as Hndh.
  { eapply sublist_NoDup; [exact Hnd2|]. by apply fmap_sublist, sublist_filter. }
  assert (∀ id, id ∈ ks_id <$> hl → id ∈ ks_id <$> released delta) as Hin.
  { intros id (s & -> & Hs)%list_elem_of_fmap. apply list_elem_of_fmap_2. by apply list_elem_of_filter in Hs as [_ ?]. }
  assert ((λ p : KillSwitch * gset string, ks_id p.1) <$> ((λ s, (s, channels)) <$> hl) = ks_id <$> hl) as Hids.
  { rewrite <- list_fmap_compose. by apply list_fmap_ext. }
  split; unfold drain_ids, pending_released; cbn [sw_active sw_draining sw_pending sw_drains sw_retired];
    rewrite ?fmap_app, ?Hids, ?app_nil_r; try done.
  - apply NoDup_app. split_and!; [done| |done]. intros id H1 H2. by apply (Hdisj id H1), Hin.
  - intros id. rewrite elem_of_app. intros [H1|H1]; apply Hret; rewrite elem_of_app; auto.
  - intros id. rewrite elem_of_app. destruct (decide (id ∈ ks_id <$> hl)) as [?|Hni]; [by right|].
    destruct (foldl_insert_lookup hl (sw_draining b) id Hndh) as [_ ->]; [|done]. intros H1. left. by apply Hdr.
  - intros s lft. rewrite elem_of_app. intros [H1|(x & [= -> ->] & Hx)%list_elem_of_fmap].
    + destruct (foldl_insert_lookup hl (sw_draining b) (ks_id s) Hndh) as [_ ->]; [by apply (Hdrs s lft)|].
      intros H2%Hin. apply (Hdisj (ks_id s)); [|done]. apply list_elem_of_fmap. by exists (s, lft).
    + by apply (foldl_insert_lookup hl (sw_draining b) 0%N Hndh).
Qed.

Lemma channel_drained_ok b pre post s lft ch :
  board_ok b → sw_drains b = pre ++ (s, lft) :: post →
  board_ok (MkSwitchboard (sw_active b) (sw_draining b) (sw_pending b)
         (pre ++ (s, lft ∖ {[ch]}) :: post) (sw_discards b) (sw_retired b)).
Proof.
  intros [Hwf Hfr Hnd Hret Hdr Hdrs] Hd. unfold drain_ids, pending_released in *. rewrite Hd in *.
  rewrite fmap_app, fmap_cons in *.
  split; unfold drain_ids, pending_released; simpl; rewrite ?fmap_app, ?fmap_cons; try done.
  intros s' l' [H1|[[= -> ->]|H1]%elem_of_cons]%elem_of_app; eapply Hdrs; rewrite elem_of_app, elem_of_cons; eauto.
Qed.

Lemma drain_ends_ok b pre post s :
  board_ok b → sw_drains b = pre ++ (s, ∅) :: post →
  board_ok (MkSwitchboard (sw_active b) (delete (ks_id s) (sw_draining b)) (sw_pending b)
         (pre ++ post) (sw_discards b) (sw_retired b)).
Proof.
  intros [Hwf Hfr Hnd Hret Hdr Hdrs] Hd. unfold drain_ids, pending_released in *. rewrite Hd in *.
  rewrite fmap_app, fmap_cons in *. simpl in *.
  set (A := (λ p : KillSwitch * gset string, ks_id p.1) <$> pre) in *.
  set (B := (λ p : KillSwitch * gset string, ks_id p.1) <$> post) in *. set (P := ks_id <$> _) in *.
  assert (Permutation ((A ++ ks_id s :: B) ++ P) (ks_id s :: (A ++ B) ++ P)) as Hperm
    by (by rewrite <- Permutation_middle).
  rewrite Hperm in Hnd. apply NoDup_cons in Hnd as [Hns Hnd].
  split; unfold drain_ids, pending_released; simpl; rewrite ?fmap_app; try done.
  - intros id Hid. apply Hret. rewrite Hperm. by right.
  - intros id. rewrite lookup_delete. case_decide as Hne; [by intros [? [=]]|]. intros H1.
    specialize (Hdr id H1). set_solver.
  - intros s' l' H1. rewrite lookup_delete_ne; [apply (Hdrs s' l'); set_solver|].
    intros Heq. apply Hns. rewrite Heq, elem_of_app. left. unfold A, B. rewrite <- fmap_app.
    apply list_elem_of_fmap. by exists (s', l').
Qed.

Lemma board_step_ok channels b b' : board_step channels b b' → board_ok b → board_ok b'.
Proof.
  intros [] Hok; eauto using refresh_ok, on_delta_ok, channel_drained_ok, drain_ends_ok.
Qed.

Lemma reachable_ok channels b : rtc (board_step channels) start_board b → board_ok b.
Proof.
  intros H. remember start_board as b0 eqn:Hb. assert (board_ok b0) as H0 by (subst; apply start_board_ok).
  clear Hb. induction H; eauto using board_step_ok.
Qed.

(** One step keeps hold of a switch, unless it is the end of its drain. *)
Lemma held_step channels b b' s :
  board_ok b → board_step channels b b' → ks_on_queued s = on_queued.HOLD → held b s →
  held b' s ∨ (s, ∅) ∈ sw_drains b.
Proof.
  intros [Hwf Hfr Hnd Hret Hdr Hdrs] Hstep Hh Hheld.
  destruct Hstep as [b tr rows Hp Hret'|b delta Hp|b pre post x lft ch Hd Hch|b pre post x Hd].
  - left. pose proof (merge_refresh_released (sw_active b) tr rows s Hwf) as Hrel.
    pose proof (merge_refresh_switches (sw_active b) tr rows) as Hsw.
    destruct (merge_refresh (sw_active b) tr rows) as [a delta] eqn:Hm. simpl in Hrel, Hsw.
    destruct Hheld as [Ha|[(dl & Hdl & _)|Hdr']]; [|congruence|by right; right].
    destruct (as_switches a !! ks_id s) as [s'|] eqn:Ha'.
    + left. simpl. rewrite Ha'. rewrite Hsw in Ha'. apply index_by_id_Some in Ha' as [Hin Hid].
      destruct (Hret' s' Hin) as [_ Heq]. rewrite Hid in Heq. by rewrite (Heq s Ha).
    + right; left. exists delta. split; [done|]. by apply Hrel.
  - left. unfold pending_released in Hnd. rewrite Hp in Hnd. apply NoDup_app in Hnd as (_ & Hdisj & Hnd).
    set (hl := filter (λ s, ks_on_queued s = on_queued.HOLD) (released delta)).
    assert (NoDup (ks_id <$> hl)) as Hndh.
    { eapply sublist_NoDup; [exact Hnd|]. by apply fmap_sublist, sublist_filter. }
    destruct (foldl_insert_lookup hl (sw_draining b) (ks_id s) Hndh) as [H1 H2].
    destruct Hheld as [Ha|[(dl & Hdl & Hs)|Hdr']]; [by left| |]; right; right.
    + simplify_eq. apply H1. by apply list_elem_of_filter.
    + simpl. fold hl. rewrite H2; [done|]. intros Hin. apply (Hdisj (ks_id s)); [by apply Hdr; eauto|].
      apply list_elem_of_fmap in Hin as (x & -> & Hx). apply list_elem_of_fmap_2.
      by apply list_elem_of_filter in Hx as [_ ?].
  - left. done.
  - destruct Hheld as [Ha|[?|Hdr']]; [by left; left|by left; right; left|].
    destruct (decide (ks_id x = ks_id s)) as [Heq|Hne].
    + right. rewrite Hd, elem_of_app, elem_of_cons. right; left. f_equal.
      specialize (Hdrs x ∅). rewrite Hd, elem_of_app, elem_of_cons in Hdrs. rewrite Heq in Hdrs.
      rewrite Hdrs in Hdr' by eauto. by simplify_eq.
    + left. right; right. simpl. by rewrite lookup_delete_ne.
Qed.

(** ** Properties *)

(** A released backlog is sent no faster than the release rate: over any
    number of batches, and whatever fails or interleaves, the provider calls of
    a channel's drain never exceed the rate times the seconds it has taken. *)
Theorem drain_keeps_the_release_rate {Tz} `{!TimeZone Tz} `{!UuidText} `{AE : !Aead} turns
    (ctx : DispatcherContext) ks rate engaged (quota : QuotaTracker Tz) (w w' : W) quota' r :
  DekService (dc_dek ctx) → 0 <= rate →
  drain_released_scope turns ctx ks rate engaged quota w = (w', quota', r) →
  (calls w' - calls w) * second <= rate * (w_now w' - w_now w).
Proof.
  intros Hd Hr Hrun. pose proof (drain_rate ctx turns ks rate engaged quota w Hr) as [Hx _].
  by rewrite Hrun in Hx.
Qed.

(** Discarding empties the backlog of an engaged switch: in a world that
    stands still, with a positive batch size and one turn more than there are
    rows to discard, the task returns; every due, unleased row the switch covers
    is gone from the outbox and its request is finalized as discarded, and every
    other row is as it was. *)
Theorem discard_empties_the_due_backlog `{!UuidText} turns s batch_size (w : W) :
  calm w → attempts_ok (w_db w) → 1 <= batch_size →
  (size (backlog s (w_now w) (w_db w)) < turns)%nat →
  ∃ d', discard_engaged_scope turns s batch_size w = (set_db d' w, Returned)
  ∧ ∀ id r, db_outbox (w_db w) !! id = Some r →
      if discardable s (w_now w) r
      then db_outbox d' !! id = None
           ∧ db_request d' !! (ob_created_at r, id)
             = cr_finalize "discarded" (w_now w) <$> db_request (w_db w) !! (ob_created_at r, id)
      else db_outbox d' !! id = Some r.
Proof.
  intros Hc Ha Hb Hs. destruct (discard_calm turns s batch_size w Hc Ha Hb Hs) as (d' & H1 & _ & H2). eauto.
Qed.

Lemma held_excluded `{!UuidText} b s r :
  held b s → sw_pending b = None → matches_row s r = true →
  excluded (claim_exclusion (sw_active b) (sw_draining b) (ob_channel r)) r = true.
Proof.
  intros Hh Hp Hm. unfold claim_exclusion. rewrite excluded_existsb. apply existsb_matches. exists s.
  split; [|done]. rewrite elem_of_app. unfold active_snapshot. rewrite !elem_of_map_values.
  destruct Hh as [Ha|[(dl & Hdl & _)|Hd]]; [by eauto|congruence|by eauto].
Qed.

(** C34. A released hold switch keeps holding until its drain is done: from any
    reachable state where the switch is engaged, on its way into the draining
    map or draining, it is so in every later state, and whenever no refresh is
    being handled the channel loops exclude every row it covers, unless on the
    way its drain finished on every channel. *)
Theorem release_holds_until_drained `{!UuidText} channels b b' s :
  rtc (board_step channels) start_board b → ks_on_queued s = on_queued.HOLD → held b s →
  rtc (board_step channels) b b' →
  (held b' s ∧ (sw_pending b' = None → ∀ r, matches_row s r = true →
     excluded (claim_exclusion (sw_active b') (sw_draining b') (ob_channel r)) r = true))
  ∨ ∃ b1, rtc (board_step channels) b b1 ∧ rtc (board_step channels) b1 b' ∧ (s, ∅) ∈ sw_drains b1.
Proof.
  intros Hb Hq Hheld Hrun. apply reachable_ok in Hb.
  induction Hrun as [b|b b1 b2 Hstep Hrun IH]; [left; eauto using held_excluded|].
  destruct (held_step channels b b1 s Hb Hstep Hq Hheld) as [H1|H1].
  - destruct (IH (board_step_ok _ _ _ Hstep Hb) H1) as [?|(x & Hx & ? & ?)]; [by left|right].
    exists x. split_and!; [by eapply rtc_l|done|done].
  - right. exists b. split_and!; [done|by eapply rtc_l|done].
Qed.

(** ** Concrete runs *)

#[local] Existing Instance demo_uuid.
#[local] Existing Instance demo_aead.

Definition demo_hold : KillSwitch := demo_switch scope.GLOBAL None.
Definition demo_board (a : gmap N KillSwitch) draining pending drains retired : Switchboard :=
  MkSwitchboard (MkActive a ∅) draining pending drains [] retired.
Definition board_engaged : Switchboard := demo_board {[40%N := demo_hold]} ∅ None [] ∅.
Definition board_gap : Switchboard := demo_board ∅ ∅ (Some (MkDelta [] [demo_hold])) [] {[40%N]}.
Definition board_draining : Switchboard :=
  demo_board ∅ {[40%N := demo_hold]} None [(demo_hold, {[channel.SMS]})] {[40%N]}.

Definition board_seen : Switchboard :=
  demo_board {[40%N := demo_hold]} ∅ (Some (MkDelta [demo_hold] [])) [] ∅.

Lemma step_to channels b b1 b2 : board_step channels b b1 → b1 = b2 → board_step channels b b2.
Proof. by intros H <-. Qed.

Lemma engage_step : rtc (board_step {[channel.SMS]}) start_board board_engaged.
Proof.
  apply (rtc_l _ _ board_seen).
  - eapply step_to; [|vm_compute; reflexivity].
    apply (step_refresh _ start_board [demo_hold] (Some [])); [done|].
    intros s Hs. apply list_elem_of_singleton in Hs as ->. split; [apply not_elem_of_empty|].
    intros s' Hs'. change ((∅ : gmap N KillSwitch) !! 40%N = Some s') in Hs'. by rewrite lookup_empty in Hs'.
  - apply rtc_once. eapply step_to; [by apply (step_on_delta _ board_seen (MkDelta [demo_hold] []))|].
    vm_compute. reflexivity.
Qed.

Lemma gap_step : board_step {[channel.SMS]} board_engaged board_gap.
Proof.
  eapply step_to; [apply (step_refresh _ board_engaged [] (Some [])); [done|]|vm_compute; reflexivity].
  intros s Hs. by apply not_elem_of_nil in Hs.
Qed.

Lemma drain_step : board_step {[channel.SMS]} board_gap board_draining.
Proof.
  eapply step_to; [by apply (step_on_delta _ board_gap (MkDelta [] [demo_hold]))|vm_compute; reflexivity].
Qed.

(** Between a refresh and its handler a released switch holds nothing: there
    is a reachable state in which a hold switch has left the engaged set, has not
    reached the draining map, and a row it covers passes the exclusion a channel
    loop computes, although no channel has drained its backlog. *)
Theorem refresh_leaves_a_gap :
  ∃ b, rtc (board_step {[channel.SMS]}) start_board b ∧ held b demo_hold ∧ sw_drains b = []
    ∧ matches_row demo_hold (demo_transactional 1) = true
    ∧ excluded (claim_exclusion (sw_active b) (sw_draining b) channel.SMS) (demo_transactional 1) = false.
Proof.
  exists board_gap. split_and!; try done.
  - eapply rtc_r; [apply engage_step|apply gap_step].
  - right; left. exists (MkDelta [] [demo_hold]). split; [done|by left].
Qed.

Definition demo_discard : KillSwitch :=
  MkSwitch 41%N scope.GLOBAL None on_queued.DISCARD "ops" 0 "sale over" None None.

(** A discard spares rows that wait for a retry: the task returns while a row
    the switch covers is still queued for later, and once the switch is released
    the channel loop claims that row. *)
Theorem discard_spares_rescheduled_rows :
  let w0 := demo_world [demo_row 1 1 500 None] 100 in
  matches_row demo_discard (demo_row 1 1 500 None) = true
  ∧ (discard_engaged_scope 5 demo_discard 10 w0).2 = Returned
  ∧ (claim channel.SMS 10 900 no_exclusion (later 500 (discard_engaged_scope 5 demo_discard 10 w0).1)).2
    = Ok [lease 900 (demo_row 1 1 500 None)].
Proof. vm_compute. done. Qed.

Lemma drain_rate_witness :
  (calls (drain_released_scope 3 (demo_ctx accepted verification_mode.OBSERVE) demo_hold 1
     (λ _, empty_active) (demo_quota None)
     (demo_world [demo_transactional 1; demo_transactional 2] 100)).1.1 - 0) * second
  <= 1 * (w_now (drain_released_scope 3 (demo_ctx accepted verification_mode.OBSERVE) demo_hold 1
     (λ _, empty_active) (demo_quota None)
     (demo_world [demo_transactional 1; demo_transactional 2] 100)).1.1 - 100).
Proof.
  destruct (drain_released_scope 3 (demo_ctx accepted verification_mode.OBSERVE) demo_hold 1
     (λ _, empty_active) (demo_quota None)
     (demo_world [demo_transactional 1; demo_transactional 2] 100)) as [[w' q'] r] eqn:Hrun.
  apply (drain_keeps_the_release_rate 3 (demo_ctx accepted verification_mode.OBSERVE) demo_hold 1
     (λ _, empty_active) (demo_quota None)
     (demo_world [demo_transactional 1; demo_transactional 2] 100) w' q' r
     (demo_dek_service _ _) ltac:(lia) Hrun).
Defined.

Lemma discard_witness :
  ∃ d', discard_engaged_scope 3 demo_discard 10 (demo_world [demo_transactional 1] 100)
    = (set_db d' (demo_world [demo_transactional 1] 100), Returned)
  ∧ db_outbox d' !! 1%N = None.
Proof.
  destruct (discard_empties_the_due_backlog 3 demo_discard 10 (demo_world [demo_transactional 1] 100))
    as (d' & Hrun & Hd').
  - done.
  - apply demo_attempts_ok.
  - lia.
  - vm_compute. lia.
  - exists d'. split; [exact Hrun|]. apply (Hd' 1%N (demo_transactional 1)). vm_compute. reflexivity.
Defined.

Lemma release_witness :
  excluded (claim_exclusion (sw_active board_draining) (sw_draining board_draining) channel.SMS)
    (demo_transactional 1) = true
  ∨ ∃ b1, rtc (board_step {[channel.SMS]}) board_engaged b1 ∧ (demo_hold, ∅) ∈ sw_drains b1.
Proof.
  destruct (release_holds_until_drained {[channel.SMS]} board_engaged board_draining demo_hold)
    as [[_ He]|(b1 & H1 & _ & H2)].
  - apply engage_step.
  - reflexivity.
  - left. vm_compute. reflexivity.
  - eapply rtc_l; [apply gap_step|apply rtc_once, drain_step].
  - left. apply (He eq_refl (demo_transactional 1)). reflexivity.
  - right. eauto.
Defined.
