(* ===== verification/Leader.v ===== *)
(** * Leader election between the dispatchers of a tenant

    Models [src/dispatcher/leader.rs] and what [src/bin/dispatcher.rs] hangs on it: the
    sweep of leases once elected, the claim loops that follow, and the drains that run
    whether or not the process leads. Any number of processes, the sessions and the
    advisory locks of one tenant's database and its queue are one state; a label says
    who moves. Connections fail, replies are lost, sessions end and processes stop at
    any time. *)

From S2P Require Import Prelude RustStd Time Schema KillSwitch Outbox.
From stdpp Require Import base gmap strings list.
From Stdlib Require Import ZArith Lia.

Local Open Scope Z_scope.

Definition LEADER_LOCK_KEY : Z := 1.
Definition RETRY_INTERVAL : Z := 3 * second.

(** ** Sessions and advisory locks of a database *)

Record LockServer : Type := MkServer { ls_open : gset N; ls_locks : gmap Z N; ls_next : N }.
Definition open_session (s : LockServer) : LockServer * N :=
  (MkServer ({[ls_next s]} ∪ ls_open s) (ls_locks s) (ls_next s + 1), ls_next s).
(** [pg_try_advisory_lock]: a session gets a lock that is free or its own. *)
Definition try_advisory_lock (key : Z) (conn : N) (s : LockServer) : LockServer * bool :=
  match ls_locks s !! key with
  | None => (MkServer (ls_open s) (<[key := conn]> (ls_locks s)) (ls_next s), true)
  | Some holder => (s, bool_decide (holder = conn))
  end.
(** The end of a session releases its locks. *)
Definition end_session (conn : N) (s : LockServer) : LockServer :=
  MkServer (ls_open s ∖ {[conn]}) (filter (λ kv, kv.2 ≠ conn) (ls_locks s)) (ls_next s).

(** ** A process between its start and its claim loops *)

(** Where [acquire] stands; the connection of a round lives until its sleep is over. *)
Inductive Phase : Type :=
| Connecting
| Trying (conn : N)
| StandingBy (conn : N) (until : Z)
| Unreachable (until : Z)
| Elected (conn : N)
| Running (conn : N)
| Stopped.

Definition after_connect (now : Z) (conn : option N) : Phase :=
  match conn with Some conn => Trying conn | None => Unreachable (now + RETRY_INTERVAL) end.
Definition after_reply (now : Z) (conn : N) (won : result bool SqlxError) : Phase :=
  match won with Ok true => Elected conn | Ok false | Err _ => StandingBy conn (now + RETRY_INTERVAL) end.

(** The connection a phase keeps open, and the one that proves leadership. *)
Definition conn_of (ph : Phase) : option N :=
  match ph with Trying c | StandingBy c _ | Elected c | Running c => Some c | _ => None end.
Definition leadership (ph : Phase) : option N := match ph with Elected c | Running c => Some c | _ => None end.

(** ** All processes together *)

Record Election : Type := MkElection {
  el_now : Z; el_server : LockServer; el_phase : gmap N Phase; el_db : Db; el_hand : gmap N (list N);
}.

(** What happens next: [Query] is a try whose reply arrives, [ReplyLost] one that takes
    effect all the same; [ClaimTurn] is a turn of a claim loop, [DrainTurn] one of a
    release drain; [Retry], [Finish] and [GiveUp] end the processing of a row. *)
Inductive Label : Type :=
| Start (p : N)
| ConnectOk (p : N)
| ConnectFails (p : N)
| Query (p : N)
| QueryFails (p : N)
| ReplyLost (p : N)
| Wake (p : N)
| Sweep (p : N)
| ClaimTurn (p : N) (channel : string) (limit until : Z) (e : ChannelExclusion)
| DrainTurn (p : N) (scope : Outbox → bool) (limit until : Z)
| Retry (p id : N) (next : Z)
| Finish (p id : N)
| GiveUp (p id : N)
| Stop (p : N)
| EndSession (conn : N)
| Enqueue (row : Outbox)
| Elapse (d : Z).
Definition actor (l : Label) : option N :=
  match l with
  | Start p | ConnectOk p | ConnectFails p | Query p | QueryFails p | ReplyLost p | Wake p | Sweep p | ClaimTurn p _ _ _ _
  | DrainTurn p _ _ _ | Retry p _ _ | Finish p _ | GiveUp p _ | Stop p => Some p
  | EndSession _ | Enqueue _ | Elapse _ => None
  end.

Definition set_phase (p : N) (ph : Phase) (e : Election) : Election :=
  MkElection (el_now e) (el_server e) (<[p := ph]> (el_phase e)) (el_db e) (el_hand e).
Definition set_server (s : LockServer) (e : Election) : Election :=
  MkElection (el_now e) s (el_phase e) (el_db e) (el_hand e).
(** The rows a process is working on, one entry per task. *)
Definition hand (p : N) (e : Election) : list N := default [] (el_hand e !! p).
Definition set_hand (p : N) (rows : list N) (d : Db) (e : Election) : Election :=
  MkElection (el_now e) (el_server e) (el_phase e) d (<[p := rows]> (el_hand e)).

(** A lease update by [p]: its rows come into its hand. *)
Definition take_rows (p : N) (f : Outbox → bool) (limit until : Z) (e : Election) : option Election :=
  match lease_update f limit until (el_db e) with
  | Ok (d, rows) => Some (set_hand p ((ob_id <$> rows) ++ hand p e) d e)
  | Err _ => None
  end.
Definition leave_row (p id : N) (f : Db → Db) (e : Election) : option Election :=
  match list_find (id =.) (hand p e) with Some (i, _) => Some (set_hand p (delete i (hand p e)) (f (el_db e)) e) | None => None end.

Definition estep (l : Label) (e : Election) : option Election :=
  match l with
  | Start p => match el_phase e !! p with None => Some (set_phase p Connecting e) | Some _ => None end
  | ConnectOk p =>
      match el_phase e !! p with
      | Some Connecting =>
          let '(server, conn) := open_session (el_server e) in
          Some (set_phase p (after_connect (el_now e) (Some conn)) (set_server server e))
      | _ => None
      end
  | ConnectFails p =>
      match el_phase e !! p with Some Connecting => Some (set_phase p (after_connect (el_now e) None) e) | _ => None end
  | Query p | ReplyLost p =>
      match el_phase e !! p with
      | Some (Trying conn) =>
          if decide (conn ∈ ls_open (el_server e)) then
            let '(server, won) := try_advisory_lock LEADER_LOCK_KEY conn (el_server e) in
            let reply := match l with Query _ => Ok won | _ => Err SqlIo end in
            Some (set_phase p (after_reply (el_now e) conn reply) (set_server server e))
          else None
      | _ => None
      end
  | QueryFails p =>
      match el_phase e !! p with
      | Some (Trying conn) => Some (set_phase p (after_reply (el_now e) conn (Err SqlIo)) e)
      | _ => None
      end
  | Wake p =>
      match el_phase e !! p with
      | Some (StandingBy _ until) | Some (Unreachable until) =>
          if decide (until <= el_now e) then Some (set_phase p Connecting e) else None
      | _ => None
      end
  | Sweep p =>
      match el_phase e !! p with
      | Some (Elected conn) => Some (set_hand p (hand p e) (clear_leases (el_db e)) (set_phase p (Running conn) e))
      | _ => None
      end
  | ClaimTurn p ch limit until ex =>
      match el_phase e !! p with
      | Some (Running _) => if blocked_entirely ex then Some e else take_rows p (claimable ch ex (el_now e)) limit until e
      | _ => None
      end
  | DrainTurn p scope limit until =>
      match el_phase e !! p with
      | None | Some Stopped => None
      | Some _ => take_rows p (λ r, due (el_now e) r && scope r) limit until e
      end
  | Retry p id next => leave_row p id (reschedule id next) e
  | Finish p id => leave_row p id (delete_outbox id) e
  | GiveUp p id => leave_row p id (λ d, d) e
  | Stop p =>
      match el_phase e !! p with
      | None | Some Stopped => None
      | Some _ => Some (set_hand p [] (el_db e) (set_phase p Stopped e))
      end
  | EndSession conn =>
      if decide (conn ∈ ls_open (el_server e)) then Some (set_server (end_session conn (el_server e)) e) else None
  | Enqueue row =>
      match db_outbox (el_db e) !! ob_id row, ob_leased_until row with
      | None, None => Some (MkElection (el_now e) (el_server e) (el_phase e) (on_outbox (<[ob_id row := row]>) (el_db e)) (el_hand e))
      | _, _ => None
      end
  | Elapse d =>
      if decide (0 <= d) then Some (MkElection (el_now e + d) (el_server e) (el_phase e) (el_db e) (el_hand e)) else None
  end.

(** Before any process starts. *)
Definition at_rest (e : Election) : Prop :=
  el_server e = MkServer ∅ ∅ 0 ∧ el_phase e = ∅ ∧ el_hand e = ∅ ∧ outbox_wf (el_db e).

(** Runs all of whose moves satisfy a condition. *)
Inductive reachable (ok : Label → Election → Prop) : Election → Prop :=
| reachable_start e : at_rest e → reachable ok e
| reachable_step l e e' : reachable ok e → ok l e → estep l e = Some e' → reachable ok e'.

(** ** What holds in every run *)

Definition holder (e : Election) : option N := ls_locks (el_server e) !! LEADER_LOCK_KEY.
(** Whether a process is in a phase that holds a connection. *)
Definition uses (p c : N) (e : Election) : Prop := el_phase e !! p ≫= conn_of = Some c.
Definition leads (p c : N) (e : Election) : Prop := el_phase e !! p ≫= leadership = Some c.

Record election_ok (e : Election) : Prop := {
  ok_wf : outbox_wf (el_db e);
  ok_next c : c ∈ ls_open (el_server e) → (c < ls_next (el_server e))%N;
  ok_conn p c : uses p c e → (c < ls_next (el_server e))%N;
  ok_own p q c : uses p c e → uses q c e → p = q;
  ok_lock c : holder e = Some c → c ∈ ls_open (el_server e);
  ok_lead p c : leads p c e → c ∈ ls_open (el_server e) → holder e = Some c;
  ok_sleep p until : (∃ c, el_phase e !! p = Some (StandingBy c until)) ∨ el_phase e !! p = Some (Unreachable until) →
    until <= el_now e + RETRY_INTERVAL;
}.

Lemma leads_uses p c e : leads p c e → uses p c e.
Proof. unfold leads, uses. by destruct (el_phase e !! p) as [[]|]. Qed.

(** Moves that leave the processes, the sessions and the clock as they are. *)
Lemma ok_same e e' :
  el_now e' = el_now e → el_server e' = el_server e → el_phase e' = el_phase e → outbox_wf (el_db e') → election_ok e → election_ok e'.
Proof.
  intros Hn Hs Hp Hwf []. split; unfold uses, leads, holder in *; rewrite ?Hn, ?Hs, ?Hp; auto.
Qed.

Lemma uses_set p ph q c e :
  uses q c (set_phase p ph e) ↔ (q = p ∧ conn_of ph = Some c) ∨ (q ≠ p ∧ uses q c e).
Proof.
  unfold uses. simpl. destruct (decide (q = p)) as [->|Hne]; [rewrite lookup_insert_eq|rewrite lookup_insert_ne by done]; simpl; naive_solver.
Qed.
Lemma leads_set p ph q c e :
  leads q c (set_phase p ph e) ↔ (q = p ∧ leadership ph = Some c) ∨ (q ≠ p ∧ leads q c e).
Proof.
  unfold leads. simpl. destruct (decide (q = p)) as [->|Hne]; [rewrite lookup_insert_eq|rewrite lookup_insert_ne by done]; simpl; naive_solver.
Qed.

(** A move of [p] to a phase with the connection it had, or with none. *)
Lemma ok_set_phase p ph e :
  (∀ c, conn_of ph = Some c → uses p c e) →
  (∀ c, leadership ph = Some c → c ∈ ls_open (el_server e) → holder e = Some c) →
  (∀ until, (∃ c, ph = StandingBy c until) ∨ ph = Unreachable until → until <= el_now e + RETRY_INTERVAL) →
  election_ok e → election_ok (set_phase p ph e).
Proof.
  intros Hc Hl Hu []. split; simpl; auto.
  - intros q c. rewrite uses_set. naive_solver.
  - intros q q' c. rewrite !uses_set. intros [[-> H1]|[Hq H1]] [[-> H2]|[Hq' H2]]; eauto.
  - intros q c. rewrite leads_set. intros [[-> H1]|[Hq H1]]; eauto.
  - intros q u. destruct (decide (q = p)) as [->|Hne]; [rewrite lookup_insert_eq|rewrite lookup_insert_ne by done; eauto].
    intros [[c [= ->]]|[= ->]]; apply Hu; eauto.
Qed.

Lemma ok_open e : election_ok e → election_ok (set_server (open_session (el_server e)).1 e).
Proof.
  intros []. split; unfold holder in *; simpl; auto.
  - intros c. rewrite elem_of_union, elem_of_singleton. intros [->|Hc]; [lia|]. specialize (ok_next0 c Hc). lia.
  - intros p c Hc. specialize (ok_conn0 p c Hc). lia.
  - intros c Hc. apply elem_of_union_r. by apply ok_lock0.
  - intros p c Hl. rewrite elem_of_union, elem_of_singleton. intros [->|Hc]; [|by eapply ok_lead0].
    specialize (ok_conn0 p _ (leads_uses _ _ _ Hl)). lia.
Qed.
Lemma ok_end conn e : election_ok e → election_ok (set_server (end_session conn (el_server e)) e).
Proof.
  intros []. split; unfold holder in *; simpl; auto.
  - intros c [Hc _]%elem_of_difference. by apply ok_next0.
  - intros c [Hc Hne]%map_lookup_filter_Some. apply elem_of_difference. split; [by apply ok_lock0|]. by rewrite elem_of_singleton.
  - intros p c Hl [Hc Hne]%elem_of_difference. rewrite elem_of_singleton in Hne. apply map_lookup_filter_Some. split; [|done]. by eapply ok_lead0.
Qed.
Lemma ok_try conn e :
  conn ∈ ls_open (el_server e) → election_ok e → election_ok (set_server (try_advisory_lock LEADER_LOCK_KEY conn (el_server e)).1 e).
Proof.
  intros Hc []. unfold try_advisory_lock. destruct (ls_locks (el_server e) !! LEADER_LOCK_KEY) as [h|] eqn:Hh; simpl; [by split|].
  split; unfold holder in *; simpl; auto.
  - intros c. rewrite lookup_insert_eq. by intros [= <-].
  - intros p c Hl Ho. specialize (ok_lead0 p c Hl Ho). congruence.
Qed.

(** What a lease update brings into a hand. *)
Lemma take_rows_inv p f limit until e e' :
  outbox_wf (el_db e) → take_rows p f limit until e = Some e' →
  ∃ d rows, e' = set_hand p ((ob_id <$> rows) ++ hand p e) d e ∧ outbox_wf d
    ∧ NoDup (ob_id <$> rows)
    ∧ (∀ r, r ∈ rows → ∃ r0, db_outbox (el_db e) !! ob_id r = Some r0 ∧ f r0 = true ∧ db_outbox d !! ob_id r = Some r
         ∧ is_Some (ob_leased_until r))
    ∧ (∀ id, id ∉ ob_id <$> rows → db_outbox d !! id = db_outbox (el_db e) !! id).
Proof.
  intros Hwf. unfold take_rows. destruct (lease_update f limit until (el_db e)) as [[d rows]|] eqn:E; [|done]. intros [= <-].
  apply lease_update_Ok in E as (Hd & _ & Hnd & Hin & Hout & _); [|done]. exists d, rows. split_and!; try done.
  intros r Hr. destruct (Hin r Hr) as (r0 & H0 & Hf & -> & _ & H1). exists r0. split_and!; try done; by eexists.
Qed.
Lemma leave_row_inv p id f e e' :
  leave_row p id f e = Some e' → ∃ rest, hand p e ≡ₚ id :: rest ∧ e' = set_hand p rest (f (el_db e)) e.
Proof.
  unfold leave_row. destruct (list_find (id =.) _) as [[i x]|] eqn:E; [|done]. intros [= <-]. eexists. split; [|done].
  apply list_find_Some in E as (Hi & -> & _). by apply delete_Permutation.
Qed.

Lemma wf_reschedule id next d : outbox_wf d → outbox_wf (reschedule id next d).
Proof.
  intros Hwf i r. simpl. rewrite lookup_alter_Some. intros [[-> (x & Hx & ->)]|[_ Hr]]; [exact (Hwf _ _ Hx)|by apply Hwf].
Qed.
Lemma wf_delete id d : outbox_wf d → outbox_wf (delete_outbox id d).
Proof. intros Hwf i r. simpl. rewrite lookup_delete_Some. intros [_ Hr]. by apply Hwf. Qed.
Lemma wf_clear d : outbox_wf d → outbox_wf (clear_leases d).
Proof. intros Hwf i r. simpl. rewrite lookup_fmap_Some. intros (x & <- & Hx). exact (Hwf _ _ Hx). Qed.
Lemma wf_insert row d : outbox_wf d → outbox_wf (on_outbox (<[ob_id row := row]>) d).
Proof. intros Hwf i r. simpl. rewrite lookup_insert_Some. intros [[<- <-]|[_ Hr]]; [done|by apply Hwf]. Qed.

(** A step of a process starts in one of its phases. *)
Ltac step_inv :=
  repeat match goal with
  | H : Some _ = Some _ |- _ => injection H as <-
  | H : None = Some _ |- _ => discriminate H
  | H : match ?x with _ => _ end = Some _ |- _ => destruct x eqn:?
  end.

Lemma uses_here p ph c e : el_phase e !! p = Some ph → conn_of ph = Some c → uses p c e.
Proof. unfold uses. by intros ->. Qed.
Lemma leads_here p ph c e : el_phase e !! p = Some ph → leadership ph = Some c → leads p c e.
Proof. unfold leads. by intros ->. Qed.
Lemma retry_pos : 0 <= RETRY_INTERVAL.
Proof. unfold RETRY_INTERVAL. time_lia. Qed.

(** The hands and the queue are beside the point of [election_ok]. *)
Lemma ok_hand p rows d e : outbox_wf d → election_ok e → election_ok (set_hand p rows d e).
Proof. intros Hd Hok. by apply (ok_same e). Qed.
Lemma ok_take p f limit until e e' : take_rows p f limit until e = Some e' → election_ok e → election_ok e'.
Proof.
  intros Ht Hok. apply take_rows_inv in Ht as (d & rows & -> & Hd & _); [|apply Hok]. by apply ok_hand.
Qed.
Lemma ok_leave p id f e e' :
  (∀ d, outbox_wf d → outbox_wf (f d)) → leave_row p id f e = Some e' → election_ok e → election_ok e'.
Proof. intros Hf (rest & _ & ->)%leave_row_inv Hok. apply ok_hand; [apply Hf, Hok|done]. Qed.
#[local] Hint Resolve wf_reschedule wf_delete wf_clear wf_insert ok_wf : core.

(** A phase without a connection. *)
Lemma ok_unconnected p ph e :
  conn_of ph = None → (∀ until, ph = Unreachable until → until = el_now e + RETRY_INTERVAL) → election_ok e → election_ok (set_phase p ph e).
Proof.
  intros Hc Hu. apply ok_set_phase; [congruence|by destruct ph|]. intros u [[c Hc1]|Hc1]; subst ph; [done|]. by rewrite (Hu u).
Qed.
Lemma ok_reply p conn won e :
  uses p conn e → (won = Ok true → holder e = Some conn) → election_ok e → election_ok (set_phase p (after_reply (el_now e) conn won) e).
Proof.
  intros Hc Hw. apply ok_set_phase; destruct won as [[]|]; simpl; try congruence; try (intros ? [[? ?]|?]; simplify_eq; lia).
  intros c [= <-] _. by apply Hw.
Qed.
(** A try of [p], whatever becomes of the reply. *)
Lemma ok_tried p conn server won reply e :
  el_phase e !! p = Some (Trying conn) → conn ∈ ls_open (el_server e) → try_advisory_lock LEADER_LOCK_KEY conn (el_server e) = (server, won) →
  (reply = Ok true → won = true) → election_ok e →
  election_ok (set_phase p (after_reply (el_now e) conn reply) (set_server server e)).
Proof.
  intros Hp Hc Ht Hr Hok. pose proof (ok_try conn e Hc Hok) as Hok'. rewrite Ht in Hok'.
  apply (ok_reply p conn reply (set_server server e)); [by eapply (uses_here _ (Trying conn))| |exact Hok'].
  intros Hreply. specialize (Hr Hreply). subst won. unfold holder. simpl. revert Ht. unfold try_advisory_lock.
  destruct (ls_locks (el_server e) !! LEADER_LOCK_KEY) as [h|] eqn:Hh; intros Ht; injection Ht.
  - intros Hw%bool_decide_eq_true <-. by subst.
  - intros <-. simpl. by rewrite lookup_insert_eq.
Qed.

(** A fresh session is nobody else's. *)
Lemma ok_connected p server conn e :
  el_phase e !! p = Some Connecting → open_session (el_server e) = (server, conn) → election_ok e →
  election_ok (set_phase p (Trying conn) (set_server server e)).
Proof.
  intros Hp [= <- <-] Hok. pose proof (ok_open e Hok) as [].
  assert (∀ q, ¬ uses q (ls_next (el_server e)) e) as Hfresh by (intros q Hq; apply Hok in Hq; lia).
  split; try done.
  - intros q c. rewrite uses_set. intros [[_ [= <-]]|[_ Hq]]; [simpl; lia|by eapply ok_conn0].
  - intros q q' c. rewrite !uses_set. intros [[-> Hc]|[_ Hq]] [[-> Hc']|[_ Hq']]; simpl in *; simplify_eq; try done.
    + by destruct (Hfresh q').
    + by destruct (Hfresh q).
    + by eapply ok_own0.
  - intros q c. rewrite leads_set. intros [[_ [=]]|[_ Hq]]. by eapply ok_lead0.
  - intros q u. simpl. destruct (decide (q = p)) as [->|Hne]; [rewrite lookup_insert_eq|rewrite lookup_insert_ne by done; apply ok_sleep0].
    by intros [[c [=]]|[=]].
Qed.

Lemma step_ok l e e' : estep l e = Some e' → election_ok e → election_ok e'.
Proof.
  intros Hst Hok. pose proof (ok_wf e Hok) as Hwf. pose proof retry_pos. unfold estep in Hst.
  destruct l; try (eapply ok_leave in Hst; [exact Hst|eauto..]; fail);
    step_inv; try (by eapply ok_take); try (apply ok_unconnected; naive_solver).
  all: try (by apply ok_end); try (apply ok_hand; [done|apply ok_unconnected; naive_solver]); try done.
  - by apply (ok_connected p).
  - by apply (ok_tried p conn l b (Ok b) e); [..|naive_solver|].
  - apply (ok_reply p conn (Err SqlIo)); [by eapply (uses_here _ (Trying conn))|done|done].
  - by apply (ok_tried p conn l b (Err SqlIo) e).
  - apply ok_hand; [by apply wf_clear|]. apply ok_set_phase; [| | |done].
    + intros c [= <-]. by eapply (uses_here _ (Elected conn)).
    + intros c [= <-]. apply Hok with p. by eapply (leads_here _ (Elected conn)).
    + by intros ? [[? [=]]|[=]].
  - eapply ok_same; [..|exact Hok]; try done. by apply wf_insert.
  - destruct Hok. split; auto. intros p u Hp. specialize (ok_sleep0 p u Hp). simpl in *. lia.
Qed.
Lemma election_reachable ok e : reachable ok e → election_ok e.
Proof.
  induction 1 as [e (Hs & Hp & _ & Hwf)|]; [|by eapply step_ok]. split; [done|..]; unfold uses, leads, holder; rewrite ?Hs, ?Hp; simpl.
  - set_solver.
  - done.
  - done.
  - done.
  - done.
  - intros p u [[c Hc]|Hc]; by rewrite lookup_empty in Hc.
Qed.

(** ** One leader, and one hand on every row *)






Lemma try_open key conn s s' won : try_advisory_lock key conn s = (s', won) → ls_open s' = ls_open s.
Proof. unfold try_advisory_lock. destruct (ls_locks s !! key); by intros [= <- _]. Qed.



(** ** Somebody comes to lead *)

(** The phases of [acquire], and the moves of its loop. *)
Definition waiting (p : N) (e : Election) : Prop :=
  match el_phase e !! p with Some Connecting | Some (Trying _) | Some (StandingBy _ _) | Some (Unreachable _) => True | _ => False end.
Definition turn (l : Label) : option N :=
  match l with
  | ConnectOk p | ConnectFails p | Query p | QueryFails p | ReplyLost p | Wake p | Stop p => Some p
  | _ => None
  end.
(** A failure: a connection refused, a statement or its reply lost on an open session, a
    session that ends under its process. *)
Definition failure (l : Label) (e : Election) : Prop :=
  match l with
  | ConnectFails _ | ReplyLost _ => True
  | QueryFails p => ∃ c, uses p c e ∧ c ∈ ls_open (el_server e)
  | EndSession c => ∃ p, uses p c e
  | _ => False
  end.

Lemma take_rows_frame p f limit until e e' : take_rows p f limit until e = Some e' → el_server e' = el_server e ∧ el_phase e' = el_phase e.
Proof. unfold take_rows. destruct (lease_update _ _ _ _) as [[]|]; [|done]. by intros [= <-]. Qed.
Lemma leave_row_frame p id f e e' : leave_row p id f e = Some e' → el_server e' = el_server e ∧ el_phase e' = el_phase e.
Proof. by intros (rest & _ & ->)%leave_row_inv. Qed.

(** Only its own moves change the phase of a process, and only those of [acquire] while
    it waits. *)
Lemma phase_frame l e e' p : estep l e = Some e' → actor l ≠ Some p → el_phase e' !! p = el_phase e !! p.
Proof.
  intros Hst Ha. unfold estep in Hst. destruct l; step_inv; simpl in Ha; try done; try (simpl; rewrite lookup_insert_ne; congruence).
  all: try (apply take_rows_frame in Hst as [_ ->]; done); apply leave_row_frame in Hst as [_ ->]; done.
Qed.
Lemma waiting_frame l e e' p : estep l e = Some e' → waiting p e → turn l ≠ Some p → el_phase e' !! p = el_phase e !! p.
Proof.
  intros Hst Hw Ht. destruct (decide (actor l = Some p)) as [Ha|Ha]; [|by eapply phase_frame].
  unfold waiting in Hw. unfold estep in Hst. destruct l; simpl in Ha, Ht; simplify_eq; step_inv; try done.
  all: try (apply take_rows_frame in Hst as [_ ->]; done); apply leave_row_frame in Hst as [_ ->]; done.
Qed.
(** What a move does to the lock, failures apart. *)
Lemma holder_frame l e e' :
  estep l e = Some e' → ¬ failure l e → holder e' = holder e ∨ holder e' = None ∨ ∃ q c, leads q c e'.
Proof.
  intros Hst Hf. unfold estep in Hst. destruct l; step_inv; simpl in Hf; auto; try done.
  all: try (apply take_rows_frame in Hst as [Hs _]; left; unfold holder; by rewrite Hs).
  all: try (apply leave_row_frame in Hst as [Hs _]; left; unfold holder; by rewrite Hs).
  - injection Heqp0 as <- <-. by left.
  - destruct b; [right; right; exists p, conn; apply leads_set; by left|]. left. unfold holder. simpl. revert Heqp0.
    unfold try_advisory_lock. destruct (ls_locks (el_server e) !! _) eqn:E; intros [= <- _]. done.
  - unfold holder. simpl. destruct (filter _ _ !! _) as [c|] eqn:E; [|auto]. left. by apply map_lookup_filter_Some in E as [-> _].
Qed.

Lemma open_frame l e e' c :
  estep l e = Some e' → c ∈ ls_open (el_server e) → l ≠ EndSession c → c ∈ ls_open (el_server e').
Proof.
  intros Hst Hc Hl. unfold estep in Hst. destruct l; step_inv; try done.
  all: try (apply take_rows_frame in Hst as [-> _]; done); try (apply leave_row_frame in Hst as [-> _]; done).
  - injection Heqp0 as <- <-. simpl. set_solver.
  - apply try_open in Heqp0. simpl. by rewrite Heqp0.
  - apply try_open in Heqp0. simpl. by rewrite Heqp0.
  - simpl. apply elem_of_difference. split; [done|]. rewrite elem_of_singleton. congruence.
Qed.

(** The moves of a waiting process. *)
Lemma turn_connecting l e e' p :
  el_phase e !! p = Some Connecting → turn l = Some p → estep l e = Some e' → ¬ failure l e → l ≠ Stop p →
  ∃ c, el_phase e' !! p = Some (Trying c) ∧ c ∈ ls_open (el_server e').
Proof.
  intros Hp Ht Hst Hf Hs. unfold estep in Hst. destruct l; simpl in *; simplify_eq; rewrite Hp in Hst; step_inv; try done.
  exists (ls_next (el_server e)). simpl. rewrite lookup_insert_eq. split; [done|set_solver].
Qed.
Lemma turn_sleeping l e e' p ph :
  el_phase e !! p = Some ph → (∃ c u, ph = StandingBy c u) ∨ (∃ u, ph = Unreachable u) → turn l = Some p → estep l e = Some e' → l ≠ Stop p →
  el_phase e' !! p = Some Connecting.
Proof.
  intros Hp Hph Ht Hst Hs. unfold estep in Hst.
  destruct Hph as [(c & u & ->)|(u & ->)], l; simpl in *; simplify_eq; rewrite Hp in Hst; step_inv; simpl; try done; by rewrite lookup_insert_eq.
Qed.
(** A try finds the lock free or its own and leads, or its session has ended and it
    sleeps. *)
Lemma turn_trying l e e' p c :
  el_phase e !! p = Some (Trying c) → holder e = None ∨ holder e = Some c → turn l = Some p → estep l e = Some e' → ¬ failure l e → l ≠ Stop p →
  leads p c e' ∨ ((c ∉ ls_open (el_server e)) ∧ holder e' = holder e ∧ ∃ u, el_phase e' !! p = Some (StandingBy c u)).
Proof.
  intros Hp Hh Ht Hst Hf Hs. unfold holder in *. unfold estep in Hst.
  destruct l; simpl in *; simplify_eq; rewrite Hp in Hst; step_inv; try done.
  - left. apply leads_set. left. split; [done|]. revert Heqp0. unfold try_advisory_lock.
    destruct Hh as [Hh|Hh]; rewrite Hh; intros [= _ <-]; [done|]. by rewrite bool_decide_true.
  - right. split_and!; [|done|simpl; rewrite lookup_insert_eq; by eexists].
    intros Hc. apply Hf. exists c. split; [|done]. by eapply uses_here.
Qed.
Lemma turn_tried l e e' p c :
  el_phase e !! p = Some (Trying c) → turn l = Some p → estep l e = Some e' → l ≠ Stop p →
  leads p c e' ∨ ∃ u, el_phase e' !! p = Some (StandingBy c u).
Proof.
  intros Hp Ht Hst Hs. unfold estep in Hst. destruct l; simpl in *; simplify_eq; rewrite Hp in Hst; step_inv; try done.
  1: destruct b; [left; apply leads_set; by left|].
  all: right; simpl; rewrite lookup_insert_eq; by eexists.
Qed.
Lemma turn_actor l p : turn l = Some p → actor l = Some p.
Proof. by destruct l. Qed.

Section Liveness.
Context (σ : nat → Election) (label : nat → option Label).
(** A run in which the loop of every waiting process goes on, and sessions nobody holds
    end. *)
Record fair_run : Prop := {
  fr_start : reachable (λ _ _, True) (σ O);
  fr_step n : match label n with Some l => estep l (σ n) = Some (σ (S n)) | None => σ (S n) = σ n end;
  fr_turns p n : waiting p (σ n) → ∃ m, (n <= m)%nat ∧ (waiting p (σ m) → ∃ l, label m = Some l ∧ turn l = Some p);
  fr_closes c n : (∀ p, ¬ uses p c (σ n)) → ∃ m, (n <= m)%nat ∧ c ∉ ls_open (el_server (σ m));
}.

Context (Hrun : fair_run) (K : nat) (p : N).
Context (Hcalm : ∀ n l, (K <= n)%nat → label n = Some l → ¬ failure l (σ n) ∧ l ≠ Stop p).

(** From [K] on somebody leads. *)
Definition led : Prop := ∃ n q c, (K <= n)%nat ∧ leads q c (σ n).
Lemma led_at n q c : (K <= n)%nat → leads q c (σ n) → led.
Proof. by exists n, q, c. Qed.

Lemma run_ok n : election_ok (σ n).
Proof.
  induction n as [|n IH]; [by eapply election_reachable, Hrun|]. pose proof (fr_step Hrun n) as Hs.
  destruct (label n) as [l|]; [by eapply step_ok|by rewrite Hs].
Qed.
(** The next move of a waiting process; until then it stays where it is. *)
Lemma next_turn q n :
  waiting q (σ n) →
  ∃ m l, (n <= m)%nat ∧ (∀ k, (n <= k <= m)%nat → el_phase (σ k) !! q = el_phase (σ n) !! q) ∧ label m = Some l ∧ turn l = Some q
    ∧ estep l (σ m) = Some (σ (S m)).
Proof.
  intros Hw. destruct (fr_turns Hrun q n Hw) as (m & Hle & Hm). remember (m - n)%nat as d eqn:Hd. revert n Hw Hle Hd.
  induction d as [|d IH]; intros n Hw Hle Hd; pose proof (fr_step Hrun n) as Hs.
  - assert (m = n) as -> by lia. destruct (Hm Hw) as (l & Hl & Ht). rewrite Hl in Hs. exists n, l. split_and!; try done.
    intros k Hk. by assert (k = n) as -> by lia.
  - assert (el_phase (σ (S n)) !! q = el_phase (σ n) !! q ∨ ∃ l, label n = Some l ∧ turn l = Some q) as [Hsame|(l & Hl & Ht)].
    { destruct (label n) as [l|]; [|left; by rewrite Hs].
      destruct (decide (turn l = Some q)); [by right; exists l|left; by eapply waiting_frame]. }
    + destruct (IH (S n)) as (m' & l & Hle' & Hk & Hrest); [|lia|lia|].
      { revert Hw. unfold waiting. by rewrite Hsame. }
      exists m', l. split; [lia|]. split; [|done]. intros k Hk'.
      destruct (decide (k = n)) as [->|Hne]; [done|]. rewrite Hk by lia. done.
    + rewrite Hl in Hs. exists n, l. split_and!; try done. intros k Hk. by assert (k = n) as -> by lia.
Qed.
Lemma holder_from n m : (K <= n <= m)%nat → holder (σ m) = holder (σ n) ∨ holder (σ m) = None ∨ led.
Proof.
  intros [Hn Hle]. induction Hle as [|m Hle IH]; [by left|]. pose proof (fr_step Hrun m) as Hs.
  destruct (label m) as [l|] eqn:Hl; [|by rewrite Hs]. destruct (Hcalm m l) as [Hf _]; [lia|done|].
  apply holder_frame in Hs as [Hs|[Hs|Hs]]; [rewrite Hs; exact IH|by right; left| |done].
  right. right. destruct Hs as (q & c & Hq). eapply (led_at (S m)); [lia|exact Hq].
Qed.
(** A session stays open while a process holds it. *)
Lemma open_from n m q c :
  (K <= n <= m)%nat → (∀ k, (n <= k <= m)%nat → uses q c (σ k)) → c ∈ ls_open (el_server (σ n)) → c ∈ ls_open (el_server (σ m)).
Proof.
  intros [Hn Hle] Hu Hc. induction Hle as [|m Hle IH]; [done|].
  assert (c ∈ ls_open (el_server (σ m))) as Hm by (apply IH; intros k Hk; apply Hu; lia).
  pose proof (fr_step Hrun m) as Hs. destruct (label m) as [l|] eqn:Hl; [|by rewrite Hs].
  destruct (Hcalm m l) as [Hf _]; [lia|done|]. eapply open_frame; [exact Hs|exact Hm|]. intros ->. apply Hf. exists q. apply Hu. lia.
Qed.

(** A lock that nobody's process holds comes free. *)
Lemma orphan_lock n c : (K <= n)%nat → (∀ q, ¬ uses q c (σ n)) → (∃ m, (n <= m)%nat ∧ holder (σ m) = None) ∨ led ∨ holder (σ n) ≠ Some c.
Proof.
  intros Hn Hu. destruct (decide (holder (σ n) = Some c)) as [Hh|]; [|by right; right].
  destruct (fr_closes Hrun c n Hu) as (m & Hm & Hc). destruct (holder_from n m) as [E|[E|E]]; [lia| |by left; exists m|by right; left].
  exfalso. apply Hc, (run_ok m). by rewrite E.
Qed.

(** From a free lock on: [p] tries it after at most a sleep and a connection. *)
Lemma lead_trying n c :
  (K <= n)%nat → holder (σ n) = None → el_phase (σ n) !! p = Some (Trying c) → c ∈ ls_open (el_server (σ n)) → led.
Proof.
  intros Hn Hh Hp Hc. destruct (next_turn p n) as (m & l & Hm & Hph & Hl & Ht & Hst); [by unfold waiting; rewrite Hp|].
  destruct (Hcalm m l) as [Hf Hs]; [lia|done|]. destruct (holder_from n m) as [E|[E|E]]; [lia|rewrite Hh in E| |done].
  1,2: destruct (turn_trying l (σ m) (σ (S m)) p c) as [Hlead|(Hno & _)]; [rewrite Hph; [done|lia]|by left|done..| |].
  1,3: by eapply (led_at (S m)); [lia|].
  1,2: destruct Hno; eapply (open_from n m p); [lia| |done]; intros k Hk; unfold uses; by rewrite Hph, Hp.
Qed.
Lemma lead_connecting n : (K <= n)%nat → holder (σ n) = None → el_phase (σ n) !! p = Some Connecting → led.
Proof.
  intros Hn Hh Hp. destruct (next_turn p n) as (m & l & Hm & Hph & Hl & Ht & Hst); [by unfold waiting; rewrite Hp|].
  destruct (Hcalm m l) as [Hf Hs]; [lia|done|].
  destruct (turn_connecting l (σ m) (σ (S m)) p) as (c & Hc & Ho); [rewrite Hph; [done|lia]|done..|].
  destruct (holder_from n (S m)) as [E|[E|E]]; [lia|rewrite Hh in E| |done]; by apply (lead_trying (S m) c); [lia|..].
Qed.
Lemma lead_sleeping n ph :
  (K <= n)%nat → holder (σ n) = None → el_phase (σ n) !! p = Some ph → (∃ c u, ph = StandingBy c u) ∨ (∃ u, ph = Unreachable u) → led.
Proof.
  intros Hn Hh Hp Hsl. destruct (next_turn p n) as (m & l & Hm & Hph & Hl & Ht & Hst).
  { unfold waiting. rewrite Hp. by destruct Hsl as [(c & u & ->)|(u & ->)]. }
  destruct (Hcalm m l) as [Hf Hs]; [lia|done|].
  assert (el_phase (σ (S m)) !! p = Some Connecting) as Hc by (apply (turn_sleeping l (σ m) _ p ph); [rewrite Hph; [done|lia]|done..]).
  destruct (holder_from n (S m)) as [E|[E|E]]; [lia|rewrite Hh in E| |done]; by apply (lead_connecting (S m)); [lia|..].
Qed.
Lemma lead_free n : (K <= n)%nat → holder (σ n) = None → waiting p (σ n) → led.
Proof.
  intros Hn Hh Hw. pose proof Hw as Hw'. unfold waiting in Hw'.
  destruct (el_phase (σ n) !! p) as [[|c|c u|u|c|c|]|] eqn:Hp; try done.
  - by apply (lead_connecting n).
  - destruct (next_turn p n Hw) as (m & l & Hm & Hph & Hl & Ht & Hst). destruct (Hcalm m l) as [Hf Hs]; [lia|done|].
    destruct (holder_from n m) as [E|[E|E]]; [lia|rewrite Hh in E| |done].
    1,2: destruct (turn_trying l (σ m) (σ (S m)) p c) as [Hlead|(_ & E' & u & Hu)]; [rewrite Hph; [done|lia]|by left|done..| |].
    1,3: by eapply (led_at (S m)); [lia|].
    1,2: by eapply (lead_sleeping (S m)); [lia|by rewrite E'|exact Hu|left; by exists c, u].
  - by eapply (lead_sleeping n); [lia|done|done|left; by exists c, u].
  - by eapply (lead_sleeping n); [lia|done|done|right; by exists u].
Qed.
(** [p] waits as long as nobody leads. *)
Lemma waiting_from n : (K <= n)%nat → waiting p (σ K) → waiting p (σ n) ∨ led.
Proof.
  intros Hn Hw. induction Hn as [|n Hn [IH|IH]]; [by left| |by right]. pose proof (fr_step Hrun n) as Hst.
  destruct (label n) as [l|] eqn:Hl; [|rewrite Hst; by left]. destruct (Hcalm n l) as [Hf Hs]; [done|done|].
  destruct (decide (turn l = Some p)) as [Ht|Ht].
  - unfold waiting in IH. destruct (el_phase (σ n) !! p) as [[|c|c u|u|c|c|]|] eqn:Hp; try done.
    + destruct (turn_connecting l (σ n) (σ (S n)) p) as (c & Hc & _); try done. left. unfold waiting. by rewrite Hc.
    + destruct (turn_tried l (σ n) (σ (S n)) p c) as [Hlead|(u & Hu)]; try done; [right; by eapply (led_at (S n)); [lia|]|].
      left. unfold waiting. by rewrite Hu.
    + left. unfold waiting. by erewrite turn_sleeping; [..|exact Hst|]; eauto.
    + left. unfold waiting. by erewrite turn_sleeping; [..|exact Hst|]; eauto.
  - left. unfold waiting in *. by erewrite waiting_frame; [..|exact Hst|exact IH|exact Ht].
Qed.
(** What a stage has to reach: a free lock, or a leader. *)
Lemma lead_somehow : waiting p (σ K) → (∃ m, (K <= m)%nat ∧ holder (σ m) = None) ∨ led → led.
Proof.
  intros Hw [(m & Hm & Hh)|]; [|done]. destruct (waiting_from m Hm Hw) as [Hw'|]; [|done]. by apply (lead_free m).
Qed.
(** A process that was told nothing of its lock gives it back when it wakes or stops. *)
Lemma lock_of_the_deaf q c ph :
  holder (σ K) = Some c → el_phase (σ K) !! q = Some ph → conn_of ph = Some c → (∃ m, (K <= m)%nat ∧ holder (σ m) = None) ∨ led.
Proof.
  intros Hh Hq Hc. destruct (leadership ph) as [c'|] eqn:Hlead; [right; eapply (led_at K q c'); [lia|by eapply leads_here]|].
  destruct (next_turn q K) as (m & l & Hm & Hph & Hl & Ht & Hst); [unfold waiting; rewrite Hq; by destruct ph|].
  destruct (holder_from K m) as [E|[E|E]]; [lia| |by left; exists m|by right].
  assert (∀ r, r ≠ q → ¬ uses r c (σ (S m))) as Hothers.
  { intros r Hr Hu. apply Hr. unfold uses in Hu. rewrite (phase_frame _ _ _ r Hst) in Hu.
    - apply (ok_own _ (run_ok m) r q c Hu). unfold uses. rewrite Hph by lia. by rewrite Hq.
    - rewrite (turn_actor _ _ Ht). congruence. }
  assert (led ∨ ¬ uses q c (σ (S m)) ∨ c ∉ ls_open (el_server (σ m))) as [Hled|[Hq'|Hq']]; [|by right| |].
  - assert (l = Stop q ∨ l ≠ Stop q) as [->|Hns].
    { destruct l; simpl in Ht; simplify_eq; try (by left); right; discriminate. }
    { right; left. unfold estep in Hst. step_inv; try done; unfold uses; simpl; by rewrite lookup_insert_eq. }
    destruct (Hcalm m l) as [Hf _]; [lia|done|].
    assert (el_phase (σ m) !! q = Some ph) as Hqm by (rewrite Hph; [done|lia]).
    destruct ph as [|c'|c' u|u|c'|c'|]; simpl in Hc; simplify_eq.
    + destruct (turn_trying l (σ m) (σ (S m)) q c) as [Hle|[Hno _]]; try done; [right; congruence|left; by eapply (led_at (S m)); [lia|]|by right; right].
    + right; left. unfold uses. by rewrite (turn_sleeping l (σ m) (σ (S m)) q (StandingBy c u)); eauto.
  - destruct (orphan_lock (S m) c) as [(m' & Hm' & Hnone)|[?|Hne]]; [lia| |left; exists m'; split; [lia|done]|by right|].
    { intros r. destruct (decide (r = q)) as [->|Hr]; [done|by apply Hothers]. }
    destruct (holder_from K (S m)) as [E'|[E'|E']]; [lia|congruence|left; exists (S m); split; [lia|done]|by right].
  - exfalso. apply Hq', (run_ok m). congruence.
Qed.
End Liveness.

(** C9. Leadership does not stay vacant: in a fair run, once failures cease while a
    process waits for leadership and does not stop, some process comes to lead, even
    when a lock was taken by a try whose reply was lost. *)
Theorem a_leader_emerges σ label K p :
  fair_run σ label → (∀ n l, (K <= n)%nat → label n = Some l → ¬ failure l (σ n) ∧ l ≠ Stop p) → waiting p (σ K) →
  ∃ n q c, (K <= n)%nat ∧ leads q c (σ n).
Proof.
  intros Hrun Hcalm Hw. apply (lead_somehow σ label Hrun K p Hcalm Hw).
  destruct (holder (σ K)) as [c|] eqn:Hh; [|left; by exists K].
  destruct (decide (map_Forall (λ _ ph, conn_of ph ≠ Some c) (el_phase (σ K)))) as [Hno|Hex].
  - destruct (orphan_lock σ label Hrun K p Hcalm K c) as [?|[?|?]]; [lia| |by left|by right|done].
    intros q Hq. unfold uses in Hq. destruct (el_phase (σ K) !! q) as [ph|] eqn:Eq; [|done]. by apply (Hno q ph Eq).
  - apply map_not_Forall in Hex as (q & ph & Hq & Hc); [|apply _]. apply dec_stable in Hc.
    by eapply (lock_of_the_deaf σ label Hrun K p Hcalm).
Qed.

(** ** Concrete runs *)

Definition play (e : Election) (l : Label) : Election := default e (estep l e).
Definition rest : Election := MkElection 100 (MkServer ∅ ∅ 0) ∅ (demo_db [demo_row 1 2 50 None]) ∅.
Lemma rest_at_rest : at_rest rest.
Proof. by split_and!; [..|apply demo_outbox_wf]. Qed.

(** Checks a run move by move. *)
Definition orderlyb (l : Label) (e : Election) : bool :=
  match l with
  | EndSession c => bool_decide (map_Forall (λ _ ph, leadership ph ≠ Some c) (el_phase e))
  | DrainTurn p _ _ _ => match el_phase e !! p with Some (Running _) => true | _ => false end
  | _ => true
  end.
Fixpoint checked (ok : Label → Election → bool) (ls : list Label) (e : Election) : option Election :=
  match ls with
  | [] => Some e
  | l :: ls => if ok l e then estep l e ≫= checked ok ls else None
  end.



(** A leader does not look at its session again: when it ends under a process that goes
    on, the next one is elected beside it, frees its leases and sends its rows again. *)
Definition lost_session : list Label :=
  [Start 1; Start 2; ConnectOk 1; ConnectOk 2; Query 1; Query 2; Sweep 1; ClaimTurn 1 channel.SMS 10 500 no_exclusion; EndSession 0;
   Elapse RETRY_INTERVAL; Wake 2; ConnectOk 2; Query 2; Sweep 2; ClaimTurn 2 channel.SMS 10 500 no_exclusion].
Theorem a_lost_session_makes_two_leaders :
  ∃ e, checked (λ _ _, true) lost_session rest = Some e ∧ leads 1 0 e ∧ leads 2 2 e ∧ hand 1 e = [1%N] ∧ hand 2 e = [1%N].
Proof. eexists. split; [vm_compute; reflexivity|]. split_and!; vm_compute; reflexivity. Qed.

(** A drain runs in a standby too: a row that it is sending when the process is elected
    loses its lease to the sweep, and the claim loop of the same process sends it again. *)
Definition standby_drains : list Label :=
  [Start 1; Start 2; ConnectOk 1; ConnectOk 2; Query 1; Query 2; Sweep 1; DrainTurn 2 (λ _, true) 10 500; Stop 1; EndSession 0;
   Elapse RETRY_INTERVAL; Wake 2; ConnectOk 2; Query 2; Sweep 2; ClaimTurn 2 channel.SMS 10 500 no_exclusion].
Theorem a_standby_drain_sends_twice :
  ∃ e, checked (λ l e, match l with DrainTurn _ _ _ _ => true | _ => orderlyb l e end) standby_drains rest = Some e
    ∧ hand 2 e = [1%N; 1%N].
Proof. eexists. split; [vm_compute; reflexivity|]. vm_compute. reflexivity. Qed.

(** A try whose reply is lost: the session keeps the lock until the process has slept
    and let go of it, and then the next try wins. *)
Definition lost_reply : list Label :=
  [Start 1; ConnectOk 1; ReplyLost 1; Elapse RETRY_INTERVAL; Wake 1; EndSession 0; ConnectOk 1; Query 1].
Definition lost_reply_at (n : nat) : Election := foldl play rest (take n lost_reply).
Lemma lost_reply_end n : (8 <= n)%nat → lost_reply_at n = lost_reply_at 8.
Proof. intros Hn. unfold lost_reply_at. rewrite !take_ge by (simpl; lia). done. Qed.
(** What a check at each of its positions says of the whole run. *)
Lemma lost_reply_all (ok : nat → Election → bool) :
  forallb (λ n, ok n (lost_reply_at n)) (seq 0 8) = true → (∀ n, (8 <= n)%nat → ok n (lost_reply_at 8) = true) → ∀ n, ok n (lost_reply_at n) = true.
Proof.
  intros Hall Hend n. destruct (decide (8 <= n)%nat) as [Hn|Hn]; [rewrite lost_reply_end by done; by apply Hend|].
  rewrite forallb_forall in Hall. apply (Hall n), in_seq. lia.
Qed.
Lemma lost_reply_steps n :
  match lost_reply !! n with Some l => estep l (lost_reply_at n) = Some (lost_reply_at (S n)) | None => lost_reply_at (S n) = lost_reply_at n end.
Proof.
  do 8 (destruct n as [|n]; [vm_compute; reflexivity|]). rewrite lookup_ge_None_2 by (simpl; lia).
  rewrite (lost_reply_end (S _)) by lia. symmetry. apply lost_reply_end. lia.
Qed.

(** Only process 1 is there; it waits at positions 1 to 7, where its loop moves next at
    the position given; only sessions 0 and 1 are ever open, and nobody keeps one of
    them beside process 1. *)
Definition only_one (e : Election) : bool := bool_decide (map_Forall (λ p _, p = 1%N) (el_phase e)).
Lemma lost_reply_one p n : is_Some (el_phase (lost_reply_at n) !! p) → p = 1%N.
Proof.
  intros [ph Hp]. pose proof (lost_reply_all (λ _, only_one) ltac:(vm_compute; reflexivity) ltac:(intros; vm_compute; reflexivity) n) as H.
  apply bool_decide_eq_true in H. by apply (H p ph Hp).
Qed.
Definition next_move_at (n : nat) : nat := (match n with 3 => 4 | 5 => 6 | _ => n end)%nat.
Lemma next_move_later n : (n <= next_move_at n)%nat.
Proof. do 6 (destruct n as [|n]; [simpl; lia|]). simpl. lia. Qed.
Definition moves_next (n : nat) (e : Election) : bool :=
  match el_phase e !! 1%N with
  | Some Connecting | Some (Trying _) | Some (StandingBy _ _) | Some (Unreachable _) =>
      match lost_reply !! next_move_at n with Some l => bool_decide (turn l = Some 1%N) | None => false end
  | _ => true
  end.
Lemma lost_reply_turns p n :
  waiting p (lost_reply_at n) → ∃ m, (n <= m)%nat ∧ (waiting p (lost_reply_at m) → ∃ l, lost_reply !! m = Some l ∧ turn l = Some p).
Proof.
  intros Hw. assert (p = 1%N) as ->.
  { apply (lost_reply_one p n). unfold waiting in Hw. by destruct (el_phase _ !! p). }
  exists (next_move_at n). split; [apply next_move_later|]. intros _.
  pose proof (lost_reply_all moves_next ltac:(vm_compute; reflexivity) ltac:(intros; vm_compute; reflexivity) n) as H.
  unfold moves_next in H. unfold waiting in Hw. destruct (lost_reply !! next_move_at n) as [l|].
  - exists l. split; [done|]. destruct (el_phase _ !! 1%N) as [[]|]; try done; by apply bool_decide_eq_true in H.
  - by destruct (el_phase _ !! 1%N) as [[]|].
Qed.
(** A session that process 1 does not hold is closed, or will be after position 5. *)
Definition closes_next (n : nat) (e : Election) : bool :=
  bool_decide (n = 5%nat) || bool_decide (set_Forall (λ c, el_phase e !! 1%N ≫= conn_of = Some c) (ls_open (el_server e))).
Lemma lost_reply_closes c n :
  (∀ p, ¬ uses p c (lost_reply_at n)) → ∃ m, (n <= m)%nat ∧ c ∉ ls_open (el_server (lost_reply_at m)).
Proof.
  intros Hno. pose proof (lost_reply_all closes_next ltac:(vm_compute; reflexivity) ltac:(intros m _; unfold closes_next; by rewrite orb_true_r)) as H.
  pose proof (H n) as Hn. unfold closes_next in Hn. apply orb_true_iff in Hn as [->%bool_decide_eq_true|Hn%bool_decide_eq_true].
  - exists 6%nat. split; [lia|]. by vm_compute.
  - exists n. split; [lia|]. intros Hc. by apply (Hno 1%N), Hn.
Qed.
Lemma lost_reply_fair : fair_run lost_reply_at (λ n, lost_reply !! n).
Proof.
  split; [by apply reachable_start, rest_at_rest|exact lost_reply_steps|exact lost_reply_turns|exact lost_reply_closes].
Qed.
Lemma lost_reply_calm n l :
  (3 <= n)%nat → lost_reply !! n = Some l → ¬ failure l (lost_reply_at n) ∧ l ≠ Stop 1.
Proof.
  intros Hn Hl. assert (n = 3 ∨ n = 4 ∨ n = 5 ∨ n = 6 ∨ n = 7 ∨ 8 <= n)%nat as [->|[->|[->|[->|[->|Hge]]]]] by lia.
  6: by rewrite lookup_ge_None_2 in Hl by (simpl; lia).
  all: injection Hl as <-; split; [|done]; try (by intros []).
  intros [p Hp]. assert (p = 1%N) as -> by (apply (lost_reply_one p 5); unfold uses in Hp; by destruct (el_phase _ !! p)). discriminate Hp.
Qed.
Lemma lost_reply_waits : waiting 1 (lost_reply_at 3) ∧ holder (lost_reply_at 3) = Some 0%N.
Proof. split; vm_compute; [exact I|reflexivity]. Qed.
Lemma emerges_witness :
  holder (lost_reply_at 3) = Some 0%N ∧ ∃ n q c, (3 <= n)%nat ∧ leads q c (lost_reply_at n).
Proof.
  split; [exact (proj2 lost_reply_waits)|].
  exact (a_leader_emerges lost_reply_at (λ n, lost_reply !! n) 3 1 lost_reply_fair lost_reply_calm (proj1 lost_reply_waits)).
Defined.
