(* ===== verification/Ingest.v ===== *)
(** * Accepting and cancelling requests

    Models [src/ingest/handler.rs], [src/ingest/repo.rs] and the error type of
    [src/ingest/model.rs]: validation, idempotent acceptance into the ledger and
    its queue, and producer-scoped cancellation. *)

From S2P Require Import Prelude RustStd Time Schema KillSwitch Dek Render Customer Quota QuietHours Outbox Worker.
From stdpp Require Import base gmap strings list.
From Stdlib Require Import ZArith Lia.

Local Open Scope effect_scope.
Local Open Scope Z_scope.

(** ** Errors and their HTTP statuses *)

Inductive IngestError : Type :=
| MissingPeerCertificate
| UnknownProducer
| ProducerDisabled
| TenantNotActive
| KillSwitchEngaged (scope : string)
| TenantNotConfigured
| MissingIdempotencyKey
| InvalidClass (value : string)
| InvalidChannel (value : string)
| CampaignIdOnTransactional
| InvalidResolutionInput
| ScheduleHorizonExceeded (horizon_days : Z)
| TemplateNotFound
| CommsRequestNotFound
| AlreadySent
| IRender (e : RenderError)
| IDatabase (e : SqlxError)
| IEncryption (e : EncryptionError)
| IVault (e : KeyStoreError)
| IPanic.

Definition ingest_of_resolve (e : ResolveError) : IngestError :=
  match e with
  | RDatabase e => IDatabase e
  | RVault e => IVault e
  | REncryption e => IEncryption e
  | RPanic => IPanic
  end.

Definition ingest_of_dek (e : CustomerDekError) : IngestError :=
  match e with DekDatabase e => IDatabase e | DekVault e => IVault e | DekPanic => IPanic end.

(** [IntoResponse for IngestError]; a panic closes the connection, no status. *)
Definition into_response (e : IngestError) : option Z :=
  match e with
  | UnknownProducer | ProducerDisabled | TenantNotActive => Some 403
  | KillSwitchEngaged _ => Some 503
  | MissingIdempotencyKey => Some 400
  | InvalidClass _ | InvalidChannel _ | CampaignIdOnTransactional | InvalidResolutionInput
  | ScheduleHorizonExceeded _ => Some 422
  | TemplateNotFound | CommsRequestNotFound => Some 404
  | AlreadySent => Some 409
  | TenantNotConfigured => Some 424
  | MissingPeerCertificate | IRender _ | IDatabase _ | IEncryption _ | IVault _ => Some 500
  | IPanic => None
  end.

(** ** The request *)

Record CreateCommsRequest : Type := MkCreate {
  rq_customer_id : option N;
  rq_external_id : option string;
  rq_external_id_system : option string;
  rq_destination : string;
  rq_channel : string;
  rq_class : string;
  rq_template_id : string;
  rq_template_version : Z;
  rq_locale : option string;
  rq_campaign_id : option string;
  rq_scheduled_for : option Z;
  rq_expires_at : option Z;
  rq_variables : gmap string string;
}.

(** What the handlers use of [TenantContext]. *)
Record TenantContext : Type := MkTenant {
  tn_id : N;
  tn_kill_switches : ActiveSet;
  tn_schedule_horizon_days : Z;
  tn_default_locale : string;
  tn_default_timezone : string;
  tn_keys : KeyService;
  (** [destination_hmac::compute] under the tenant's pepper. *)
  tn_hmac : string → string;
}.

(** ** Validation *)

Definition validate_channel (value : string) : result unit IngestError :=
  if decide (value = channel.SMS ∨ value = channel.EMAIL ∨ value = channel.WHATSAPP) then Ok tt
  else Err (InvalidChannel value).

Definition validate_class (value : string) (campaign_id : option string) : result unit IngestError :=
  if decide (value = class.TRANSACTIONAL ∧ is_Some campaign_id) then Err CampaignIdOnTransactional
  else if decide (value = class.TRANSACTIONAL ∨ value = class.MARKETING) then Ok tt
  else Err (InvalidClass value).

Definition build_resolution_input (body : CreateCommsRequest) : result ResolutionInput IngestError :=
  match rq_customer_id body, rq_external_id body, rq_external_id_system body with
  | Some id, None, None => Ok (Explicit id)
  | None, Some external_id, Some system => Ok (External system external_id)
  | None, None, None => Ok AddressOnly
  | _, _, _ => Err InvalidResolutionInput
  end.

(** The clock is read only when there is a schedule, and the sum panics where it leaves
    the calendar. *)
Definition validate_schedule (scheduled_for : option Z) (horizon_days : Z) : Eff IngestError unit :=
  match scheduled_for with
  | None => eret tt
  | Some t =>
      now ←! utc_now;
      horizon ←! eof (ok_or (checked_add_signed now (horizon_days * day)) IPanic);
      if horizon <? t then ethrow (ScheduleHorizonExceeded horizon_days) else eret tt
  end.

(** ** The ledger writes *)

Definition IDEMPOTENCY_TTL_DAYS : Z := 30.

Inductive InsertOutcome : Type := Created | Replayed (comms_request_id : N).

Definition find_idempotent_reply (producer : N) (key : string) (d : Db) : option N :=
  id_comms_request_id <$> db_idempotency d !! (producer, key).

(** The values [insert_transactional] binds. *)
Record NewComms : Type := MkNew {
  nw_tenant_id : N;
  nw_customer_id : N;
  nw_channel : string;
  nw_class : string;
  nw_priority : Z;
  nw_template_id : string;
  nw_template_version : Z;
  nw_campaign_id : option string;
  nw_destination_hmac : string;
  nw_destination_ciphertext : string;
  nw_payload_ciphertext : string;
  nw_producer_id : N;
  nw_address_id : N;
  nw_scheduled_for : option Z;
  nw_expires_at : option Z;
}.

Definition request_row (n : NewComms) : CommsRequest :=
  MkRequest (nw_tenant_id n) (nw_customer_id n) (nw_channel n) (nw_class n) (nw_template_id n)
    (nw_template_version n) (nw_campaign_id n) (nw_destination_hmac n) (nw_destination_ciphertext n)
    (Some (nw_payload_ciphertext n)) (nw_producer_id n) (nw_scheduled_for n) (nw_expires_at n) None None.

Definition outbox_row (n : NewComms) (id : N) (now : Z) : Outbox :=
  MkOutbox id now (nw_channel n) (nw_class n) (nw_priority n) (nw_customer_id n) (nw_address_id n)
    (nw_producer_id n) (nw_campaign_id n) (default now (nw_scheduled_for n)) (nw_expires_at n) None 0 None.

Definition claim_key (producer : N) (key : string) (id : N) (expires : Z) (d : Db) : Db * bool :=
  match db_idempotency d !! (producer, key) with
  | Some _ => (d, false)
  | None => (on_idempotency (<[(producer, key) := MkIdempotency id expires]>) d, true)
  end.

Definition insert_request (n : NewComms) (id : N) (now : Z) (d : Db) : result (Db * unit) SqlxError :=
  match db_request d !! (now, id) with
  | Some _ => Err (SqlConstraint "comms_request_pkey")
  | None => Ok (on_request (<[(now, id) := request_row n]>) d, tt)
  end.

Definition insert_outbox (n : NewComms) (id : N) (now : Z) (d : Db) : result (Db * unit) SqlxError :=
  match db_outbox d !! id with
  | Some _ => Err (SqlConstraint "outbox_pkey")
  | None => Ok (on_outbox (<[id := outbox_row n id now]>) d, tt)
  end.

(** [insert_transactional]; [None] is its [expect]. *)
Definition insert_transactional (key : string) (id : N) (n : NewComms)
    : Eff SqlxError (option InsertOutcome) :=
  now ←! utc_now;
  claimed ←! transaction
    (claimed ←! sql (λ _ d, Ok (claim_key (nw_producer_id n) key id (now + IDEMPOTENCY_TTL_DAYS * day) d));
     if claimed : bool then
       sql (λ _, insert_request n id now) ;! sql (λ _, insert_outbox n id now) ;! eret true
     else eret false) (λ claimed, claimed);
  if claimed : bool then eret (Some Created)
  else
    existing ←! query (λ _, find_idempotent_reply (nw_producer_id n) key);
    eret (Replayed <$> existing).

Inductive CancelOutcome : Type := Cancelled | WasSent | NotFound.

(** The [UPDATE outbox SET cancelled_at = COALESCE(cancelled_at, now())]. *)
Definition mark_cancelled (id producer : N) (t : Z) (d : Db) : Db * bool :=
  match db_outbox d !! id with
  | Some r => if decide (ob_producer_id r = producer)
              then (on_outbox (<[id := ob_set_cancelled (Some (default t (ob_cancelled_at r))) r]>) d, true)
              else (d, false)
  | None => (d, false)
  end.

(** [SELECT final_status FROM comms_request WHERE id AND producer_id]: some row. *)
Definition final_status_of (id producer : N) (d : Db) : option (option string) :=
  cr_final_status ∘ snd <$>
    head (filter (λ p, p.1.2 = id ∧ cr_producer_id p.2 = producer) (map_to_list (db_request d))).

(** [repo::cancel]; [run] is a statement on the tenant's pool. *)
Definition cancel_via {D} (run : ∀ A, (Z → Db → result (Db * A) SqlxError) → M D Call SqlxError A) (id producer : N)
    : M D Call SqlxError CancelOutcome :=
  matched ←! run bool (λ t d, Ok (mark_cancelled id producer t d));
  if matched : bool then eret Cancelled
  else
    final_status ←! run _ (λ _ d, Ok (d, final_status_of id producer d));
    eret (match mjoin final_status with
          | Some s => if decide (s = "cancelled"%string) then Cancelled else WasSent
          | None => NotFound
          end).
Definition cancel : N → N → Eff SqlxError CancelOutcome := cancel_via (λ A, sql).

(** ** The handlers *)

Section Handlers.
Context `{!UuidText} `{AE : !Aead}.

(** The part of [create_comms] after the kill-switch check. *)
Definition accept_comms (tn : TenantContext) (producer : N) (idempotency_key : string)
    (body : CreateCommsRequest) (resolution_input : ResolutionInput) (dr : Draws)
    : Eff IngestError (Z * N) :=
  resolved ←! elift ingest_of_resolve
    (resolve (tn_keys tn) (tn_hmac tn) (tn_default_locale tn) (tn_default_timezone tn) dr
       resolution_input (rq_destination body) (rq_channel body));
  let locale := match rq_locale body with
                | Some l => l
                | None => default (tn_default_locale tn) (rs_locale resolved)
                end in
  template ←! elift IDatabase
    (query (λ _ d, db_template d !! (rq_template_id body, rq_template_version body, locale)));
  template ←! eof (ok_or template TemplateNotFound);
  rendered_body ←! eof (map_err IRender (render (te_body template) (rq_variables body)));
  dek ←! elift ingest_of_dek (sv_get_dek (tn_keys tn) (rs_customer_id resolved));
  let aad := uuid_bytes (dr_request_id dr) in
  destination_ciphertext ←! eof (map_err IEncryption
    (encrypt (dr_nonce dr 1) dek aad (rq_destination body)));
  payload_ciphertext ←! eof (map_err IEncryption (encrypt (dr_nonce dr 2) dek aad rendered_body));
  let priority := if decide (rq_class body = class.MARKETING) then 2 else 1 in
  outcome ←! elift IDatabase (insert_transactional idempotency_key (dr_request_id dr)
    (MkNew (tn_id tn) (rs_customer_id resolved) (rq_channel body) (rq_class body) priority
       (rq_template_id body) (rq_template_version body) (rq_campaign_id body)
       (tn_hmac tn (rq_destination body)) destination_ciphertext payload_ciphertext producer
       (rs_address_id resolved) (rq_scheduled_for body) (rq_expires_at body)));
  outcome ←! eof (ok_or outcome IPanic);
  eret (match outcome with Created => (201, dr_request_id dr) | Replayed id => (200, id) end).

(** The part of [create_comms] after the validation. *)
Definition submit_comms (tn : TenantContext) (producer : N) (idempotency_key : string)
    (body : CreateCommsRequest) (resolution_input : ResolutionInput) (dr : Draws)
    : Eff IngestError (Z * N) :=
  existing ←! elift IDatabase (query (λ _, find_idempotent_reply producer idempotency_key));
  match existing with
  | Some existing => eret (200, existing)
  | None =>
      match blocking_scope (tn_kill_switches tn) (rq_channel body) producer (rq_campaign_id body) with
      | Some scope => ethrow (KillSwitchEngaged scope)
      | None => accept_comms tn producer idempotency_key body resolution_input dr
      end
  end.

(** [create_comms]: the [Idempotency-Key] header as text, the producer, its tenant
    and the body; the status and the request id. *)
Definition create_comms (tn : TenantContext) (producer : N) (header : option string)
    (body : CreateCommsRequest) (dr : Draws) : Eff IngestError (Z * N) :=
  idempotency_key ←! eof (ok_or (if decide (header = Some ""%string) then None else header)
                            MissingIdempotencyKey);
  eof (validate_channel (rq_channel body)) ;!
  eof (validate_class (rq_class body) (rq_campaign_id body)) ;!
  resolution_input ←! eof (build_resolution_input body);
  validate_schedule (rq_scheduled_for body) (tn_schedule_horizon_days tn) ;!
  submit_comms tn producer idempotency_key body resolution_input dr.

(** [cancel_comms]. *)
Definition cancel_comms (producer comms_request_id : N) : Eff IngestError Z :=
  outcome ←! elift IDatabase (cancel comms_request_id producer);
  match outcome with
  | Cancelled => eret 204
  | WasSent => ethrow AlreadySent
  | NotFound => ethrow CommsRequestNotFound
  end.
End Handlers.

(** ** Lemmas *)

Lemma find_reply_stable producer key id : stable grows (λ d, find_idempotent_reply producer key d = Some id).
Proof.
  intros d d' HR. unfold find_idempotent_reply. destruct (db_idempotency d !! (producer, key)) as [row|] eqn:Hr; [|done].
  intros [= <-]. by rewrite (lookup_weaken _ _ _ _ Hr (gr_idempotency _ _ HR)).
Qed.
#[export] Hint Resolve find_reply_stable : core.

Lemma grows_ledger d d' :
  db_customer d' = db_customer d → db_external_id d' = db_external_id d → db_address d' = db_address d →
  db_dek d' = db_dek d → db_idempotency d' = db_idempotency d → db_template d' = db_template d → grows d d'.
Proof.
  intros H1 H2 H3 H4 H5 H6. apply grows_same; [done..| |by rewrite H5|done]. intros c row. by rewrite H4.
Qed.

Lemma claim_key_grows producer key id t d : grows d (claim_key producer key id t d).1.
Proof.
  unfold claim_key. destruct (db_idempotency d !! (producer, key)) eqn:Hk; [reflexivity|].
  apply grows_same; [done..|by intros ??| |done]. simpl. by apply insert_subseteq.
Qed.

(** The rows of an accepted request. *)
Definition queued (n : NewComms) (id : N) (d : Db) : Prop :=
  ∃ now, db_request d !! (now, id) = Some (request_row n) ∧ db_outbox d !! id = Some (outbox_row n id now).

Lemma insert_transactional_hoare P key id n :
  stable grows P →
  hoare grows P (insert_transactional key id n)
    (λ o d, P d ∧ match o with
                  | Some Created => find_idempotent_reply (nw_producer_id n) key d = Some id ∧ queued n id d
                  | Some (Replayed i) => find_idempotent_reply (nw_producer_id n) key d = Some i
                  | None => False
                  end) (λ _, True).
Proof.
  intros HP. unfold insert_transactional.
  eapply (hoare_bind _ _ _ _ (λ _, P)); [apply hoare_now; auto; apply _|]. intros now.
  eapply (hoare_bind _ _ _ _ (λ (b : bool) d, P d ∧ if b
    then find_idempotent_reply (nw_producer_id n) key d = Some id ∧ queued n id d
    else is_Some (db_idempotency d !! (nw_producer_id n, key)))).
  - apply hoare_transaction; [apply _|done|done|].
    eapply (tx_post_bind _ _ (λ d d' (b : bool), grows d d' ∧ if b
      then find_idempotent_reply (nw_producer_id n) key d' = Some id
      else is_Some (db_idempotency d !! (nw_producer_id n, key)))).
    { apply tx_post_sql. intros _ d d' b [= Hc].
      pose proof (claim_key_grows (nw_producer_id n) key id (now + IDEMPOTENCY_TTL_DAYS * day) d) as Hg.
      rewrite Hc in Hg. split; [done|]. unfold claim_key in Hc.
      destruct (db_idempotency d !! (nw_producer_id n, key)) as [x|] eqn:Hk; simplify_eq; [by eexists|].
      unfold find_idempotent_reply. simpl. by rewrite lookup_insert_eq. }
    intros [|].
    + eapply (tx_post_bind _ _ (λ d d' _, grows d d' ∧ db_request d' !! (now, id) = Some (request_row n))).
      { apply tx_post_sql. intros _ d d' u. unfold insert_request. destruct (db_request d !! (now, id)); [done|].
        intros [= <- _]. split; [by apply grows_ledger|]. simpl. by rewrite lookup_insert_eq. }
      intros u. eapply (tx_post_bind _ _ (λ d d' _, grows d d' ∧ db_request d' = db_request d
        ∧ db_outbox d' !! id = Some (outbox_row n id now))).
      { apply tx_post_sql. intros _ d d' u'. unfold insert_outbox. destruct (db_outbox d !! id); [done|].
        intros [= <- _]. split_and!; [by apply grows_ledger|done|]. simpl. by rewrite lookup_insert_eq. }
      intros u'. apply tx_post_ret. intros d d1 (H1 & H2 & H3) d2 (H4 & H5) d0 (H6 & H7) Hp.
      assert (grows d0 d) as Hg by (etransitivity; [exact H6|]; etransitivity; [exact H4|exact H1]).
      split; [done|]. split; [by eapply HP|]. split.
      * eapply find_reply_stable; [|exact H7]. etransitivity; [exact H4|exact H1].
      * exists now. by rewrite H2.
    + apply tx_post_ret. intros d d0 [H1 H2] Hp. done.
  - intros [|].
    + apply hoare_ret; [apply _|]. done.
    + eapply (hoare_bind _ _ _ _ (λ o d, P d ∧ is_Some o ∧ o = find_idempotent_reply (nw_producer_id n) key d)).
      { apply hoare_query; [apply _| |done|].
        - apply stable_and; [done|]. intros d d' HR [x Hx]. exists x. eapply lookup_weaken; [exact Hx|apply HR].
        - intros _ d [Hp [x Hx]]. split_and!; [done| |done]. unfold find_idempotent_reply. rewrite Hx. by eexists. }
      intros o. apply hoare_ret; [apply _|]. intros d (Hp & [x ->] & Hx). by split.
Qed.

Definition no_ipanic (e : IngestError) : Prop := e ≠ IPanic.
#[export] Hint Extern 1 (no_ipanic _) => (hnf; discriminate) : core.

Lemma resolve_no_ipanic e : no_rpanic e → (no_ipanic ∘ ingest_of_resolve) e.
Proof. unfold no_rpanic, no_ipanic, compose. by destruct e. Qed.
Lemma dek_no_ipanic e : no_panic e → (no_ipanic ∘ ingest_of_dek) e.
Proof. unfold no_panic, no_ipanic, compose. by destruct e. Qed.
Lemma db_no_ipanic e : (no_ipanic ∘ IDatabase) e.
Proof. unfold no_ipanic, compose. done. Qed.
#[export] Hint Resolve db_no_ipanic : core.

(** A pure step: its value is what the computation returned. *)
Lemma hoare_pure {E A} (P : Db → Prop) (r : result A E) (X : E → Prop) :
  (∀ e, r = Err e → X e) → hoare (C:=Call) grows P (eof r) (λ a d, r = Ok a ∧ P d) X.
Proof. intros HX. apply hoare_of; [apply _|]. intros d Hd. destruct r; [done|by apply HX]. Qed.

Lemma map_err_only {A E F} (f : E → F) (r : result A E) (X : F → Prop) :
  (∀ e, X (f e)) → ∀ e, map_err f r = Err e → X e.
Proof. intros HX e. destruct r; simpl; [done|]. intros [= <-]. apply HX. Qed.
Lemma map_err_Ok {A E F} (f : E → F) (r : result A E) a : map_err f r = Ok a → r = Ok a.
Proof. destruct r; simpl; congruence. Qed.

Section Acceptance.
Context `{!UuidText} `{AE : !Aead} `{!AeadLaws}.
Context (tn : TenantContext) (plain : string → string) `{HS : !KeyServiceLaws (tn_keys tn) plain}.
Implicit Types (body : CreateCommsRequest) (dr : Draws).

(** [template] is the body of the approved template the request names: its version,
    and the locale that was asked for if one was. *)
Definition names_template body (template : string) (d : Db) : Prop :=
  ∃ locale te, db_template d !! (rq_template_id body, rq_template_version body, locale) = Some te
    ∧ te_body te = template ∧ (∀ l, rq_locale body = Some l → locale = l).
Lemma names_template_stable body template : stable grows (names_template body template).
Proof.
  intros d d' HR (l & te & Hl & Hrest). exists l, te. split; [|done]. by eapply lookup_weaken, gr_template.
Qed.
Hint Resolve names_template_stable : core.
(** The request [id] is queued as [body] asked: an open ledger row and a free outbox
    row, due when asked, addressed to a matching address of a customer on file, with
    a destination and a rendering of the named template that decrypt under that
    customer's key. *)
Definition accepted_as (producer : N) body (id : N) (d : Db) : Prop :=
  ∃ created q r kind dek template text ct,
  db_request d !! (created, id) = Some q ∧ db_outbox d !! id = Some r
  ∧ ob_id r = id ∧ ob_created_at r = created
  ∧ ob_next_attempt_at r = default created (rq_scheduled_for body)
  ∧ ob_priority r = (if decide (rq_class body = class.MARKETING) then 2 else 1)
  ∧ ob_channel r = rq_channel body ∧ ob_class r = rq_class body ∧ ob_producer_id r = producer
  ∧ ob_campaign_id r = rq_campaign_id body ∧ ob_expires_at r = rq_expires_at body
  ∧ ob_cancelled_at r = None ∧ ob_attempts r = 0 ∧ ob_leased_until r = None
  ∧ cr_tenant_id q = tn_id tn ∧ cr_customer_id q = ob_customer_id r ∧ cr_producer_id q = producer
  ∧ cr_channel q = rq_channel body ∧ cr_class q = rq_class body ∧ cr_campaign_id q = rq_campaign_id body
  ∧ cr_template_id q = rq_template_id body ∧ cr_template_version q = rq_template_version body
  ∧ cr_scheduled_for q = rq_scheduled_for body ∧ cr_expires_at q = rq_expires_at body
  ∧ cr_final_status q = None ∧ cr_destination_hmac q = tn_hmac tn (rq_destination body)
  ∧ kind_for_channel (rq_channel body) = Some kind
  ∧ resolved_to kind (tn_hmac tn (rq_destination body)) (ob_customer_id r) (ob_address_id r) d
  ∧ key_on_file plain (ob_customer_id r) dek d
  ∧ decrypt dek (uuid_bytes id) (cr_destination_ciphertext q) = Ok (rq_destination body)
  ∧ cr_payload_ciphertext q = Some ct ∧ decrypt dek (uuid_bytes id) ct = Ok text
  ∧ names_template body template d ∧ render template (rq_variables body) = Ok text.

(** What a reply says. *)
Definition reply_ok (producer : N) (key : string) body dr (r : Z * N) (d : Db) : Prop :=
  find_idempotent_reply producer key d = Some r.2 ∧
  (r.1 = 200 ∨ (r.1 = 201 ∧ r.2 = dr_request_id dr ∧ accepted_as producer body r.2 d)).

Definition nonces_ok dr : Prop := ∀ i, String.length (dr_nonce dr i) = NONCE_LEN.

Lemma accept_hoare producer key body input dr kind :
  kind_for_channel (rq_channel body) = Some kind → nonces_ok dr →
  hoare grows customer_wf (accept_comms tn producer key body input dr)
    (reply_ok producer key body dr) no_ipanic.
Proof.
  intros Hk Hn. unfold accept_comms.
  eapply hoare_bind; [apply _| |].
  { apply hoare_lift. eapply hoare_weaken; [by apply (resolve_hoare (tn_keys tn) plain)|auto|done|apply resolve_no_ipanic]. }
  intros res. set (P1 := resolved_to kind (tn_hmac tn (rq_destination body)) (rs_customer_id res) (rs_address_id res)).
  assert (stable grows P1) as HP1 by (apply resolved_to_stable). cbv zeta.
  eapply (hoare_bind _ _ _ _ (λ tm d, P1 d ∧ from_option (λ te, names_template body (te_body te) d) True tm)).
  { apply hoare_lift, hoare_query; auto; [apply _|]. intros t d Hd. split; [done|].
    destruct (db_template d !! _) as [te|] eqn:Hte; [|done]. eexists _, te. split_and!; [exact Hte|done|].
    by intros l ->. }
  intros tm. eapply (hoare_bind _ _ _ _ (λ te d, P1 d ∧ names_template body (te_body te) d));
    [apply hoare_of; [apply _|]; intros d [Hd Hte]; destruct tm; simpl; auto|].
  intros tm'. set (PT := λ d, P1 d ∧ names_template body (te_body tm') d).
  assert (stable grows PT) as HPT by (apply stable_and; [done|apply names_template_stable]).
  eapply hoare_bind; [apply _|apply (hoare_pure PT), map_err_only; auto|].
  intros text. apply hoare_pull. intros Hrender%map_err_Ok.
  eapply (hoare_bind _ _ _ _ (λ dek d, PT d ∧ key_on_file plain (rs_customer_id res) dek d)).
  { apply hoare_lift. eapply hoare_weaken; [apply (hoare_frame grows PT (λ _, True)); [done|apply (svc_get grows)]
      |by intros d ?|done|apply dek_no_ipanic]. }
  intros dek. set (P2 := λ d, PT d ∧ key_on_file plain (rs_customer_id res) dek d).
  assert (stable grows P2) as HP2.
  { apply stable_and; [done|]. apply key_on_file_stable. by intros d d' []. }
  eapply hoare_bind; [apply _|apply (hoare_pure P2), map_err_only; auto|].
  intros ct. apply hoare_pull. intros Hct%map_err_Ok.
  eapply hoare_bind; [apply _|apply (hoare_pure P2), map_err_only; auto|].
  intros pt. apply hoare_pull. intros Hpt%map_err_Ok. set (n := MkNew _ _ _ _ _ _ _ _ _ _ _ _ _ _ _).
  eapply hoare_bind; [apply _|apply hoare_lift; eapply hoare_weaken;
    [apply (insert_transactional_hoare P2 key (dr_request_id dr) n HP2)|auto|intros o d Hd; exact Hd|auto]|].
  intros o. eapply (hoare_bind _ _ _ _ (λ o' d, o = Some o' ∧ _)).
  { apply hoare_of; [apply _|]. intros d Hd. destruct o as [o'|]; [split; [done|exact Hd]|by destruct Hd]. }
  intros o'. apply hoare_pull. intros ->. apply hoare_ret; [apply _|]. intros d [[[HR HT] HK] Hd].
  destruct o' as [|i]; simpl in *; split; simpl; [by destruct Hd|right|done|by left].
  destruct Hd as [_ (now & Hq1 & Hq2)]. split_and!; [done|done|].
  assert (∀ c m b, encrypt (dr_nonce dr c) dek (uuid_bytes (dr_request_id dr)) m = Ok b →
    decrypt dek (uuid_bytes (dr_request_id dr)) b = Ok m) as Hdec.
  { intros c m b Hb. by apply (decrypt_encrypt (dr_nonce dr c)). }
  exists now, (request_row n), (outbox_row n (dr_request_id dr) now), kind, dek, (te_body tm'), text, pt.
  split_and!; try done; [by apply (Hdec 1%N)|by apply (Hdec 2%N)].
Qed.

Lemma validate_channel_kind ch u : validate_channel ch = Ok u → ∃ kind, kind_for_channel ch = Some kind.
Proof.
  unfold validate_channel, kind_for_channel. case_decide as Hc; [|done]. intros _.
  repeat case_decide; eauto. naive_solver.
Qed.

Lemma validate_schedule_hoare s h :
  hoare grows customer_wf (validate_schedule s h) (λ _, customer_wf) (λ _, True).
Proof.
  destruct s as [t|]; simpl; [|apply hoare_ret; [apply _|auto]].
  eapply (hoare_bind _ _ _ _ (λ _, customer_wf)); [apply hoare_now; auto; apply _|]. intros now.
  eapply (hoare_bind _ _ _ _ (λ _, customer_wf)).
  { apply hoare_of; [apply _|]. intros d Hd. by destruct (checked_add_signed _ _). }
  intros horizon. destruct (_ <? _); [apply hoare_throw; [apply _|auto]|apply hoare_ret; [apply _|auto]].
Qed.

Lemma pure_checks_no_panic body (key : option string) :
  (∀ e, validate_channel (rq_channel body) = Err e → no_ipanic e)
  ∧ (∀ e, validate_class (rq_class body) (rq_campaign_id body) = Err e → no_ipanic e)
  ∧ (∀ e, build_resolution_input body = Err e → no_ipanic e)
  ∧ (∀ e, ok_or key MissingIdempotencyKey = Err e → no_ipanic e).
Proof.
  unfold validate_channel, validate_class, build_resolution_input, ok_or, no_ipanic.
  split_and!; intros e He ->; repeat (case_decide || case_match); congruence.
Qed.

Lemma submit_hoare producer key body input dr kind :
  nonces_ok dr → kind_for_channel (rq_channel body) = Some kind →
  hoare grows customer_wf (submit_comms tn producer key body input dr) (reply_ok producer key body dr) no_ipanic.
Proof.
  intros Hn Hkind. unfold submit_comms.
  eapply (hoare_bind _ _ _ _ (λ o d, customer_wf d ∧ o = find_idempotent_reply producer key d)).
  { apply hoare_lift, hoare_query; auto; apply _. }
  intros [id|].
  { apply hoare_ret; [apply _|]. intros d [_ Hf]. split; [done|by left]. }
  destruct (blocking_scope _ _ _ _) as [sc|]; [apply hoare_throw; [apply _|auto]|].
  eapply (hoare_weaken _ _ customer_wf); [by eapply accept_hoare|by intros d [? _]|eauto|auto].
Qed.

Lemma create_hoare producer header body dr :
  nonces_ok dr →
  hoare grows customer_wf (create_comms tn producer header body dr)
    (λ r d, ∃ key, header = Some key ∧ reply_ok producer key body dr r d) (λ _, True).
Proof.
  intros Hn. unfold create_comms.
  eapply hoare_bind; [apply _|by apply hoare_pure|]. intros key.
  apply hoare_pull. intros Hkey.
  assert (header = Some key) as -> by (case_decide; destruct header; simplify_eq/=; congruence).
  eapply hoare_bind; [apply _|by apply hoare_pure|]. intros u1.
  apply hoare_pull. intros [kind Hkind]%validate_channel_kind.
  do 2 (eapply hoare_bind; [apply _|by apply hoare_pure|]; intros ?; apply hoare_pull; intros _).
  eapply hoare_bind; [apply _|apply validate_schedule_hoare|]. intros u3.
  eapply hoare_weaken; [by eapply (submit_hoare producer key body)|done|eauto|done].
Qed.

(** The handler panics only where the horizon leaves the calendar: the clock of the
    validation is the one after the first move of the world. *)
Lemma create_panics producer header body dr w w' :
  nonces_ok dr → rely grows w → customer_wf (w_db w) →
  create_comms tn producer header body dr w = (w', Err IPanic) →
  is_Some (rq_scheduled_for body)
  ∧ checked_add_signed (w_now (tick w)) (tn_schedule_horizon_days tn * day) = None.
Proof.
  intros Hn Hr Hwf. destruct (pure_checks_no_panic body
    (if decide (header = Some ""%string) then None else header)) as (Hv1 & Hv2 & Hv3 & Hv4).
  unfold create_comms, ebind, eof.
  destruct (ok_or _ _) as [key|e]; [|intros [= _ ->]; by destruct (Hv4 IPanic)].
  destruct (validate_channel _) as [u1|e] eqn:Hch; [|intros [= _ ->]; by destruct (Hv1 IPanic)].
  destruct (validate_class _ _) as [u2|e]; [|intros [= _ ->]; by destruct (Hv2 IPanic)].
  destruct (build_resolution_input _) as [input|e]; [|intros [= _ ->]; by destruct (Hv3 IPanic)].
  destruct (validate_channel_kind _ _ Hch) as [kind Hkind].
  pose proof (validate_schedule_hoare (rq_scheduled_for body) (tn_schedule_horizon_days tn) w Hr Hwf) as (H1 & H2 & H3).
  destruct (validate_schedule _ _ w) as [w1 [u3|e3]] eqn:Hs; simpl in *.
  - intros Hsub. destruct (submit_hoare producer key body input dr kind Hn Hkind w1) as (_ & _ & Hp); [done|done|].
    rewrite Hsub in Hp. by destruct Hp.
  - intros [= <- ->]. destruct (rq_scheduled_for body) as [t|]; simpl in Hs; [|done]. split; [eauto|].
    revert Hs. unfold ebind, utc_now, eof. destruct (checked_add_signed _ _); simpl; [|done]. by destruct (_ <? _).
Qed.
End Acceptance.

(** *** Cancellation *)

(** The row, if it is still queued, is this producer's. *)
Definition owned (id producer : N) (d : Db) : Prop :=
  ∀ r, db_outbox d !! id = Some r → ob_producer_id r = producer.
Definition cancelled_id (id : N) (d : Db) : Prop :=
  ∀ r, db_outbox d !! id = Some r → is_Some (ob_cancelled_at r).
(** What others may do to a queued row: nothing that changes its owner or takes a
    cancellation back. *)
Definition respects (id producer : N) (d d' : Db) : Prop :=
  (owned id producer d → owned id producer d') ∧ (cancelled_id id d → cancelled_id id d').
#[export] Instance respects_pre id producer : PreOrder (respects id producer).
Proof. split; [by split|]. intros d1 d2 d3 [] []. split; auto. Qed.

Lemma mark_cancelled_spec id producer t d :
  respects id producer d (mark_cancelled id producer t d).1 ∧
  (owned id producer d → cancelled_id id (mark_cancelled id producer t d).1).
Proof.
  unfold mark_cancelled. destruct (db_outbox d !! id) as [r|] eqn:Hr.
  - case_decide as Hp; simpl.
    + assert (cancelled_id id (on_outbox (<[id := ob_set_cancelled (Some (default t (ob_cancelled_at r))) r]>) d)) as Hc.
      { intros r'. simpl. rewrite lookup_insert_eq. intros [= <-]. simpl. by eexists. }
      split; [split|]; [|done..]. intros _ r'. simpl. rewrite lookup_insert_eq. by intros [= <-].
    + split; [reflexivity|]. intros Ho. by destruct Hp, (Ho r Hr).
  - split; [reflexivity|]. simpl. intros _ r. by rewrite Hr.
Qed.

Lemma cancel_hoare id producer :
  hoare (respects id producer) (owned id producer) (cancel id producer)
    (λ o d, owned id producer d ∧ cancelled_id id d) (λ _, True).
Proof.
  assert (stable (respects id producer) (owned id producer)) as H1 by (by intros d d' []).
  assert (stable (respects id producer) (cancelled_id id)) as H2 by (by intros d d' []).
  unfold cancel, cancel_via. eapply (hoare_bind _ _ _ _ (λ _ d, owned id producer d ∧ cancelled_id id d)).
  - apply hoare_sql; [apply _|done|done|]. intros t d Ho. destruct (mark_cancelled_spec id producer t d) as [Hr Hc].
    destruct (mark_cancelled id producer t d) as [d' b]; simpl in *. split; [done|]. split; [by apply Hr|auto].
  - intros [|]; [apply hoare_ret; [apply _|auto]|].
    eapply (hoare_bind _ _ _ _ (λ _ d, owned id producer d ∧ cancelled_id id d)).
    + apply hoare_query; auto; apply _.
    + intros o. apply hoare_ret; [apply _|auto].
Qed.

(** *** Rejections *)

(** The errors that are answered before anything is looked up or written. *)
Definition is_rejection (e : IngestError) : bool :=
  match e with
  | MissingIdempotencyKey | InvalidClass _ | InvalidChannel _ | CampaignIdOnTransactional
  | InvalidResolutionInput | ScheduleHorizonExceeded _ | KillSwitchEngaged _ => true
  | _ => false
  end.

(** [fails_with X m]: every failure of [m] has [X]. *)
Definition fails_with {E A} (X : E → Prop) (m : Eff E A) : Prop := ∀ w w' e, m w = (w', Err e) → X e.

Lemma fails_bind {E A B} X (m : Eff E A) (k : A → Eff E B) :
  fails_with X m → (∀ a, fails_with X (k a)) → fails_with X (ebind m k).
Proof.
  intros Hm Hk w w' e. unfold ebind. destruct (m w) as [w1 [a|e1]] eqn:Hr; [apply Hk|].
  intros [= <- <-]. by eapply Hm.
Qed.
Lemma fails_lift {E F A} (f : E → F) X (m : Eff E A) : (∀ e, X (f e)) → fails_with X (elift f m).
Proof. intros HX w w' e. unfold elift. destruct (m w) as [w1 [a|e1]]; intros [= _ <-]. apply HX. Qed.
Lemma fails_of {E A} X (r : result A E) : (∀ e, r = Err e → X e) → fails_with X (eof r).
Proof. intros HX w w' e [= _ ->]. by apply HX. Qed.
Lemma fails_ret {E A} (X : E → Prop) (a : A) : fails_with X (eret a).
Proof. intros w w' e [=]. Qed.

Section Rejections.
Context `{!UuidText} `{AE : !Aead}.

Lemma accept_never_rejects tn producer key body input dr :
  fails_with (λ e, is_rejection e = false) (accept_comms tn producer key body input dr).
Proof.
  unfold accept_comms. repeat (apply fails_bind; [|intro]);
    first [apply fails_lift; by intros []|apply fails_ret|apply fails_of; intros e].
  - unfold ok_or. case_match; intros [= <-]. done.
  - by apply (map_err_only _ _ (λ e, is_rejection e = false)).
  - by apply (map_err_only _ _ (λ e, is_rejection e = false)).
  - by apply (map_err_only _ _ (λ e, is_rejection e = false)).
  - unfold ok_or. case_match; intros [= <-]. done.
Qed.
End Rejections.

(** ** Properties *)

Section Properties.
Context `{!UuidText} `{AE : !Aead}.
Implicit Types (w : W) (body : CreateCommsRequest).

(** C4. An accepted request is queued as asked: among processes that only add
    customers, addresses, keys and idempotency keys, a reply names the request on
    file for the producer's idempotency key; a 201 means this call queued it, with
    an open ledger row and an outbox row of the same creation time, addressed to an
    active matching address of a customer on file, and with ciphertexts that
    decrypt under that customer's key to the submitted destination and to
    the rendering of the approved template it names. A release build of the handler
    panics only on a request with a schedule whose tenant's horizon, counted from
    now, lies beyond the last date of the calendar. *)
Theorem accepted_requests_are_queued_as_asked `{!AeadLaws} tn plain producer header body dr w w' r :
  KeyServiceLaws (tn_keys tn) plain → nonces_ok dr → rely grows w → customer_wf (w_db w) →
  create_comms tn producer header body dr w = (w', r) →
  (r = Err IPanic → is_Some (rq_scheduled_for body)
     ∧ checked_add_signed (w_now (tick w)) (tn_schedule_horizon_days tn * day) = None) ∧
  ∀ status id, r = Ok (status, id) → ∃ key, header = Some key
    ∧ find_idempotent_reply producer key (w_db w') = Some id
    ∧ (status = 200 ∨ (status = 201 ∧ id = dr_request_id dr ∧ accepted_as tn plain producer body id (w_db w'))).
Proof.
  intros HS Hn Hr Hwf Hrun.
  destruct (create_hoare tn plain producer header body dr Hn w Hr Hwf) as (_ & _ & Hres).
  rewrite Hrun in Hres. simpl in Hres. split; [intros ->; by eapply create_panics|].
  intros status id ->. destruct Hres as (key & Hk & Hf & Hs). eauto.
Qed.

(** C3. One request per idempotency key: two calls of a producer with the same key,
    by any processes and with any bodies, that both get a reply get the same request
    id, as long as idempotency keys are only added. *)
Theorem one_request_per_idempotency_key `{!AeadLaws} tn1 tn2 plain1 plain2 producer key body1 body2 dr1 dr2
    w1 w1' w2 w2' status1 status2 id1 id2 :
  KeyServiceLaws (tn_keys tn1) plain1 → KeyServiceLaws (tn_keys tn2) plain2 →
  nonces_ok dr1 → nonces_ok dr2 →
  rely grows w1 → customer_wf (w_db w1) → rely grows w2 → grows (w_db w1') (w_db w2) →
  create_comms tn1 producer (Some key) body1 dr1 w1 = (w1', Ok (status1, id1)) →
  create_comms tn2 producer (Some key) body2 dr2 w2 = (w2', Ok (status2, id2)) →
  id1 = id2.
Proof.
  intros HS1 HS2 Hn1 Hn2 Hr1 Hwf1 Hr2 Hg H1 H2.
  destruct (create_hoare tn1 plain1 producer (Some key) body1 dr1 Hn1 w1 Hr1 Hwf1) as (_ & Hg1 & Hq1).
  rewrite H1 in Hg1, Hq1. simpl in Hg1, Hq1. destruct Hq1 as (k1 & [= <-] & Hf1 & _).
  assert (customer_wf (w_db w2)) as Hwf2 by (apply Hg, Hg1, Hwf1).
  destruct (create_hoare tn2 plain2 producer (Some key) body2 dr2 Hn2 w2 Hr2 Hwf2) as (_ & Hg2 & Hq2).
  rewrite H2 in Hg2, Hq2. simpl in Hg2, Hq2. destruct Hq2 as (k2 & [= <-] & Hf2 & _).
  simpl in *. eapply find_reply_stable in Hf1; [|etransitivity; [exact Hg|exact Hg2]]. congruence.
Qed.

(** A rejected request leaves no trace: when the handler answers with a
    validation error or an engaged kill switch, it has written nothing, so that
    whatever relation the other processes keep holds across the call. *)
Theorem rejections_write_nothing tn producer header body dr w w' e (R : relation Db) `{!PreOrder R} :
  create_comms tn producer header body dr w = (w', Err e) → is_rejection e = true → rely R w →
  R (w_db w) (w_db w').
Proof.
  intros Hrun He Hr. unfold create_comms in Hrun.
  assert (∀ key input (w1 : W), w_db w1 = w_db w → rely R w1 →
    (x ←! validate_schedule (rq_scheduled_for body) (tn_schedule_horizon_days tn);
     submit_comms tn producer key body input dr) w1 = (w', Err e) → R (w_db w) (w_db w')) as Hlate.
  { intros key input w1 Hdb Hr1 Hm.
    assert (guar R (validate_schedule (rq_scheduled_for body) (tn_schedule_horizon_days tn))) as Hg.
    { unfold validate_schedule. step_guar. }
    destruct (Hg w1 Hr1) as [H1 H2]. unfold ebind at 1 in Hm. rewrite <- Hdb.
    destruct (validate_schedule _ _ w1) as [w2 [u|e2]]; simpl in *; [|by simplify_eq]. unfold submit_comms in Hm.
    destruct (guar_lift R IDatabase (query (λ _, find_idempotent_reply producer key))
      (guar_query R _) w2 H2) as [H3 H4]. unfold ebind in Hm.
    destruct (elift _ _ w2) as [w3 [[i|]|e3]]; simpl in *; simplify_eq/=; [|by etransitivity].
    destruct (blocking_scope _ _ _ _) as [sc|].
    - injection Hm as <- _. by etransitivity.
    - apply accept_never_rejects in Hm. congruence. }
  unfold ebind at 1, eof in Hrun. destruct (ok_or _ MissingIdempotencyKey) as [key|e0]; [|by simplify_eq].
  unfold ebind at 1 in Hrun. destruct (validate_channel _) as [u1|e1]; [|by simplify_eq].
  unfold ebind at 1 in Hrun. destruct (validate_class _ _) as [u2|e2]; [|by simplify_eq].
  unfold ebind at 1 in Hrun. destruct (build_resolution_input _) as [input|e3]; [|by simplify_eq].
  by apply (Hlate key input w).
Qed.

(** C5. A cancellation that was acknowledged is kept: once [cancel_comms] answered
    204 for a producer's own queued request, no later processing of that row calls a
    provider, as long as nobody changes the row's owner or takes the cancellation
    back. *)
Theorem acknowledged_cancellations_stop_the_send {Tz} `{!TimeZone Tz} ctx (quota : QuotaTracker Tz)
    producer row w w' w2 :
  DekService (dc_dek ctx) →
  rely (respects (ob_id row) producer) w → owned (ob_id row) producer (w_db w) →
  cancel_comms producer (ob_id row) w = (w', Ok 204) →
  respects (ob_id row) producer (w_db w') (w_db w2) → rely (keeps (cancelled_or_gone row)) w2 →
  w_trace (try_process ctx quota row w2).1 = w_trace w2.
Proof.
  intros Hd Hr Ho Hc Hw2 Hr2. apply cancelled_no_call; [done..|].
  destruct (cancel_hoare (ob_id row) producer w Hr Ho) as (_ & _ & Hq). unfold cancel_comms, ebind, elift in Hc.
  destruct (cancel (ob_id row) producer w) as [w1 [o|e]]; simpl in *; [|done].
  destruct o; [|done..]. apply eret_inv in Hc as [_ <-]. apply Hw2, Hq.
Qed.

(** What a cancellation answers: in a world that stands still, 204 with the
    first cancellation time kept for the producer's own queued request, and for a
    finished one 204 if it ended cancelled and 409 otherwise; for an unknown id and
    for another producer's request alike the answer is 404, and nothing changes. *)
Theorem cancel_answers producer id w :
  calm w →
  let '(w', answer) := cancel_comms producer id w in
  match db_outbox (w_db w) !! id with
  | Some r =>
      if decide (ob_producer_id r = producer) then
        answer = Ok 204 ∧ w' = set_db (on_outbox (<[id := ob_set_cancelled
          (Some (default (w_now w) (ob_cancelled_at r))) r]>) (w_db w)) w
      else w' = w
  | None => w' = w
  end ∧
  ((∀ r, db_outbox (w_db w) !! id = Some r → ob_producer_id r ≠ producer) →
   answer = match mjoin (final_status_of id producer (w_db w)) with
            | Some s => if decide (s = "cancelled"%string) then Ok 204 else Err AlreadySent
            | None => Err CommsRequestNotFound
            end).
Proof.
  intros Hc. unfold cancel_comms, cancel, cancel_via, ebind, elift. rewrite sql_calm by apply Hc.
  unfold mark_cancelled.
  assert (∀ o : option (option string),
    match (match mjoin o with
           | Some s => if decide (s = "cancelled"%string) then Cancelled else WasSent
           | None => NotFound end) with
    | Cancelled => eret 204 | WasSent => ethrow AlreadySent | NotFound => ethrow CommsRequestNotFound end w
    = (w, match mjoin o with
          | Some s => if decide (s = "cancelled"%string) then Ok 204 else Err AlreadySent
          | None => Err CommsRequestNotFound end)) as Hmap.
  { intros o. destruct (mjoin o) as [s|]; [case_decide|]; done. }
  assert (sql (λ _ d, Ok (d, final_status_of id producer d)) (set_db (w_db w) w)
    = (w, Ok (final_status_of id producer (w_db w)))) as Hquery.
  { rewrite set_db_same. apply (query_calm (λ _, final_status_of id producer)), Hc. }
  destruct (db_outbox (w_db w) !! id) as [r|] eqn:Hr; [case_decide as Hp|].
  - simpl. split; [done|]. intros Hn. by destruct (Hn r).
  - rewrite Hquery. simpl. rewrite Hmap. done.
  - rewrite Hquery. simpl. rewrite Hmap. done.
Qed.
End Properties.

(** ** Concrete runs *)

#[local] Existing Instance demo_uuid.
#[local] Existing Instance demo_aead.

Definition demo_tenant : TenantContext :=
  MkTenant 1 empty_active 90 "en" "Etc/UTC" (cold_service demo_keystore) (λ d, d).

Definition demo_body : CreateCommsRequest :=
  MkCreate None None None "+15550100" channel.SMS class.TRANSACTIONAL "welcome" 1 None None None None
    {[ "name"%string := "Ada"%string ]}.

Definition demo_start : W :=
  World (on_template (<[("welcome"%string, 1, "en"%string) := MkTemplate channel.SMS "Hi {{name}}" "ops" 0]>) empty_db)
    1000 false [] [].

Lemma demo_start_wf : customer_wf (w_db demo_start).
Proof. split; intros; by simplify_map_eq. Qed.

Lemma demo_nonces : nonces_ok demo_draws.
Proof. done. Qed.

Definition demo_created : W * result (Z * N) IngestError :=
  create_comms demo_tenant 7 (Some "k1"%string) demo_body demo_draws demo_start.

Example demo_created_201 : demo_created.2 = Ok (201, 102%N).
Proof. vm_compute. reflexivity. Qed.

Lemma accepted_witness :
  accepted_as demo_tenant (λ _, demo_dek) 7 demo_body 102 (w_db demo_created.1).
Proof.
  assert (demo_created = (demo_created.1, Ok (201, 102%N))) as Hrun by (vm_compute; reflexivity).
  destruct (accepted_requests_are_queued_as_asked demo_tenant (λ _, demo_dek) 7 (Some "k1"%string) demo_body
    demo_draws demo_start demo_created.1 (Ok (201, 102%N)) (cold_service_laws _ _) demo_nonces
    (conj (Forall_nil_2 _) eq_refl) demo_start_wf Hrun) as (_ & Hok).
  destruct (Hok 201 102%N eq_refl) as (key & _ & _ & [H|(_ & _ & H)]); [discriminate H|exact H].
Defined.

(** A horizon the command line accepts makes every scheduled request of the tenant
    panic: 2147483647 days from now lie beyond the calendar. *)
Theorem a_huge_horizon_panics :
  (create_comms (MkTenant 1 empty_active i32_max "en" "Etc/UTC" (cold_service demo_keystore) (λ d, d)) 7 (Some "k1"%string)
    (MkCreate None None None "+15550100" channel.SMS class.TRANSACTIONAL "welcome" 1 None None (Some 2000) None ∅)
    demo_draws demo_start).2 = Err IPanic.
Proof. vm_compute. reflexivity. Qed.

Lemma idempotency_witness :
  (create_comms demo_tenant 7 (Some "k1"%string) demo_body demo_draws demo_created.1).2 = Ok (200, 102%N)
  ∧ dr_request_id demo_draws = 102%N.
Proof.
  assert (create_comms demo_tenant 7 (Some "k1"%string) demo_body demo_draws demo_created.1
    = ((create_comms demo_tenant 7 (Some "k1"%string) demo_body demo_draws demo_created.1).1, Ok (200, 102%N)))
    as Hrun2 by (vm_compute; reflexivity).
  split; [by rewrite Hrun2|].
  assert (demo_created = (demo_created.1, Ok (201, 102%N))) as Hrun by (vm_compute; reflexivity).
  apply (one_request_per_idempotency_key demo_tenant demo_tenant (λ _, demo_dek) (λ _, demo_dek) 7 "k1"
    demo_body demo_body demo_draws demo_draws demo_start demo_created.1 demo_created.1
    (create_comms demo_tenant 7 (Some "k1"%string) demo_body demo_draws demo_created.1).1 201 200 (dr_request_id demo_draws) 102%N
    (cold_service_laws _ _) (cold_service_laws _ _) demo_nonces demo_nonces
    (conj (Forall_nil_2 _) eq_refl) demo_start_wf).
  - split; [vm_compute; constructor|reflexivity].
  - reflexivity.
  - exact Hrun.
  - exact Hrun2.
Defined.

Lemma rejection_witness :
  w_db (create_comms demo_tenant 7 None demo_body demo_draws demo_start).1 = w_db demo_start.
Proof.
  symmetry. apply (rejections_write_nothing demo_tenant 7 None demo_body demo_draws demo_start
    (create_comms demo_tenant 7 None demo_body demo_draws demo_start).1 MissingIdempotencyKey (@eq Db)).
  - reflexivity.
  - reflexivity.
  - split; [constructor|reflexivity].
Defined.

Lemma cancellation_witness :
  w_trace (try_process (demo_ctx accepted verification_mode.OBSERVE) (demo_quota None) (demo_transactional 1)
    (cancel_comms 7 1 (demo_world [demo_transactional 1] 100)).1).1 = [].
Proof.
  apply (acknowledged_cancellations_stop_the_send (demo_ctx accepted verification_mode.OBSERVE) (demo_quota None)
    7 (demo_transactional 1) (demo_world [demo_transactional 1] 100)
    (cancel_comms 7 1 (demo_world [demo_transactional 1] 100)).1
    (cancel_comms 7 1 (demo_world [demo_transactional 1] 100)).1 (demo_dek_service _ _)).
  - split; [constructor|reflexivity].
  - intros r. vm_compute. by intros [= <-].
  - vm_compute. reflexivity.
  - reflexivity.
  - split; [vm_compute; constructor|reflexivity].
Defined.

Lemma cancel_answers_witness :
  (cancel_comms 8 1 (demo_world [demo_transactional 1] 100)).2 = Err CommsRequestNotFound.
Proof.
  pose proof (cancel_answers 8 1 (demo_world [demo_transactional 1] 100) (conj eq_refl eq_refl)) as H.
  destruct (cancel_comms 8 1 (demo_world [demo_transactional 1] 100)) as [w' answer]. simpl.
  destruct H as [_ H]. rewrite H; [vm_compute; reflexivity|]. intros r. vm_compute. intros [= <-]. discriminate.
Defined.
