(* ===== verification/Receipts.v ===== *)
(** * Delivery receipts

    Models [src/orphan_reconcile/{repo,reconcile}.rs] and
    [src/webhook_receipt/{repo,promote}.rs]: staged receipts are matched to the
    request their provider reference belongs to and become events, or wait as
    orphans that a later pass matches or ages out; an event can advance the final
    status of its request and suppress its destination. *)

From S2P Require Import Prelude RustStd Time Schema KillSwitch Dek Outbox.
From stdpp Require Import base gmap strings list sorting.
From Stdlib Require Import ZArith Lia.

Local Open Scope effect_scope.
Local Open Scope Z_scope.

(** ** Which statuses replace which *)

Definition DEFAULT_RECONCILE_ATTEMPTS_CAP : Z := 5.

Definition STATUS_ORDER : list string := ["queued"; "sent"; "delivered"; "read"]%string.

Definition ABSORBING_STATUSES : list string :=
  ["failed"; "bounced"; "complaint"; "expired"; "cancelled"; "suppressed_consent";
   "suppressed_list"; "unverified_address"]%string.

Definition is_recognized_event_type (event_type : string) : bool :=
  bool_decide (event_type ∈ STATUS_ORDER) || bool_decide (event_type ∈ ABSORBING_STATUSES).

(** [STATUS_ORDER.iter().position(|s| *s == status)]. *)
Definition position (status : string) : option nat :=
  fst <$> list_find (λ s, s = status) STATUS_ORDER.

Definition should_advance (current : option string) (new_event_type : string) : bool :=
  match current with
  | None => true
  | Some cur =>
      if bool_decide (new_event_type ∈ ABSORBING_STATUSES) then true
      else match position cur, position new_event_type with
           | Some c, Some n => (c <? n)%nat
           | _, _ => false
           end
  end.

(** [suppression::model::reason]. *)
Module reason.
Definition HARD_BOUNCE : string := "hard_bounce".
Definition COMPLAINT : string := "complaint".
Definition REGULATORY_HOLD : string := "regulatory_hold".
End reason.

Definition auto_suppress_reason (event_type : string) : option string :=
  if decide (event_type = "bounced"%string) then Some reason.HARD_BOUNCE
  else if decide (event_type = "complaint"%string) then Some reason.COMPLAINT
  else None.

(** ** Matching a reference to a request *)

Record Match : Type := MkMatch {
  ma_comms_request_id : N;
  ma_comms_request_created_at : Z;
  ma_customer_id : N;
  ma_current_final_status : option string;
  ma_destination_hmac : string;
}.

(** The rows of [comms_event ce JOIN comms_request cr ON cr.id = ce.comms_request_id]
    with that reference: when the event occurred, and the request. *)
Definition event_join (provider_ref : string) (d : Db) : list (Z * Match) :=
  e ← map_to_list (db_event d);
  q ← map_to_list (db_request d);
  let '((occurred_at, request_id, _, ref), _) := e in
  let '((created_at, id), r) := q in
  if decide (ref = provider_ref ∧ ref ≠ ""%string ∧ id = request_id) then
    [(occurred_at, MkMatch id created_at (cr_customer_id r) (cr_final_status r) (cr_destination_hmac r))]
  else [].

(** [ORDER BY occurred_at DESC, comms_request_id DESC]. *)
Definition newest_first (a b : Z * Match) : Prop :=
  b.1 < a.1 ∨ (b.1 = a.1 ∧ (ma_comms_request_id b.2 <= ma_comms_request_id a.2)%N).
#[export] Instance newest_first_dec : RelDecision newest_first.
Proof. intros a b. unfold newest_first. apply _. Defined.

(** [orphan_reconcile::repo::find_match]. *)
Definition find_match (provider_ref : string) (d : Db) : option Match :=
  snd <$> head (merge_sort newest_first (event_join provider_ref d)).

(** ** Writing an event *)

(** The receipt fields [insert_comms_event] takes beside the match. *)
Record Receipt : Type := MkReceipt {
  rc_occurred_at : Z;
  rc_event_type : string;
  rc_provider_ref : string;
  rc_provider_status : option string;
}.

Definition receipt_event (m : Match) (rc : Receipt) (ciphertext : option string) : Db → Db :=
  insert_event (rc_occurred_at rc, ma_comms_request_id m, rc_event_type rc, rc_provider_ref rc)
    (MkEvent (ma_customer_id m) (rc_provider_status rc) ciphertext).

(** [INSERT INTO suppression .. ON CONFLICT DO UPDATE SET reason, review_at WHERE
    EXCLUDED.review_at > suppression.review_at]. *)
Definition suppress (hmac reason : string) (now review_at : Z) (d : Db) : Db :=
  on_suppression (λ t,
    match t !! hmac with
    | None => <[hmac := MkSuppression reason now review_at]> t
    | Some s => if su_review_at s <? review_at
                then <[hmac := MkSuppression reason (su_added_at s) review_at]> t else t
    end) d.

(** [insert_comms_event], within the caller's transaction. *)
Definition insert_comms_event (m : Match) (rc : Receipt) (ciphertext : option string) (advance : bool)
    : Eff SqlxError unit :=
  exec (λ _, receipt_event m rc ciphertext) ;!
  (if advance then
     now ←! utc_now;
     exec (λ _, finalize (ma_comms_request_created_at m) (ma_comms_request_id m) (rc_event_type rc) now)
   else eret tt) ;!
  match auto_suppress_reason (rc_event_type rc) with
  | Some reason =>
      now ←! utc_now;
      exec (λ _, suppress (ma_destination_hmac m) reason now (now + 365 * day))
  | None => eret tt
  end.

(** ** Orphans *)

Record PendingOrphan : Type := MkPendingOrphan {
  pn_id : N;
  pn_provider_ref : string;
  pn_event_type : string;
  pn_provider_status : option string;
  pn_provider_payload_raw : option string;
  pn_occurred_at : Z;
  pn_reconcile_attempts : Z;
}.

Definition pending_orphan (p : N * OrphanEvent) : PendingOrphan :=
  MkPendingOrphan p.1 (oe_provider_ref p.2) (oe_event_type p.2) (oe_provider_status p.2)
    (oe_provider_payload_raw p.2) (oe_occurred_at p.2) (oe_reconcile_attempts p.2).

(** [orphan_reconcile::repo::list_pending]. *)
Definition list_orphans (d : Db) : list PendingOrphan := pending_orphan <$> map_to_list (db_orphan d).

Definition orphan_receipt (o : PendingOrphan) : Receipt :=
  MkReceipt (pn_occurred_at o) (pn_event_type o) (pn_provider_ref o) (pn_provider_status o).

(** [orphan_reconcile::repo::promote]. *)
Definition promote_orphan (o : PendingOrphan) (m : Match) (ciphertext : option string) (advance : bool)
    : Eff SqlxError unit :=
  transaction
    (insert_comms_event m (orphan_receipt o) ciphertext advance ;!
     exec (λ _, on_orphan (delete (pn_id o)))) (λ _, true).

Definition oe_set_attempts (n : Z) (o : OrphanEvent) : OrphanEvent :=
  MkOrphan (oe_received_at o) (oe_provider o) (oe_provider_ref o) (oe_occurred_at o) (oe_event_type o)
    (oe_provider_status o) (oe_provider_payload_raw o) n.

(** [reconcile_attempts + 1] on a [smallint]. *)
Definition bump_attempts (id : N) (d : Db) : result (Db * unit) SqlxError :=
  match db_orphan d !! id with
  | None => Ok (d, tt)
  | Some o =>
      if i16_max <=? oe_reconcile_attempts o then Err SqlNumericOutOfRange
      else Ok (on_orphan (<[id := oe_set_attempts (oe_reconcile_attempts o + 1) o]>) d, tt)
  end.

Definition delete_aged (id : N) (cap : Z) (d : Db) : Db :=
  on_orphan (λ t, match t !! id with
                  | Some o => if cap <=? oe_reconcile_attempts o then delete id t else t
                  | None => t
                  end) d.

(** [orphan_reconcile::repo::record_miss]: two statements, no transaction. *)
Definition record_miss (id : N) (cap : Z) : Eff SqlxError unit :=
  sql (λ _, bump_attempts id) ;! exec (λ _, delete_aged id cap).

(** ** Staged receipts *)

Record PendingStagingReceipt : Type := MkPendingStaging {
  ps_id : N;
  ps_provider : string;
  ps_provider_ref : string;
  ps_occurred_at : Z;
  ps_event_type : string;
  ps_provider_status : option string;
  ps_provider_payload_raw : string;
}.

Definition pending_staging (p : N * StagingReceipt) : PendingStagingReceipt :=
  MkPendingStaging p.1 (st_provider p.2) (st_provider_ref p.2) (st_occurred_at p.2) (st_event_type p.2)
    (st_provider_status p.2) (st_provider_payload_raw p.2).

(** [webhook_receipt::repo::list_pending]. *)
Definition list_staging (d : Db) : list PendingStagingReceipt := pending_staging <$> map_to_list (db_staging d).

Definition staging_receipt (s : PendingStagingReceipt) : Receipt :=
  MkReceipt (ps_occurred_at s) (ps_event_type s) (ps_provider_ref s) (ps_provider_status s).

Definition same_staged (a b : StagingReceipt) : Prop :=
  st_provider a = st_provider b ∧ st_provider_ref a = st_provider_ref b
  ∧ st_event_type a = st_event_type b ∧ st_occurred_at a = st_occurred_at b.
#[export] Instance same_staged_dec : RelDecision same_staged.
Proof. intros a b. unfold same_staged. apply _. Defined.

(** [webhook_receipt::repo::insert_staging]. *)
Definition insert_staging (id : N) (row : StagingReceipt) (d : Db) : result (Db * unit) SqlxError :=
  if existsb (λ s, bool_decide (same_staged s row)) (map_values (db_staging d)) then Ok (d, tt)
  else match db_staging d !! id with
       | Some _ => Err (SqlConstraint "webhook_receipt_staging_pkey")
       | None => Ok (on_staging (<[id := row]>) d, tt)
       end.

(** [webhook_receipt::repo::promote]. *)
Definition promote_staging (s : PendingStagingReceipt) (m : Match) (ciphertext : option string) (advance : bool)
    : Eff SqlxError unit :=
  transaction
    (insert_comms_event m (staging_receipt s) ciphertext advance ;!
     exec (λ _, on_staging (delete (ps_id s)))) (λ _, true).

(** The orphan a staged receipt becomes. *)
Definition orphan_of (s : PendingStagingReceipt) (now : Z) : OrphanEvent :=
  MkOrphan now (ps_provider s) (ps_provider_ref s) (ps_occurred_at s) (ps_event_type s)
    (ps_provider_status s) (Some (ps_provider_payload_raw s)) 0.

Definition insert_orphan (id : N) (o : OrphanEvent) (d : Db) : result (Db * unit) SqlxError :=
  match db_orphan d !! id with
  | Some _ => Err (SqlConstraint "orphan_event_pkey")
  | None => Ok (on_orphan (<[id := o]>) d, tt)
  end.

(** [webhook_receipt::repo::to_orphan]; its [now()] is the time the transaction
    began. *)
Definition to_orphan (fresh : N) (s : PendingStagingReceipt) : Eff SqlxError unit :=
  transaction
    (now ←! utc_now;
     sql (λ _, insert_orphan fresh (orphan_of s now)) ;!
     exec (λ _, on_staging (delete (ps_id s)))) (λ _, true).

(** ** The two passes *)

(** [OrphanReconcileError] and [WebhookPromoteError], which have the same arms;
    [PPanic] is a panic of the key lookup. *)
Inductive PromoteError : Type :=
| PDatabase (e : SqlxError)
| PVault (e : KeyStoreError)
| PEncryption (e : EncryptionError)
| PPanic.

Definition promote_of_dek (e : CustomerDekError) : PromoteError :=
  match e with DekDatabase e => PDatabase e | DekVault e => PVault e | DekPanic => PPanic end.

Record ReconcileReport : Type := MkReconcileReport { reconciled : nat; aged_out : nat; still_pending : nat }.
Record PromoteReport : Type := MkPromoteReport { promoted : nat; orphaned : nat }.

Section Passes.
Context `{!UuidText} `{AE : !Aead}.
(** The key lookup, [serde_json::to_vec] on a stored payload, and the random
    draws: a nonce per encryption and an id per new orphan. *)
Context (dek : N → Eff CustomerDekError string) (to_vec : string → string).
Context (nonce : N → string) (fresh : N → N).

(** The encryption of a payload under the customer's key, bound to the request. *)
Definition seal (row : N) (m : Match) (raw : string) : Eff PromoteError string :=
  key ←! elift promote_of_dek (dek (ma_customer_id m));
  eof (map_err PEncryption (encrypt (nonce row) key (uuid_bytes (ma_comms_request_id m)) (to_vec raw))).

(** [orphan_reconcile::reconcile::promote_match]. *)
Definition reconcile_match (o : PendingOrphan) (m : Match) : Eff PromoteError unit :=
  ciphertext ←! match pn_provider_payload_raw o with
                | Some raw => blob ←! seal (pn_id o) m raw; eret (Some blob)
                | None => eret None
                end;
  elift PDatabase (promote_orphan o m ciphertext
    (should_advance (ma_current_final_status m) (pn_event_type o))).

(** [webhook_receipt::promote::promote_match]. *)
Definition promote_match (s : PendingStagingReceipt) (m : Match) : Eff PromoteError unit :=
  ciphertext ←! seal (ps_id s) m (ps_provider_payload_raw s);
  elift PDatabase (promote_staging s m (Some ciphertext)
    (should_advance (ma_current_final_status m) (ps_event_type s))).

(** The match of a receipt, looked up only for the recognised event types. *)
Definition match_receipt (event_type provider_ref : string) : Eff PromoteError (option Match) :=
  if is_recognized_event_type event_type
  then elift PDatabase (query (λ _, find_match provider_ref)) else eret None.

(** One turn of the loop of [orphan_reconcile::reconcile::run]. *)
Definition reconcile_one (cap : Z) (o : PendingOrphan) (report : ReconcileReport)
    : Eff PromoteError ReconcileReport :=
  m ←! match_receipt (pn_event_type o) (pn_provider_ref o);
  match m with
  | Some m =>
      reconcile_match o m ;!
      eret (MkReconcileReport (S (reconciled report)) (aged_out report) (still_pending report))
  | None =>
      elift PDatabase (record_miss (pn_id o) cap) ;!
      eret (if cap <=? i16_wrap (pn_reconcile_attempts o + 1)
            then MkReconcileReport (reconciled report) (S (aged_out report)) (still_pending report)
            else MkReconcileReport (reconciled report) (aged_out report) (S (still_pending report)))
  end.

(** One turn of the loop of [webhook_receipt::promote::run]. *)
Definition promote_one (s : PendingStagingReceipt) (report : PromoteReport) : Eff PromoteError PromoteReport :=
  m ←! match_receipt (ps_event_type s) (ps_provider_ref s);
  match m with
  | Some m => promote_match s m ;! eret (MkPromoteReport (S (promoted report)) (orphaned report))
  | None =>
      elift PDatabase (to_orphan (fresh (ps_id s)) s) ;!
      eret (MkPromoteReport (promoted report) (S (orphaned report)))
  end.

(** A [for] loop whose body can leave with [?]. *)
Fixpoint for_each {A B : Type} (body : A → B → Eff PromoteError B) (l : list A) (acc : B)
    : Eff PromoteError B :=
  match l with
  | [] => eret acc
  | x :: l => acc ←! body x acc; for_each body l acc
  end.

(** [orphan_reconcile::reconcile::run]. *)
Definition reconcile_run (cap : Z) : Eff PromoteError ReconcileReport :=
  orphans ←! elift PDatabase (query (λ _, list_orphans));
  for_each (reconcile_one cap) orphans (MkReconcileReport 0 0 0).

(** [webhook_receipt::promote::run]. *)
Definition promote_run : Eff PromoteError PromoteReport :=
  receipts ←! elift PDatabase (query (λ _, list_staging));
  for_each promote_one receipts (MkPromoteReport 0 0).
End Passes.

(** ** Lemmas on matching *)

Lemma elem_of_event_join ref d x :
  x ∈ event_join ref d ↔
  ∃ occ id ty ev created r, db_event d !! (occ, id, ty, ref) = Some ev ∧ ref ≠ ""%string
    ∧ db_request d !! (created, id) = Some r
    ∧ x = (occ, MkMatch id created (cr_customer_id r) (cr_final_status r) (cr_destination_hmac r)).
Proof.
  unfold event_join. rewrite list_elem_of_bind. split.
  - intros ([[[[occ id] ty] ref'] ev] & Hx & He). rewrite list_elem_of_bind in Hx.
    destruct Hx as ([[created id'] r] & Hx & Hq). apply elem_of_map_to_list in He, Hq.
    case_decide as Hd; [|by apply not_elem_of_nil in Hx]. destruct Hd as (-> & Hne & ->).
    apply list_elem_of_singleton in Hx. eauto 10.
  - intros (occ & id & ty & ev & created & r & He & Hne & Hq & ->).
    exists ((occ, id, ty, ref), ev). split; [|by apply elem_of_map_to_list]. rewrite list_elem_of_bind.
    exists ((created, id), r). split; [|by apply elem_of_map_to_list].
    rewrite decide_True by done. by apply list_elem_of_singleton.
Qed.

(** A match is a request with an event under that reference. *)
Lemma find_match_Some ref d m :
  find_match ref d = Some m →
  ref ≠ ""%string
  ∧ ∃ r, db_request d !! (ma_comms_request_created_at m, ma_comms_request_id m) = Some r
    ∧ ma_current_final_status m = cr_final_status r ∧ ma_destination_hmac m = cr_destination_hmac r
    ∧ ma_customer_id m = cr_customer_id r
    ∧ ∃ occ ty, is_Some (db_event d !! (occ, ma_comms_request_id m, ty, ref)).
Proof.
  unfold find_match. destruct (merge_sort newest_first _) as [|[t m'] l] eqn:Hs; [done|].
  intros [= <-]. assert ((t, m') ∈ event_join ref d) as Hin.
  { rewrite <- (merge_sort_Permutation newest_first), Hs. left. }
  apply elem_of_event_join in Hin as (occ & id & ty & ev & created & r & He & Hne & Hq & [= -> ->]).
  split; [done|]. exists r. simpl. split_and!; [done..|]. exists occ, ty. by exists ev.
Qed.

(** [matchable ref d]: some request has an event under that reference. *)
Definition matchable (ref : string) (d : Db) : Prop :=
  ref ≠ ""%string ∧ ∃ occ id ty created, is_Some (db_event d !! (occ, id, ty, ref))
    ∧ is_Some (db_request d !! (created, id)).

Lemma find_match_matchable ref d : is_Some (find_match ref d) ↔ matchable ref d.
Proof.
  split.
  - intros [m Hm]. apply find_match_Some in Hm as (Hne & r & Hr & _ & _ & _ & occ & ty & He).
    split; [done|]. exists occ, (ma_comms_request_id m), ty, (ma_comms_request_created_at m). eauto.
  - intros (Hne & occ & id & ty & created & [ev He] & [r Hr]). unfold find_match.
    assert (∃ x, x ∈ event_join ref d) as [x Hx].
    { eexists. apply elem_of_event_join. eauto 10. }
    rewrite <- (merge_sort_Permutation newest_first) in Hx.
    destruct (merge_sort newest_first _); [by apply not_elem_of_nil in Hx|]. by eexists.
Qed.

#[export] Instance newest_first_trans : Transitive newest_first.
Proof. intros a b c. unfold newest_first. lia. Qed.
#[export] Instance newest_first_total : Total newest_first.
Proof. intros a b. unfold newest_first. lia. Qed.

(** ** Lemmas on statuses *)

(** How far a request has come: no status, a place in the order, or ended. *)
Definition standing (status : option string) : nat :=
  match status with
  | None => 0
  | Some s => match position s with Some n => S n | None => 5 end
  end.

Lemma position_bound s n : position s = Some n → (n < 4)%nat.
Proof.
  unfold position. destruct (list_find _ STATUS_ORDER) as [[i x]|] eqn:Hf; [|done].
  intros [= <-]. apply list_find_Some in Hf as [Hl _]. by apply lookup_lt_Some in Hl.
Qed.

Lemma standing_le_5 s : (standing s ≤ 5)%nat.
Proof.
  destruct s as [s|]; simpl; [|lia]. destruct (position s) as [n|] eqn:Hp; [|lia].
  apply position_bound in Hp. lia.
Qed.

Lemma absorbing_standing s : s ∈ ABSORBING_STATUSES → standing (Some s) = 5%nat.
Proof. unfold ABSORBING_STATUSES. rewrite !elem_of_cons, elem_of_nil. by intuition subst. Qed.

Lemma should_advance_standing cur new :
  should_advance cur new = true → (standing cur ≤ standing (Some new))%nat.
Proof.
  unfold should_advance. destruct cur as [cur|]; [|intros _; simpl; lia].
  case_bool_decide as Ha; [intros _; rewrite (absorbing_standing new Ha); apply standing_le_5|].
  simpl. destruct (position cur), (position new); try done. intros ?%Nat.ltb_lt. lia.
Qed.

(** ** What the writes do in a standing world *)

Definition event_effect (m : Match) (rc : Receipt) (ct : option string) (advance : bool) (now : Z) (d : Db) : Db :=
  let d1 := receipt_event m rc ct d in
  let d2 := if advance
            then finalize (ma_comms_request_created_at m) (ma_comms_request_id m) (rc_event_type rc) now d1
            else d1 in
  match auto_suppress_reason (rc_event_type rc) with
  | Some reason => suppress (ma_destination_hmac m) reason now (now + 365 * day) d2
  | None => d2
  end.

Lemma insert_comms_event_calm m rc ct advance (w : W) :
  w_env w = [] →
  insert_comms_event m rc ct advance w = (set_db (event_effect m rc ct advance (w_now w) (w_db w)) w, Ok tt).
Proof.
  intros Hw. unfold insert_comms_event, event_effect, ebind. rewrite exec_calm by done.
  destruct advance.
  - rewrite utc_now_calm by done. rewrite exec_calm by done.
    destruct (auto_suppress_reason _); [|done]. rewrite utc_now_calm by done. by rewrite exec_calm by done.
  - cbn [eret]. destruct (auto_suppress_reason _); [|done].
    rewrite utc_now_calm by done. by rewrite exec_calm by done.
Qed.

(** A transaction of one event and one deletion. *)
Lemma promote_calm m rc ct advance (f : Db → Db) (w : W) :
  calm w →
  transaction (insert_comms_event m rc ct advance ;! exec (λ _, f)) (λ _, true) w =
    (set_db (f (event_effect m rc ct advance (w_now w) (w_db w))) w, Ok tt).
Proof.
  intros Hc. set (d' := f _).
  rewrite (transaction_calm _ _ w (set_db d' w) tt); [by rewrite set_tx_set_db, set_tx_calm|done| |apply Hc|done].
  unfold ebind. rewrite insert_comms_event_calm by apply Hc. by rewrite exec_calm by apply Hc.
Qed.

Lemma to_orphan_calm fresh s (w : W) :
  calm w → db_orphan (w_db w) !! fresh = None →
  to_orphan fresh s w =
    (set_db (on_staging (delete (ps_id s)) (on_orphan (<[fresh := orphan_of s (w_now w)]>) (w_db w))) w, Ok tt).
Proof.
  intros Hc Hf. unfold to_orphan. set (d' := on_staging _ _).
  rewrite (transaction_calm _ _ w (set_db d' w) tt); [by rewrite set_tx_set_db, set_tx_calm|done| |apply Hc|done].
  unfold ebind. rewrite utc_now_calm by apply Hc. rewrite sql_calm by apply Hc. unfold insert_orphan; simpl.
  rewrite Hf. by rewrite exec_calm by apply Hc.
Qed.

Lemma event_effect_event m rc ct adv now d :
  db_event (event_effect m rc ct adv now d) = db_event (receipt_event m rc ct d).
Proof. unfold event_effect. by destruct adv, (auto_suppress_reason _). Qed.
Lemma event_effect_request m rc ct adv now d :
  db_request (event_effect m rc ct adv now d) =
    if adv then alter (cr_finalize (rc_event_type rc) now)
                  (ma_comms_request_created_at m, ma_comms_request_id m) (db_request d)
    else db_request d.
Proof. unfold event_effect. by destruct adv, (auto_suppress_reason _). Qed.
Lemma event_effect_staging m rc ct adv now d : db_staging (event_effect m rc ct adv now d) = db_staging d.
Proof. unfold event_effect. by destruct adv, (auto_suppress_reason _). Qed.
Lemma event_effect_orphan m rc ct adv now d : db_orphan (event_effect m rc ct adv now d) = db_orphan d.
Proof. unfold event_effect. by destruct adv, (auto_suppress_reason _). Qed.

(** The event is there afterwards, and no event is gone or changed. *)
Lemma receipt_event_lookup m rc ct d key :
  db_event (receipt_event m rc ct d) !! key =
    match db_event d !! key with
    | Some ev => Some ev
    | None => if decide (key = (rc_occurred_at rc, ma_comms_request_id m, rc_event_type rc, rc_provider_ref rc))
              then Some (MkEvent (ma_customer_id m) (rc_provider_status rc) ct) else None
    end.
Proof.
  unfold receipt_event, insert_event; simpl. set (k := (_, _, _, _)).
  case_decide as Hk; [subst key|].
  - destruct (db_event d !! k) as [ev|] eqn:He; [done|]. by rewrite lookup_insert_eq.
  - destruct (db_event d !! k) as [ev|] eqn:He; [by destruct (db_event d !! key)|].
    rewrite lookup_insert_ne by done. by destruct (db_event d !! key).
Qed.

Lemma event_effect_matchable m rc ct adv now d ref :
  find_match (rc_provider_ref rc) d = Some m →
  matchable ref (event_effect m rc ct adv now d) ↔ matchable ref d.
Proof.
  intros Hm. apply find_match_Some in Hm as (Hne & r & Hr & _ & _ & _ & occ & ty & He).
  assert (∀ k, is_Some (db_request (event_effect m rc ct adv now d) !! k) ↔ is_Some (db_request d !! k)) as Hq.
  { intros k. rewrite event_effect_request. destruct adv; [|done]. rewrite lookup_alter.
    case_decide; [subst|done]. by rewrite fmap_is_Some. }
  unfold matchable. rewrite event_effect_event. setoid_rewrite Hq. setoid_rewrite receipt_event_lookup.
  split; (intros (Hn & occ' & id & ty' & created & [ev Hev] & Hreq); split; [done|]).
  - destruct (db_event d !! (occ', id, ty', ref)) as [ev'|] eqn:Heq.
    { exists occ', id, ty', created. rewrite Heq. eauto. }
    case_decide as Hk; [|done]. injection Hk as -> -> -> ->.
    exists occ, (ma_comms_request_id m), ty, created. eauto.
  - exists occ', id, ty', created. rewrite Hev. eauto.
Qed.

(** ** The passes in a standing world *)

(** The match of a receipt as [match_receipt] finds it. *)
Definition receipt_match (event_type provider_ref : string) (d : Db) : option Match :=
  if is_recognized_event_type event_type then find_match provider_ref d else None.

Lemma receipt_match_is_Some ty ref d :
  is_Some (receipt_match ty ref d) ↔ is_recognized_event_type ty = true ∧ matchable ref d.
Proof.
  unfold receipt_match. destruct (is_recognized_event_type ty).
  - rewrite find_match_matchable. naive_solver.
  - split; [by intros []|by intros []].
Qed.

(** A loop over a list, with an invariant on what is left of it. *)
Lemma for_each_calm {A B} (body : A → B → Eff PromoteError B) (I : list A → B → Db → Prop) l acc (w : W) :
  (∀ x l acc (w' : W), calm w' → w_now w' = w_now w → I (x :: l) acc (w_db w') →
     ∃ d' acc', body x acc w' = (set_db d' w', Ok acc') ∧ I l acc' d') →
  calm w → I l acc (w_db w) →
  ∃ d' acc', for_each body l acc w = (set_db d' w, Ok acc') ∧ I [] acc' d'.
Proof.
  intros Hstep. assert (∀ d, calm w → I l acc d →
    ∃ d' acc', for_each body l acc (set_db d w) = (set_db d' w, Ok acc') ∧ I [] acc' d') as Hgen.
  { revert acc. induction l as [|x l IH]; intros acc d Hc HI; [by exists d, acc|].
    destruct (Hstep x l acc (set_db d w) Hc eq_refl HI) as (d1 & acc1 & H1 & HI1).
    destruct (IH acc1 d1 Hc HI1) as (d2 & acc2 & H2 & HI2). exists d2, acc2. split; [|done].
    cbn [for_each]. unfold ebind. rewrite H1. exact H2. }
  intros Hc HI. destruct (Hgen (w_db w) Hc HI) as (d' & acc' & He & HI'). rewrite set_db_same in He. eauto.
Qed.

Section Standing.
Context `{!UuidText} `{AE : !Aead}.
Context (dek : N → Eff CustomerDekError string) (to_vec : string → string).
Context (nonce : N → string) (fresh : N → N).

(** Every customer's key can be loaded and is fit to encrypt with. *)
Definition keys_ready : Prop :=
  ∀ c (w : W), calm w → ∃ key, dek c w = (w, Ok key)
    ∧ ∀ row id raw, is_ok (encrypt (nonce row) key (uuid_bytes id) (to_vec raw)) = true.
Context (Hkeys : keys_ready).

Lemma seal_calm row m raw (w : W) : calm w → ∃ ct, seal dek to_vec nonce row m raw w = (w, Ok ct).
Proof.
  intros Hc. destruct (Hkeys (ma_customer_id m) w Hc) as (key & Hd & He).
  specialize (He row (ma_comms_request_id m) raw). unfold seal, ebind, elift, eof. rewrite Hd; simpl.
  destruct (encrypt _ _ _ _) as [ct|]; [by exists ct|done].
Qed.

Lemma match_receipt_calm ty ref (w : W) :
  calm w → match_receipt ty ref w = (w, Ok (receipt_match ty ref (w_db w))).
Proof.
  intros Hc. unfold match_receipt, receipt_match. destruct (is_recognized_event_type ty); [|done].
  unfold elift. by rewrite query_calm by apply Hc.
Qed.

(** What one turn of the promotion loop leaves. *)
Definition settle_receipt (ct : option string) (s : PendingStagingReceipt) (now : Z) (d : Db) : Db :=
  on_staging (delete (ps_id s))
    match receipt_match (ps_event_type s) (ps_provider_ref s) d with
    | Some m => event_effect m (staging_receipt s) ct
                  (should_advance (ma_current_final_status m) (ps_event_type s)) now d
    | None => on_orphan (<[fresh (ps_id s) := orphan_of s now]>) d
    end.

Lemma promote_one_calm s rep (w : W) :
  calm w → db_orphan (w_db w) !! fresh (ps_id s) = None →
  ∃ ct, promote_one dek to_vec nonce fresh s rep w =
    (set_db (settle_receipt ct s (w_now w) (w_db w)) w,
     Ok (match receipt_match (ps_event_type s) (ps_provider_ref s) (w_db w) with
         | Some _ => MkPromoteReport (S (promoted rep)) (orphaned rep)
         | None => MkPromoteReport (promoted rep) (S (orphaned rep))
         end)).
Proof.
  intros Hc Hf. unfold promote_one, ebind at 1. rewrite match_receipt_calm by done. unfold settle_receipt.
  destruct (receipt_match _ _ _) as [m|].
  - destruct (seal_calm (ps_id s) m (ps_provider_payload_raw s) w Hc) as [ct Hct]. exists (Some ct).
    unfold promote_match, ebind. rewrite Hct. unfold elift, promote_staging. by rewrite promote_calm.
  - exists None. unfold ebind, elift. by rewrite to_orphan_calm.
Qed.

(** What one turn of the reconciliation loop leaves. *)
Definition settle_orphan (cap : Z) (ct : option string) (o : PendingOrphan) (row : OrphanEvent) (now : Z) (d : Db) : Db :=
  match receipt_match (pn_event_type o) (pn_provider_ref o) d with
  | Some m => on_orphan (delete (pn_id o)) (event_effect m (orphan_receipt o) ct
                (should_advance (ma_current_final_status m) (pn_event_type o)) now d)
  | None =>
      delete_aged (pn_id o) cap
        (on_orphan (<[pn_id o := oe_set_attempts (oe_reconcile_attempts row + 1) row]>) d)
  end.

Lemma reconcile_one_calm cap o row rep (w : W) :
  calm w → db_orphan (w_db w) !! pn_id o = Some row → o = pending_orphan (pn_id o, row) →
  i16_min <= oe_reconcile_attempts row < i16_max →
  ∃ ct, reconcile_one dek to_vec nonce cap o rep w =
    (set_db (settle_orphan cap ct o row (w_now w) (w_db w)) w,
     Ok (match receipt_match (pn_event_type o) (pn_provider_ref o) (w_db w) with
         | Some _ => MkReconcileReport (S (reconciled rep)) (aged_out rep) (still_pending rep)
         | None =>
             if cap <=? oe_reconcile_attempts row + 1
             then MkReconcileReport (reconciled rep) (S (aged_out rep)) (still_pending rep)
             else MkReconcileReport (reconciled rep) (aged_out rep) (S (still_pending rep))
         end)).
Proof.
  intros Hc Hrow Ho Hatt.
  assert (pn_reconcile_attempts o = oe_reconcile_attempts row) as Hn by (by rewrite Ho).
  unfold reconcile_one, ebind at 1. rewrite match_receipt_calm by done. unfold settle_orphan.
  destruct (receipt_match _ _ _) as [m|].
  - assert (∃ ct, (match pn_provider_payload_raw o with
                   | Some raw => blob ←! seal dek to_vec nonce (pn_id o) m raw; eret (Some blob)
                   | None => eret None end) w = (w, Ok ct)) as [ct Hct].
    { destruct (pn_provider_payload_raw o) as [raw|]; [|by exists None].
      destruct (seal_calm (pn_id o) m raw w Hc) as [ct Hct]. exists (Some ct). unfold ebind. by rewrite Hct. }
    exists ct. unfold reconcile_match, ebind in *. rewrite Hct. unfold elift, promote_orphan. by rewrite promote_calm.
  - exists None. unfold ebind, elift, record_miss. unfold ebind. rewrite sql_calm by apply Hc.
    unfold bump_attempts. rewrite Hrow. destruct (Z.leb_spec i16_max (oe_reconcile_attempts row)); [lia|].
    rewrite exec_calm by apply Hc. cbn [map_err]. rewrite Hn.
    replace (i16_wrap (oe_reconcile_attempts row + 1)) with (oe_reconcile_attempts row + 1); [done|].
    unfold i16_wrap, i16_min, i16_max in *. rewrite Z.mod_small by lia. lia.
Qed.

(** Where a receipt of the first list is once its turn is over. *)
Definition placed (d0 : Db) (t : Z) (s : PendingStagingReceipt) (d : Db) : Prop :=
  (is_recognized_event_type (ps_event_type s) = true ∧ matchable (ps_provider_ref s) d0 →
     ∃ id, is_Some (db_event d !! (ps_occurred_at s, id, ps_event_type s, ps_provider_ref s)))
  ∧ (¬ (is_recognized_event_type (ps_event_type s) = true ∧ matchable (ps_provider_ref s) d0) →
     db_orphan d !! fresh (ps_id s) = Some (orphan_of s t)).

Record promote_inv (d0 : Db) (t : Z) (l : list PendingStagingReceipt) (rep : PromoteReport) (d : Db) : Prop := {
  pi_staging id : db_staging d !! id = if decide (id ∈ ps_id <$> l) then db_staging d0 !! id else None;
  pi_nodup : NoDup (ps_id <$> l);
  pi_listed s : s ∈ l → s ∈ list_staging d0;
  pi_fresh s : s ∈ l → db_orphan d !! fresh (ps_id s) = None;
  pi_match ref : matchable ref d ↔ matchable ref d0;
  pi_count : (promoted rep + orphaned rep + length l)%nat = length (list_staging d0);
  pi_placed s : s ∈ list_staging d0 → s ∉ l → placed d0 t s d;
}.

Lemma elem_of_list_staging d s :
  s ∈ list_staging d ↔ ∃ id row, db_staging d !! id = Some row ∧ s = pending_staging (id, row).
Proof.
  unfold list_staging. rewrite list_elem_of_fmap. split.
  - intros ([id row] & -> & Hin). apply elem_of_map_to_list in Hin. eauto.
  - intros (id & row & Hr & ->). exists (id, row). by rewrite elem_of_map_to_list.
Qed.

Lemma list_staging_ids d : ps_id <$> list_staging d = (map_to_list (db_staging d)).*1.
Proof. unfold list_staging. rewrite <- list_fmap_compose. by apply list_fmap_ext. Qed.

Lemma list_staging_inj d s s' : s ∈ list_staging d → s' ∈ list_staging d → ps_id s = ps_id s' → s = s'.
Proof.
  intros (i & r & Hr & ->)%elem_of_list_staging (j & r' & Hr' & ->)%elem_of_list_staging. simpl.
  intros ->. by simplify_eq.
Qed.

Lemma settle_receipt_matchable ct s t d ref :
  matchable ref (settle_receipt ct s t d) ↔ matchable ref d.
Proof.
  unfold settle_receipt. destruct (receipt_match _ _ d) as [m|] eqn:Hm; [|done].
  unfold receipt_match in Hm. destruct (is_recognized_event_type _); [|done].
  by apply (event_effect_matchable m (staging_receipt s) ct _ t d ref).
Qed.

Lemma settle_receipt_event_mono ct s t d key :
  is_Some (db_event d !! key) → is_Some (db_event (settle_receipt ct s t d) !! key).
Proof.
  intros [ev He]. unfold settle_receipt. cbn [on_staging db_event]. destruct (receipt_match _ _ d) as [m|]; [|by exists ev].
  rewrite event_effect_event, receipt_event_lookup, He. by exists ev.
Qed.

Lemma settle_receipt_orphan ct s t d :
  db_orphan (settle_receipt ct s t d) =
    match receipt_match (ps_event_type s) (ps_provider_ref s) d with
    | Some _ => db_orphan d
    | None => <[fresh (ps_id s) := orphan_of s t]> (db_orphan d)
    end.
Proof.
  unfold settle_receipt. cbn [on_staging db_orphan]. destruct (receipt_match _ _ d) as [m|]; [|done].
  apply event_effect_orphan.
Qed.

Lemma settle_receipt_staging ct s t d :
  db_staging (settle_receipt ct s t d) = delete (ps_id s) (db_staging d).
Proof.
  unfold settle_receipt. cbn [on_staging db_staging]. destruct (receipt_match _ _ d); [|done].
  by rewrite event_effect_staging.
Qed.

(** The turn of a receipt places it. *)
Lemma settle_receipt_placed d0 ct s t d :
  (∀ ref, matchable ref d ↔ matchable ref d0) → placed d0 t s (settle_receipt ct s t d).
Proof.
  intros Hm. pose proof (receipt_match_is_Some (ps_event_type s) (ps_provider_ref s) d) as Hs. rewrite Hm in Hs.
  split.
  - intros [m Hr]%Hs. exists (ma_comms_request_id m). unfold settle_receipt. cbn [on_staging db_event].
    rewrite Hr, event_effect_event, receipt_event_lookup. destruct (db_event d !! _); [by eexists|].
    rewrite decide_True by done. by eexists.
  - rewrite <- Hs. intros Hn. rewrite settle_receipt_orphan.
    destruct (receipt_match _ _ d); [by destruct Hn|]. by rewrite lookup_insert_eq.
Qed.

Lemma promote_inv_step d0 t ct s l rep d :
  (∀ i j, is_Some (db_staging d0 !! i) → is_Some (db_staging d0 !! j) → fresh i = fresh j → i = j) →
  promote_inv d0 t (s :: l) rep d →
  promote_inv d0 t l
    (match receipt_match (ps_event_type s) (ps_provider_ref s) d with
     | Some _ => MkPromoteReport (S (promoted rep)) (orphaned rep)
     | None => MkPromoteReport (promoted rep) (S (orphaned rep))
     end) (settle_receipt ct s t d).
Proof.
  intros Hinj [Hst Hnd Hl Hf Hm Hn Hp]. apply NoDup_cons in Hnd as [Hni Hnd].
  assert (∀ s', s' ∈ list_staging d0 → ps_id s' ≠ ps_id s → fresh (ps_id s') ≠ fresh (ps_id s)) as Hne.
  { intros s' Hs' Hid Heq. apply Hid. assert (s ∈ list_staging d0) as Hs by (apply Hl; left).
    apply elem_of_list_staging in Hs as (i & r & Hr & ->), Hs' as (j & r' & Hr' & ->). by apply Hinj. }
  split.
  - intros id. rewrite settle_receipt_staging. destruct (decide (id = ps_id s)) as [->|Hid].
    + rewrite lookup_delete_eq. by rewrite decide_False.
    + rewrite lookup_delete_ne by done. rewrite Hst. apply decide_ext. simpl. set_solver.
  - done.
  - intros s' Hs'. apply Hl. by right.
  - intros s' Hs'. rewrite settle_receipt_orphan. assert (db_orphan d !! fresh (ps_id s') = None) by (apply Hf; by right).
    destruct (receipt_match _ _ d); [done|]. rewrite lookup_insert_ne; [done|]. apply not_eq_sym, Hne.
    { apply Hl. by right. }
    intros Heq. apply Hni. rewrite <- Heq. by apply list_elem_of_fmap_2.
  - intros ref. by rewrite settle_receipt_matchable.
  - simpl in Hn. destruct (receipt_match _ _ d); simpl; lia.
  - intros s' Hs' Hnl. destruct (decide (ps_id s' = ps_id s)) as [Heq|Hid].
    { rewrite (list_staging_inj d0 s' s Hs' (Hl s ltac:(left)) Heq). by apply settle_receipt_placed. }
    destruct (Hp s' Hs') as [Hev Hor]. { rewrite elem_of_cons. intros [->|?]; done. }
    split.
    + intros Hx. destruct (Hev Hx) as [id He]. exists id. by apply settle_receipt_event_mono.
    + intros Hx. rewrite settle_receipt_orphan. destruct (receipt_match _ _ d); [by apply Hor|].
      rewrite lookup_insert_ne by (by apply not_eq_sym, Hne). by apply Hor.
Qed.

(** The pass as a whole, with anything [J] that every turn keeps. *)
Lemma promote_run_calm (J : Db → Prop) (w : W) :
  calm w →
  (∀ i, is_Some (db_staging (w_db w) !! i) → db_orphan (w_db w) !! fresh i = None) →
  (∀ i j, is_Some (db_staging (w_db w) !! i) → is_Some (db_staging (w_db w) !! j) → fresh i = fresh j → i = j) →
  (∀ ct s d, s ∈ list_staging (w_db w) → J d → J (settle_receipt ct s (w_now w) d)) → J (w_db w) →
  ∃ d' rep, promote_run dek to_vec nonce fresh w = (set_db d' w, Ok rep)
    ∧ promote_inv (w_db w) (w_now w) [] rep d' ∧ J d'.
Proof.
  intros Hc Hfresh Hinj HJ HJ0. unfold promote_run, ebind, elift. rewrite query_calm by apply Hc. cbn [map_err].
  destruct (for_each_calm (promote_one dek to_vec nonce fresh)
    (λ l rep d, promote_inv (w_db w) (w_now w) l rep d ∧ J d)
    (list_staging (w_db w)) (MkPromoteReport 0 0) w) as (d' & rep & Hrun & HI); [|done| |eauto].
  - intros s l rep w' Hc' Hnow [HI HJ']. destruct (promote_one_calm s rep w' Hc') as [ct Hone].
    { apply (pi_fresh _ _ _ _ _ HI). left. }
    eexists _, _. split; [exact Hone|]. rewrite Hnow. split; [by apply promote_inv_step|].
    apply HJ; [|done]. apply (pi_listed _ _ _ _ _ HI). left.
  - split; [|done]. split; try done.
    + intros id. rewrite list_staging_ids. case_decide as Hi; [done|]. apply eq_None_not_Some.
      intros [row Hr]. apply Hi. apply elem_of_map_to_list in Hr. by apply (list_elem_of_fmap_2 fst) in Hr.
    + rewrite list_staging_ids. apply NoDup_fst_map_to_list.
    + intros s Hs. apply elem_of_list_staging in Hs as (id & row & Hr & ->). apply Hfresh. by exists row.
Qed.

(** A promotion pass settles every staged receipt: with keys at hand and fresh
    orphan ids, the pass comes to its end, the staging table is empty, and each
    receipt is an event under its own time, type and reference when its type is
    recognised and some request has an event under that reference, and otherwise
    an orphan with all its data and no attempts; the report counts them all. *)
Theorem promotion_settles_every_receipt (w : W) :
  calm w →
  (∀ i, is_Some (db_staging (w_db w) !! i) → db_orphan (w_db w) !! fresh i = None) →
  (∀ i j, is_Some (db_staging (w_db w) !! i) → is_Some (db_staging (w_db w) !! j) → fresh i = fresh j → i = j) →
  ∃ d' rep, promote_run dek to_vec nonce fresh w = (set_db d' w, Ok rep)
    ∧ db_staging d' = ∅ ∧ (promoted rep + orphaned rep)%nat = size (db_staging (w_db w))
    ∧ ∀ id row, db_staging (w_db w) !! id = Some row →
        placed (w_db w) (w_now w) (pending_staging (id, row)) d'.
Proof.
  intros Hc Hfresh Hinj.
  destruct (promote_run_calm (λ _, True) w Hc Hfresh Hinj) as (d' & rep & Hrun & HI & _); [done..|].
  exists d', rep. split; [done|]. destruct HI as [Hst _ _ _ _ Hn Hp]. split_and!.
  - apply map_eq. intros id. rewrite Hst, lookup_empty. by rewrite decide_False by apply not_elem_of_nil.
  - rewrite Nat.add_0_r in Hn. rewrite Hn. unfold list_staging. rewrite length_fmap. apply length_map_to_list.
  - intros id row Hr. apply Hp; [|apply not_elem_of_nil]. apply elem_of_list_staging. eauto.
Qed.

(** Every request is still there, its status no further back, and a status that
    changed is the recognised type of a receipt in [types]. *)
Definition statuses_advance (types : list string) (d0 d : Db) : Prop :=
  ∀ key r0, db_request d0 !! key = Some r0 →
    ∃ r, db_request d !! key = Some r ∧ (standing (cr_final_status r0) ≤ standing (cr_final_status r))%nat
    ∧ (cr_final_status r = cr_final_status r0
       ∨ ∃ ty, ty ∈ types ∧ cr_final_status r = Some ty ∧ is_recognized_event_type ty = true).

Lemma event_effect_advances types d0 m rc ct now d :
  receipt_match (rc_event_type rc) (rc_provider_ref rc) d = Some m → rc_event_type rc ∈ types →
  statuses_advance types d0 d →
  statuses_advance types d0
    (event_effect m rc ct (should_advance (ma_current_final_status m) (rc_event_type rc)) now d).
Proof.
  intros Hm Hty HJ key r0 Hr0. destruct (HJ key r0 Hr0) as (r & Hr & Hle & Hst).
  unfold receipt_match in Hm. destruct (is_recognized_event_type _) eqn:Hrec; [|done].
  apply find_match_Some in Hm as (_ & r1 & Hr1 & Hcur & _).
  rewrite event_effect_request. destruct (should_advance _ _) eqn:Hadv; [|by eauto].
  rewrite lookup_alter. case_decide as Hk; [subst key|by eauto].
  rewrite Hr. eexists. split; [done|]. apply should_advance_standing in Hadv. simplify_eq. simpl.
  rewrite Hcur in Hadv. split; [simpl in *; lia|]. eauto.
Qed.

(** Promotion never moves a request back: across a whole pass every request
    keeps its row, its status stands no earlier than before in the order queued,
    sent, delivered, read, ended, and whatever status it newly has is the
    recognised type of one of the receipts. *)
Theorem promotion_never_moves_a_request_back (w : W) :
  calm w →
  (∀ i, is_Some (db_staging (w_db w) !! i) → db_orphan (w_db w) !! fresh i = None) →
  (∀ i j, is_Some (db_staging (w_db w) !! i) → is_Some (db_staging (w_db w) !! j) → fresh i = fresh j → i = j) →
  ∃ d' rep, promote_run dek to_vec nonce fresh w = (set_db d' w, Ok rep)
    ∧ statuses_advance (ps_event_type <$> list_staging (w_db w)) (w_db w) d'.
Proof.
  intros Hc Hfresh Hinj. set (types := ps_event_type <$> list_staging (w_db w)).
  destruct (promote_run_calm (statuses_advance types (w_db w)) w Hc Hfresh Hinj)
    as (d' & rep & Hrun & _ & HJ); [| |by eauto].
  - intros ct s d Hs HJ. unfold settle_receipt. destruct (receipt_match _ _ d) as [m|] eqn:Hm; [|exact HJ].
    apply (event_effect_advances types (w_db w) m (staging_receipt s) ct (w_now w) d Hm); [|done].
    apply (list_elem_of_fmap_2 ps_event_type _ _ Hs).
  - intros key r Hr. exists r. split_and!; [done..|lia|by left].
Qed.

(** Where an orphan of the first list is once its turn is over. *)
Definition handled (d0 : Db) (cap : Z) (id : N) (o : OrphanEvent) (d : Db) : Prop :=
  (is_recognized_event_type (oe_event_type o) = true ∧ matchable (oe_provider_ref o) d0 →
     db_orphan d !! id = None
     ∧ ∃ rid, is_Some (db_event d !! (oe_occurred_at o, rid, oe_event_type o, oe_provider_ref o)))
  ∧ (¬ (is_recognized_event_type (oe_event_type o) = true ∧ matchable (oe_provider_ref o) d0) →
     db_orphan d !! id = if cap <=? oe_reconcile_attempts o + 1 then None
                         else Some (oe_set_attempts (oe_reconcile_attempts o + 1) o)).

Record reconcile_inv (d0 : Db) (cap : Z) (l : list PendingOrphan) (rep : ReconcileReport) (d : Db) : Prop := {
  ri_rest o : o ∈ l → ∃ row, db_orphan d0 !! pn_id o = Some row ∧ o = pending_orphan (pn_id o, row)
    ∧ db_orphan d !! pn_id o = Some row;
  ri_nodup : NoDup (pn_id <$> l);
  ri_match ref : matchable ref d ↔ matchable ref d0;
  ri_count : (reconciled rep + aged_out rep + still_pending rep + length l)%nat = size (db_orphan d0);
  ri_done id o : db_orphan d0 !! id = Some o → id ∉ pn_id <$> l → handled d0 cap id o d;
  ri_new id : db_orphan d0 !! id = None → db_orphan d !! id = None;
  ri_advance : statuses_advance (oe_event_type <$> map_values (db_orphan d0)) d0 d;
}.

Lemma delete_aged_orphan id cap row d id' :
  db_orphan (delete_aged id cap (on_orphan (<[id := row]>) d)) !! id' =
    if decide (id' = id) then (if cap <=? oe_reconcile_attempts row then None else Some row)
    else db_orphan d !! id'.
Proof.
  unfold delete_aged; simpl. rewrite lookup_insert_eq. case_decide as Hid; [subst|];
    destruct (cap <=? _); by simplify_map_eq.
Qed.

Lemma settle_orphan_orphan cap ct o row t d id :
  db_orphan (settle_orphan cap ct o row t d) !! id =
    if decide (id = pn_id o) then
      match receipt_match (pn_event_type o) (pn_provider_ref o) d with
      | Some _ => None
      | None => if cap <=? oe_reconcile_attempts row + 1 then None
                else Some (oe_set_attempts (oe_reconcile_attempts row + 1) row)
      end
    else db_orphan d !! id.
Proof.
  unfold settle_orphan. destruct (receipt_match _ _ d) as [m|].
  - cbn [on_orphan db_orphan]. rewrite event_effect_orphan. case_decide; simplify_map_eq; done.
  - by rewrite delete_aged_orphan.
Qed.

Lemma settle_orphan_event cap ct o row t d key :
  db_event (settle_orphan cap ct o row t d) !! key =
    match receipt_match (pn_event_type o) (pn_provider_ref o) d with
    | Some m => db_event (receipt_event m (orphan_receipt o) ct d) !! key
    | None => db_event d !! key
    end.
Proof.
  unfold settle_orphan. destruct (receipt_match _ _ d) as [m|]; [|done].
  cbn [on_orphan db_event]. by rewrite event_effect_event.
Qed.

Lemma settle_orphan_handled d0 cap ct o row t d :
  o = pending_orphan (pn_id o, row) → (∀ ref, matchable ref d ↔ matchable ref d0) →
  handled d0 cap (pn_id o) row (settle_orphan cap ct o row t d).
Proof.
  intros Ho Hm. pose proof (receipt_match_is_Some (oe_event_type row) (oe_provider_ref row) d) as Hs. rewrite Hm in Hs.
  assert (pn_event_type o = oe_event_type row) as H1 by (by rewrite Ho).
  assert (pn_provider_ref o = oe_provider_ref row) as H2 by (by rewrite Ho).
  assert (pn_occurred_at o = oe_occurred_at row) as H3 by (by rewrite Ho).
  split; rewrite settle_orphan_orphan, decide_True, H1, H2 by done.
  - intros [m Hr]%Hs. rewrite Hr. split; [done|]. exists (ma_comms_request_id m).
    rewrite settle_orphan_event, H1, H2, Hr, receipt_event_lookup. destruct (db_event d !! _); [by eexists|].
    rewrite decide_True; [by eexists|]. simpl. by rewrite H1, H2, H3.
  - rewrite <- Hs. intros Hn. by destruct (receipt_match _ _ d); [destruct Hn|].
Qed.

Lemma settle_orphan_keeps_handled d0 cap ct o row t d id x :
  id ≠ pn_id o → handled d0 cap id x d → handled d0 cap id x (settle_orphan cap ct o row t d).
Proof.
  intros Hid [H1 H2]. split; rewrite settle_orphan_orphan, decide_False by done; [|exact H2].
  intros Hx. destruct (H1 Hx) as (Hn & rid & [ev He]). split; [done|]. exists rid.
  rewrite settle_orphan_event. destruct (receipt_match _ _ d); [|by eexists].
  rewrite receipt_event_lookup, He. by eexists.
Qed.

Lemma reconcile_inv_step d0 cap t ct o l row rep d :
  db_orphan d0 !! pn_id o = Some row → o = pending_orphan (pn_id o, row) →
  reconcile_inv d0 cap (o :: l) rep d →
  reconcile_inv d0 cap l
    (match receipt_match (pn_event_type o) (pn_provider_ref o) d with
     | Some _ => MkReconcileReport (S (reconciled rep)) (aged_out rep) (still_pending rep)
     | None => if cap <=? oe_reconcile_attempts row + 1
               then MkReconcileReport (reconciled rep) (S (aged_out rep)) (still_pending rep)
               else MkReconcileReport (reconciled rep) (aged_out rep) (S (still_pending rep))
     end) (settle_orphan cap ct o row t d).
Proof using Type.
  intros Hrow Ho [Hl Hnd Hm Hn Hd Hnew Hadv]. apply NoDup_cons in Hnd as [Hni Hnd]. split.
  - intros o' Ho'. destruct (Hl o') as (row' & H1 & H2 & H3); [by right|]. exists row'. split_and!; [done..|].
    rewrite settle_orphan_orphan, decide_False; [done|]. intros Heq. apply Hni. rewrite <- Heq.
    by apply list_elem_of_fmap_2.
  - done.
  - intros ref. rewrite <- Hm. unfold settle_orphan. destruct (receipt_match _ _ d) as [m|] eqn:Hr; [|done].
    unfold receipt_match in Hr. destruct (is_recognized_event_type _); [|done].
    apply (event_effect_matchable m (orphan_receipt o) ct _ t d ref Hr).
  - simpl in Hn. destruct (receipt_match _ _ d); [simpl; lia|]. destruct (cap <=? _); simpl; lia.
  - intros id x Hx Hnl. destruct (decide (id = pn_id o)) as [->|Hid].
    { simplify_eq. by apply settle_orphan_handled. }
    apply settle_orphan_keeps_handled; [done|]. apply Hd; [done|]. by intros [?|?]%elem_of_cons.
  - intros id Hx. rewrite settle_orphan_orphan. case_decide; [subst id; by rewrite Hx in Hrow|by apply Hnew].
  - unfold settle_orphan. destruct (receipt_match _ _ d) as [m|] eqn:Hr; [|exact Hadv].
    apply (event_effect_advances _ d0 m (orphan_receipt o) ct t d Hr); [|done]. simpl.
    assert (pn_event_type o = oe_event_type row) as -> by (by rewrite Ho).
    apply list_elem_of_fmap_2, elem_of_map_values. by exists (pn_id o).
Qed.

(** A reconciliation pass settles or ages every orphan: an orphan whose type
    is recognised and whose reference some request has an event under becomes an
    event and leaves; every other one is an attempt older, or gone when that
    reaches the cap; no orphan appears, no request moves back, and the report
    counts each orphan once. *)
Theorem reconciliation_settles_or_ages (cap : Z) (w : W) :
  calm w →
  (∀ id o, db_orphan (w_db w) !! id = Some o → i16_min <= oe_reconcile_attempts o < i16_max) →
  ∃ d' rep, reconcile_run dek to_vec nonce cap w = (set_db d' w, Ok rep)
    ∧ (reconciled rep + aged_out rep + still_pending rep)%nat = size (db_orphan (w_db w))
    ∧ (∀ id o, db_orphan (w_db w) !! id = Some o → handled (w_db w) cap id o d')
    ∧ (∀ id, db_orphan (w_db w) !! id = None → db_orphan d' !! id = None)
    ∧ statuses_advance (oe_event_type <$> map_values (db_orphan (w_db w))) (w_db w) d'.
Proof.
  intros Hc Hatt. unfold reconcile_run, ebind, elift. rewrite query_calm by apply Hc. cbn [map_err].
  assert (∀ o, o ∈ list_orphans (w_db w) → ∃ row, db_orphan (w_db w) !! pn_id o = Some row
    ∧ o = pending_orphan (pn_id o, row)) as Hlist.
  { intros o Ho. apply list_elem_of_fmap in Ho as ([id row] & -> & Hin). apply elem_of_map_to_list in Hin. by exists row. }
  assert (pn_id <$> list_orphans (w_db w) = (map_to_list (db_orphan (w_db w))).*1) as Hids.
  { unfold list_orphans. rewrite <- list_fmap_compose. by apply list_fmap_ext. }
  destruct (for_each_calm (reconcile_one dek to_vec nonce cap) (reconcile_inv (w_db w) cap)
    (list_orphans (w_db w)) (MkReconcileReport 0 0 0) w) as (d' & rep & Hrun & HI); [|done| |].
  - intros o l rep w' Hc' Hnow HI. destruct (ri_rest _ _ _ _ _ HI o) as (row & H1 & H2 & H3); [left|].
    destruct (reconcile_one_calm cap o row rep w' Hc' H3 H2 (Hatt _ _ H1)) as [ct Hone].
    eexists _, _. split; [exact Hone|]. by apply reconcile_inv_step.
  - split; try done.
    + intros o Ho. destruct (Hlist o Ho) as (row & H1 & H2). eauto.
    + rewrite Hids. apply NoDup_fst_map_to_list.
    + simpl. unfold list_orphans. rewrite length_fmap. apply length_map_to_list.
    + intros id o Ho Hni. exfalso. apply Hni. rewrite Hids. apply elem_of_map_to_list in Ho.
      by apply (list_elem_of_fmap_2 fst) in Ho.
    + intros key r Hr. exists r. split_and!; [done..|lia|by left].
  - exists d', rep. split; [done|]. destruct HI as [_ _ _ Hn Hd Hnew Hadv]. rewrite Nat.add_0_r in Hn.
    split_and!; try done. intros id o Ho. apply Hd; [done|]. apply not_elem_of_nil.
Qed.
End Standing.

(** ** The passes among other processes, whatever fails *)

(** No suppression is dropped or comes up for review earlier. *)
Definition suppressions_lengthen (d d' : Db) : Prop :=
  ∀ hmac s, db_suppression d !! hmac = Some s →
    ∃ s', db_suppression d' !! hmac = Some s' ∧ su_review_at s <= su_review_at s'.
#[export] Instance suppressions_lengthen_pre : PreOrder suppressions_lengthen.
Proof.
  split; [intros d hmac s Hs; exists s; split; [done|lia]|].
  intros d1 d2 d3 H1 H2 hmac s Hs. destruct (H1 hmac s Hs) as (s2 & Hs2 & ?).
  destruct (H2 hmac s2 Hs2) as (s3 & Hs3 & ?). exists s3. split; [done|lia].
Qed.

Lemma suppressions_same d d' : db_suppression d' = db_suppression d → suppressions_lengthen d d'.
Proof. intros Heq hmac s Hs. exists s. rewrite Heq. split; [done|lia]. Qed.

(** A receipt is on record: staged, an orphan, or an event. *)
Definition recorded (occurred_at : Z) (event_type provider_ref : string) (d : Db) : Prop :=
  (∃ id s, db_staging d !! id = Some s ∧ st_occurred_at s = occurred_at ∧ st_event_type s = event_type
     ∧ st_provider_ref s = provider_ref)
  ∨ (∃ id o, db_orphan d !! id = Some o ∧ oe_occurred_at o = occurred_at ∧ oe_event_type o = event_type
     ∧ oe_provider_ref o = provider_ref)
  ∨ (∃ id, is_Some (db_event d !! (occurred_at, id, event_type, provider_ref))).

(** Staging ids are never reused: each belongs to one receipt for good. *)
Definition staged_as (born : N → StagingReceipt) (d : Db) : Prop :=
  ∀ id s, db_staging d !! id = Some s → s = born id.

(** What promotion and the other processes keep: ids keep their receipts, and no
    receipt drops off the record. *)
Definition receipts_kept (born : N → StagingReceipt) (d d' : Db) : Prop :=
  staged_as born d → staged_as born d'
    ∧ ∀ occ ty ref, recorded occ ty ref d → recorded occ ty ref d'.
#[export] Instance receipts_kept_pre born : PreOrder (receipts_kept born).
Proof.
  split; [by intros d Hd; split|]. intros d1 d2 d3 H1 H2 Hd. destruct (H1 Hd) as [Hd2 Hr2].
  destruct (H2 Hd2) as [Hd3 Hr3]. split; [done|]. auto.
Qed.

(** What writing an event leaves alone, adds and keeps. *)
Record event_post (m : Match) (rc : Receipt) (d d' : Db) : Prop := {
  ep_staging : db_staging d' = db_staging d;
  ep_orphan : db_orphan d' = db_orphan d;
  ep_event key : is_Some (db_event d !! key) → is_Some (db_event d' !! key);
  ep_added : is_Some (db_event d' !! (rc_occurred_at rc, ma_comms_request_id m, rc_event_type rc, rc_provider_ref rc));
  ep_suppression : suppressions_lengthen d d';
}.

Lemma receipt_event_post m rc ct d : event_post m rc d (receipt_event m rc ct d).
Proof.
  split; [done..| | |by apply suppressions_same].
  - intros key [ev He]. rewrite receipt_event_lookup, He. by exists ev.
  - rewrite receipt_event_lookup. destruct (db_event d !! _); [by eexists|]. rewrite decide_True by done. by eexists.
Qed.

Lemma event_post_same m rc d d1 d2 :
  event_post m rc d d1 → db_staging d2 = db_staging d1 → db_orphan d2 = db_orphan d1 → db_event d2 = db_event d1 →
  suppressions_lengthen d1 d2 → event_post m rc d d2.
Proof.
  intros [H1 H2 H3 H4 H5] E1 E2 E3 E4. split; rewrite ?E1, ?E2, ?E3; try done. by etransitivity.
Qed.

Lemma suppress_lengthens hmac reason now review d : suppressions_lengthen d (suppress hmac reason now review d).
Proof.
  intros hmac' s Hs. unfold suppress; simpl. destruct (db_suppression d !! hmac) as [s0|] eqn:H0.
  - destruct (Z.ltb_spec (su_review_at s0) review); [|exists s; split; [done|lia]].
    destruct (decide (hmac' = hmac)) as [->|Hne].
    + rewrite lookup_insert_eq. eexists. split; [done|]. simplify_eq. simpl. lia.
    + rewrite lookup_insert_ne by done. exists s. split; [done|lia].
  - rewrite lookup_insert_ne by congruence. exists s. split; [done|lia].
Qed.

Lemma tx_post_insert_comms_event m rc ct advance :
  tx_post (insert_comms_event m rc ct advance) (λ d d' _, event_post m rc d d').
Proof.
  unfold insert_comms_event.
  apply (tx_post_bind _ _ (λ d d' _, event_post m rc d d')); [apply tx_post_exec; intros; apply receipt_event_post|].
  intros _. apply (tx_post_bind _ _ (λ d1 d2 _, ∀ d, event_post m rc d d1 → event_post m rc d d2)).
  - destruct advance; [|by apply tx_post_ret].
    apply (tx_post_bind _ _ (λ d1 d2 _, d1 = d2)); [by apply tx_post_now|].
    intros now. apply tx_post_exec. intros _ d1 ? <- d Hd. eapply event_post_same; [exact Hd|done..|by apply suppressions_same].
  - intros _. destruct (auto_suppress_reason _) as [reason|]; [|by apply tx_post_ret; auto].
    apply (tx_post_bind _ _ (λ d1 d2 _, d1 = d2)); [by apply tx_post_now|].
    intros now. apply tx_post_exec. intros _ d1 ? -> d2 Hd2 d Hd. eapply event_post_same; [by apply Hd2|done..|].
    apply suppress_lengthens.
Qed.

(** An event written and the row it came from deleted, in one transaction. *)
Lemma tx_post_promote m rc ct advance (f : Db → Db) :
  tx_post (insert_comms_event m rc ct advance ;! exec (λ _, f))
    (λ d d' _, ∃ d1, event_post m rc d d1 ∧ d' = f d1).
Proof.
  eapply tx_post_bind; [apply tx_post_insert_comms_event|]. intros u. apply tx_post_exec. eauto.
Qed.

Lemma promote_staging_kept born s m ct advance :
  s = pending_staging (ps_id s, born (ps_id s)) →
  guar (receipts_kept born) (promote_staging s m ct advance).
Proof.
  intros Hs. apply guar_transaction; [apply _|]. eapply tx_post_weaken; [apply tx_post_promote|].
  intros d d' _ (d1 & [Hst Hor Hev Hadd _] & ->) _ Hn. split.
  - intros id row. simpl. rewrite Hst, lookup_delete_Some. intros [_ Hr]. by apply Hn.
  - intros occ ty ref [(id & row & Hr & <- & <- & <-)|[(id & o & Hr & Heq)|[id He]]].
    + destruct (decide (id = ps_id s)) as [->|Hid].
      * right. right. exists (ma_comms_request_id m). apply Hn in Hr as ->. simpl.
        rewrite Hs in Hadd. exact Hadd.
      * left. exists id, row. simpl. by rewrite Hst, lookup_delete_ne.
    + right. left. exists id, o. simpl. by rewrite Hor.
    + right. right. exists id. simpl. by apply Hev.
Qed.

Lemma to_orphan_kept born fresh s :
  s = pending_staging (ps_id s, born (ps_id s)) → guar (receipts_kept born) (to_orphan fresh s).
Proof.
  intros Hs. apply guar_transaction; [apply _|].
  apply (tx_post_bind _ _ (λ d1 d2 _, d1 = d2)); [by apply tx_post_now|]. intros now.
  apply (tx_post_bind _ _ (λ d d1 _, db_orphan d !! fresh = None ∧ d1 = on_orphan (<[fresh := orphan_of s now]>) d)).
  { apply tx_post_sql. intros t d d' [] Hi. unfold insert_orphan in Hi.
    by destruct (db_orphan d !! fresh) eqn:Hf; simplify_eq. }
  intros _. apply tx_post_exec. intros _ ? d [Hf ->] ? -> _ Hn. split.
  - intros id row. simpl. rewrite lookup_delete_Some. intros [_ Hr]. by apply Hn.
  - intros occ ty ref [(id & row & Hr & <- & <- & <-)|[(id & o & Hr & Heq)|[id He]]].
    + destruct (decide (id = ps_id s)) as [->|Hid].
      * right. left. exists fresh, (orphan_of s now). simpl. rewrite lookup_insert_eq.
        apply Hn in Hr as ->. rewrite Hs. done.
      * left. exists id, row. simpl. by rewrite lookup_delete_ne.
    + right. left. exists id, o. simpl. rewrite lookup_insert_ne by congruence. done.
    + right. right. by exists id.
Qed.

Section Interference.
Context `{!UuidText} `{AE : !Aead}.
Context (dek : N → Eff CustomerDekError string) (to_vec : string → string).
Context (nonce : N → string) (fresh : N → N) `{HD : !DekService dek}.

Lemma guar_seal (R : relation Db) `{!PreOrder R} row m raw :
  (∀ f d, R d (on_dek f d)) → guar R (seal dek to_vec nonce row m raw).
Proof. intros Hf. unfold seal. pose proof (λ c, dek_guar (dek:=dek) R c Hf). step_guar. Qed.

Lemma guar_match_receipt (R : relation Db) `{!PreOrder R} ty ref : guar R (match_receipt ty ref).
Proof. unfold match_receipt. step_guar. Qed.

Lemma guar_for_each (R : relation Db) `{!PreOrder R} {A B} (body : A → B → Eff PromoteError B) l acc :
  (∀ x acc, x ∈ l → guar R (body x acc)) → guar R (for_each body l acc).
Proof.
  revert acc. induction l as [|x l IH]; intros acc Hb; [by apply guar_ret|]. cbn [for_each].
  apply guar_bind; [apply _|apply Hb; left|]. intros acc'. apply IH. intros y ? Hy. apply Hb. by right.
Qed.

Lemma guar_promote_one (R : relation Db) `{!PreOrder R} s rep :
  (∀ f d, R d (on_dek f d)) → (∀ m ct adv, guar R (promote_staging s m ct adv)) →
  guar R (to_orphan (fresh (ps_id s)) s) → guar R (promote_one dek to_vec nonce fresh s rep).
Proof.
  intros Hf Hp Ho. unfold promote_one, promote_match.
  pose proof (guar_match_receipt R). pose proof (λ row m raw, guar_seal R row m raw Hf). step_guar. 
Qed.

Lemma guar_reconcile_one (R : relation Db) `{!PreOrder R} cap o rep :
  (∀ f d, R d (on_dek f d)) → (∀ m ct adv, guar R (promote_orphan o m ct adv)) →
  guar R (record_miss (pn_id o) cap) → guar R (reconcile_one dek to_vec nonce cap o rep).
Proof.
  intros Hf Hp Ho. unfold reconcile_one, reconcile_match.
  pose proof (guar_match_receipt R). pose proof (λ row m raw, guar_seal R row m raw Hf). step_guar.
Qed.

(** C39. No receipt is lost on its way: among processes that never reuse a staging
    id nor drop a receipt from the record, a promotion pass, whichever of its
    statements and commits fail and wherever it stops, leaves every receipt that
    was staged, an orphan or an event on record as one of the three. *)
Theorem no_receipt_is_lost (born : N → StagingReceipt) (w : W) occ ty ref :
  rely (receipts_kept born) w → staged_as born (w_db w) → recorded occ ty ref (w_db w) →
  recorded occ ty ref (w_db (promote_run dek to_vec nonce fresh w).1).
Proof.
  intros Hr Hn Hrec. set (R := receipts_kept born).
  assert (hoare R (staged_as born) (promote_run dek to_vec nonce fresh) (λ _ _, True) (λ _, True)) as Hh.
  { unfold promote_run. eapply (hoare_bind R _ _ _
      (λ l d, (∀ s, s ∈ l → s = pending_staging (ps_id s, born (ps_id s))) ∧ True)).
    - apply hoare_lift, hoare_query; [apply _| |done|].
      + intros d d' Hd Hs. by apply Hd.
      + intros t d Hd. split; [|done]. intros s (id & row & Hrow & ->)%elem_of_list_staging.
        by rewrite (Hd _ _ Hrow) at 1.
    - intros l. apply hoare_pull. intros Hl w' Hr' _.
      destruct (guar_for_each R (promote_one dek to_vec nonce fresh) l (MkPromoteReport 0 0)) with (w := w') as [H1 H2].
      + intros s rep Hs. apply (guar_promote_one R); [|intros; apply promote_staging_kept; auto|apply to_orphan_kept; auto].
        by intros f d Hd.
      + done.
      + split_and!; [done..|]. by destruct (_.2). }
  destruct (Hh w Hr Hn) as (_ & HR & _). by apply HR.
Qed.

Lemma promote_orphan_lengthens o m ct advance : guar suppressions_lengthen (promote_orphan o m ct advance).
Proof.
  apply guar_transaction; [apply _|]. eapply tx_post_weaken; [apply tx_post_promote|].
  intros d d' _ (d1 & Hp & ->) _. exact (ep_suppression _ _ _ _ Hp).
Qed.

Lemma promote_staging_lengthens s m ct advance : guar suppressions_lengthen (promote_staging s m ct advance).
Proof.
  apply guar_transaction; [apply _|]. eapply tx_post_weaken; [apply tx_post_promote|].
  intros d d' _ (d1 & Hp & ->) _. exact (ep_suppression _ _ _ _ Hp).
Qed.

Lemma to_orphan_lengthens f s : guar suppressions_lengthen (to_orphan f s).
Proof.
  apply guar_transaction; [apply _|].
  apply (tx_post_bind _ _ (λ d1 d2 _, d1 = d2)); [by apply tx_post_now|]. intros now.
  apply (tx_post_bind _ _ (λ d d1 _, db_suppression d1 = db_suppression d)).
  { apply tx_post_sql. intros t d d' [] Hi. unfold insert_orphan in Hi. by destruct (db_orphan d !! f); simplify_eq. }
  intros _. apply tx_post_exec. intros _ ? d Heq ? -> _. by apply suppressions_same.
Qed.

Lemma record_miss_lengthens id cap : guar suppressions_lengthen (record_miss id cap).
Proof.
  unfold record_miss. apply guar_bind; [apply _| |intros _; apply guar_exec; [apply _|intros; by apply suppressions_same]].
  apply guar_sql; [apply _|]. intros t d d' [] Hi. apply suppressions_same. unfold bump_attempts in Hi.
  destruct (db_orphan d !! id); [destruct (_ <=? _)|]; by simplify_eq.
Qed.

(** Bounces and complaints suppress their destination for a year and no pass
    shortens a suppression: in a standing world the event of such a receipt leaves
    every request to that destination suppressed until at least 365 days on; and
    whatever fails, among processes that do not shorten suppressions either, both
    passes keep every suppression with a review date no earlier. *)
Theorem bounces_suppress_and_nothing_shortens cap (w : W) :
  rely suppressions_lengthen w →
  suppressions_lengthen (w_db w) (w_db (promote_run dek to_vec nonce fresh w).1)
  ∧ suppressions_lengthen (w_db w) (w_db (reconcile_run dek to_vec nonce cap w).1)
  ∧ ∀ m rc ct advance (w0 : W) created id r t,
      calm w0 → is_Some (auto_suppress_reason (rc_event_type rc)) →
      db_request (w_db w0) !! (created, id) = Some r → cr_destination_hmac r = ma_destination_hmac m →
      t < w_now w0 + 365 * day →
      ∃ d', insert_comms_event m rc ct advance w0 = (set_db d' w0, Ok tt) ∧ is_suppressed created id t d' = true.
Proof.
  intros Hr. split_and!.
  - assert (guar suppressions_lengthen (promote_run dek to_vec nonce fresh)) as Hg; [|by apply Hg].
    unfold promote_run. apply guar_bind; [apply _|step_guar|]. intros l. apply guar_for_each; [apply _|].
    intros s rep _. apply guar_promote_one; [apply _|by intros; apply suppressions_same
      |intros; apply promote_staging_lengthens|apply to_orphan_lengthens].
  - assert (guar suppressions_lengthen (reconcile_run dek to_vec nonce cap)) as Hg; [|by apply Hg].
    unfold reconcile_run. apply guar_bind; [apply _|step_guar|]. intros l. apply guar_for_each; [apply _|].
    intros o rep _. apply guar_reconcile_one; [apply _|by intros; apply suppressions_same
      |intros; apply promote_orphan_lengthens|apply record_miss_lengthens].
  - intros m rc ct advance w0 created id r t Hc [reason Hreason] Hreq Hh Ht. eexists.
    split; [apply insert_comms_event_calm, Hc|]. unfold event_effect. rewrite Hreason. unfold is_suppressed.
    set (d2 := if advance then _ else _).
    assert (∃ r2, db_request d2 !! (created, id) = Some r2 ∧ cr_destination_hmac r2 = ma_destination_hmac m)
      as (r2 & Hr2 & Hh2).
    { unfold d2. destruct advance; [|by exists r]. unfold finalize, receipt_event, insert_event; simpl.
      rewrite lookup_alter. case_decide as Hk; [|by exists r]. rewrite Hk, Hreq. simpl. by eexists. }
    unfold suppress. cbn [on_suppression db_request db_suppression]. rewrite Hr2, Hh2.
    destruct (db_suppression d2 !! ma_destination_hmac m) as [s|] eqn:Hs;
      [destruct (Z.ltb_spec (su_review_at s) (w_now w0 + 365 * day))|];
      rewrite ?lookup_insert_eq, ?Hs; apply Z.ltb_lt; simpl; lia.
Qed.
End Interference.

(** ** Concrete runs *)

(** One request, sent under [ref-1], and two receipts: one for it and one for a
    reference nobody knows. *)
Definition sent_request : CommsRequest := cr_finalize "sent" 50 demo_request.
Definition demo_receipt (ref ty : string) (at_ : Z) : StagingReceipt :=
  MkStaging 100 "acme" ref at_ ty None "{}".
Definition receipts_db : Db :=
  on_staging (λ _, {[ 1%N := demo_receipt "ref-1" "delivered" 60; 2%N := demo_receipt "ref-9" "bounced" 70 ]})
    (on_event (λ _, {[ (50, 1%N, "sent"%string, "ref-1"%string) := MkEvent 9%N None None ]})
      (on_request (λ _, {[ (10, 1%N) := sent_request ]}) empty_db)).
Definition receipts_world : W := World receipts_db 100 false [] [].

Definition ready_dek (_ : N) : Eff CustomerDekError string := eret demo_dek.
#[export] Instance ready_dek_service : DekService ready_dek.
Proof. split; [done|intros c; apply forward_ret|intros R HR c _; by apply guar_ret]. Qed.
Lemma ready_keys : keys_ready (H:=demo_uuid) (AE:=demo_aead) ready_dek (λ s, s) (λ _, "nonce-of-12-"%string).
Proof. intros c w _. by exists demo_dek. Qed.

Lemma demo_fresh_inj i j : (i + 10)%N = (j + 10)%N → i = j.
Proof. lia. Qed.

Lemma promotion_settles_witness :
  ∃ d' rep, promote_run (H:=demo_uuid) (AE:=demo_aead) ready_dek (λ s, s) (λ _, "nonce-of-12-"%string)
      (λ i, (i + 10)%N) receipts_world = (set_db d' receipts_world, Ok rep)
    ∧ db_staging d' = ∅ ∧ (promoted rep + orphaned rep)%nat = 2%nat.
Proof.
  destruct (promotion_settles_every_receipt (H:=demo_uuid) (AE:=demo_aead) ready_dek (λ s, s)
    (λ _, "nonce-of-12-"%string) (λ i, (i + 10)%N) ready_keys receipts_world (conj eq_refl eq_refl))
    as (d' & rep & H1 & H2 & H3 & _).
  - intros i _. reflexivity.
  - intros i j _ _. apply demo_fresh_inj.
  - exists d', rep. split; [exact H1|]. split; [exact H2|]. rewrite H3. vm_compute. reflexivity.
Defined.

Lemma promotion_back_witness :
  ∃ d' rep, promote_run (H:=demo_uuid) (AE:=demo_aead) ready_dek (λ s, s) (λ _, "nonce-of-12-"%string)
      (λ i, (i + 10)%N) receipts_world = (set_db d' receipts_world, Ok rep)
    ∧ statuses_advance (ps_event_type <$> list_staging receipts_db) receipts_db d'.
Proof.
  apply (promotion_never_moves_a_request_back (H:=demo_uuid) (AE:=demo_aead) ready_dek (λ s, s)
    (λ _, "nonce-of-12-"%string) (λ i, (i + 10)%N) ready_keys receipts_world (conj eq_refl eq_refl)).
  - intros i _. reflexivity.
  - intros i j _ _. apply demo_fresh_inj.
Defined.

Definition demo_orphan : OrphanEvent := MkOrphan 80 "acme" "ref-9" 70 "bounced" None None 4.
Definition orphans_world : W :=
  World (on_orphan (λ _, {[ 3%N := demo_orphan ]}) receipts_db) 100 false [] [].

Lemma reconciliation_witness :
  ∃ d' rep, reconcile_run (H:=demo_uuid) (AE:=demo_aead) ready_dek (λ s, s) (λ _, "nonce-of-12-"%string)
      5 orphans_world = (set_db d' orphans_world, Ok rep)
    ∧ (reconciled rep + aged_out rep + still_pending rep)%nat = 1%nat
    ∧ handled (w_db orphans_world) 5 3%N demo_orphan d'.
Proof.
  destruct (reconciliation_settles_or_ages (H:=demo_uuid) (AE:=demo_aead) ready_dek (λ s, s)
    (λ _, "nonce-of-12-"%string) ready_keys 5 orphans_world (conj eq_refl eq_refl))
    as (d' & rep & H1 & H2 & H3 & _).
  - intros id o Ho. cbn in Ho. apply lookup_singleton_Some in Ho as [_ <-]. cbn. unfold i16_min, i16_max. lia.
  - exists d', rep. split; [exact H1|]. split; [rewrite H2; vm_compute; reflexivity|].
    apply H3. vm_compute. reflexivity.
Defined.

(** The receipt is staged, the database loses its second statement's reply, and the
    pass stops there. *)
Lemma no_receipt_witness :
  recorded 60 "delivered" "ref-1"
    (w_db (promote_run (H:=demo_uuid) (AE:=demo_aead) ready_dek (λ s, s) (λ _, "nonce-of-12-"%string)
      (λ i, (i + 10)%N)
      (World (C:=Call) (on_staging (λ _, {[ 1%N := demo_receipt "ref-1" "delivered" 60 ]}) receipts_db) 100 false
         [idle; Move 3 FaultAfter (λ d, d)] [])).1).
Proof.
  apply (no_receipt_is_lost (H:=demo_uuid) (AE:=demo_aead) ready_dek (λ s, s) (λ _, "nonce-of-12-"%string)
    (λ i, (i + 10)%N) (λ _, demo_receipt "ref-1" "delivered" 60)).
  - split; [|reflexivity]. apply Forall_cons; split; [intros d; reflexivity|].
    apply Forall_cons; split; [intros d; reflexivity|]. apply Forall_nil_2.
  - intros id s Hs. cbn in Hs. by apply lookup_singleton_Some in Hs as [_ <-].
  - left. exists 1%N, (demo_receipt "ref-1" "delivered" 60). split_and!; reflexivity.
Defined.

Lemma bounces_witness :
  ∃ d', insert_comms_event (MkMatch 1%N 10 9%N (Some "sent"%string) (cr_destination_hmac sent_request))
      (MkReceipt 70 "bounced" "ref-1" None) None true receipts_world = (set_db d' receipts_world, Ok tt)
    ∧ is_suppressed 10 1%N (101 + 364 * day) d' = true.
Proof.
  destruct (bounces_suppress_and_nothing_shortens (H:=demo_uuid) (AE:=demo_aead) ready_dek (λ s, s)
    (λ _, "nonce-of-12-"%string) (λ i, (i + 10)%N) 5 receipts_world (conj (Forall_nil_2 _) eq_refl)) as (_ & _ & Hb).
  apply (Hb (MkMatch 1%N 10 9%N (Some "sent"%string) (cr_destination_hmac sent_request))
    (MkReceipt 70 "bounced" "ref-1" None) None true receipts_world 10 1%N sent_request).
  - split; reflexivity.
  - vm_compute. by eexists.
  - vm_compute. reflexivity.
  - reflexivity.
  - vm_compute. reflexivity.
Defined.

(** What another promoter does meanwhile: it promotes the receipt that says [read]. *)
Definition promoted_read (d : Db) : Db :=
  match find_match "ref-1" d with
  | Some m => event_effect m (MkReceipt 65 "read" "ref-1" None) None
                (should_advance (ma_current_final_status m) "read") 100 d
  | None => d
  end.

(** Two promoters can move a request back: the status a pass decides on is read
    before its transaction, so when another pass records [read] in between, both
    having found [sent], the request ends [delivered]. *)
Theorem concurrent_promotions_move_a_request_back :
  let w := World (C:=Call) (on_staging (delete 2%N) receipts_db) 100 false
             [idle; idle; Move 1 NoFault promoted_read] [] in
  let d' := w_db (promote_run (H:=demo_uuid) (AE:=demo_aead) ready_dek (λ s, s) (λ _, "nonce-of-12-"%string)
                    (λ i, (i + 10)%N) w).1 in
  cr_final_status <$> db_request (promoted_read (w_db w)) !! (10, 1%N) = Some (Some "read"%string)
  ∧ cr_final_status <$> db_request d' !! (10, 1%N) = Some (Some "delivered"%string)
  ∧ is_Some (db_event d' !! (65, 1%N, "read"%string, "ref-1"%string)).
Proof. vm_compute. split_and!; [reflexivity..|by eexists]. Qed.
