(* ===== verification/Ledger.v ===== *)
(** * The ledger and its queue, end to end

    One invariant over the tables that ingest, the dispatcher, the drains and the
    receipt passes share: a request is open exactly while it has a row in the
    outbox. Every process keeps it whatever fails and however the others
    interleave, as long as they keep it too. *)

From S2P Require Import Prelude RustStd Time Schema KillSwitch Quota QuietHours Dek Customer Outbox Worker.
From S2P Require Import Drain Ingest Receipts.
From stdpp Require Import base gmap strings list.
From Stdlib Require Import ZArith Lia.

Local Open Scope effect_scope.
Local Open Scope Z_scope.

(** ** The invariant *)

Record ledger_ok (d : Db) : Prop := {
  lo_row id r : db_outbox d !! id = Some r →
    ob_id r = id ∧ ∃ q, db_request d !! (ob_created_at r, id) = Some q ∧ cr_final_status q = None;
  lo_open created id q : db_request d !! (created, id) = Some q → cr_final_status q = None →
    ∃ r, db_outbox d !! id = Some r ∧ ob_created_at r = created;
  lo_unique id c1 c2 : is_Some (db_request d !! (c1, id)) → is_Some (db_request d !! (c2, id)) → c1 = c2;
  lo_ref occ id ty ref : is_Some (db_event d !! (occ, id, ty, ref)) → ref ≠ ""%string → db_outbox d !! id = None;
}.

(** No table of the ledger knows the id. *)
Definition unused (id : N) (d : Db) : Prop :=
  db_outbox d !! id = None ∧ (∀ c, db_request d !! (c, id) = None)
  ∧ ∀ occ ty ref, db_event d !! (occ, id, ty, ref) = None.

(** What each process does to the ledger: it keeps the invariant, drops no
    request and no event, and leaves the ids in [F] alone, which other requests
    in flight have drawn. *)
Record ledger_step (F : gset N) (d d' : Db) : Prop := {
  ls_ok : ledger_ok d → ledger_ok d';
  ls_request k : is_Some (db_request d !! k) → is_Some (db_request d' !! k);
  ls_event k : is_Some (db_event d !! k) → is_Some (db_event d' !! k);
  ls_unused id : ledger_ok d → id ∈ F → unused id d → unused id d';
}.
#[export] Instance ledger_step_pre F : PreOrder (ledger_step F).
Proof.
  split; [by intros d; split|]. intros d1 d2 d3 [A1 A2 A3 A4] [B1 B2 B3 B4]. split; auto.
Qed.

Lemma ledger_step_weaken F G d d' : F ⊆ G → ledger_step G d d' → ledger_step F d d'.
Proof. intros HFG [A1 A2 A3 A4]. split; auto. Qed.

(** A request of that id and time is on file. *)
Definition on_file (row : Outbox) (d : Db) : Prop := is_Some (db_request d !! (ob_created_at row, ob_id row)).
Lemma on_file_stable F row : stable (ledger_step F) (on_file row).
Proof. intros d d' HR. apply (ls_request _ _ _ HR). Qed.
#[export] Hint Resolve on_file_stable : core.

(** ** Steps *)

(** Nothing of the ledger changes. *)
Lemma step_same F d d' :
  db_outbox d' = db_outbox d → db_request d' = db_request d → db_event d' = db_event d → ledger_step F d d'.
Proof.
  intros H1 H2 H3. split; unfold unused; rewrite ?H2, ?H3, ?H1; try done.
  intros [A B C D]. split; rewrite ?H1, ?H2, ?H3; done.
Qed.

(** The queue's rows change, but not which there are nor their ids and times. *)
Lemma step_outbox F f d :
  (∀ id, f (db_outbox d) !! id = None ↔ db_outbox d !! id = None) →
  (∀ id r r', db_outbox d !! id = Some r → f (db_outbox d) !! id = Some r' →
     ob_id r' = ob_id r ∧ ob_created_at r' = ob_created_at r) →
  ledger_step F d (on_outbox f d).
Proof.
  intros Hnone Hsame. split; [|done|done|].
  - intros [A B C D]. split; simpl; [| |exact C|].
    + intros id r' Hr'. destruct (db_outbox d !! id) as [r|] eqn:Hr.
      * destruct (Hsame id r r' Hr Hr') as [-> ->]. by apply A.
      * apply Hnone in Hr. congruence.
    + intros c id q Hq Hn. destruct (B c id q Hq Hn) as (r & Hr & Hc).
      destruct (f (db_outbox d) !! id) as [r'|] eqn:Hr'; [|apply Hnone in Hr'; congruence].
      destruct (Hsame id r r' Hr Hr') as [_ Hc']. exists r'. split; [done|congruence].
    + intros occ id ty ref He Hne. apply Hnone. by eapply D.
  - intros id _ _ (H1 & H2 & H3). split; [by apply Hnone|done].
Qed.

(** An event without a provider reference, for a request on file. *)
Lemma step_internal_event F row k ev d :
  on_file row d → k.1.1.2 = ob_id row → k.2 = ""%string → ledger_step F d (insert_event k ev d).
Proof.
  destruct k as [[[occ id] ty] ref]; simpl. intros [q Hq] -> ->. unfold insert_event.
  assert (∀ k', is_Some ((match db_event d !! (occ, ob_id row, ty, ""%string) with
      | Some _ => db_event d | None => <[(occ, ob_id row, ty, ""%string) := ev]> (db_event d) end) !! k')
    ↔ is_Some (db_event d !! k') ∨ k' = (occ, ob_id row, ty, ""%string)) as Hev.
  { intros k'. destruct (db_event d !! (occ, ob_id row, ty, ""%string)) as [e|] eqn:He.
    - split; [by left|]. intros [?| ->]; [done|]. by rewrite He.
    - rewrite lookup_insert_is_Some. destruct (decide (k' = (occ, ob_id row, ty, ""%string))); naive_solver. }
  split; [| done | |].
  - intros [A B C D]. split; simpl; [exact A|exact B|exact C|].
    intros occ' id' ty' ref' [He|[= -> -> -> ->]]%Hev Hne; [by eapply D|done].
  - intros k' Hk'. apply Hev. by left.
  - intros id' _ _ (H1 & H2 & H3). split; [done|]. split; [done|]. simpl. intros occ' ty' ref'.
    apply eq_None_not_Some. intros [[e He]|[= -> -> -> ->]]%Hev; [by rewrite H3 in He|]. by rewrite H2 in Hq.
Qed.

(** A row leaves the queue and its request ends, with an event: the terminal write. *)
Lemma step_terminal F row k ev status t d :
  on_file row d → k.1.1.2 = ob_id row →
  ledger_step F d
    (delete_outbox (ob_id row) (finalize (ob_created_at row) (ob_id row) status t (insert_event k ev d))).
Proof.
  destruct k as [[[occ id] ty] ref]; simpl. intros [q Hq] ->.
  set (d' := delete_outbox _ _).
  assert (∀ k', is_Some (db_event d' !! k') → is_Some (db_event d !! k') ∨ k' = (occ, ob_id row, ty, ref)) as Hev.
  { intros k'. unfold d', insert_event; simpl. destruct (db_event d !! (occ, ob_id row, ty, ref)); [by left|].
    rewrite lookup_insert_is_Some. naive_solver. }
  assert (∀ k', is_Some (db_event d !! k') → is_Some (db_event d' !! k')) as Hev'.
  { intros k'. unfold d', insert_event; simpl. destruct (db_event d !! (occ, ob_id row, ty, ref)); [done|].
    rewrite lookup_insert_is_Some. destruct (decide ((occ, ob_id row, ty, ref) = k')); naive_solver. }
  assert (∀ k', is_Some (db_request d' !! k') ↔ is_Some (db_request d !! k')) as Hrq.
  { intros k'. unfold d'; simpl. rewrite lookup_alter. case_decide; [subst|done]. by rewrite fmap_is_Some. }
  split; [|by intros k'; rewrite Hrq|exact Hev'|].
  - intros [A B C D]. split.
    + intros id r. unfold d'; simpl. rewrite lookup_delete_Some. intros [Hne Hr]. destruct (A id r Hr) as [Hid (q' & Hq' & Hn)].
      split; [done|]. exists q'. by rewrite lookup_alter_ne by congruence.
    + intros c id q'. unfold d'; simpl. rewrite lookup_alter. case_decide as Hk.
      * rewrite Hq. intros [= <-]. done.
      * intros Hq' Hn. destruct (B c id q' Hq' Hn) as (r & Hr & Hc). exists r. split; [|done].
        rewrite lookup_delete_ne; [done|]. intros <-. apply Hk. f_equal. apply (C (ob_id row)); by eexists.
    + intros id c1 c2. rewrite !Hrq. apply C.
    + intros occ' id' ty' ref' [He|[= -> -> -> ->]]%Hev Hne; unfold d'; simpl.
      * apply lookup_delete_None. right. by eapply D.
      * by rewrite lookup_delete_eq.
  - intros id' _ _ (H1 & H2 & H3). split; [unfold d'; simpl; apply lookup_delete_None; by right|]. split.
    + intros c. apply eq_None_not_Some. rewrite Hrq. by rewrite H2; intros [].
    + intros occ' ty' ref'. apply eq_None_not_Some. intros [[e He]|[= -> -> -> ->]]%Hev; [by rewrite H3 in He|].
      by rewrite H2 in Hq.
Qed.

(** ** The dispatcher *)

Lemma ledger_ok_stable F : stable (ledger_step F) ledger_ok.
Proof. intros d d' HR. apply (ls_ok _ _ _ HR). Qed.
#[export] Hint Resolve ledger_ok_stable : core.

Lemma ledger_outbox_wf d : ledger_ok d → outbox_wf d.
Proof. intros Hok id r Hr. by apply (lo_row d Hok). Qed.

(** A run of a loop among processes that keep the ledger, from a database with [P]. *)
Definition within (F : gset N) (P : Db → Prop) (w w' : W) : Prop :=
  rely (ledger_step F) w → P (w_db w) → rely (ledger_step F) w' ∧ ledger_step F (w_db w) (w_db w').

Lemma within_trans F (P Q : Db → Prop) w1 w2 w3 :
  (∀ d d', ledger_step F d d' → P d → Q d') → within F P w1 w2 → within F Q w2 w3 → within F P w1 w3.
Proof.
  intros HPQ H1 H2 Hr HP. destruct (H1 Hr HP) as [Hr2 HR2]. destruct (H2 Hr2) as [Hr3 HR3]; [by eapply HPQ|].
  split; [done|by etransitivity].
Qed.

Lemma within_tick F P w : within F P w (tick w).
Proof. intros Hr _. apply and_comm. by apply rely_tick_pre; [apply _|]. Qed.
Lemma within_sleep F P n w : within F P w (sleep n w).
Proof. intros Hr _. apply and_comm. by apply rely_sleep; [apply _|]. Qed.
Lemma within_refl F P w : within F P w w.
Proof. by intros Hr _. Qed.
Lemma within_hoare F P {E A} (m : Eff E A) Q X w : hoare (ledger_step F) P m Q X → within F P w (m w).1.
Proof. intros Hm Hr HP. destruct (Hm w Hr HP) as (H1 & H2 & _). done. Qed.

(** What a successful claim hands out is on file. *)
Lemma lease_update_step F f limit until d d' rows :
  ledger_ok d → lease_update f limit until d = Ok (d', rows) →
  ledger_step F d d' ∧ ∀ r, r ∈ rows → on_file r d'.
Proof.
  intros Hok Hu. destruct (lease_update_Ok f limit until d d' rows (ledger_outbox_wf d Hok) Hu)
    as (Hwf' & _ & _ & Hin & Hout & Hd').
  assert (∀ id, (∃ r, r ∈ rows ∧ ob_id r = id ∧ ∃ r0, db_outbox d !! id = Some r0 ∧ r = lease until r0
    ∧ db_outbox d' !! id = Some r) ∨ db_outbox d' !! id = db_outbox d !! id) as Hcase.
  { intros id. destruct (decide (id ∈ ob_id <$> rows)) as [Hi|Hi]; [left|right; by apply Hout].
    apply list_elem_of_fmap in Hi as (r & -> & Hr). destruct (Hin r Hr) as (r0 & H0 & _ & Heq & _ & H1). eauto 10. }
  split.
  - rewrite Hd'. apply step_outbox.
    + intros id. destruct (Hcase id) as [(r & _ & _ & r0 & H0 & _ & H1)|He]; [|by rewrite He].
      rewrite H0, H1. done.
    + cbv beta. intros id r r' Hr Hr'. destruct (Hcase id) as [(x & _ & _ & r0 & H0 & -> & H1)|He].
      * by rewrite Hr in H0; rewrite Hr' in H1; simplify_eq.
      * rewrite He, Hr in Hr'. by simplify_eq.
  - intros r Hr. destruct (Hin r Hr) as (r0 & H0 & _ & -> & _). destruct (lo_row d Hok _ _ H0) as [Hid (q & Hq & _)].
    unfold on_file. rewrite Hd'. simpl in *. by exists q.
Qed.

Lemma claim_hoare F ch limit until e :
  hoare (ledger_step F) ledger_ok (claim ch limit until e) (λ rows d, ∀ r, r ∈ rows → on_file r d) (λ _, True).
Proof.
  unfold claim. destruct (blocked_entirely e).
  { apply hoare_ret; [apply _|]. by intros d _ r ?%not_elem_of_nil. }
  apply hoare_sql; [apply _|auto|done|]. intros t d Hd.
  destruct (lease_update _ _ _ d) as [[d' rows]|] eqn:Hu; [|done]. by eapply lease_update_step.
Qed.

Lemma claim_for_scope_hoare `{!UuidText} F pinned s limit until e :
  hoare (ledger_step F) ledger_ok (claim_for_scope pinned s limit until e)
    (λ rows d, ∀ r, r ∈ rows → on_file r d) (λ _, True).
Proof.
  unfold claim_for_scope. destruct (blocked_entirely e).
  { apply hoare_ret; [apply _|]. by intros d _ r ?%not_elem_of_nil. }
  destruct (scope_filter pinned s) as [f|].
  2: { apply hoare_ret; [apply _|]. by intros d _ r ?%not_elem_of_nil. }
  apply hoare_sql; [apply _|auto|done|]. intros t d Hd.
  destruct (lease_update _ _ _ d) as [[d' rows]|] eqn:Hu; [|done]. by eapply lease_update_step.
Qed.

Lemma write_terminal_sustains F row status pref ps :
  sustains (ledger_step F) (on_file row) (write_terminal (terminal_for row status pref ps)).
Proof.
  unfold write_terminal. apply sustains_bind; [apply _|apply sustains_guar; [auto|apply guar_now, _]|].
  intros now. apply sustains_transaction; [apply _|auto|].
  eapply tx_post_weaken.
  - eapply (tx_post_bind _ _ (λ d d1 _, d1 = terminal_event (terminal_for row status pref ps) now d)).
    { by apply tx_post_exec. }
    intros _. eapply (tx_post_bind _ _ (λ d1 d2 _, d2 = finalize (ob_created_at row) (ob_id row) status now d1)).
    { by apply tx_post_exec. }
    intros _. apply tx_post_exec. intros t d2 d1 -> d0 ->.
    instantiate (1 := λ d d' _, d' = terminal_effect (terminal_for row status pref ps) now d). reflexivity.
  - intros d d' _ -> _ Hf. by apply (step_terminal F row).
Qed.

Lemma record_event_sustains F row ty :
  sustains (ledger_step F) (on_file row) (record_event (ob_id row) (ob_customer_id row) ty).
Proof.
  unfold record_event. apply sustains_bind; [apply _|apply sustains_guar; [auto|apply guar_now, _]|].
  intros now. apply sustains_exec; [apply _|auto|]. intros t d Hf. by apply (step_internal_event F row).
Qed.

Lemma reschedule_guar F id next : guar (ledger_step F) (reschedule_retry id next).
Proof.
  unfold reschedule_retry. apply guar_exec; [apply _|]. intros t d. apply step_outbox.
  - intros id'. by rewrite lookup_alter_None.
  - intros id' r r' Hr. rewrite lookup_alter. case_decide; [subst; rewrite Hr|]; intros [=]; simplify_eq; done.
Qed.
#[export] Hint Resolve reschedule_guar : effects.

Lemma is_cancelled_guar F id : guar (ledger_step F) (is_cancelled id).
Proof.
  unfold is_cancelled. apply guar_sql; [apply _|]. intros t d d' b.
  destruct (db_outbox d !! id); intros [=]; simplify_eq. reflexivity.
Qed.
#[export] Hint Resolve is_cancelled_guar : effects.

Section Dispatcher.
Context {Tz : Type} `{!TimeZone Tz} `{!UuidText} `{AE : !Aead}.
Context (F : gset N) (ctx : DispatcherContext) `{HD : !DekService (dc_dek ctx)}.
Implicit Types (row : Outbox) (quota : QuotaTracker Tz).

Lemma finish_sustains row status pref ps :
  sustains (ledger_step F) (on_file row) (finish (terminal_for row status pref ps)).
Proof. unfold finish. step_sustain. apply write_terminal_sustains. Qed.

Lemma early_gates_sustains row : sustains (ledger_step F) (on_file row) (early_gates ctx row).
Proof.
  unfold early_gates, and_then, expiry_gate, suppression_gate, verification_gate, consent_gate.
  step_sustain; first [apply finish_sustains|apply record_event_sustains].
Qed.

Lemma quiet_gate_sustains row : sustains (ledger_step F) (on_file row) (quiet_gate ctx row).
Proof. unfold quiet_gate. step_sustain. Qed.

Lemma settle_sustains row reply : sustains (ledger_step F) (on_file row) (settle ctx row reply).
Proof. unfold settle. step_sustain; apply write_terminal_sustains. Qed.

Lemma send_call_guar dst body : guar (ledger_step F) (send_call ctx dst body).
Proof. intros w Hr. by apply (rely_tick_pre (ledger_step F)). Qed.

Lemma deliver_sustains row : sustains (ledger_step F) (on_file row) (deliver ctx row).
Proof.
  assert (∀ c, guar (ledger_step F) (dc_dek ctx c)) as Hd.
  { intros c. apply dek_guar; [apply _|]. intros f d. by apply step_same. }
  pose proof send_call_guar. unfold deliver. step_sustain; [apply write_terminal_sustains|apply settle_sustains].
Qed.

Lemma after_quota_sustains row : sustains (ledger_step F) (on_file row) (after_quota ctx row).
Proof. unfold after_quota. pose proof (quiet_gate_sustains row). pose proof (deliver_sustains row). step_sustain. Qed.

Lemma try_process_within quota row w : within F (on_file row) w (try_process ctx quota row w).1.
Proof.
  pose proof (within_hoare F _ _ _ _ w (early_gates_sustains row)) as He. unfold try_process.
  destruct (early_gates ctx row w) as [w1 [[]|e]]; [|exact He..].
  apply (within_trans F _ (on_file row) _ w1); [apply on_file_stable|exact He|].
  apply (within_trans F _ (on_file row) _ (tick w1)); [apply on_file_stable|apply within_tick|].
  destruct (check_and_record _ _ _ _ _) as [quota' [| |next]].
  - pose proof (within_hoare F _ _ _ _ (tick w1) (after_quota_sustains row)) as Ha. by destruct (after_quota _ _ _).
  - pose proof (within_hoare F _ _ _ _ (tick w1) (after_quota_sustains row)) as Ha. by destruct (after_quota _ _ _).
  - intros Hr Hf. apply and_comm. destruct (reschedule_guar F (ob_id row) next (tick w1) Hr) as [H1 H2].
    unfold elift. by destruct (reschedule_retry _ _ _).
Qed.

Lemma process_one_within quota row w : within F (on_file row) w (process_one ctx quota row w).1.
Proof.
  pose proof (try_process_within quota row w) as Ht. unfold process_one. by destruct (try_process ctx quota row w) as [? [??]].
Qed.

(** All rows of a batch are on file. *)
Definition all_on_file (rows : list Outbox) (d : Db) : Prop := ∀ r, r ∈ rows → on_file r d.
Lemma all_on_file_stable rows : stable (ledger_step F) (all_on_file rows).
Proof. intros d d' HR Ha r Hr. eapply on_file_stable; eauto. Qed.

(** A loop over a batch, one row at a time. *)
Lemma batch_cons r rows w w1 w2 :
  within F (on_file r) w w1 → within F (all_on_file rows) w1 w2 → within F (all_on_file (r :: rows)) w w2.
Proof.
  intros H1 H2. apply (within_trans F _ (all_on_file rows) _ w1); [| |done].
  - intros d d' HR Ha x Hx. eapply on_file_stable; [exact HR|]. apply Ha. by right.
  - intros Hr Ha. apply H1; [done|]. apply Ha. left.
Qed.

Lemma process_all_within quota rows w : within F (all_on_file rows) w (process_all ctx quota rows w).1.
Proof.
  revert quota w. induction rows as [|r rows IH]; intros quota w; simpl; [apply within_refl|].
  pose proof (process_one_within quota r w). destruct (process_one ctx quota r w) as [w1 quota1].
  by apply (batch_cons r rows w w1).
Qed.

Lemma write_with_retry_within n r status pref ps w :
  within F (on_file r) w (write_with_retry n (terminal_for r status pref ps) w).
Proof.
  revert w. induction n as [|n IH]; intros w; simpl; [apply within_refl|].
  pose proof (within_hoare F _ _ _ _ w (write_terminal_sustains F r status pref ps)) as Hw.
  destruct (write_terminal _ w) as [w1 [[]|e]]; [exact Hw|]. destruct n as [|n]; [exact Hw|].
  apply (within_trans F _ (on_file r) _ w1); [apply on_file_stable|exact Hw|].
  apply (within_trans F _ (on_file r) _ (sleep RETRY_DELAY w1)); [apply on_file_stable|apply within_sleep|apply IH].
Qed.

Lemma drain_batch_within now rows quota w : within F (all_on_file rows) w (drain_batch ctx now rows quota w).1.
Proof.
  revert quota w. induction rows as [|r rows IH]; intros quota w; simpl; [apply within_refl|].
  assert (within F (on_file r) w
    (if expired r now then (write_expired r w, quota) else process_one ctx quota r w).1) as H1.
  { destruct (expired r now); [apply write_with_retry_within|apply process_one_within]. }
  destruct (if expired r now then _ else _) as [w1 quota1]. by apply (batch_cons r rows w w1).
Qed.

Lemma discard_batch_within rows w : within F (all_on_file rows) w (discard_batch rows w).
Proof.
  revert w. induction rows as [|r rows IH]; intros w; simpl; [apply within_refl|].
  apply (batch_cons r rows w (write_discarded r w)); [apply write_with_retry_within|apply IH].
Qed.

Lemma within_ok_then P w1 w2 w3 :
  (∀ d, P d → ledger_ok d) → within F P w1 w2 → within F ledger_ok w2 w3 → within F P w1 w3.
Proof.
  intros HP. apply within_trans. intros d d' HR Hd. eapply ledger_ok_stable; eauto.
Qed.

Lemma claim_until_ok_within n ch until e w :
  rely (ledger_step F) w → ledger_ok (w_db w) →
  rely (ledger_step F) (claim_until_ok n ch until e w).1
  ∧ ledger_step F (w_db w) (w_db (claim_until_ok n ch until e w).1)
  ∧ ∀ rows, (claim_until_ok n ch until e w).2 = Some rows → all_on_file rows (w_db (claim_until_ok n ch until e w).1).
Proof.
  revert w. induction n as [|n IH]; intros w Hr Hl; simpl; [by split_and!|].
  destruct (claim_hoare F ch CLAIM_BATCH_SIZE until e w Hr Hl) as (H1 & H2 & H3).
  destruct (claim _ _ _ _ w) as [w1 [rows|err]]; simpl in *; [split_and!; [done..|by intros ? [= <-]]|].
  destruct (within_sleep F ledger_ok CLAIM_RETRY_DELAY w1 H1) as [H4 H5]; [by eapply ledger_ok_stable|].
  destruct (IH (sleep CLAIM_RETRY_DELAY w1) H4) as (H6 & H7 & H8).
  { eapply ledger_ok_stable; [exact H5|]. by eapply ledger_ok_stable. }
  split_and!; [done| |done]. etransitivity; [exact H2|]. by etransitivity.
Qed.

Lemma channel_turn_within fuel active draining quota w :
  within F ledger_ok w (channel_turn fuel ctx active draining quota w).1.
Proof.
  unfold channel_turn. apply (within_ok_then _ _ (tick w)); [done|apply within_tick|]. intros Hr Hl.
  destruct (claim_until_ok_within fuel (dc_channel ctx) (w_now (tick w) + LEASE_DURATION)
    (claim_exclusion active draining (dc_channel ctx)) (tick w) Hr Hl) as (H1 & H2 & H3).
  destruct (claim_until_ok _ _ _ _ _) as [w1 [[|r rows]|]]; simpl in *; [| |done].
  - destruct (within_tick F ledger_ok w1 H1) as [H4 H5]; [by eapply ledger_ok_stable|]. split; [done|by etransitivity].
  - destruct (process_all_within quota (r :: rows) w1 H1 (H3 _ eq_refl)) as [H4 H5]. split; [done|].
    etransitivity; [exact H2|exact H5].
Qed.

(** A claim for a scope, then whatever comes of its reply. *)
Lemma scope_claim_within pinned s limit until e w0 (k : W * result (list Outbox) SqlxError → W) :
  (∀ w1 rows, within F (λ d, ledger_ok d ∧ all_on_file rows d) w1 (k (w1, Ok rows))) →
  (∀ w1 err, within F ledger_ok w1 (k (w1, Err err))) →
  within F ledger_ok w0 (k (claim_for_scope pinned s limit until e w0)).
Proof.
  intros Hok Herr Hr Hl. destruct (claim_for_scope_hoare F pinned s limit until e w0 Hr Hl) as (H1 & H2 & H3).
  assert (ledger_ok (w_db (claim_for_scope pinned s limit until e w0).1)) as Hl1 by (by eapply ledger_ok_stable).
  destruct (claim_for_scope pinned s limit until e w0) as [w1 [rows|err]]; cbn [fst snd] in *.
  - destruct (Hok w1 rows H1 (conj Hl1 H3)) as [H4 H5]. split; [done|by etransitivity].
  - destruct (Herr w1 err H1 Hl1) as [H4 H5]. split; [done|by etransitivity].
Qed.

Lemma within_batch rows w1 w2 w3 :
  within F (all_on_file rows) w1 w2 → within F ledger_ok w2 w3 →
  within F (λ d, ledger_ok d ∧ all_on_file rows d) w1 w3.
Proof. intros H1 H2. apply (within_ok_then _ _ w2); [by intros d []| |done]. intros Hr [_ Ha]. by apply H1. Qed.

Lemma drain_within turns s rate engaged quota w :
  within F ledger_ok w (drain_released_scope turns ctx s rate engaged quota w).1.1.
Proof.
  revert quota w. induction turns as [|turns IH]; intros quota w; cbn [drain_released_scope]; [apply within_refl|].
  apply (within_ok_then _ _ (tick w)); [done|apply within_tick|]. cbv zeta.
  apply (scope_claim_within _ _ _ _ _ _ (λ p, (let '(w1, r) := p in match r with
    | Err _ => _ | Ok [] => _ | Ok _ => _ end).1.1)).
  - intros w1 [|r rows]; [apply within_refl|].
    pose proof (drain_batch_within (w_now (tick w1)) (r :: rows) quota (tick w1)) as Hb.
    destruct (drain_batch _ _ _ _ _) as [w3 quota3]. apply (within_batch (r :: rows) w1 w3).
    + apply (within_trans F _ (all_on_file (r :: rows)) _ (tick w1)); [apply all_on_file_stable|apply within_tick|done].
    + apply (within_ok_then _ _ (sleep (1 * second) w3)); [done|apply within_sleep|apply IH].
  - intros w1 err. apply (within_ok_then _ _ (sleep RETRY_DELAY w1)); [done|apply within_sleep|apply IH].
Qed.

Lemma discard_within turns s size w : within F ledger_ok w (discard_engaged_scope turns s size w).1.
Proof.
  revert w. induction turns as [|turns IH]; intros w; cbn [discard_engaged_scope]; [apply within_refl|].
  apply (within_ok_then _ _ (tick w)); [done|apply within_tick|]. cbv zeta.
  apply (scope_claim_within _ _ _ _ _ _ (λ p, (let '(w1, r) := p in match r with
    | Err _ => _ | Ok [] => _ | Ok _ => _ end).1)).
  - intros w1 [|r rows]; [apply within_refl|].
    apply (within_batch (r :: rows) w1 (discard_batch (r :: rows) w1)); [apply discard_batch_within|apply IH].
  - intros w1 err. apply (within_ok_then _ _ (sleep RETRY_DELAY w1)); [done|apply within_sleep|apply IH].
Qed.
End Dispatcher.

(** ** The receipt passes *)

(** A request on file that some event names under the reference. *)
Definition matched (m : Match) (ref : string) (d : Db) : Prop :=
  is_Some (db_request d !! (ma_comms_request_created_at m, ma_comms_request_id m)) ∧ ref ≠ ""%string
  ∧ ∃ occ ty, is_Some (db_event d !! (occ, ma_comms_request_id m, ty, ref)).

Lemma matched_stable F m ref : stable (ledger_step F) (matched m ref).
Proof.
  intros d d' HR (H1 & H2 & occ & ty & H3). split_and!; [by apply HR|done|]. exists occ, ty. by apply HR.
Qed.
#[export] Hint Resolve matched_stable : core.

Lemma find_match_matched ref d m : find_match ref d = Some m → matched m ref d.
Proof.
  intros (Hne & r & Hr & _ & _ & _ & occ & ty & He)%find_match_Some. split_and!; [by eexists|done|eauto].
Qed.

Lemma matched_not_queued m ref d : ledger_ok d → matched m ref d → db_outbox d !! ma_comms_request_id m = None.
Proof. intros Hok (_ & Hne & occ & ty & He). by eapply (lo_ref d Hok). Qed.

Lemma step_receipt_event F m rc ct d :
  matched m (rc_provider_ref rc) d → ledger_step F d (receipt_event m rc ct d).
Proof.
  intros Hm.
  assert (∀ k, is_Some (db_event d !! k) → is_Some (db_event (receipt_event m rc ct d) !! k)) as Hkeep.
  { intros k [e He]. rewrite receipt_event_lookup, He. by eexists. }
  assert (∀ k, is_Some (db_event (receipt_event m rc ct d) !! k) → is_Some (db_event d !! k)
    ∨ k = (rc_occurred_at rc, ma_comms_request_id m, rc_event_type rc, rc_provider_ref rc)) as Hnew.
  { intros k. rewrite receipt_event_lookup. destruct (db_event d !! k); [by left; eexists|].
    case_decide; [by right|by intros []]. }
  split; [|done|exact Hkeep|].
  - intros Hok. pose proof (matched_not_queued m _ d Hok Hm) as Hq. destruct Hok as [A B C D]. split; [exact A|exact B|exact C|].
    intros occ id ty ref [He|[= -> -> -> ->]]%Hnew Hne; [by eapply D|exact Hq].
  - intros id _ _ (H1 & H2 & H3). split_and!; [done|done|]. intros occ ty ref. apply eq_None_not_Some.
    intros [[e He]|[= -> -> -> ->]]%Hnew; [by rewrite H3 in He|].
    destruct Hm as ([q Hq] & _). by rewrite H2 in Hq.
Qed.

Lemma step_finalize F m ref status t d :
  matched m ref d →
  ledger_step F d (finalize (ma_comms_request_created_at m) (ma_comms_request_id m) status t d).
Proof.
  intros Hm. set (d' := finalize _ _ _ _ _).
  assert (∀ k, is_Some (db_request d' !! k) ↔ is_Some (db_request d !! k)) as Hrq.
  { intros k. unfold d'; simpl. rewrite lookup_alter. case_decide; [subst|done]. by rewrite fmap_is_Some. }
  split; [|by intros k; rewrite Hrq|done|].
  - intros Hok. pose proof (matched_not_queued m _ d Hok Hm) as Hq. destruct Hok as [A B C D]. split; [| | |exact D].
    + intros id r Hr. destruct (A id r Hr) as [Hid (q & Hq' & Hn)]. split; [done|]. exists q. unfold d'; simpl.
      rewrite lookup_alter_ne; [done|]. intros [= _ Heq]. rewrite <- Heq in Hr. change (db_outbox d !! ma_comms_request_id m = Some r) in Hr. congruence.
    + intros c id q. unfold d'; simpl. rewrite lookup_alter. case_decide as Hk; [|apply B].
      destruct (db_request d !! _); simpl; [|done]. by intros [= <-].
    + intros id c1 c2. rewrite !Hrq. apply C.
  - intros id _ _ (H1 & H2 & H3). split_and!; [done| |done]. intros c. apply eq_None_not_Some. rewrite Hrq.
    by rewrite H2; intros [].
Qed.

Lemma tx_post_event_ledger F m rc ct advance :
  tx_post (insert_comms_event m rc ct advance)
    (λ d d' _, matched m (rc_provider_ref rc) d → ledger_step F d d').
Proof.
  set (P := matched m (rc_provider_ref rc)).
  assert (∀ d d1 d2, (P d → ledger_step F d d1) → (P d1 → ledger_step F d1 d2) → P d → ledger_step F d d2) as Htr.
  { intros d d1 d2 H1 H2 Hp. etransitivity; [by apply H1|]. apply H2. eapply matched_stable; [by apply H1|done]. }
  unfold insert_comms_event. apply (tx_post_bind _ _ (λ d d' _, P d → ledger_step F d d')).
  { apply tx_post_exec. intros t d. apply step_receipt_event. }
  intros _. apply (tx_post_bind _ _ (λ d d' _, P d → ledger_step F d d')).
  - destruct advance; [|apply tx_post_ret; by intros d _].
    apply (tx_post_bind _ _ (λ d d' _, d = d')); [by apply tx_post_now|]. intros now.
    apply tx_post_exec. intros t d ? <-. apply step_finalize.
  - intros _. destruct (auto_suppress_reason _) as [reason|].
    + apply (tx_post_bind _ _ (λ d d' _, d = d')); [by apply tx_post_now|]. intros now.
      apply tx_post_exec. intros t d ? -> d1 H1 d0 H0. eapply Htr; [exact H0|]. eapply Htr; [exact H1|].
      intros _. by apply step_same.
    + apply tx_post_ret. intros d d0 H0 d1 H1. by eapply Htr.
Qed.

Lemma promote_sustains F m rc ct advance (f : Db → Db) :
  (∀ d, ledger_step F d (f d)) →
  sustains (ledger_step F) (matched m (rc_provider_ref rc))
    (transaction (insert_comms_event m rc ct advance ;! exec (λ _, f)) (λ _, true)).
Proof.
  intros Hf. apply sustains_transaction; [apply _|auto|].
  eapply tx_post_bind; [apply tx_post_event_ledger|]. intros u. apply tx_post_exec.
  intros t d d0 H0 _ Hm. etransitivity; [by apply H0|apply Hf].
Qed.

Lemma match_receipt_ledger F ty ref :
  hoare (ledger_step F) (λ _, True) (match_receipt ty ref)
    (λ o d, ∀ m, o = Some m → matched m ref d) (λ _, True).
Proof.
  unfold match_receipt. destruct (is_recognized_event_type ty).
  - apply hoare_lift, hoare_query; [apply _|by intros ????|done|]. intros t d _ m. apply find_match_matched.
  - by apply hoare_ret; [apply _|].
Qed.

(** A step that matches a receipt, and what follows for the match. *)
Lemma matched_then F ty ref {A} (k : option Match → Eff PromoteError A) :
  (∀ m, sustains (ledger_step F) (matched m ref) (k (Some m))) → guar (ledger_step F) (k None) →
  guar (ledger_step F) (ebind (match_receipt ty ref) k).
Proof.
  intros Hm Hn. apply (guar_hoare _ _ (λ _ _, True) (λ _, True)). eapply hoare_bind; [apply _|apply match_receipt_ledger|]. intros [m|].
  - eapply hoare_weaken; [apply Hm|by intros d Hd; apply Hd|done..].
  - eapply hoare_weaken; [apply (sustains_guar (ledger_step F) (λ _, True)); [by intros ????|exact Hn]|done..].
Qed.

Lemma to_orphan_guar F fresh s : guar (ledger_step F) (to_orphan fresh s).
Proof.
  unfold to_orphan. step_guar.
  - apply tx_guar_sql. intros t d d' u. unfold insert_orphan. destruct (db_orphan d !! _); intros [=]; subst.
    by apply step_same.
  - apply tx_guar_exec. intros t d. by apply step_same.
Qed.
#[export] Hint Resolve to_orphan_guar : effects.

Lemma record_miss_guar F id cap : guar (ledger_step F) (record_miss id cap).
Proof.
  unfold record_miss. step_guar.
  - apply guar_sql; [apply _|]. intros t d d' u. unfold bump_attempts.
    destruct (db_orphan d !! id); [destruct (_ <=? _)|]; intros [=]; subst; by apply step_same.
  - apply guar_exec; [apply _|]. intros t d. by apply step_same.
Qed.
#[export] Hint Resolve record_miss_guar : effects.

Section Passes.
Context `{!UuidText} `{AE : !Aead}.
Context (F : gset N) (dek : N → Eff CustomerDekError string) (to_vec : string → string).
Context (nonce : N → string) (fresh : N → N) `{HD : !DekService dek}.

Lemma seal_guar row m raw : guar (ledger_step F) (Receipts.seal dek to_vec nonce row m raw).
Proof. apply guar_seal; [apply _..|]. intros f d. by apply step_same. Qed.
Hint Resolve seal_guar : effects.

Lemma promote_one_guar s rep : guar (ledger_step F) (promote_one dek to_vec nonce fresh s rep).
Proof.
  unfold promote_one. apply matched_then; [|step_guar]. intros m. unfold promote_match. step_sustain.
  apply (promote_sustains F m (staging_receipt s)). intros d. by apply step_same.
Qed.

Lemma reconcile_one_guar cap o rep : guar (ledger_step F) (reconcile_one dek to_vec nonce cap o rep).
Proof.
  unfold reconcile_one. apply matched_then; [|step_guar]. intros m. unfold reconcile_match. step_sustain.
  apply (promote_sustains F m (orphan_receipt o)). intros d. by apply step_same.
Qed.

Lemma promote_run_guar : guar (ledger_step F) (promote_run dek to_vec nonce fresh).
Proof.
  unfold promote_run. step_guar. apply guar_for_each; [apply _|]. intros s rep _. apply promote_one_guar.
Qed.

Lemma reconcile_run_guar cap : guar (ledger_step F) (reconcile_run dek to_vec nonce cap).
Proof.
  unfold reconcile_run. step_guar. apply guar_for_each; [apply _|]. intros o rep _. apply reconcile_one_guar.
Qed.
End Passes.

(** ** Ingest *)

(** The id drawn for a request is new, and the other processes leave it alone. *)
Definition drawn (id : N) (d : Db) : Prop := ledger_ok d ∧ unused id d.
Lemma drawn_stable F id : stable (ledger_step ({[id]} ∪ F)) (drawn id).
Proof.
  intros d d' HR [Hok Hu]. split; [by apply HR|]. apply (ls_unused _ _ _ HR); [done|set_solver|done].
Qed.

(** The ledger row and the queue row of a new id, in one step. *)
Lemma step_accept F id n now d :
  id ∉ F → unused id d →
  ledger_step F d
    (on_outbox (<[id := outbox_row n id now]>) (on_request (<[(now, id) := request_row n]>) d)).
Proof.
  intros Hid (Hob & Hrq & Hev). set (d' := on_outbox _ _).
  assert (∀ k, is_Some (db_request d !! k) → is_Some (db_request d' !! k)) as Hkeep.
  { intros k Hk. unfold d'; simpl. rewrite lookup_insert_is_Some. destruct (decide ((now, id) = k)); auto. }
  split; [|exact Hkeep|done|].
  - intros [A B C D]. split; unfold d'; simpl.
    + intros i r. rewrite lookup_insert_Some. intros [[<- <-]|[Hne Hr]]; simpl.
      * split; [done|]. exists (request_row n). by rewrite lookup_insert_eq.
      * destruct (A i r Hr) as [-> (q & Hq & Hn)]. split; [done|]. exists q. by rewrite lookup_insert_ne by congruence.
    + intros c i q. rewrite lookup_insert_Some. intros [[[= <- <-] <-]|[Hne Hq]] Hn.
      * exists (outbox_row n id now). by rewrite lookup_insert_eq.
      * destruct (B c i q Hq Hn) as (r & Hr & Hc). exists r. split; [|done].
        rewrite lookup_insert_ne; [done|]. intros <-. congruence.
    + intros i c1 c2. rewrite !lookup_insert_is_Some. destruct (decide (i = id)) as [->|Hne].
      * intros [[= ->]|[_ [q1 H1]]] [[= ->]|[_ [q2 H2]]]; rewrite ?Hrq in *; congruence.
      * intros [[=]|[_ H1]] [[=]|[_ H2]]; try congruence. by eapply C.
    + intros occ i ty ref He Hne. rewrite lookup_insert_ne; [by eapply D|]. intros <-. by rewrite Hev in He; destruct He.
  - intros i _ Hi (H1 & H2 & H3). assert (id ≠ i) as Hne by set_solver. split_and!; unfold d'; simpl.
    + by rewrite lookup_insert_ne.
    + intros c. rewrite lookup_insert_ne by congruence. apply H2.
    + done.
Qed.

(** A run that uses up the drawn id: the processes around it leave [id] and [F]
    alone, and it leaves [F] alone. *)
Definition uses (F : gset N) (id : N) {E A} (m : Eff E A) : Prop :=
  ∀ w, rely (ledger_step ({[id]} ∪ F)) w → drawn id (w_db w) →
    rely (ledger_step ({[id]} ∪ F)) (m w).1 ∧ ledger_step F (w_db w) (w_db (m w).1).

Section Uses.
Context (F : gset N) (id : N).
Let G : gset N := {[id]} ∪ F.

Lemma forget_id d d' : ledger_step G d d' → ledger_step F d d'.
Proof. apply ledger_step_weaken. unfold G. set_solver. Qed.

Lemma uses_guar {E A} (m : Eff E A) : guar (ledger_step G) m → uses F id m.
Proof. intros Hm w Hr _. destruct (Hm w Hr) as [H1 H2]. split; [done|by apply forget_id]. Qed.

Lemma uses_later {E A B} (m : Eff E A) (k : A → Eff E B) :
  guar (ledger_step G) m → (∀ a, uses F id (k a)) → uses F id (ebind m k).
Proof.
  intros Hm Hk w Hr Hd. destruct (Hm w Hr) as [H1 H2]. unfold ebind.
  assert (drawn id (w_db (m w).1)) as Hd1 by (by eapply drawn_stable).
  destruct (m w) as [w1 [a|e]]; simpl in *; [|split; [done|by apply forget_id]].
  destruct (Hk a w1 H2 Hd1) as [H3 H4]. split; [done|]. etransitivity; [by apply forget_id|done].
Qed.

Lemma uses_now {E A B} (m : Eff E A) (k : A → Eff E B) :
  uses F id m → (∀ a, guar (ledger_step G) (k a)) → uses F id (ebind m k).
Proof.
  intros Hm Hk w Hr Hd. destruct (Hm w Hr Hd) as [H1 H2]. unfold ebind.
  destruct (m w) as [w1 [a|e]]; simpl in *; [|done].
  destruct (Hk a w1 H1) as [H3 H4]. split; [done|]. etransitivity; [done|by apply forget_id].
Qed.

Lemma uses_lift {E E' A} (f : E → E') (m : Eff E A) : uses F id m → uses F id (elift f m).
Proof. intros Hm w Hr Hd. unfold elift. specialize (Hm w Hr Hd). by destruct (m w). Qed.

Lemma uses_transaction {A} (body : Eff SqlxError A) keep :
  tx_post body (λ d d' a, keep a = true → drawn id d → ledger_step F d d') → uses F id (transaction body keep).
Proof.
  intros Hb w Hr Hd. pose proof (transaction_split (ledger_step G) body keep _ w Hb Hr) as Hs.
  destruct (transaction body keep w) as [w' r]; simpl. destruct Hs as (H1 & d0 & H2 & Hs). split; [done|].
  assert (drawn id d0) as Hd0 by (by eapply drawn_stable). apply forget_id in H2. destruct r as [a|e].
  - destruct Hs as (d1 & HQ & ->). destruct (keep a); [|done]. etransitivity; [exact H2|by apply HQ].
  - destruct Hs as [->|(a & Hk & HQ)]; [done|]. etransitivity; [exact H2|by apply HQ].
Qed.

Lemma insert_transactional_uses key n : id ∉ F → uses F id (insert_transactional key id n).
Proof.
  intros Hid. unfold insert_transactional. apply uses_later; [step_guar|]. intros now.
  apply uses_now; [|intros [|]; step_guar]. apply uses_transaction.
  eapply (tx_post_bind _ _ (λ d d' b, d' = d ∨ b = true ∧ ∃ f, d' = on_idempotency f d)).
  { apply tx_post_sql. intros _ d d' b [= Hc]. unfold claim_key in Hc.
    destruct (db_idempotency d !! _); simplify_eq; eauto. }
  intros [|]; [|by apply tx_post_ret; intros d d0 _].
  eapply (tx_post_bind _ _ (λ d d' _, d' = on_request (<[(now, id) := request_row n]>) d)).
  { apply tx_post_sql. intros _ d d' u. unfold insert_request. destruct (db_request d !! _); [done|by intros [= <-]]. }
  intros _. eapply (tx_post_bind _ _ (λ d d' _, d' = on_outbox (<[id := outbox_row n id now]>) d)).
  { apply tx_post_sql. intros _ d d' u. unfold insert_outbox. destruct (db_outbox d !! _); [done|by intros [= <-]]. }
  intros _. apply tx_post_ret. intros d d2 -> d1 -> d0 H0 _ [_ Hu].
  assert (ledger_step F d0 d1 ∧ unused id d1) as [H1 Hu1].
  { destruct H0 as [->|[_ [f ->]]]; [done|]. split; [by apply step_same|done]. }
  etransitivity; [exact H1|by apply step_accept].
Qed.
End Uses.

Lemma cancel_guar F id producer : guar (ledger_step F) (Ingest.cancel id producer).
Proof.
  unfold Ingest.cancel, cancel_via. step_guar; [|by apply (guar_query _ (λ _, final_status_of id producer))].
  apply guar_sql; [apply _|]. intros t d d' b [= Hm]. unfold mark_cancelled in Hm.
  destruct (db_outbox d !! id) as [r|] eqn:Hr; [|by simplify_eq].
  destruct (decide (ob_producer_id r = producer)); simplify_eq; [|done]. apply step_outbox.
  - intros i. rewrite lookup_insert_None. split; [by intros []|]. intros Hi. split; [done|congruence].
  - intros i r0 r'. rewrite lookup_insert_Some. intros Hr0 [[<- <-]|[_ Hr']]; simplify_eq; done.
Qed.

Lemma clear_leases_step F d : ledger_step F d (clear_leases d).
Proof.
  apply step_outbox; [intros i; by rewrite lookup_fmap, fmap_None|].
  intros i r r' Hr. rewrite lookup_fmap, Hr. by intros [= <-].
Qed.

Lemma clear_stale_leases_guar F : guar (ledger_step F) clear_stale_leases.
Proof. apply guar_sql; [apply _|]. intros t d d' n [= <- _]. apply clear_leases_step. Qed.

Section Acceptance.
Context `{!UuidText} `{AE : !Aead}.
Context (F : gset N) (tn : TenantContext) (plain : string → string) `{HS : !KeyServiceLaws (tn_keys tn) plain}.

Lemma create_comms_uses producer header body dr :
  dr_request_id dr ∉ F → uses F (dr_request_id dr) (create_comms tn producer header body dr).
Proof.
  intros Hid. set (G := {[dr_request_id dr]} ∪ F).
  assert (∀ input, guar (ledger_step G) (resolve (tn_keys tn) (tn_hmac tn) (tn_default_locale tn)
    (tn_default_timezone tn) dr input (rq_destination body) (rq_channel body))) as Hres.
  { intros input. by apply (resolve_frame (tn_keys tn) plain); [apply _|intros; apply step_same..]. }
  assert (∀ c, guar (ledger_step G) (sv_get_dek (tn_keys tn) c)) as Hdek.
  { intros c. apply svc_get_guar; [apply _|]. intros f d. by apply step_same. }
  unfold create_comms, submit_comms, validate_schedule, accept_comms.
  repeat (apply uses_later; [solve [step_guar]|intros ?]).
  case_match; [apply uses_guar; step_guar|]. case_match; [apply uses_guar; step_guar|].
  repeat (apply uses_later; [solve [step_guar]|intros ?]).
  apply uses_now; [by apply uses_lift, insert_transactional_uses|step_guar].
Qed.
End Acceptance.

(** ** The guarantees *)

(** The invariant holds afterwards, and no request and no event is gone: each
    request is final or still queued. *)
Definition ledger_kept (d d' : Db) : Prop :=
  ledger_ok d'
  ∧ (∀ k, is_Some (db_event d !! k) → is_Some (db_event d' !! k))
  ∧ ∀ created id, is_Some (db_request d !! (created, id)) →
      ∃ q, db_request d' !! (created, id) = Some q
        ∧ ((∃ status, cr_final_status q = Some status ∧ db_outbox d' !! id = None)
           ∨ cr_final_status q = None ∧ ∃ r, db_outbox d' !! id = Some r ∧ ob_created_at r = created).

Lemma ledger_step_kept F d d' : ledger_step F d d' → ledger_ok d → ledger_kept d d'.
Proof.
  intros HR Hok. pose proof (ls_ok _ _ _ HR Hok) as Hok'. split; [done|]. split; [apply HR|].
  intros created id Hq. destruct (ls_request _ _ _ HR (created, id) Hq) as [q Hq']. exists q. split; [done|].
  destruct (cr_final_status q) as [status|] eqn:Hs; [left|right; split; [done|by eapply lo_open]].
  exists status. split; [done|]. destruct (db_outbox d' !! id) as [r|] eqn:Hr; [|done].
  destruct (lo_row d' Hok' id r Hr) as [_ (q2 & Hq2 & Hn)].
  assert (ob_created_at r = created) as <- by (eapply (lo_unique d' Hok' id); by eexists). congruence.
Qed.

Section Guarantees.
Context `{!UuidText} `{AE : !Aead}.
Context (F : gset N) (w : W).

(** C6. Sending loses no request: among processes that keep the ledger in order, a
    turn of the channel loop, a drain, a discard and the sweep of stale leases leave
    every request either final and out of the queue or open and queued, and every
    event on record, whichever statements and commits fail and however the sends end. *)
Theorem sending_loses_no_request {Tz : Type} `{!TimeZone Tz} (ctx : DispatcherContext)
    `{HD : !DekService (dc_dek ctx)} fuel turns active draining engaged rate size (s : KillSwitch)
    (quota : QuotaTracker Tz) :
  rely (ledger_step F) w → ledger_ok (w_db w) →
  ledger_kept (w_db w) (w_db (channel_turn fuel ctx active draining quota w).1)
  ∧ ledger_kept (w_db w) (w_db (drain_released_scope turns ctx s rate engaged quota w).1.1)
  ∧ ledger_kept (w_db w) (w_db (discard_engaged_scope turns s size w).1)
  ∧ ledger_kept (w_db w) (w_db (clear_stale_leases w).1).
Proof.
  intros Hr Hok. split_and!; eapply ledger_step_kept; try exact Hok.
  - by apply (channel_turn_within F ctx fuel active draining quota w).
  - by apply (drain_within F ctx turns s rate engaged quota w).
  - by apply (discard_within F turns s size w).
  - by apply (clear_stale_leases_guar F w).
Qed.

(** C7. Ingest loses no request: accepting one, with an id that was drawn new and
    that the others leave alone, and cancelling one keep every request final and out
    of the queue or open and queued, whatever fails halfway and whatever the answer. *)
Theorem ingest_loses_no_request (tn : TenantContext) (plain : string → string)
    `{HS : !KeyServiceLaws (tn_keys tn) plain} producer header body dr id :
  rely (ledger_step ({[dr_request_id dr]} ∪ F)) w → dr_request_id dr ∉ F →
  ledger_ok (w_db w) → unused (dr_request_id dr) (w_db w) →
  ledger_step F (w_db w) (w_db (create_comms tn producer header body dr w).1)
  ∧ ledger_kept (w_db w) (w_db (create_comms tn producer header body dr w).1)
  ∧ ledger_kept (w_db w) (w_db (cancel_comms producer id w).1).
Proof.
  intros Hr Hid Hok Hu.
  destruct (create_comms_uses F tn plain producer header body dr Hid w Hr (conj Hok Hu)) as [_ Hs].
  split; [exact Hs|]. split; [by eapply ledger_step_kept|]. eapply ledger_step_kept; [|done].
  assert (guar (ledger_step ({[dr_request_id dr]} ∪ F)) (cancel_comms producer id)) as Hg.
  { pose proof (cancel_guar ({[dr_request_id dr]} ∪ F) id producer). unfold cancel_comms. step_guar. }
  by apply Hg.
Qed.

(** Receipts lose no request: a promotion pass and a reconciliation pass keep
    every request final and out of the queue or open and queued, and never finish a
    request that is still queued, whatever fails halfway. *)
Theorem receipts_lose_no_request (dek : N → Eff CustomerDekError string) (to_vec : string → string)
    (nonce : N → string) (fresh : N → N) `{HD : !DekService dek} cap :
  rely (ledger_step F) w → ledger_ok (w_db w) →
  ledger_kept (w_db w) (w_db (promote_run dek to_vec nonce fresh w).1)
  ∧ ledger_kept (w_db w) (w_db (reconcile_run dek to_vec nonce cap w).1).
Proof.
  intros Hr Hok. split; eapply ledger_step_kept; try exact Hok.
  - by apply (promote_run_guar F dek to_vec nonce fresh w).
  - by apply (reconcile_run_guar F dek to_vec nonce cap w).
Qed.
End Guarantees.

(** ** Concrete runs *)

#[local] Existing Instance demo_uuid.
#[local] Existing Instance demo_aead.

(** One queued request; beside the run, sweeps of stale leases, and a reply that
    is lost after its statement ran. *)
Definition open_world : W :=
  World (demo_db [demo_transactional 1]) 100 false
    [Move 0 NoFault clear_leases; Move 5 FaultAfter id; Move 1 NoFault clear_leases] [].

Lemma open_world_rely F : rely (ledger_step F) open_world.
Proof. split; [|done]. repeat apply Forall_cons_2; [intros d; first [apply clear_leases_step|reflexivity]..|done]. Qed.

Lemma open_world_ok : ledger_ok (w_db open_world).
Proof.
  split; unfold open_world, demo_db; simpl.
  - intros id r. rewrite insert_empty, lookup_singleton_Some. intros [<- <-]. split; [done|]. by exists demo_request.
  - intros c id q. rewrite insert_empty, lookup_singleton_Some. intros [[= <- <-] <-] _.
    by exists (demo_transactional 1).
  - intros id c1 c2 [q1 H1] [q2 H2]. rewrite insert_empty, lookup_singleton_Some in H1, H2. naive_solver congruence.
  - intros occ id ty ref []%lookup_empty_is_Some.
Qed.

Lemma sending_witness :
  ledger_kept (w_db open_world) (w_db (channel_turn 3 (demo_ctx accepted verification_mode.OBSERVE)
    empty_active ∅ (demo_quota None) open_world).1).
Proof.
  refine (proj1 (sending_loses_no_request ∅ open_world (demo_ctx accepted verification_mode.OBSERVE)
    3 0 empty_active ∅ (λ _, empty_active) 1 1 (demo_switch scope.GLOBAL None) (demo_quota None)
    (open_world_rely _) open_world_ok)).
Defined.

Lemma ingest_ledger_witness :
  ledger_kept (w_db open_world) (w_db (create_comms demo_tenant 7 (Some "k1"%string) demo_body demo_draws open_world).1).
Proof.
  refine (proj1 (proj2 (ingest_loses_no_request {[55%N]} open_world demo_tenant (λ _, demo_dek) 7
    (Some "k1"%string) demo_body demo_draws 1%N (HS := cold_service_laws _ _) _ _ _ _))).
  - apply open_world_rely.
  - vm_compute. by intros [=].
  - apply open_world_ok.
  - split_and!; [done|intros c|intros; apply lookup_empty]. unfold open_world, demo_db; simpl.
    rewrite insert_empty. apply lookup_singleton_ne. by intros [=].
Defined.

Lemma receipts_ledger_witness :
  ledger_kept (w_db open_world) (w_db (promote_run ready_dek (λ s, s) (λ _, "nonce-of-12-"%string) id open_world).1).
Proof.
  refine (proj1 (receipts_lose_no_request ∅ open_world ready_dek (λ s, s) (λ _, "nonce-of-12-"%string) id 5
    (open_world_rely _) open_world_ok)).
Defined.
