(* ===== verification/Tenancy.v ===== *)
(** * Tenants: the control database, tenant pools and the registry

    Models [src/tenant/{model,repo,pool,registry}.rs], the parts of [src/db.rs]
    they use, [src/tenant_pepper.rs], [src/producer/{resolve,cert_repo}.rs] and
    [src/ingest/identity.rs]: how a certificate or an id leads to one tenant and
    its own database. *)

From S2P Require Import Prelude RustStd Time Schema KillSwitch QuietHours Dek Customer Outbox Worker Ingest.
From stdpp Require Import base gmap strings list.
From Stdlib Require Import ZArith Lia.

Local Open Scope effect_scope.
Local Open Scope Z_scope.

(** ** Rows *)

Module status.
Definition PROVISIONING : string := "provisioning".
Definition ACTIVE : string := "active".
Definition SUSPENDED : string := "suspended".
Definition OFFBOARDING_ARCHIVE : string := "offboarding_archive".
Definition OFFBOARDING_DESTROY : string := "offboarding_destroy".
End status.

Record Tenant : Type := MkTenantRow {
  tt_id : N;
  tt_slug : string;
  tt_region : string;
  tt_database_name : string;
  tt_vault_mount : string;
  tt_vault_role_id : option string;
  tt_vault_pepper_wrapped : option string;
  tt_webhook_token : string;
  tt_status : string;
  tt_created_at : Z;
}.

Definition tt_set_status (s : string) (t : Tenant) : Tenant :=
  MkTenantRow (tt_id t) (tt_slug t) (tt_region t) (tt_database_name t) (tt_vault_mount t) (tt_vault_role_id t)
    (tt_vault_pepper_wrapped t) (tt_webhook_token t) s (tt_created_at t).
Definition tt_set_role (r : string) (t : Tenant) : Tenant :=
  MkTenantRow (tt_id t) (tt_slug t) (tt_region t) (tt_database_name t) (tt_vault_mount t) (Some r)
    (tt_vault_pepper_wrapped t) (tt_webhook_token t) (tt_status t) (tt_created_at t).
Definition tt_set_pepper (p : string) (t : Tenant) : Tenant :=
  MkTenantRow (tt_id t) (tt_slug t) (tt_region t) (tt_database_name t) (tt_vault_mount t) (tt_vault_role_id t)
    (Some p) (tt_webhook_token t) (tt_status t) (tt_created_at t).

(** A [producer_cert] row, under its subject. *)
Record CertRow : Type := MkCert { pc_tenant_id : N; pc_producer_id : N; pc_enabled : bool }.

(** A [producer] row, under its id. *)
Record Producer : Type := MkProducer {
  pr_id : N;
  pr_name : string;
  pr_cert_subject : string;
  pr_owner_team : string;
  pr_contact : string;
  pr_enabled : bool;
  pr_created_at : Z;
}.

Record TenantConfig : Type := MkConfig {
  cf_retention_years : Z;
  cf_default_timezone : string;
  cf_default_locale : string;
  cf_schedule_horizon_days : Z;
  cf_quota_day_boundary_tz : string;
  cf_verification_mode : string;
  cf_kill_switch_release_rate : Z;
  cf_reconcile_attempts_cap : Z;
}.

#[export] Instance Tenant_eq_dec : EqDecision Tenant.
Proof. solve_decision. Defined.
#[export] Instance Producer_eq_dec : EqDecision Producer.
Proof. solve_decision. Defined.
#[export] Instance TenantConfig_eq_dec : EqDecision TenantConfig.
Proof. solve_decision. Defined.

(** A [provider_config] row, under its channel and priority. *)
Record ProviderConfig : Type := MkProvider {
  pv_provider : string;
  pv_credential_path : string;
  pv_rate_limit_per_sec : Z;
}.
#[export] Instance ProviderConfig_eq_dec : EqDecision ProviderConfig.
Proof. solve_decision. Defined.

(** ** The cluster *)

(** An [access_audit] row, without its random id. *)
Record AccessAudit : Type := MkAccess {
  aa_occurred_at : Z;
  aa_actor : string;
  aa_role : string;
  aa_route : string;
  aa_customer_id : option N;
  aa_query_params : string;
}.

(** A monthly table of the ledger, by name: the table it is a partition of while it is
    attached, the instants its rows fall between, the tablespaces of the table and of
    its indexes ([None] is the default one), and, once detached, the rows it took along. *)
Record Relation : Type := MkRelation {
  rl_parent : option string;
  rl_from : Z;
  rl_to : Z;
  rl_tablespace : option string;
  rl_index : gmap string (option string);
  rl_request : gmap (Z * N) CommsRequest;
  rl_event : gmap (Z * N * string * string) CommsEvent;
}.

(** One tenant's database: the tables of Schema.v, the producers, the single
    configuration row, the providers, the quiet hours by scope and scope key, the
    access audit and the monthly tables. *)
Record TenantDb : Type := MkTenantDb {
  td_tables : Db;
  td_producer : gmap N Producer;
  td_config : option TenantConfig;
  td_provider : gmap (string * Z) ProviderConfig;
  td_quiet_hours : gmap (string * string) QuietHoursPolicy;
  td_access_audit : list AccessAudit;
  td_relation : gmap string Relation;
}.
Definition empty_tenant_db : TenantDb := MkTenantDb empty_db ∅ None ∅ ∅ [] ∅.

(** The control database, the databases of the server by name, the mounts Vault
    holds a key for, the tenants whose [auth_enabled] column is false, and the files
    of the host by path, as lines. *)
Record Cluster : Type := MkCluster {
  cl_tenant : gmap N Tenant;
  cl_cert : gmap string CertRow;
  cl_version : gmap N Z;
  cl_platform_switch : gmap N PlatformKillSwitch;
  cl_audit : list AuditRow;
  cl_database : gmap string TenantDb;
  cl_key : gset string;
  cl_auth_disabled : gset N;
  cl_disk : gmap string (list string);
}.

Definition on_tenant f (c : Cluster) : Cluster :=
  MkCluster (f (cl_tenant c)) (cl_cert c) (cl_version c) (cl_platform_switch c) (cl_audit c) (cl_database c) (cl_key c) (cl_auth_disabled c)
    (cl_disk c).
Definition on_cert f (c : Cluster) : Cluster :=
  MkCluster (cl_tenant c) (f (cl_cert c)) (cl_version c) (cl_platform_switch c) (cl_audit c) (cl_database c) (cl_key c) (cl_auth_disabled c)
    (cl_disk c).
Definition on_version f (c : Cluster) : Cluster :=
  MkCluster (cl_tenant c) (cl_cert c) (f (cl_version c)) (cl_platform_switch c) (cl_audit c) (cl_database c) (cl_key c) (cl_auth_disabled c)
    (cl_disk c).
Definition on_platform f (c : Cluster) : Cluster :=
  MkCluster (cl_tenant c) (cl_cert c) (cl_version c) (f (cl_platform_switch c)) (cl_audit c) (cl_database c) (cl_key c) (cl_auth_disabled c)
    (cl_disk c).
Definition on_control_audit f (c : Cluster) : Cluster :=
  MkCluster (cl_tenant c) (cl_cert c) (cl_version c) (cl_platform_switch c) (f (cl_audit c)) (cl_database c) (cl_key c) (cl_auth_disabled c)
    (cl_disk c).
Definition on_database f (c : Cluster) : Cluster :=
  MkCluster (cl_tenant c) (cl_cert c) (cl_version c) (cl_platform_switch c) (cl_audit c) (f (cl_database c)) (cl_key c) (cl_auth_disabled c)
    (cl_disk c).
Definition on_key f (c : Cluster) : Cluster :=
  MkCluster (cl_tenant c) (cl_cert c) (cl_version c) (cl_platform_switch c) (cl_audit c) (cl_database c) (f (cl_key c)) (cl_auth_disabled c)
    (cl_disk c).

Definition on_disk f (c : Cluster) : Cluster :=
  MkCluster (cl_tenant c) (cl_cert c) (cl_version c) (cl_platform_switch c) (cl_audit c) (cl_database c) (cl_key c)
    (cl_auth_disabled c) (f (cl_disk c)).

Definition on_tables f (d : TenantDb) : TenantDb :=
  MkTenantDb (f (td_tables d)) (td_producer d) (td_config d) (td_provider d)
    (td_quiet_hours d) (td_access_audit d) (td_relation d).
Definition on_producer f (d : TenantDb) : TenantDb :=
  MkTenantDb (td_tables d) (f (td_producer d)) (td_config d) (td_provider d)
    (td_quiet_hours d) (td_access_audit d) (td_relation d).
Definition set_config (x : TenantConfig) (d : TenantDb) : TenantDb :=
  MkTenantDb (td_tables d) (td_producer d) (Some x) (td_provider d)
    (td_quiet_hours d) (td_access_audit d) (td_relation d).
Definition on_provider f (d : TenantDb) : TenantDb :=
  MkTenantDb (td_tables d) (td_producer d) (td_config d) (f (td_provider d))
    (td_quiet_hours d) (td_access_audit d) (td_relation d).
Definition on_quiet_hours f (d : TenantDb) : TenantDb :=
  MkTenantDb (td_tables d) (td_producer d) (td_config d) (td_provider d)
    (f (td_quiet_hours d)) (td_access_audit d) (td_relation d).
Definition on_access_audit f (d : TenantDb) : TenantDb :=
  MkTenantDb (td_tables d) (td_producer d) (td_config d) (td_provider d)
    (td_quiet_hours d) (f (td_access_audit d)) (td_relation d).
Definition on_relation f (d : TenantDb) : TenantDb :=
  MkTenantDb (td_tables d) (td_producer d) (td_config d) (td_provider d)
    (td_quiet_hours d) (td_access_audit d) (f (td_relation d)).

Abbreviation CW := (world Cluster Call).
Abbreviation CEff := (M Cluster Call).

(** A statement on a tenant pool, which is bound to the database it names. *)
Definition on_pool {A} (pool : string) (f : Z → TenantDb → result (TenantDb * A) SqlxError)
    (t : Z) (c : Cluster) : result (Cluster * A) SqlxError :=
  match cl_database c !! pool with
  | None => Err SqlIo
  | Some d => match f t d with
              | Ok (d', a) => Ok (on_database (<[pool := d']>) c, a)
              | Err e => Err e
              end
  end.
Definition pool_sql {A} (pool : string) (f : Z → TenantDb → result (TenantDb * A) SqlxError) : CEff SqlxError A :=
  sql (on_pool pool f).
Definition pool_query {A} (pool : string) (f : Z → TenantDb → A) : CEff SqlxError A :=
  pool_sql pool (λ t d, Ok (d, f t d)).

(** A read leaves the cluster as it is. *)
Lemma pool_query_id {A} pool (f : Z → TenantDb → A) t c c' a :
  on_pool pool (λ t d, Ok (d, f t d)) t c = Ok (c', a) → c' = c ∧ ∃ d, cl_database c !! pool = Some d ∧ a = f t d.
Proof.
  unfold on_pool. destruct (cl_database c !! pool) as [d|] eqn:Hd; intros [= <- <-]. split; [|eauto].
  destruct c; unfold on_database; simpl in *. by rewrite insert_id.
Qed.
Lemma guar_pool_query (R : relation Cluster) `{!PreOrder R} {A} pool (f : Z → TenantDb → A) : guar R (pool_query pool f).
Proof. apply guar_sql; [apply _|]. intros t c c' a Hq. by apply pool_query_id in Hq as [-> _]. Qed.

(** ** [tenant::repo] *)

(** [fetch_optional] of the rows with some property: a row of them, if any. *)
Definition find_row {A} (P : A → Prop) `{∀ x, Decision (P x)} (m : gmap N A) : option A :=
  head (filter P (map_values m)).

Lemma find_row_Some {A} (P : A → Prop) `{∀ x, Decision (P x)} m a :
  find_row P m = Some a → P a ∧ ∃ i, m !! i = Some a.
Proof.
  unfold find_row. intros Ha%head_Some_elem_of. apply list_elem_of_filter in Ha as [? Ha].
  by apply elem_of_map_values in Ha.
Qed.

Definition find_by_slug (slug : string) (c : Cluster) : option Tenant :=
  find_row (λ t, tt_slug t = slug) (cl_tenant c).
Definition find_by_id (tenant_id : N) (c : Cluster) : option Tenant := cl_tenant c !! tenant_id.
Definition find_by_webhook_token (token : string) (c : Cluster) : option Tenant :=
  find_row (λ t, tt_webhook_token t = token) (cl_tenant c).

(** [vault_role_id] is [UNIQUE]. *)
Definition set_role (tenant_id : N) (role : string) (c : Cluster) : result (Cluster * unit) SqlxError :=
  if decide (Exists (λ t, tt_id t ≠ tenant_id ∧ tt_vault_role_id t = Some role) (map_values (cl_tenant c)))
  then Err (SqlConstraint "tenant_vault_role_id_key")
  else Ok (on_tenant (alter (tt_set_role role) tenant_id) c, tt).
Definition record_vault_role_id (tenant_id : N) (role : string) : CEff SqlxError unit :=
  sql (λ _, set_role tenant_id role).
Definition record_vault_pepper_wrapped (tenant_id : N) (wrapped : string) : CEff SqlxError unit :=
  exec (λ _, on_tenant (alter (tt_set_pepper wrapped) tenant_id)).

(** The [UNIQUE] constraints of the [tenant] table. *)
Definition same_tenant_key (a b : Tenant) : Prop :=
  tt_id a = tt_id b ∨ tt_slug a = tt_slug b ∨ tt_database_name a = tt_database_name b
  ∨ tt_vault_mount a = tt_vault_mount b ∨ tt_webhook_token a = tt_webhook_token b.
#[export] Instance same_tenant_key_dec : RelDecision same_tenant_key.
Proof. intros a b. unfold same_tenant_key. apply _. Defined.

Definition insert_tenant (row : Tenant) (c : Cluster) : result (Cluster * unit) SqlxError :=
  if decide (is_Some (cl_tenant c !! tt_id row) ∨ Exists (same_tenant_key row) (map_values (cl_tenant c)))
  then Err (SqlConstraint "tenant_unique")
  else Ok (on_tenant (<[tt_id row := row]>) c, tt).

Definition insert_provisioning (id : N) (slug region database_name vault_mount webhook_token : string)
    : CEff SqlxError unit :=
  now ←! utc_now;
  sql (λ _, insert_tenant (MkTenantRow id slug region database_name vault_mount None None webhook_token
                             status.PROVISIONING now)).

(** [mark_status]: the rows affected. *)
Definition set_status (tenant_id : N) (s : string) (c : Cluster) : Cluster * nat :=
  (on_tenant (alter (tt_set_status s) tenant_id) c, if cl_tenant c !! tenant_id then 1 else 0)%nat.
Definition mark_status (tenant_id : N) (s : string) : CEff SqlxError nat :=
  sql (λ _ c, Ok (set_status tenant_id s c)).
Definition mark_active (tenant_id : N) : CEff SqlxError unit :=
  mark_status tenant_id status.ACTIVE ;! eret tt.

(** [version] is an [int] column that references the tenant. *)
Definition upsert_version (tenant_id : N) (version : Z) (c : Cluster) : result (Cluster * unit) SqlxError :=
  if decide (version < - i32_max - 1 ∨ i32_max < version) then Err SqlNumericOutOfRange
  else match cl_tenant c !! tenant_id with
       | None => Err (SqlConstraint "tenant_schema_version_tenant_id_fkey")
       | Some _ => Ok (on_version (<[tenant_id := version]>) c, tt)
       end.
Definition record_schema_version (tenant_id : N) (version : Z) : CEff SqlxError unit :=
  sql (λ _, upsert_version tenant_id version).

Definition REGION_MISMATCH : SqlxError := SqlConfiguration "region mismatch".
(** [assert_region]: no tenant of another region is on file. *)
Definition assert_region (region : string) : CEff SqlxError unit :=
  mismatch ←! query (λ _ c, find_row (λ t, tt_region t ≠ region) (cl_tenant c));
  match mismatch with Some _ => ethrow REGION_MISMATCH | None => eret tt end.

(** [platform_audit::record], in the control database. *)
Definition record_audit (actor action : string) (tenant : option N)
    (detail : list (string * option string)) : CEff SqlxError unit :=
  exec (λ t, on_control_audit (λ l, l ++ [MkAudit actor action tenant detail t])).

(** ** [db] and [tenant::pool] *)

(** [PgConnectOptions]: the database, and all the rest. *)
Record PgConnectOptions : Type := MkOptions { po_server : string; po_database : string }.

(** Parsing of a connection URL by sqlx: the options beside the database. *)
Class PgUrl : Type := { parse_url : string → result string SqlxError }.

Definition with_database_name `{!PgUrl} (base_url database_name : string) : result PgConnectOptions SqlxError :=
  match parse_url base_url with
  | Ok server => Ok (MkOptions server database_name)
  | Err e => Err e
  end.

(** [CMisrouted] is the panic of [assert_current_database]. *)
Inductive ConnectError : Type := CSqlx (e : SqlxError) | CMisrouted.

Definition assert_current_database (conn expected : string) : CEff ConnectError unit :=
  actual ←! elift CSqlx (query (λ _ _, conn));
  if decide (actual = expected) then eret tt else ethrow CMisrouted.

(** The server accepts a connection to a database it has. *)
Definition connect_with_expected_database (options : PgConnectOptions) (expected_db : string)
    : CEff ConnectError string :=
  conn ←! elift CSqlx (sql (λ _ c, match cl_database c !! po_database options with
                                   | Some _ => Ok (c, po_database options)
                                   | None => Err SqlIo
                                   end));
  assert_current_database conn expected_db ;! eret conn.

Record TenantPool : Type := MkPool { tp_tenant_id : N; tp_pool : string }.

Definition NO_TENANT : SqlxError := SqlConfiguration "no tenant registered with id".

Definition connect_tenant_pool `{!PgUrl} (base_db_url : string) (tenant_id : N) (database_name : string)
    : CEff ConnectError TenantPool :=
  options ←! eof (map_err CSqlx (with_database_name base_db_url database_name));
  tenant ←! elift CSqlx (query (λ _, find_by_id tenant_id));
  tenant ←! eof (ok_or tenant (CSqlx NO_TENANT));
  pool ←! connect_with_expected_database options (tt_database_name tenant);
  eret (MkPool tenant_id pool).

(** In a standing world a pool opens on the tenant's own database. *)
Lemma connect_calm `{!PgUrl} url id (w : CW) row :
  w_env w = [] → is_ok (parse_url url) = true → cl_tenant (w_db w) !! id = Some row →
  is_Some (cl_database (w_db w) !! tt_database_name row) →
  connect_tenant_pool url id (tt_database_name row) w = (w, Ok (MkPool id (tt_database_name row))).
Proof.
  intros He Hurl Hrow [d Hd]. unfold connect_tenant_pool, with_database_name. destruct (parse_url url) as [srv|]; [|done].
  unfold ebind at 1. cbn [map_err eof]. unfold ebind at 1, elift at 1. rewrite query_calm by done. unfold find_by_id. rewrite Hrow.
  cbn [map_err]. unfold ebind at 1. cbn [ok_or eof]. unfold connect_with_expected_database, assert_current_database.
  unfold ebind at 1 2, elift at 1. rewrite sql_calm by done. cbn [po_database]. rewrite Hd. cbn [map_err]. rewrite set_db_same.
  unfold ebind, elift. rewrite query_calm by done. cbn [map_err]. by rewrite decide_True.
Qed.

(** ** Certificates *)

(** [ProducerCert]: the row and the status of its tenant. *)
Record ProducerCert : Type := MkProducerCert {
  ct_cert_subject : string;
  ct_tenant_id : N;
  ct_producer_id : N;
  ct_enabled : bool;
  ct_tenant_status : string;
}.

(** [cert_repo::find_producer_cert], with its [JOIN tenant]. *)
Definition find_producer_cert (cert_subject : string) (c : Cluster) : option ProducerCert :=
  row ← cl_cert c !! cert_subject;
  tenant ← cl_tenant c !! pc_tenant_id row;
  Some (MkProducerCert cert_subject (pc_tenant_id row) (pc_producer_id row) (pc_enabled row) (tt_status tenant)).

Record ResolvedIdentity : Type := MkIdentity { ri_tenant_id : N; ri_producer_id : N }.

Inductive ResolutionError : Type :=
| UnknownCert
| Disabled (tenant_id producer_id : N)
| ResTenantNotActive (tenant_id producer_id : N)
| ResDatabase (e : SqlxError).

Definition identify (cert : option ProducerCert) : result ResolvedIdentity ResolutionError :=
  match cert with
  | None => Err UnknownCert
  | Some cert =>
      if negb (ct_enabled cert) then Err (Disabled (ct_tenant_id cert) (ct_producer_id cert))
      else if decide (ct_tenant_status cert ≠ status.ACTIVE)
           then Err (ResTenantNotActive (ct_tenant_id cert) (ct_producer_id cert))
           else Ok (MkIdentity (ct_tenant_id cert) (ct_producer_id cert))
  end.

(** [producer::resolve::resolve_producer]. *)
Definition resolve_producer (cert_subject : string) : CEff ResolutionError ResolvedIdentity :=
  cert ←! elift ResDatabase (query (λ _, find_producer_cert cert_subject));
  eof (identify cert).

(** ** The tenant's pepper *)

(** The [KeyStore] trait, at any mount. *)
Record VaultStore : Type := MkVault {
  vs_create_dek : string → CEff KeyStoreError Dek;
  vs_unwrap_dek : string → string → CEff KeyStoreError string;
}.

Inductive TenantPepperError : Type := TpDatabase (e : SqlxError) | TpVault (e : KeyStoreError).

(** [ensure_tenant_pepper]. *)
Definition ensure_tenant_pepper (keystore : VaultStore) (tenant : Tenant) : CEff TenantPepperError string :=
  match tt_vault_pepper_wrapped tenant with
  | Some wrapped => elift TpVault (vs_unwrap_dek keystore (tt_vault_mount tenant) wrapped)
  | None =>
      secret ←! elift TpVault (vs_create_dek keystore (tt_vault_mount tenant));
      elift TpDatabase (record_vault_pepper_wrapped (tt_id tenant) (dek_wrapped secret)) ;!
      eret (dek_plaintext secret)
  end.

(** ** The registry *)

(** [tenant::registry::TenantContext]: the row as it was when opened, the pool, the
    configuration, the pepper, and the kill-switch cache, which the poll task fills. *)
Record RegistryContext : Type := MkContext {
  rx_tenant : Tenant;
  rx_pool : string;
  rx_config : TenantConfig;
  rx_pepper : string;
  rx_kill_switches : ActiveSet;
}.

Inductive RegistryError : Type :=
| RgUnknownTenant (tenant_id : N)
| RgNotConfigured (tenant_id : N)
| RgDatabase (e : SqlxError)
| RgVault (e : KeyStoreError)
| RgPanic.

Definition registry_of_pepper (e : TenantPepperError) : RegistryError :=
  match e with TpDatabase e => RgDatabase e | TpVault e => RgVault e end.
Definition registry_of_connect (e : ConnectError) : RegistryError :=
  match e with CSqlx e => RgDatabase e | CMisrouted => RgPanic end.

Record RegistryEntry : Type := MkEntry { en_context : RegistryContext; en_last_access : Z }.
Abbreviation Registry := (gmap N RegistryEntry).

(** [TenantRegistry::touch]. *)
Definition touch (now : Z) (e : RegistryEntry) : RegistryEntry := MkEntry (en_context e) now.

(** A hit: the entry is touched and its context handed out. *)
Definition registry_hit (tenant_id : N) (now : Z) (contexts : Registry) : option (Registry * RegistryContext) :=
  e ← contexts !! tenant_id;
  Some (<[tenant_id := touch now e]> contexts, en_context e).

Definition TENANT_IDLE_TTL : Z := 3600 * second.
Definition EVICTION_SWEEP_INTERVAL : Z := 300 * second.

Section Registry.
Context `{!PgUrl} (keystore : VaultStore) (control_database_url : string).

(** The part of [get_or_open] under the write lock after both misses. *)
Definition open_context (tenant_id : N) : CEff RegistryError RegistryContext :=
  tenant ←! elift RgDatabase (query (λ _, find_by_id tenant_id));
  tenant ←! eof (ok_or tenant (RgUnknownTenant tenant_id));
  tenant_pool ←! elift registry_of_connect
    (connect_tenant_pool control_database_url tenant_id (tt_database_name tenant));
  config ←! elift RgDatabase (pool_query (tp_pool tenant_pool) (λ _, td_config));
  config ←! eof (ok_or config (RgNotConfigured tenant_id));
  pepper ←! elift registry_of_pepper (ensure_tenant_pepper keystore tenant);
  eret (MkContext tenant (tp_pool tenant_pool) config pepper empty_active).

(** What other tasks do to the registry while this one waits for the write lock, with
    the databases as they then are. *)
Definition while_waiting {E} (meanwhile : Cluster → Registry → Registry) (contexts : Registry) : CEff E Registry :=
  λ w, (w, Ok (meanwhile (w_db w) contexts)).

(** [TenantRegistry::get_or_open]. [meanwhile] is what other tasks do to the
    registry between the release of the read lock and the grant of the write lock. *)
Definition get_or_open (meanwhile : Cluster → Registry → Registry) (contexts : Registry) (tenant_id : N)
    : CEff RegistryError (Registry * RegistryContext) :=
  now ←! utc_now;
  match registry_hit tenant_id now contexts with
  | Some hit => eret hit
  | None =>
      contexts ←! while_waiting meanwhile contexts;
      now ←! utc_now;
      match registry_hit tenant_id now contexts with
      | Some hit => eret hit
      | None =>
          context ←! open_context tenant_id;
          now ←! utc_now;
          eret (<[tenant_id := MkEntry context now]> contexts, context)
      end
  end.
End Registry.

(** [TenantRegistry::evict_idle] at an instant: the entries kept. *)
Definition evict_idle (idle_ttl now : Z) (contexts : Registry) : Registry :=
  filter (λ p, now - en_last_access p.2 < idle_ttl) contexts.

(** ** The authenticated producer *)

Definition ingest_of_resolution (e : ResolutionError) : IngestError :=
  match e with
  | UnknownCert => UnknownProducer
  | Disabled _ _ => ProducerDisabled
  | ResTenantNotActive _ _ => TenantNotActive
  | ResDatabase e => IDatabase e
  end.
Definition ingest_of_registry (e : RegistryError) : IngestError :=
  match e with
  | RgUnknownTenant _ => UnknownProducer
  | RgNotConfigured _ => TenantNotConfigured
  | RgDatabase e => IDatabase e
  | RgVault e => IVault e
  | RgPanic => IPanic
  end.

Record ProducerContext : Type := MkProducerContext { px_producer_id : N; px_tenant : RegistryContext }.

(** [ProducerContext::from_request_parts]; [subject] is what the TLS layer verified. *)
Definition from_request_parts `{!PgUrl} (keystore : VaultStore) (url : string) (meanwhile : Cluster → Registry → Registry)
    (contexts : Registry) (subject : option string) : CEff IngestError (Registry * ProducerContext) :=
  subject ←! eof (ok_or subject MissingPeerCertificate);
  identity ←! elift ingest_of_resolution (resolve_producer subject);
  opened ←! elift ingest_of_registry (get_or_open keystore url meanwhile contexts (ri_tenant_id identity));
  eret (opened.1, MkProducerContext (ri_producer_id identity) opened.2).

(** ** Which database a tenant's work reaches *)

(** Rows sit under their own id and share no unique column. *)
Record tenants_ok (c : Cluster) : Prop := {
  to_key id t : cl_tenant c !! id = Some t → tt_id t = id;
  to_unique i j a b : cl_tenant c !! i = Some a → cl_tenant c !! j = Some b → same_tenant_key a b → i = j;
}.

(** A tenant's id, slug, region, database, mount and token. *)
Definition identity_of (t : Tenant) : N * string * string * string * string * string :=
  (tt_id t, tt_slug t, tt_region t, tt_database_name t, tt_vault_mount t, tt_webhook_token t).

(** What every process does to the registry of tenants: rows stay, their
    identities never change, and no unique column is shared. *)
Record pinned (c c' : Cluster) : Prop := {
  pi_row id t : cl_tenant c !! id = Some t → ∃ t', cl_tenant c' !! id = Some t' ∧ identity_of t' = identity_of t;
  pi_ok : tenants_ok c → tenants_ok c';
}.
#[export] Instance pinned_pre : PreOrder pinned.
Proof.
  split; [intros c; split; [eauto|done]|]. intros c1 c2 c3 [A1 A2] [B1 B2]. split; [|auto].
  intros id t (t' & Ht' & He)%A1. destruct (B1 _ _ Ht') as (t'' & Ht'' & He'). exists t''. split; [done|congruence].
Qed.

(** A change that leaves the tenants alone. *)
Lemma pinned_same c c' : cl_tenant c' = cl_tenant c → pinned c c'.
Proof.
  intros He. split; rewrite ?He; [eauto|]. intros [A B]. split; rewrite He; done.
Qed.

(** An update of a row that keeps its identity. *)
Lemma pinned_alter f id c : (∀ t, identity_of (f t) = identity_of t) → pinned c (on_tenant (alter f id) c).
Proof.
  intros Hf.
  assert (∀ i t', alter f id (cl_tenant c) !! i = Some t' →
    ∃ t, cl_tenant c !! i = Some t ∧ identity_of t' = identity_of t) as Hback.
  { intros i t'. rewrite lookup_alter. case_decide; [subst|by eauto].
    destruct (cl_tenant c !! i) as [t|]; simpl; [|done]. intros [= <-]. eauto. }
  split.
  - intros i t Ht. simpl. rewrite lookup_alter. case_decide; [subst; rewrite Ht; simpl|]; eauto.
  - intros [A B]. split; simpl.
    + intros i t' (t & Ht & [= -> _ _ _ _ _])%Hback. by apply A.
    + intros i j a b (a' & Ha & [= E1 E2 E3 E4 E5 E6])%Hback (b' & Hb & [= F1 F2 F3 F4 F5 F6])%Hback Hs.
      eapply (B i j a' b'); [done|done|]. unfold same_tenant_key in *. congruence.
Qed.

(** The tenant row [id] has this database and mount. *)
Definition routed (id : N) (pool mount : string) (c : Cluster) : Prop :=
  ∃ row, cl_tenant c !! id = Some row ∧ tt_id row = id ∧ tt_database_name row = pool ∧ tt_vault_mount row = mount.
Lemma routed_stable id pool mount : stable pinned (routed id pool mount).
Proof.
  intros c c' HR (row & Hrow & H1 & H2 & H3). destruct (pi_row _ _ HR _ _ Hrow) as (row' & Hrow' & [= E1 _ _ E2 E3 _]).
  exists row'. split_and!; congruence.
Qed.
#[export] Hint Resolve routed_stable : core.

(** The context was opened for the tenant [id], on its own database. *)
Definition context_ok (id : N) (x : RegistryContext) (c : Cluster) : Prop :=
  tt_id (rx_tenant x) = id ∧ routed id (rx_pool x) (tt_vault_mount (rx_tenant x)) c.
Definition registry_ok (contexts : Registry) (c : Cluster) : Prop :=
  ∀ id e, contexts !! id = Some e → context_ok id (en_context e) c.

Lemma context_ok_stable id x : stable pinned (context_ok id x).
Proof. intros c c' HR [H1 H2]. split; [done|by eapply routed_stable]. Qed.
Lemma registry_ok_stable contexts : stable pinned (registry_ok contexts).
Proof. intros c c' HR Hok id e He. eapply context_ok_stable; eauto. Qed.
Lemma tenants_ok_stable : stable pinned tenants_ok.
Proof. intros c c' HR. apply HR. Qed.
#[export] Hint Resolve context_ok_stable registry_ok_stable tenants_ok_stable : core.

(** Vault keeps out of the databases and calls no provider; a wrapped key unwraps to the plaintext it was
    generated with. *)
Class VaultStoreLaws (ks : VaultStore) (plain : string → string → string) : Prop := {
  vs_create_guar (R : relation Cluster) `{!PreOrder R} m : guar R (vs_create_dek ks m);
  vs_unwrap_guar (R : relation Cluster) `{!PreOrder R} m s : guar R (vs_unwrap_dek ks m s);
  vs_create_plain m w w' d : vs_create_dek ks m w = (w', Ok d) → dek_plaintext d = plain m (dek_wrapped d);
  vs_unwrap_plain m s w w' p : vs_unwrap_dek ks m s w = (w', Ok p) → p = plain m s;
  vs_create_mute m : mute (vs_create_dek ks m);
  vs_unwrap_mute m s : mute (vs_unwrap_dek ks m s);
}.

Section Routing.
Context `{!PgUrl}.

Lemma connect_hoare (R : relation Cluster) `{!PreOrder R} url id name P :
  (∀ c c', R c c' → pinned c c') → stable R P → (∀ c, P c → tenants_ok c) →
  hoare R P (connect_tenant_pool url id name)
    (λ p c, P c ∧ tp_tenant_id p = id ∧ tp_pool p = name ∧ ∃ mount, routed id name mount c) (λ _, True).
Proof.
  intros HR HP Hok.
  assert (∀ i p m, stable R (routed i p m)) as Hst by (intros i p m c c' H1; by apply routed_stable, HR).
  unfold connect_tenant_pool.
  eapply (hoare_bind _ _ _ _ (λ o c, po_database o = name ∧ P c)).
  { apply hoare_of; [apply _|]. intros c Hc. unfold with_database_name. by destruct (parse_url url). }
  intros o. apply hoare_pull. intros Ho.
  eapply (hoare_bind _ _ _ _ (λ t c, P c ∧ ∀ row, t = Some row → routed id (tt_database_name row) (tt_vault_mount row) c)).
  { apply hoare_lift, hoare_query; [apply _|auto|auto|]. intros _ c Hc. split; [done|]. intros row Hrow.
    exists row. split_and!; try done. by apply (to_key c (Hok c Hc)). }
  intros [row|]; [simpl|by apply hoare_throw; [apply _|]].
  eapply (hoare_bind _ _ _ _ (λ r c, r = row ∧ P c ∧ routed id (tt_database_name row) (tt_vault_mount row) c)).
  { apply hoare_of; [apply _|]. naive_solver. }
  intros r. apply hoare_pull. intros ->. unfold connect_with_expected_database, assert_current_database.
  set (Q := λ c, P c ∧ routed id (tt_database_name row) (tt_vault_mount row) c).
  assert (stable R Q) as HQ by (apply stable_and; auto).
  eapply (hoare_bind _ _ _ _ (λ p c, p = name ∧ name = tt_database_name row ∧ Q c)).
  { eapply (hoare_bind _ _ _ _ (λ p c, p = name ∧ Q c)).
    { apply hoare_lift, hoare_sql; [apply _|done|done|]. intros _ c Hc. destruct (cl_database c !! _); [|done].
      split; [reflexivity|by rewrite Ho]. }
    intros p. apply hoare_pull. intros ->.
    eapply (hoare_bind _ _ _ _ (λ _ c, name = tt_database_name row ∧ Q c)).
    { eapply (hoare_bind _ _ _ _ (λ a c, a = name ∧ Q c)).
      { apply hoare_lift, hoare_query; [apply _|done|done|]. done. }
      intros a. apply hoare_pull. intros ->. case_decide; [|by apply hoare_throw; [apply _|]].
      by apply hoare_ret; [apply _|]. }
    intros u. apply hoare_ret; [apply _|]. naive_solver. }
  intros p. apply hoare_pull. intros ->. apply hoare_pull. intros ->. apply hoare_ret; [apply _|].
  intros c [Hc Hr]. split_and!; eauto.
Qed.

Context (ks : VaultStore) (plain : string → string → string) `{HV : !VaultStoreLaws ks plain} (url : string).

(** Opening a tenant stays within every part of [pinned] that allows peppers. *)
Section Open.
Context (R : relation Cluster) `{!PreOrder R} (HR : ∀ c c', R c c' → pinned c c').
Context (Hpepper : ∀ p id c, R c (on_tenant (alter (tt_set_pepper p) id) c)).

Lemma routed_stable_in id pool mount : stable R (routed id pool mount).
Proof. intros c c' Hc. by apply routed_stable, HR. Qed.
Lemma context_ok_stable_in id x : stable R (context_ok id x).
Proof. intros c c' Hc. by apply context_ok_stable, HR. Qed.
Hint Resolve routed_stable_in context_ok_stable_in : core.

Lemma ensure_pepper_guar tenant : guar R (ensure_tenant_pepper ks tenant).
Proof.
  pose proof (vs_create_guar (ks:=ks) R). pose proof (vs_unwrap_guar (ks:=ks) R).
  unfold ensure_tenant_pepper, record_vault_pepper_wrapped. step_guar.
  apply guar_exec; [apply _|]. intros t c. apply Hpepper.
Qed.

Lemma open_context_hoare id P :
  stable R P → (∀ c, P c → tenants_ok c) →
  hoare R P (open_context ks url id) (λ x c, P c ∧ context_ok id x c) (λ _, True).
Proof.
  intros HP Hok. unfold open_context.
  eapply (hoare_bind _ _ _ _ (λ t c, P c ∧ ∀ row, t = Some row → tt_id row = id
    ∧ routed id (tt_database_name row) (tt_vault_mount row) c)).
  { apply hoare_lift, hoare_query; [apply _|auto|auto|]. intros _ c Hc. split; [done|]. intros row Hrow.
    pose proof (to_key c (Hok c Hc) _ _ Hrow). split; [done|]. by exists row. }
  intros [row|]; [simpl|by apply hoare_throw; [apply _|]].
  eapply (hoare_bind _ _ _ _ (λ r c, r = row ∧ tt_id row = id ∧ P c
    ∧ routed id (tt_database_name row) (tt_vault_mount row) c)).
  { apply hoare_of; [apply _|]. naive_solver. }
  intros r. apply hoare_pull. intros ->. apply hoare_pull. intros Hid.
  set (Q := λ c, P c ∧ routed id (tt_database_name row) (tt_vault_mount row) c).
  assert (stable R Q) as HQ by (apply stable_and; auto).
  eapply (hoare_bind _ _ _ _ (λ p c, tp_pool p = tt_database_name row ∧ Q c)).
  { apply hoare_lift. eapply hoare_weaken; [apply (connect_hoare R url id _ Q HR HQ)|auto| |done].
    - intros c [Hc _]. auto.
    - intros p c (Hc & _ & Hp & _). split; [exact Hp|exact Hc]. }
  intros p. apply hoare_pull. intros Hp.
  eapply (hoare_bind _ _ _ _ (λ _, Q)).
  { apply hoare_lift, (sustains_guar R Q); [done|apply guar_pool_query, _]. }
  intros [config|]; [simpl|by apply hoare_throw; [apply _|]].
  eapply (hoare_bind _ _ _ _ (λ _, Q)); [by apply hoare_of; [apply _|]|]. intros config'.
  eapply (hoare_bind _ _ _ _ (λ _, Q)).
  { apply hoare_lift, (sustains_guar R Q); [done|apply ensure_pepper_guar]. }
  intros pepper. apply hoare_ret; [apply _|]. intros c [Hc Hr]. split; [done|]. split; [done|]. simpl. by rewrite Hp.
Qed.

Lemma registry_hit_ok id now contexts r x c :
  registry_hit id now contexts = Some (r, x) → registry_ok contexts c → registry_ok r c ∧ context_ok id x c.
Proof.
  unfold registry_hit. destruct (contexts !! id) as [e|] eqn:He; simpl; [|done]. intros [= <- <-] Hok.
  split; [|by apply Hok]. intros i e'. rewrite lookup_insert_Some. intros [[<- <-]|[_ He']]; [|by apply Hok].
  by apply (Hok id e).
Qed.

Lemma hoare_waiting {E} P (Q : Registry → Cluster → Prop) X meanwhile contexts :
  (∀ c, P c → Q (meanwhile c contexts) c) → hoare (E:=E) R P (while_waiting meanwhile contexts) Q X.
Proof. intros HQ w Hr Hp. split; [done|]. split; [reflexivity|]. simpl. auto. Qed.

Lemma get_or_open_hoare meanwhile contexts id P :
  stable R P → (∀ c, P c → tenants_ok c ∧ registry_ok contexts c) →
  (∀ c, P c → registry_ok (meanwhile c contexts) c) →
  hoare R P (get_or_open ks url meanwhile contexts id)
    (λ r c, P c ∧ registry_ok r.1 c ∧ context_ok id r.2 c) (λ _, True).
Proof.
  intros HP Hok Hm. unfold get_or_open.
  eapply (hoare_bind _ _ _ _ (λ _, P)); [by apply hoare_now; [apply _|..]|]. intros now.
  destruct (registry_hit id now contexts) as [[r x]|] eqn:Hh.
  { apply hoare_ret; [apply _|]. intros c Hc. split; [done|]. eapply registry_hit_ok; [done|]. by apply Hok. }
  eapply (hoare_bind _ _ _ _ (λ r c, P c ∧ registry_ok r c)); [apply hoare_waiting; auto|]. intros reg.
  assert (stable R (registry_ok reg)) as Hst by (intros c c' Hc; by apply registry_ok_stable, HR).
  eapply (hoare_bind _ _ _ _ (λ _ c, P c ∧ registry_ok reg c)); [by apply hoare_now; [apply _|apply stable_and|]|]. intros now'.
  destruct (registry_hit id now' reg) as [[r x]|] eqn:Hh'.
  { apply hoare_ret; [apply _|]. intros c [Hc Hg]. split; [done|]. by eapply registry_hit_ok. }
  eapply hoare_bind; [apply _|apply open_context_hoare; [by apply stable_and|]|].
  { intros c [Hc _]. by apply Hok. }
  intros x. eapply (hoare_bind _ _ _ _ (λ _ c, (P c ∧ registry_ok reg c) ∧ context_ok id x c)).
  { apply hoare_now; [apply _|apply stable_and; [by apply stable_and|auto]|done]. }
  intros t. apply hoare_ret; [apply _|]. intros c [[Hc Hg] Hx]. split_and!; [done| |done].
  intros i e. simpl. rewrite lookup_insert_Some. intros [[<- <-]|[_ He]]; [done|]. by apply Hg.
Qed.
End Open.

Lemma identify_Ok cert i :
  identify cert = Ok i →
  ∃ ct, cert = Some ct ∧ ct_enabled ct = true ∧ ct_tenant_status ct = status.ACTIVE
    ∧ i = MkIdentity (ct_tenant_id ct) (ct_producer_id ct).
Proof.
  unfold identify. destruct cert as [ct|]; [|done]. destruct (ct_enabled ct) eqn:He; simpl; [|done].
  case_decide as Hs; [done|]. intros [= <-]. exists ct. by split_and!.
Qed.

(** The certificate [subject] led to the identity at some moment between [c0] and [c]. *)
Definition identified (c0 : Cluster) (subject : string) (i : ResolvedIdentity) (c : Cluster) : Prop :=
  ∃ c1 ct, pinned c0 c1 ∧ pinned c1 c ∧ find_producer_cert subject c1 = Some ct ∧ ct_enabled ct = true
    ∧ ct_tenant_status ct = status.ACTIVE ∧ i = MkIdentity (ct_tenant_id ct) (ct_producer_id ct).
Lemma identified_stable c0 subject i : stable pinned (identified c0 subject i).
Proof. intros c c' HR (c1 & ct & H1 & H2 & H3). exists c1, ct. split_and!; [done| |apply H3..]. by etransitivity. Qed.

Lemma resolve_producer_hoare c0 subject P :
  stable pinned P → (∀ c, P c → pinned c0 c) →
  hoare pinned P (resolve_producer subject) (λ i c, P c ∧ identified c0 subject i c) (λ _, True).
Proof.
  intros HP H0. unfold resolve_producer.
  eapply (hoare_bind _ _ _ _ (λ o c, P c ∧ ∃ c1, pinned c0 c1 ∧ pinned c1 c ∧ find_producer_cert subject c1 = o)).
  { apply hoare_lift, hoare_query; [apply _|auto|auto|]. intros _ c Hc. split; [done|]. exists c. by split_and!; auto. }
  intros o. apply hoare_of; [apply _|]. intros c (Hc & c1 & H1 & H2 & Ho). destruct (identify o) as [i|] eqn:Hi; [|done].
  destruct (identify_Ok _ _ Hi) as (ct & -> & H3 & H4 & ->). split; [done|]. exists c1, ct. by split_and!.
Qed.

(** *** The registry of a process *)

(** The registries a process can have, and the databases at that moment: it starts with
    none; others work on the databases; a request finds its tenant and dates the entry; one
    that does not opens the tenant, under the write lock, and files it; and the sweep evicts. *)
Inductive registry_run : Registry → Cluster → Prop :=
| run_new c : tenants_ok c → registry_run ∅ c
| run_others r c c' : registry_run r c → pinned c c' → registry_run r c'
| run_hit r c id now r' x : registry_run r c → registry_hit id now r = Some (r', x) → registry_run r' c
| run_open r id (w w' : CW) x now : registry_run r (w_db w) → rely pinned w → open_context ks url id w = (w', Ok x) →
    registry_run (<[id := MkEntry x now]> r) (w_db w')
| run_evict r c ttl now : registry_run r c → registry_run (evict_idle ttl now r) c.

Lemma evict_idle_ok ttl now contexts c : registry_ok contexts c → registry_ok (evict_idle ttl now contexts) c.
Proof. intros Hok id e [He _]%map_lookup_filter_Some. by apply Hok. Qed.
Lemma registry_run_stable r : stable pinned (registry_run r).
Proof. intros c c' HR Hr. by eapply run_others. Qed.
Hint Resolve registry_run_stable : core.

Abbreviation pepper_pinned := (λ p id c, pinned_alter (tt_set_pepper p) id c (λ _, eq_refl)).

(** Every entry of such a registry is its tenant's own. *)
Lemma registry_run_ok r c : registry_run r c → tenants_ok c ∧ registry_ok r c.
Proof.
  induction 1 as [c Hc|r c c' _ [IH1 IH2] HR|r c id now r' x _ [IH1 IH2] Hh|r id w w' x now _ [IH1 IH2] Hr Ho|r c ttl now _ [IH1 IH2]].
  - split; [done|]. by intros id e ?%lookup_empty_Some.
  - split; [by eapply tenants_ok_stable|by eapply registry_ok_stable].
  - split; [done|]. by eapply registry_hit_ok.
  - assert (stable pinned (λ c, tenants_ok c ∧ registry_ok r c)) as Hst by (apply stable_and; auto).
    destruct (open_context_hoare pinned (λ _ _ H, H) pepper_pinned id (λ c, tenants_ok c ∧ registry_ok r c) Hst (λ c H, proj1 H) w Hr)
      as (_ & _ & Hq); [done|]. rewrite Ho in Hq. simpl in Hq. destruct Hq as [[H1 H2] H3]. split; [done|].
    intros i e. rewrite lookup_insert_Some. intros [[<- <-]|[_ He]]; [done|by apply H2].
  - split; [done|by apply evict_idle_ok].
Qed.

(** Opening leads from one such registry to another. *)
Lemma open_context_run r id :
  hoare pinned (registry_run r) (open_context ks url id) (λ x c, ∀ now, registry_run (<[id := MkEntry x now]> r) c) (λ _, True).
Proof.
  intros w Hr Hp. destruct (open_context_hoare pinned (λ _ _ H, H) pepper_pinned id (registry_run r) (registry_run_stable r)
    (λ c H, proj1 (registry_run_ok r c H)) w Hr Hp) as (H1 & H2 & _).
  split_and!; [done|done|]. destruct (open_context ks url id w) as [w' [x|e]] eqn:Ho; [|done]. simpl.
  intros now. by eapply run_open.
Qed.
Lemma get_or_open_run meanwhile contexts id :
  (∀ c, registry_run contexts c → registry_run (meanwhile c contexts) c) →
  hoare pinned (registry_run contexts) (get_or_open ks url meanwhile contexts id) (λ r, registry_run r.1) (λ _, True).
Proof.
  intros Hm. unfold get_or_open.
  eapply (hoare_bind _ _ _ _ (λ _, registry_run contexts)); [by apply hoare_now; [apply _|auto..]|]. intros now.
  destruct (registry_hit id now contexts) as [[r x]|] eqn:Hh.
  { apply hoare_ret; [apply _|]. intros c Hc. by eapply run_hit. }
  eapply (hoare_bind _ _ _ _ registry_run); [apply hoare_waiting; [apply _|done]|]. intros reg.
  eapply (hoare_bind _ _ _ _ (λ _, registry_run reg)); [by apply hoare_now; [apply _|auto..]|]. intros now'.
  destruct (registry_hit id now' reg) as [[r x]|] eqn:Hh'.
  { apply hoare_ret; [apply _|]. intros c Hc. by eapply run_hit. }
  eapply hoare_bind; [apply _|apply open_context_run|]. intros x.
  eapply (hoare_bind _ _ _ _ (λ t c, registry_run (<[id := MkEntry x t]> reg) c)).
  { apply hoare_now; [apply _| |auto]. intros c c' HR Hrun now0. by eapply run_others. }
  intros t. by apply hoare_ret; [apply _|].
Qed.

(** C12. A request reaches its own tenant only: in a process whose registry grew from
    none by requests, evictions and the work of others, where tenants' ids, databases and
    mounts on file are distinct and never changed, and other requests and evictions may run while this
    one waits for the registry, when the certificate of a request is accepted, it was on
    file, enabled and bound to that producer of an active tenant at a moment of the run,
    the context handed out is of that tenant, and its pool is bound to the database on
    file for that tenant and for no other, whatever fails; and the registry is again one
    of such a process. *)
Theorem requests_reach_their_own_tenant meanwhile contexts subject (w w' : CW) reg px :
  rely pinned w → registry_run contexts (w_db w) →
  (∀ c, registry_run contexts c → registry_run (meanwhile c contexts) c) →
  from_request_parts ks url meanwhile contexts subject w = (w', Ok (reg, px)) →
  registry_run reg (w_db w') ∧
  ∃ s c ct row, subject = Some s ∧ pinned (w_db w) c ∧ pinned c (w_db w')
    ∧ find_producer_cert s c = Some ct ∧ ct_enabled ct = true ∧ ct_tenant_status ct = status.ACTIVE
    ∧ px_producer_id px = ct_producer_id ct ∧ tt_id (rx_tenant (px_tenant px)) = ct_tenant_id ct
    ∧ cl_tenant (w_db w') !! ct_tenant_id ct = Some row ∧ rx_pool (px_tenant px) = tt_database_name row
    ∧ ∀ id other, cl_tenant (w_db w') !! id = Some other →
        tt_database_name other = rx_pool (px_tenant px) → id = ct_tenant_id ct.
Proof.
  intros Hr Hreg Hm Hrun. destruct subject as [s|]; [|done].
  set (P := λ c, pinned (w_db w) c ∧ registry_run contexts c).
  assert (stable pinned P) as HP by (apply stable_and; [intros c c' HR ?; by etransitivity|auto]).
  assert (hoare pinned P (from_request_parts ks url meanwhile contexts (Some s))
    (λ r c, registry_run r.1 c ∧ ∃ i, identified (w_db w) s i c
      ∧ px_producer_id r.2 = ri_producer_id i ∧ context_ok (ri_tenant_id i) (px_tenant r.2) c) (λ _, True)) as Hh.
  { unfold from_request_parts. eapply (hoare_bind _ _ _ _ (λ x c, x = s ∧ P c)); [by apply hoare_of; [apply _|]|].
    intros x. apply hoare_pull. intros ->. eapply hoare_bind; [apply _| |].
    { apply hoare_lift. eapply hoare_weaken; [apply (resolve_producer_hoare (w_db w) s P HP); by intros c [? _]|done..]. }
    intros i. eapply hoare_bind; [apply _| |].
    { apply hoare_lift, (hoare_both _ (λ c, P c ∧ identified (w_db w) s i c)).
      - eapply hoare_weaken; [apply (get_or_open_hoare pinned (λ _ _ H, H) pepper_pinned meanwhile contexts (ri_tenant_id i)
          (λ c, P c ∧ identified (w_db w) s i c))|done..].
        + apply stable_and; [done|apply identified_stable].
        + intros c [[_ Hc] _]. by apply registry_run_ok.
        + intros c [[_ Hc] _]. by apply registry_run_ok, Hm.
      - eapply hoare_weaken; [by apply (get_or_open_run meanwhile contexts (ri_tenant_id i))|by intros c [[_ ?] _]|done..]. }
    intros [r x]. apply hoare_ret; [apply _|]. intros c (([_ Hi] & _ & H2) & H3). split_and!; eauto. }
  destruct (Hh w Hr) as (_ & _ & Hpost); [by split_and!|]. rewrite Hrun in Hpost.
  destruct Hpost as (Hreg' & i & (c & ct & H1 & H2 & H3 & H4 & H5 & ->) & H6 & H7 & row & H8 & H9 & H10 & _).
  split; [done|]. simpl in *. exists s, c, ct, row. split_and!; try done. intros id other Ho Hdb.
  destruct (registry_run_ok _ _ Hreg') as [Hok' _].
  eapply (to_unique _ Hok' _ _ other row); [done|done|]. unfold same_tenant_key. naive_solver congruence.
Qed.
End Routing.

(** ** The pepper on file *)

(** [results R P m Q]: among processes within [R], a run of [m] from [P] that
    returns leaves [Q]; [m] itself may step outside [R]. *)
Definition results {E A} (R : relation Cluster) (P : Cluster → Prop) (m : CEff E A) (Q : A → Cluster → Prop) : Prop :=
  ∀ w w' a, rely R w → P (w_db w) → m w = (w', Ok a) → Q a (w_db w').

Lemma results_bind {E A B} R P (m : CEff E A) (k : A → CEff E B) Q1 Q X :
  hoare R P m Q1 X → (∀ a, results R (Q1 a) (k a) Q) → results R P (ebind m k) Q.
Proof.
  intros Hm Hk w w' b Hr HP. unfold ebind. destruct (Hm w Hr HP) as (H1 & _ & H3).
  destruct (m w) as [w1 [a|e]]; [|done]. by apply Hk.
Qed.
Lemma results_map {E A B} R P (m : CEff E A) (f : A → B) (Q : B → Cluster → Prop) :
  results R P m (λ a, Q (f a)) → results R P (ebind m (λ a, eret (f a))) Q.
Proof.
  intros Hm w w' b Hr HP. unfold ebind. destruct (m w) as [w1 [a|e]] eqn:Hw; [|done].
  intros [= <- <-]. by eapply Hm.
Qed.
Lemma results_lift {E F A} R P (f : E → F) (m : CEff E A) Q : results R P m Q → results R P (elift f m) Q.
Proof.
  intros Hm w w' a Hr HP. unfold elift. destruct (m w) as [w1 [b|e]] eqn:Hw; [|done].
  intros [= <- <-]. by eapply Hm.
Qed.

Section Pepper.
Context `{!PgUrl}.
Context (ks : VaultStore) (plain : string → string → string) `{HV : !VaultStoreLaws ks plain}.
Context (url : string) (id : N).

(** Nobody else sets the pepper of the tenant. *)
Definition pepper_kept (c c' : Cluster) : Prop :=
  pinned c c' ∧ tt_vault_pepper_wrapped <$> cl_tenant c' !! id = tt_vault_pepper_wrapped <$> cl_tenant c !! id.
#[export] Instance pepper_kept_pre : PreOrder pepper_kept.
Proof.
  split; [done|]. intros c1 c2 c3 [A1 A2] [B1 B2]. split; [by etransitivity|congruence].
Qed.

(** The pepper is the plaintext of the wrapped one on file. *)
Definition pepper_on_file (p : string) (c : Cluster) : Prop :=
  ∃ row wrapped, cl_tenant c !! id = Some row ∧ tt_vault_pepper_wrapped row = Some wrapped
    ∧ p = plain (tt_vault_mount row) wrapped.

(** The row read is still what is on file. *)
Definition seen (row : Tenant) (c : Cluster) : Prop :=
  tt_id row = id ∧ ∃ row', cl_tenant c !! id = Some row' ∧ tt_vault_mount row' = tt_vault_mount row
    ∧ tt_vault_pepper_wrapped row' = tt_vault_pepper_wrapped row.
Lemma seen_stable row : stable pepper_kept (seen row).
Proof.
  intros c c' [HR Hp] (Hid & row1 & H1 & H2 & H3). split; [done|].
  destruct (pi_row _ _ HR _ _ H1) as (row2 & H4 & [= _ _ _ _ Hm _]). rewrite H1, H4 in Hp. simplify_eq/=.
  exists row2. split_and!; congruence.
Qed.
Hint Resolve seen_stable : core.

Lemma ensure_pepper_results row : results pepper_kept (seen row) (ensure_tenant_pepper ks row) pepper_on_file.
Proof.
  unfold ensure_tenant_pepper. destruct (tt_vault_pepper_wrapped row) as [wrapped|] eqn:Hp.
  - apply results_lift. intros w w' p Hr Hs Hrun. destruct (vs_unwrap_guar (ks:=ks) pepper_kept (tt_vault_mount row) wrapped w Hr) as [HR _].
    rewrite Hrun in HR. destruct (seen_stable row _ _ HR Hs) as (_ & row' & H1 & H2 & H3). exists row', wrapped.
    split_and!; [done|congruence|]. rewrite H2. by eapply vs_unwrap_plain.
  - eapply (results_bind _ _ _ _ (λ d c, dek_plaintext d = plain (tt_vault_mount row) (dek_wrapped d) ∧ seen row c) _ (λ _, True)).
    { apply hoare_lift. intros w Hr Hs. destruct (vs_create_guar (ks:=ks) pepper_kept (tt_vault_mount row) w Hr) as [H1 H2].
      split_and!; [done..|]. destruct (vs_create_dek ks _ w) as [w1 [d|e]] eqn:Hrun; [|done].
      split; [by eapply vs_create_plain|by eapply seen_stable]. }
    intros d. apply (results_map _ _ _ (λ _ : unit, dek_plaintext d)). apply results_lift.
    intros w w' [] Hr [Hd Hs]. destruct (rely_tick_pre pepper_kept w Hr) as [H1 _].
    destruct (seen_stable row _ _ H1 Hs) as (Hid & row' & H2 & H3 & _).
    unfold record_vault_pepper_wrapped, exec, sql. set (w1 := tick w) in *. clearbody w1. destruct (mv_fault (next_move w)); intros [= <-].
    exists (tt_set_pepper (dek_wrapped d) row'), (dek_wrapped d). cbn [set_db w_db on_tenant cl_tenant].
    rewrite Hid, lookup_alter_eq, H2. split_and!; [done..|]. simpl. congruence.
Qed.

Lemma connect_guar (R : relation Cluster) `{!PreOrder R} name : guar R (connect_tenant_pool url id name).
Proof.
  unfold connect_tenant_pool, connect_with_expected_database, assert_current_database. step_guar.
  apply guar_sql; [apply _|]. intros t c c' r. destruct (cl_database c !! _); intros [=]; subst. reflexivity.
Qed.

(** The pepper a process hashes destinations with is the one on file: as long as
    no other process sets it meanwhile, opening a tenant returns the plaintext of
    the wrapped pepper its row has when the context is there, whether the pepper was
    there before or this run minted it; so processes that open one after another
    agree. *)
Theorem opened_pepper_is_on_file (w w' : CW) x :
  rely pepper_kept w → tenants_ok (w_db w) → open_context ks url id w = (w', Ok x) →
  pepper_on_file (rx_pepper x) (w_db w').
Proof.
  assert (results pepper_kept tenants_ok (open_context ks url id) (λ x, pepper_on_file (rx_pepper x))) as Hh.
  2: { intros Hr Hok. by apply Hh. }
  pose proof (connect_guar pepper_kept) as Hconn. unfold open_context.
  eapply (results_bind _ _ _ _ (λ t c, ∀ row, t = Some row → seen row c) _ (λ _, True)).
  { apply hoare_lift, hoare_query; [apply _| |done|].
    - intros c c' [HR _]. apply HR.
    - intros _ c Hc row Hrow. split; [by apply (to_key c Hc)|]. by exists row. }
  intros t. eapply (results_bind _ _ _ _ seen _ (λ _, True)).
  { apply hoare_of; [apply _|]. intros c Hc. destruct t; simpl; [auto|done]. }
  intros row. eapply (results_bind _ _ _ _ (λ _, seen row) _ (λ _, True)).
  { apply (sustains_guar pepper_kept (seen row)); [done|]. step_guar. }
  intros p. eapply (results_bind _ _ _ _ (λ _, seen row) _ (λ _, True)).
  { apply (sustains_guar pepper_kept (seen row)); [done|]. step_guar. apply guar_pool_query, _. }
  intros config. eapply (results_bind _ _ _ _ (λ _, seen row) _ (λ _, True)).
  { apply (sustains_guar pepper_kept (seen row)); [done|]. step_guar. }
  intros config'. apply (results_map _ _ _ (λ pepper, MkContext row (tp_pool p) config' pepper empty_active)).
  apply results_lift, ensure_pepper_results.
Qed.
End Pepper.

(** ** Eviction *)


(** ** Concrete runs *)

Definition demo_url : PgUrl := {| parse_url := λ s, Ok s |}.
#[local] Existing Instance demo_url.

Definition acme : Tenant :=
  MkTenantRow 1 "acme" "eu" "tenant_acme" "transit/acme" None None "tok-acme" status.ACTIVE 0.
Definition bolt : Tenant :=
  MkTenantRow 2 "bolt" "eu" "tenant_bolt" "transit/bolt" None (Some "wrapped-bolt"%string) "tok-bolt" status.ACTIVE 0.
Definition demo_config : TenantConfig := MkConfig 7 "Etc/UTC" "en" 90 "Etc/UTC" verification_mode.OBSERVE 500 5.
Definition demo_tenant_db : TenantDb := set_config demo_config empty_tenant_db.
Definition two_tenants : Cluster :=
  MkCluster {[1%N := acme; 2%N := bolt]} {["cn=fraud"%string := MkCert 1 7 true]} ∅ ∅ []
    {["tenant_acme"%string := demo_tenant_db; "tenant_bolt"%string := demo_tenant_db]}
    {["transit/acme"%string; "transit/bolt"%string]} ∅ ∅.

Lemma two_tenants_ok : tenants_ok two_tenants.
Proof.
  assert (∀ i t, cl_tenant two_tenants !! i = Some t → (i = 1%N ∧ t = acme) ∨ (i = 2%N ∧ t = bolt)) as Hrow.
  { intros i t. unfold two_tenants; simpl. rewrite lookup_insert_Some, lookup_singleton_Some. naive_solver. }
  split.
  - intros i t [[-> ->]|[-> ->]]%Hrow; done.
  - intros i j a b [[-> ->]|[-> ->]]%Hrow [[-> ->]|[-> ->]]%Hrow; [done| | |done];
      unfold same_tenant_key; simpl; intros Hs; destruct_or! Hs; discriminate Hs.
Qed.

(** A Vault that wraps one fixed key per process. *)
Definition fixed_vault (name : string) : VaultStore :=
  MkVault (λ _, eret (MkDek ("plain-" +:+ name) name)) (λ _ wrapped, eret ("plain-" +:+ wrapped)).
#[export] Instance fixed_vault_laws name : VaultStoreLaws (fixed_vault name) (λ _ wrapped, "plain-" +:+ wrapped)%string.
Proof.
  split; [intros; by apply guar_ret|intros; by apply guar_ret| | |done|done].
  - by intros m w w' d [= <- <-].
  - by intros m s w w' p [= <- <-].
Qed.

Definition cluster_world (c : Cluster) : CW := World c 100 false [] [].

Definition fraud_request : CW * result (Registry * ProducerContext) IngestError :=
  from_request_parts (fixed_vault "one") "postgres://" (λ _, evict_idle TENANT_IDLE_TTL 0) ∅ (Some "cn=fraud"%string)
    (cluster_world two_tenants).

Lemma own_tenant_witness :
  ∃ reg px, fraud_request.2 = Ok (reg, px) ∧ rx_pool (px_tenant px) = "tenant_acme"%string
    ∧ registry_run (fixed_vault "one") "postgres://" reg (w_db fraud_request.1).
Proof.
  destruct fraud_request as [w' [[reg px]|e]] eqn:Hrun; [|exfalso; vm_compute in Hrun; discriminate Hrun].
  exists reg, px. split; [done|].
  destruct (requests_reach_their_own_tenant (fixed_vault "one") (λ _ wrapped, "plain-" +:+ wrapped)%string
    "postgres://" (λ _, evict_idle TENANT_IDLE_TTL 0) ∅ (Some "cn=fraud"%string) (cluster_world two_tenants) w' reg px
    (conj (Forall_nil_2 _) eq_refl)) as [Hok _].
  - apply run_new. exact two_tenants_ok.
  - intros c. apply run_evict.
  - exact Hrun.
  - split; [|exact Hok]. vm_compute in Hrun. injection Hrun as _ _ <-. reflexivity.
Defined.

Definition open_acme (name : string) (c : CW) : CW * result RegistryContext RegistryError :=
  open_context (fixed_vault name) "postgres://" 1 c.

Lemma pepper_witness :
  pepper_on_file (λ _ wrapped, "plain-" +:+ wrapped)%string 1 "plain-one"
    (w_db (open_acme "one" (cluster_world two_tenants)).1).
Proof.
  destruct (open_acme "one" (cluster_world two_tenants)) as [w' [x|e]] eqn:Hrun;
    [|exfalso; vm_compute in Hrun; discriminate Hrun].
  pose proof (opened_pepper_is_on_file (fixed_vault "one") (λ _ wrapped, "plain-" +:+ wrapped)%string "postgres://" 1
    (cluster_world two_tenants) w' x (conj (Forall_nil_2 _) eq_refl) two_tenants_ok Hrun) as Hp.
  assert (rx_pepper x = "plain-one"%string) as <-; [|exact Hp]. vm_compute in Hrun. by injection Hrun as _ <-.
Defined.

(** Two processes that open a new tenant at the same time can hash with different
    peppers: the second, which runs while the first waits for Vault, keeps the
    pepper it minted, the first then overwrites it on file, and from then on one
    destination has two hashes. *)
Theorem overlapping_opens_disagree_on_the_pepper :
  let second (c : Cluster) := open_acme "two" (cluster_world c) in
  let first := open_acme "one" (World two_tenants 100 false
    [Move 0 NoFault id; Move 0 NoFault id; Move 0 NoFault id; Move 0 NoFault id; Move 0 NoFault id;
     Move 0 NoFault (λ c, w_db (second c).1)] []) in
  (second two_tenants).2 = Ok (MkContext acme "tenant_acme" demo_config "plain-two" empty_active)
  ∧ first.2 = Ok (MkContext acme "tenant_acme" demo_config "plain-one" empty_active)
  ∧ (tt_vault_pepper_wrapped <$> cl_tenant (w_db first.1) !! 1%N) = Some (Some "one"%string).
Proof. vm_compute. done. Qed.
