(* ===== verification/Producers.v ===== *)
(** * Producers: registration, disabling and their certificates

    Models [src/producer/{register,repo,cert_repo}.rs]: a registration writes the
    tenant's producer row and then the control database's certificate, disabling
    writes them in the opposite order, and both leave one audit row per outcome. *)

From S2P Require Import Prelude RustStd Time Schema KillSwitch Dek Ingest Tenancy.
From stdpp Require Import base gmap strings list.
From Stdlib Require Import ZArith Lia.

Local Open Scope effect_scope.
Local Open Scope Z_scope.

(** ** [producer::repo] *)

Definition find_by_name (name : string) (d : TenantDb) : option Producer :=
  find_row (λ p, pr_name p = name) (td_producer d).
Definition find_by_cert_subject (subject : string) (d : TenantDb) : option Producer :=
  find_row (λ p, pr_cert_subject p = subject) (td_producer d).

(** Two rows that a [UNIQUE] constraint or the primary key forbids together. *)
Definition same_producer_key (a b : Producer) : Prop :=
  pr_id a = pr_id b ∨ pr_name a = pr_name b ∨ pr_cert_subject a = pr_cert_subject b.
#[export] Instance same_producer_key_dec : RelDecision same_producer_key.
Proof. intros a b. unfold same_producer_key. apply _. Defined.

(** [insert_if_absent]: [ON CONFLICT DO NOTHING] on any of the constraints. *)
Definition insert_producer (row : Producer) (d : TenantDb) : TenantDb * bool :=
  if decide (is_Some (td_producer d !! pr_id row) ∨ Exists (same_producer_key row) (map_values (td_producer d)))
  then (d, false)
  else (on_producer (<[pr_id row := row]>) d, true).
Definition insert_if_absent (pool : string) (id : N) (name cert_subject owner_team contact : string)
    : CEff SqlxError bool :=
  now ←! utc_now;
  pool_sql pool (λ _ d, Ok (insert_producer (MkProducer id name cert_subject owner_team contact true now) d)).

Definition pr_set_enabled (b : bool) (p : Producer) : Producer :=
  MkProducer (pr_id p) (pr_name p) (pr_cert_subject p) (pr_owner_team p) (pr_contact p) b (pr_created_at p).
Definition set_enabled (pool : string) (id : N) (enabled : bool) : CEff SqlxError unit :=
  pool_sql pool (λ _ d, Ok (on_producer (alter (pr_set_enabled enabled) id) d, tt)).

(** ** [producer::cert_repo] *)

(** [ON CONFLICT (cert_subject) DO UPDATE SET tenant_id, producer_id]: [enabled] stays. *)
Definition upsert_cert (subject : string) (tenant producer : N) (c : Cluster) : result (Cluster * unit) SqlxError :=
  match cl_tenant c !! tenant with
  | None => Err (SqlConstraint "producer_cert_tenant_id_fkey")
  | Some _ =>
      let enabled := match cl_cert c !! subject with Some row => pc_enabled row | None => true end in
      Ok (on_cert (<[subject := MkCert tenant producer enabled]>) c, tt)
  end.
Definition upsert_producer_cert (subject : string) (tenant producer : N) : CEff SqlxError unit :=
  sql (λ _, upsert_cert subject tenant producer).

Definition pc_set_enabled (b : bool) (r : CertRow) : CertRow := MkCert (pc_tenant_id r) (pc_producer_id r) b.
Definition set_cert_enabled (subject : string) (enabled : bool) : CEff SqlxError unit :=
  exec (λ _, on_cert (alter (pc_set_enabled enabled) subject)).
(** Only tests call it. *)
Definition delete_producer_cert (subject : string) : CEff SqlxError unit := exec (λ _, on_cert (delete subject)).

(** ** [producer::register] *)

(** [ProducerError]; [PrPanic] is the panic of a mis-routed pool. *)
Inductive ProducerError : Type := PrDatabase (e : SqlxError) | PrPanic.
Definition producer_of_connect (e : ConnectError) : ProducerError :=
  match e with CSqlx e => PrDatabase e | CMisrouted => PrPanic end.

(** The reasons for a rejection, without the values their messages quote. *)
Module rejection.
Definition NO_SLUG : SqlxError := SqlConfiguration "no tenant registered with slug".
Definition DIFFERENT_INPUTS : SqlxError := SqlConfiguration "producer is already registered with different inputs".
Definition CERT_IN_TENANT : SqlxError := SqlConfiguration "cert_subject is already registered in this tenant".
Definition CERT_ELSEWHERE : SqlxError := SqlConfiguration "cert_subject is already registered to a different tenant".
Definition LOST_RACE : SqlxError := SqlConfiguration "lost a race and the winning row could not be found".
Definition NO_PRODUCER : SqlxError := SqlConfiguration "no producer of that name is registered for this tenant".
End rejection.

Record RegisterOutcome : Type := MkRegister { ro_producer_id : N; ro_outcome : string }.

(** What the operations record; the tenant is unknown when the slug was. *)
Definition audit_producer (actor action : string) (tenant : option N) (name : string)
    (cert_subject : option string) (outcome : string) : CEff SqlxError unit :=
  record_audit actor action tenant [("name", Some name); ("cert_subject", cert_subject); ("outcome", Some outcome)]%string.

Section Register.
Context (name cert_subject owner_team contact actor : string).

Definition audit_register (tenant : option N) (outcome : string) : CEff ProducerError unit :=
  elift PrDatabase (audit_producer actor "producer.register" tenant name (Some cert_subject) outcome).
Definition reject_register {A} (tenant : option N) (e : SqlxError) : CEff ProducerError A :=
  audit_register tenant "rejected" ;! ethrow (PrDatabase e).

(** The two lookups in one [REPEATABLE READ] transaction. *)
Definition snapshot (pool : string) : CEff SqlxError (option Producer * option Producer) :=
  transaction
    (query (λ _ _, tt) ;!
     by_name ←! pool_query pool (λ _, find_by_name name);
     by_cert ←! pool_query pool (λ _, find_by_cert_subject cert_subject);
     eret (by_name, by_cert)) (λ _, true).

Definition classify_registration (pool : string) (tenant_id : N) : CEff ProducerError (option RegisterOutcome) :=
  found ←! elift PrDatabase (snapshot pool);
  match found.1 with
  | Some existing =>
      if decide (pr_cert_subject existing = cert_subject ∧ pr_owner_team existing = owner_team
                 ∧ pr_contact existing = contact) then
        elift PrDatabase (upsert_producer_cert cert_subject tenant_id (pr_id existing)) ;!
        audit_register (Some tenant_id) "idempotent" ;!
        eret (Some (MkRegister (pr_id existing) "idempotent"))
      else reject_register (Some tenant_id) rejection.DIFFERENT_INPUTS
  | None =>
      match found.2 with
      | Some _ => reject_register (Some tenant_id) rejection.CERT_IN_TENANT
      | None =>
          existing_cert ←! elift PrDatabase (query (λ _, find_producer_cert cert_subject));
          match existing_cert with
          | Some cert =>
              if decide (ct_tenant_id cert ≠ tenant_id)
              then reject_register (Some tenant_id) rejection.CERT_ELSEWHERE else eret None
          | None => eret None
          end
      end
  end.

(** [register_producer_inner]; [fresh] is the id drawn for a new row. *)
Definition register_producer_inner (fresh : N) (pool : string) (tenant_id : N) : CEff ProducerError RegisterOutcome :=
  known ←! classify_registration pool tenant_id;
  match known with
  | Some outcome => eret outcome
  | None =>
      inserted ←! elift PrDatabase (insert_if_absent pool fresh name cert_subject owner_team contact);
      if inserted : bool then
        elift PrDatabase (upsert_producer_cert cert_subject tenant_id fresh) ;!
        audit_register (Some tenant_id) "created" ;!
        eret (MkRegister fresh "created")
      else
        winner ←! classify_registration pool tenant_id;
        match winner with
        | Some outcome => eret outcome
        | None => reject_register (Some tenant_id) rejection.LOST_RACE
        end
  end.

Definition register_producer `{!PgUrl} (base_db_url tenant_slug : string) (fresh : N)
    : CEff ProducerError RegisterOutcome :=
  tenant ←! elift PrDatabase (query (λ _, find_by_slug tenant_slug));
  match tenant with
  | None => reject_register None rejection.NO_SLUG
  | Some tenant =>
      pool ←! elift producer_of_connect (connect_tenant_pool base_db_url (tt_id tenant) (tt_database_name tenant));
      register_producer_inner fresh (tp_pool pool) (tt_id tenant)
  end.
End Register.

Section Disable.
Context (name actor : string).

Definition audit_disable (tenant : option N) (cert : option string) (outcome : string) : CEff ProducerError unit :=
  elift PrDatabase (audit_producer actor "producer.disable" tenant name cert outcome).

(** [disable_producer_inner]: the certificate first; the outcome. *)
Definition disable_producer_inner (pool : string) (tenant_id : N) : CEff ProducerError string :=
  existing ←! elift PrDatabase (pool_query pool (λ _, find_by_name name));
  match existing with
  | None => audit_disable (Some tenant_id) None "rejected" ;! ethrow (PrDatabase rejection.NO_PRODUCER)
  | Some existing =>
      elift PrDatabase (set_cert_enabled (pr_cert_subject existing) false) ;!
      (if pr_enabled existing then elift PrDatabase (set_enabled pool (pr_id existing) false) else eret tt) ;!
      let outcome := if pr_enabled existing then "disabled"%string else "idempotent"%string in
      audit_disable (Some tenant_id) (Some (pr_cert_subject existing)) outcome ;!
      eret outcome
  end.

Definition disable_producer `{!PgUrl} (base_db_url tenant_slug : string) : CEff ProducerError string :=
  tenant ←! elift PrDatabase (query (λ _, find_by_slug tenant_slug));
  match tenant with
  | None => audit_disable None None "rejected" ;! ethrow (PrDatabase rejection.NO_SLUG)
  | Some tenant =>
      pool ←! elift producer_of_connect (connect_tenant_pool base_db_url (tt_id tenant) (tt_database_name tenant));
      disable_producer_inner (tp_pool pool) (tt_id tenant)
  end.
End Disable.

(** ** The invariant *)

(** Producers sit under their own id and share neither name nor subject. *)
Record producers_ok (c : Cluster) : Prop := {
  po_key db d i p : cl_database c !! db = Some d → td_producer d !! i = Some p → pr_id p = i;
  po_unique db d i j a b : cl_database c !! db = Some d → td_producer d !! i = Some a → td_producer d !! j = Some b →
    same_producer_key a b → i = j;
}.

(** The database has this producer under this subject. *)
Definition pool_has (pool : string) (producer : N) (subject : string) (c : Cluster) : Prop :=
  ∃ d p, cl_database c !! pool = Some d ∧ td_producer d !! producer = Some p ∧ pr_cert_subject p = subject.

(** Every certificate names a producer of its tenant that was registered under it. *)
Definition certs_ok (c : Cluster) : Prop :=
  ∀ s row, cl_cert c !! s = Some row →
    ∃ t, cl_tenant c !! pc_tenant_id row = Some t ∧ pool_has (tt_database_name t) (pc_producer_id row) s c.

(** What every process does to producers and certificates: it keeps both
    invariants, drops no producer and no certificate, and enables no certificate
    that is disabled. *)
Record producer_step (c c' : Cluster) : Prop := {
  ps_pinned : pinned c c';
  ps_producer db d i p : cl_database c !! db = Some d → td_producer d !! i = Some p →
    ∃ d' p', cl_database c' !! db = Some d' ∧ td_producer d' !! i = Some p'
      ∧ pr_name p' = pr_name p ∧ pr_cert_subject p' = pr_cert_subject p;
  ps_producers_ok : producers_ok c → producers_ok c';
  ps_certs_ok : certs_ok c → certs_ok c';
  ps_cert s row : cl_cert c !! s = Some row →
    ∃ row', cl_cert c' !! s = Some row' ∧ (pc_enabled row = false → pc_enabled row' = false);
}.
#[export] Instance producer_step_pre : PreOrder producer_step.
Proof.
  split.
  - intros c. split; [reflexivity|intros; eauto 10|done|done|eauto].
  - intros c1 c2 c3 [A1 A2 A3 A4 A5] [B1 B2 B3 B4 B5]. split; [by etransitivity| |auto|auto|].
    + intros db d i p Hd Hp. destruct (A2 _ _ _ _ Hd Hp) as (d2 & p2 & Hd2 & Hp2 & N2 & S2).
      destruct (B2 _ _ _ _ Hd2 Hp2) as (d3 & p3 & Hd3 & Hp3 & N3 & S3). exists d3, p3. split_and!; congruence.
    + intros s row (row2 & H2 & E2)%A5. destruct (B5 _ _ H2) as (row3 & H3 & E3). eauto.
Qed.

Lemma pool_has_step c c' pool i s : producer_step c c' → pool_has pool i s c → pool_has pool i s c'.
Proof.
  intros HR (d & p & Hd & Hp & <-). destruct (ps_producer _ _ HR _ _ _ _ Hd Hp) as (d' & p' & Hd' & Hp' & _ & Hs).
  by exists d', p'.
Qed.
Lemma pool_has_stable pool i s : stable producer_step (pool_has pool i s).
Proof. intros c c'. apply pool_has_step. Qed.
#[export] Hint Resolve pool_has_stable : core.

(** *** Steps *)

Lemma step_audit f c : producer_step c (on_control_audit f c).
Proof. split; [by apply pinned_same|intros; eauto 10|by intros []; split|done|eauto]. Qed.

(** A producer table changes, keeping each producer's name and subject. *)
Lemma step_producers pool d d' c :
  cl_database c !! pool = Some d →
  (∀ i p, td_producer d !! i = Some p →
     ∃ p', td_producer d' !! i = Some p' ∧ pr_name p' = pr_name p ∧ pr_cert_subject p' = pr_cert_subject p) →
  (producers_ok c → ∀ i p, td_producer d' !! i = Some p → pr_id p = i) →
  (producers_ok c → ∀ i j a b, td_producer d' !! i = Some a → td_producer d' !! j = Some b →
     same_producer_key a b → i = j) →
  producer_step c (on_database (<[pool := d']>) c).
Proof.
  intros Hd Hkeep Hkey Huniq.
  assert (∀ db x i p, cl_database c !! db = Some x → td_producer x !! i = Some p →
    ∃ x' p', <[pool := d']> (cl_database c) !! db = Some x' ∧ td_producer x' !! i = Some p'
      ∧ pr_name p' = pr_name p ∧ pr_cert_subject p' = pr_cert_subject p) as Hprod.
  { intros db x i p Hx Hp. destruct (decide (db = pool)) as [->|Hne].
    - assert (x = d) as -> by congruence. destruct (Hkeep _ _ Hp) as (p' & Hp' & ? & ?).
      exists d', p'. by rewrite lookup_insert_eq.
    - exists x, p. by rewrite lookup_insert_ne. }
  split; [by apply pinned_same|exact Hprod| | |eauto].
  - intros Hok. split; simpl.
    + intros db x i p. rewrite lookup_insert_Some. intros [[<- <-]|[_ Hx]]; [by apply Hkey|by apply (po_key c Hok db)].
    + intros db x i j a b. rewrite lookup_insert_Some. intros [[<- <-]|[_ Hx]]; [by apply Huniq|by apply (po_unique c Hok db)].
  - intros Hc s row (t & Ht & d0 & p0 & Hd0 & Hp0 & <-)%Hc. exists t. split; [done|].
    destruct (Hprod _ _ _ _ Hd0 Hp0) as (x' & p' & ? & ? & _ & ?). by exists x', p'.
Qed.

Lemma step_insert_producer pool d row c :
  cl_database c !! pool = Some d → producer_step c (on_database (<[pool := (insert_producer row d).1]>) c).
Proof.
  intros Hd. unfold insert_producer. case_decide as Hex; simpl.
  { apply step_producers with d; [done|eauto| |]; intros [A B]; eauto. }
  assert (td_producer d !! pr_id row = None) as Hfree by (apply eq_None_not_Some; naive_solver).
  assert (∀ j b, td_producer d !! j = Some b → ¬ same_producer_key row b) as Hnone.
  { intros j b Hb Hs. apply Hex. right. apply Exists_exists. exists b. split; [|done]. apply elem_of_map_values. eauto. }
  apply step_producers with d; [done|..]; simpl.
  - intros i p Hp. exists p. rewrite lookup_insert_ne by congruence. done.
  - intros [A B] i p. rewrite lookup_insert_Some. intros [[<- <-]|[_ Hp]]; [done|by apply (A pool d)].
  - intros [A B] i j a b. rewrite !lookup_insert_Some. unfold same_producer_key in *.
    intros [[<- <-]|[_ Ha]] [[<- <-]|[_ Hb]] Hs; [done| | |by apply (B pool d i j a b)].
    + by destruct (Hnone j b Hb).
    + destruct (Hnone i a Ha). naive_solver.
Qed.

Lemma step_set_enabled pool d i b c :
  cl_database c !! pool = Some d →
  producer_step c (on_database (<[pool := on_producer (alter (pr_set_enabled b) i) d]>) c).
Proof.
  intros Hd.
  assert (∀ j p', alter (pr_set_enabled b) i (td_producer d) !! j = Some p' →
    ∃ p, td_producer d !! j = Some p ∧ pr_id p' = pr_id p ∧ pr_name p' = pr_name p
      ∧ pr_cert_subject p' = pr_cert_subject p) as Hback.
  { intros j p'. rewrite lookup_alter. case_decide; [subst|by eauto].
    destruct (td_producer d !! j); simpl; [|done]. intros [= <-]. eauto. }
  apply step_producers with d; [done|..]; simpl.
  - intros j p Hp. rewrite lookup_alter. case_decide; [subst; rewrite Hp; simpl|]; eauto.
  - intros [A B] j p' (p & Hp & -> & _)%Hback. by apply (A pool d).
  - intros [A B] j k x y (x' & Hx & E1 & E2 & E3)%Hback (y' & Hy & F1 & F2 & F3)%Hback Hs.
    apply (B pool d j k x' y'); [done..|]. unfold same_producer_key in *. congruence.
Qed.

(** A certificate is bound to a producer that the tenant has under that subject. *)
Lemma step_upsert_cert subject tenant producer pool mount c c' u :
  routed tenant pool mount c → pool_has pool producer subject c →
  upsert_cert subject tenant producer c = Ok (c', u) → producer_step c c'.
Proof.
  intros (t & Ht & _ & Hdb & _) Hp. unfold upsert_cert. rewrite Ht. intros [= <- _].
  split; [by apply pinned_same|intros; eauto 10|by intros []; split| |].
  - intros Hc s row. simpl. rewrite lookup_insert_Some. intros [[<- <-]|[_ Hs]]; [|by apply Hc].
    exists t. simpl. split; [done|]. by rewrite Hdb.
  - intros s row Hs. simpl. rewrite lookup_insert. case_decide; [subst; rewrite Hs|]; eauto.
Qed.

Lemma step_disable_cert subject c : producer_step c (on_cert (alter (pc_set_enabled false) subject) c).
Proof.
  assert (∀ s r', alter (pc_set_enabled false) subject (cl_cert c) !! s = Some r' →
    ∃ r, cl_cert c !! s = Some r ∧ pc_tenant_id r' = pc_tenant_id r ∧ pc_producer_id r' = pc_producer_id r) as Hback.
  { intros s r'. rewrite lookup_alter. case_decide; [subst|by eauto].
    destruct (cl_cert c !! s); simpl; [|done]. intros [= <-]. eauto. }
  split; [by apply pinned_same|intros; eauto 10|by intros []; split| |].
  - intros Hc s r' (r & Hr & E1 & E2)%Hback. rewrite E1, E2. by apply Hc.
  - intros s r Hr. simpl. rewrite lookup_alter. case_decide; [subst; rewrite Hr; simpl|]; eauto.
Qed.

(** ** The operations keep it *)

(** What a run knows about the pool it works on. *)
Definition at_pool (pool : string) (tenant : N) (c : Cluster) : Prop :=
  producers_ok c ∧ ∃ mount, routed tenant pool mount c.
Lemma at_pool_stable pool tenant : stable producer_step (at_pool pool tenant).
Proof.
  intros c c' HR [H1 [m H2]]. split; [by apply HR|]. exists m. eapply routed_stable; [apply HR|done].
Qed.
#[export] Hint Resolve at_pool_stable : core.

Section Operations.
Context (name cert_subject owner_team contact actor : string).

Lemma record_audit_guar actor' action tenant detail : guar producer_step (record_audit actor' action tenant detail).
Proof. apply guar_exec; [apply _|]. intros t c. apply step_audit. Qed.
Hint Resolve record_audit_guar : effects.

Lemma reject_guar {A} tenant e : guar producer_step (reject_register name cert_subject actor (A:=A) tenant e).
Proof. unfold reject_register, audit_register, audit_producer. step_guar. Qed.

Lemma snapshot_hoare pool tenant :
  hoare producer_step (at_pool pool tenant) (snapshot name cert_subject pool)
    (λ f c, at_pool pool tenant c ∧ ∀ p, f.1 = Some p → pool_has pool (pr_id p) (pr_cert_subject p) c) (λ _, True).
Proof.
  unfold snapshot. apply hoare_transaction; [apply _|auto|done|].
  apply (tx_post_bind _ _ (λ c c' _, c = c')); [apply tx_post_sql; by intros t c c' a [= -> _]|]. intros _.
  apply (tx_post_bind _ _ (λ c c' o, c' = c ∧ ∃ d, cl_database c !! pool = Some d ∧ o = find_by_name name d)).
  { apply tx_post_sql. intros t c c' a Hq. by eapply pool_query_id in Hq. }
  intros o. apply (tx_post_bind _ _ (λ c c' _, c' = c)).
  { apply tx_post_sql. intros t c c' a Hq. by apply pool_query_id in Hq as [? _]. }
  intros o2. apply tx_post_ret. intros ? c -> ? (-> & d & Hd & ->) ? -> Hp. cbn [fst]. split; [reflexivity|]. split; [done|].
  intros p [Hn [i Hi]]%find_row_Some. exists d, p. split_and!; [done| |done]. by rewrite (po_key _ (proj1 Hp) _ _ _ _ Hd Hi).
Qed.

Lemma upsert_sustains pool tenant producer subject :
  sustains producer_step (λ c, at_pool pool tenant c ∧ pool_has pool producer subject c)
    (upsert_producer_cert subject tenant producer).
Proof.
  apply hoare_sql; [apply _|apply stable_and; auto|done|]. intros t c [[Hok [m Hr]] Hh].
  destruct (upsert_cert subject tenant producer c) as [[c' u]|e] eqn:Hu; [|done].
  assert (producer_step c c') as HR by (by eapply step_upsert_cert). split; [done|].
  eapply (stable_and producer_step (at_pool pool tenant) (pool_has pool producer subject)); [auto|auto|done|]. split; [|done].
  split; eauto.
Qed.

Lemma classify_sustains pool tenant :
  sustains producer_step (at_pool pool tenant)
    (classify_registration name cert_subject owner_team contact actor pool tenant).
Proof.
  pose proof (λ t e, reject_guar (A:=option RegisterOutcome) t e) as Hrej. unfold classify_registration.
  eapply hoare_bind; [apply _|apply hoare_lift, snapshot_hoare|]. intros [[p|] o]; cbn [fst snd].
  - case_decide as Hsame.
    + apply (hoare_pre _ _ (λ c, at_pool pool tenant c ∧ pool_has pool (pr_id p) cert_subject c)).
      2: { intros c [H1 H2]. split; [done|]. rewrite <- (proj1 Hsame). by apply H2. }
      apply (sustains_fst producer_step (at_pool pool tenant)), sustains_bind; [apply _|..].
      * apply sustains_lift, upsert_sustains.
      * intros _. apply sustains_guar; [apply stable_and; auto|]. unfold audit_register, audit_producer. step_guar.
    + eapply hoare_pre; [apply (sustains_guar producer_step (at_pool pool tenant)); auto|by intros c [? _]].
  - apply (hoare_pre _ _ (at_pool pool tenant)); [|by intros c [? _]].
    apply (sustains_guar producer_step (at_pool pool tenant)); [auto|]. step_guar.
Qed.

Lemma inner_sustains fresh pool tenant :
  sustains producer_step (at_pool pool tenant)
    (register_producer_inner name cert_subject owner_team contact actor fresh pool tenant).
Proof.
  pose proof (classify_sustains pool tenant). pose proof (λ t e, reject_guar (A:=RegisterOutcome) t e) as Hrej.
  unfold register_producer_inner. apply sustains_bind; [apply _|done|]. intros [o|]; [step_sustain|].
  eapply (hoare_bind _ _ _ _ (λ (b : bool) c, at_pool pool tenant c ∧ (b = true → pool_has pool fresh cert_subject c))).
  { apply hoare_lift. unfold insert_if_absent.
    eapply (hoare_bind _ _ _ _ (λ _, at_pool pool tenant)); [apply hoare_now; auto; apply _|]. intros now.
    apply hoare_sql; [apply _|auto|done|]. intros t c Hc. unfold on_pool.
    destruct (cl_database c !! pool) as [d|] eqn:Hd; [|done].
    set (row := MkProducer _ _ _ _ _ _ _). destruct (insert_producer row d) as [d' b] eqn:Hi.
    assert (producer_step c (on_database (<[pool := d']>) c)) as HR.
    { replace d' with (insert_producer row d).1 by by rewrite Hi. by apply step_insert_producer. }
    split; [done|]. split; [by eapply at_pool_stable|]. intros ->. unfold insert_producer in Hi.
    case_decide; simplify_eq/=. exists (on_producer (<[fresh := row]>) d), row. simpl.
    by rewrite !lookup_insert_eq. }
  intros [|].
  - apply (hoare_pre _ _ (λ c, at_pool pool tenant c ∧ pool_has pool fresh cert_subject c)); [|naive_solver].
    apply (sustains_fst producer_step (at_pool pool tenant)), sustains_bind; [apply _|..].
    + apply sustains_lift, upsert_sustains.
    + intros _. apply sustains_guar; [apply stable_and; auto|]. unfold audit_register, audit_producer. step_guar.
  - apply (hoare_pre _ _ (at_pool pool tenant)); [|by intros c [? _]].
    apply sustains_bind; [apply _|done|]. intros [o|]; step_sustain.
Qed.

Lemma pool_query_guar {A} pool (f : Z → TenantDb → A) : guar producer_step (pool_query pool f).
Proof. apply guar_pool_query, _. Qed.
Lemma set_enabled_guar pool i b : guar producer_step (set_enabled pool i b).
Proof.
  apply guar_sql; [apply _|]. intros t c c' a. unfold on_pool. destruct (cl_database c !! pool) as [d|] eqn:Hd; [|done].
  intros [= <- _]. by apply step_set_enabled.
Qed.
Lemma set_cert_enabled_guar subject : guar producer_step (set_cert_enabled subject false).
Proof. apply guar_exec; [apply _|]. intros t c. apply step_disable_cert. Qed.
Hint Resolve pool_query_guar set_enabled_guar set_cert_enabled_guar : effects.

Lemma disable_inner_guar pool tenant : guar producer_step (disable_producer_inner name actor pool tenant).
Proof. unfold disable_producer_inner, audit_disable, audit_producer. step_guar. Qed.
End Operations.

(** The start of both operations: the tenant's row and a pool on its database. *)
Definition control_ok (c : Cluster) : Prop := tenants_ok c ∧ producers_ok c.
Lemma control_ok_stable : stable producer_step control_ok.
Proof. intros c c' HR [H1 H2]. split; by apply HR. Qed.
#[export] Hint Resolve control_ok_stable : core.

Section Guarantees.
Context `{!PgUrl} (base_db_url tenant_slug name actor : string).

Lemma tenant_pool_hoare tenant :
  hoare producer_step control_ok (connect_tenant_pool base_db_url (tt_id tenant) (tt_database_name tenant))
    (λ p, at_pool (tp_pool p) (tt_id tenant)) (λ _, True).
Proof.
  eapply hoare_weaken; [apply (connect_hoare producer_step base_db_url (tt_id tenant) (tt_database_name tenant) control_ok)|done| |done].
  - intros c c' HR. apply HR.
  - auto.
  - by intros c [? _].
  - intros p c ([_ Hok] & _ & -> & Hr). done.
Qed.

(** Either operation, from the slug on. *)
Lemma by_slug_guar {A} (no_tenant : CEff ProducerError A) (work : string → N → CEff ProducerError A) :
  guar producer_step no_tenant →
  (∀ pool tenant, sustains producer_step (at_pool pool tenant) (work pool tenant)) →
  sustains producer_step control_ok
    (tenant ←! elift PrDatabase (query (λ _, find_by_slug tenant_slug));
     match tenant with
     | None => no_tenant
     | Some tenant =>
         pool ←! elift producer_of_connect (connect_tenant_pool base_db_url (tt_id tenant) (tt_database_name tenant));
         work (tp_pool pool) (tt_id tenant)
     end).
Proof.
  intros Hn Hw. apply sustains_bind; [apply _|step_sustain|]. intros [tenant|]; [|step_sustain].
  apply (hoare_weaken _ control_ok (λ c, control_ok c ∧ control_ok c) _ _ (λ _ c, control_ok c ∧ True) _ (λ _, True));
    [|done|by intros a c [? _]|done].
  apply hoare_frame; [auto|]. eapply hoare_bind; [apply _|apply hoare_lift, tenant_pool_hoare|]. intros p.
  eapply hoare_weaken; [apply Hw|done..].
Qed.

Lemma register_sustains cert_subject owner_team contact fresh :
  sustains producer_step control_ok
    (register_producer name cert_subject owner_team contact actor base_db_url tenant_slug fresh).
Proof.
  apply (by_slug_guar (reject_register name cert_subject actor None rejection.NO_SLUG)
    (register_producer_inner name cert_subject owner_team contact actor fresh)); [apply reject_guar|].
  intros pool tenant. apply inner_sustains.
Qed.

Lemma disable_sustains : sustains producer_step control_ok (disable_producer name actor base_db_url tenant_slug).
Proof.
  pose proof (λ t o, record_audit_guar t o) as Ha.
  apply (by_slug_guar (audit_disable name actor None None "rejected" ;! ethrow (PrDatabase rejection.NO_SLUG))
    (disable_producer_inner name actor)).
  - unfold audit_disable, audit_producer. step_guar.
  - intros pool tenant. apply sustains_guar; [auto|apply disable_inner_guar].
Qed.

(** A certificate always leads to its producer: registering and disabling, among
    processes that do the same, keep every certificate bound to a producer that the
    tenant it names has under that very subject, keep names and subjects unique in
    every tenant, and drop nothing, whichever statements and commits fail. *)
Theorem certificates_lead_to_their_producer cert_subject owner_team contact fresh (w : CW) :
  rely producer_step w → control_ok (w_db w) → certs_ok (w_db w) →
  let w1 := (register_producer name cert_subject owner_team contact actor base_db_url tenant_slug fresh w).1 in
  let w2 := (disable_producer name actor base_db_url tenant_slug w).1 in
  (certs_ok (w_db w1) ∧ control_ok (w_db w1) ∧ producer_step (w_db w) (w_db w1))
  ∧ (certs_ok (w_db w2) ∧ control_ok (w_db w2) ∧ producer_step (w_db w) (w_db w2)).
Proof.
  intros Hr Hok Hc w1 w2.
  destruct (register_sustains cert_subject owner_team contact fresh w Hr Hok) as (_ & H1 & _).
  destruct (disable_sustains w Hr Hok) as (_ & H2 & _).
  split; (split_and!; [by eapply ps_certs_ok|by eapply control_ok_stable|done]).
Qed.

(** The tenant of the slug has the producer under the subject, with a certificate. *)
Definition certified (subject : string) (c : Cluster) : Prop :=
  control_ok c ∧ is_Some (cl_cert c !! subject) ∧ ∃ tid t d i p, cl_tenant c !! tid = Some t ∧ tt_slug t = tenant_slug
    ∧ cl_database c !! tt_database_name t = Some d ∧ td_producer d !! i = Some p ∧ pr_name p = name
    ∧ pr_cert_subject p = subject.
Lemma certified_stable subject : stable producer_step (certified subject).
Proof.
  intros c c' HR (Hok & [row Hrow] & tid & t & d & i & p & Ht & Hs & Hd & Hp & Hn & Hc).
  split; [by eapply control_ok_stable|]. destruct (ps_cert _ _ HR _ _ Hrow) as (row' & Hrow' & _). split; [by eexists|].
  destruct (pi_row _ _ (ps_pinned _ _ HR) _ _ Ht) as (t' & Ht' & [= _ Es _ Ed _ _]).
  destruct (ps_producer _ _ HR _ _ _ _ Hd Hp) as (d' & p' & Hd' & Hp' & En & Ec).
  exists tid, t', d', i, p'. rewrite Ed. split_and!; congruence.
Qed.
Hint Resolve certified_stable : core.

(** The certificate is on file and disabled. *)
Definition locked (subject : string) (c : Cluster) : Prop :=
  ∃ row, cl_cert c !! subject = Some row ∧ pc_enabled row = false.
Lemma locked_stable subject : stable producer_step (locked subject).
Proof. intros c c' HR (row & Hrow & He). destruct (ps_cert _ _ HR _ _ Hrow) as (row' & ? & ?). exists row'. auto. Qed.
Hint Resolve locked_stable : core.

Lemma disable_inner_locks subject pool tenant :
  hoare producer_step (λ c, certified subject c ∧ ∃ t, cl_tenant c !! tenant = Some t ∧ tt_slug t = tenant_slug ∧ tt_database_name t = pool)
    (disable_producer_inner name actor pool tenant) (λ _, locked subject) (λ _, True).
Proof.
  pose proof (record_audit_guar) as Ha. pose proof set_enabled_guar. unfold disable_producer_inner.
  eapply (hoare_bind _ _ _ _ (λ o c, certified subject c ∧ ∀ p, o = Some p → pr_cert_subject p = subject)).
  { apply hoare_lift, hoare_sql; [apply _| |done|].
    - intros c c' HR [H1 (t & Ht & Hs & Hd)]. split; [by eapply certified_stable|].
      destruct (pi_row _ _ (ps_pinned _ _ HR) _ _ Ht) as (t' & Ht' & [= _ Es _ Ed _ _]). exists t'. split_and!; congruence.
    - intros t c [Hcert (t1 & Ht1 & Hs1 & Hd1)].
      destruct (on_pool pool _ t c) as [[c' o]|] eqn:Hq; [|done].
      apply pool_query_id in Hq as [-> (d & Hd & ->)]. split; [reflexivity|]. split; [done|].
      intros p [Hn [i Hi]]%find_row_Some.
      destruct Hcert as ([Ht Hp] & _ & tid & t2 & d2 & j & p2 & Ht2 & Hs2 & Hd2 & Hp2 & Hn2 & <-).
      assert (tid = tenant) as -> by (eapply (to_unique _ Ht _ _ t2 t1); [done|done|right; left; congruence]).
      assert (d2 = d) as -> by congruence.
      assert (i = j) as -> by (eapply (po_unique _ Hp _ _ _ _ p p2); [exact Hd|done..|right; left; congruence]). congruence. }
  intros [p|]; cbn [fst].
  - apply (hoare_pre _ _ (λ c, certified subject c ∧ pr_cert_subject p = subject)); [|naive_solver].
    apply (hoare_pre _ _ (λ c, pr_cert_subject p = subject ∧ certified subject c)); [|naive_solver].
    apply hoare_pull. intros ->. eapply (hoare_bind _ _ _ _ (λ _, locked subject)).
    { apply hoare_lift, hoare_sql; [apply _|auto|done|]. intros t c (_ & [row Hrow] & _). split; [apply step_disable_cert|].
      exists (pc_set_enabled false row). simpl. by rewrite lookup_alter_eq, Hrow. }
    intros _. apply (sustains_guar producer_step (locked subject)); [auto|].
    unfold audit_disable, audit_producer. step_guar.
  - unfold audit_disable, audit_producer. eapply (hoare_bind _ _ _ _ (λ _ _, True)); [|intros _; by apply hoare_throw; [apply _|]].
    eapply hoare_weaken; [apply (sustains_guar producer_step (λ _, True)); [by intros ????|step_guar]|done..].
Qed.

Lemma disable_locks subject :
  hoare producer_step (certified subject) (disable_producer name actor base_db_url tenant_slug)
    (λ _, locked subject) (λ _, True).
Proof.
  pose proof (record_audit_guar) as Ha. unfold disable_producer.
  eapply (hoare_bind _ _ _ _ (λ o c, certified subject c ∧ ∀ t, o = Some t →
    routed (tt_id t) (tt_database_name t) (tt_vault_mount t) c ∧ find_by_slug tenant_slug c = Some t)).
  { apply hoare_lift, hoare_query; [apply _|auto|done|]. intros _ c Hc. split; [done|]. intros t Ht.
    split; [|done]. apply find_row_Some in Ht as [_ [i Hi]]. pose proof (to_key c (proj1 (proj1 Hc)) _ _ Hi) as <-. by exists t. }
  intros [t|].
  2: { unfold audit_disable, audit_producer. eapply (hoare_bind _ _ _ _ (λ _ _, True)); [|intros _; by apply hoare_throw; [apply _|]].
       eapply hoare_weaken; [apply (sustains_guar producer_step (λ _, True)); [by intros ????|step_guar]|done..]. }
  set (mine := λ c, ∃ t', cl_tenant c !! tt_id t = Some t' ∧ tt_slug t' = tenant_slug ∧ tt_database_name t' = tt_database_name t).
  assert (stable producer_step mine) as Hst.
  { intros c c' HR (t1 & Ht & Hs & Hd). destruct (pi_row _ _ (ps_pinned _ _ HR) _ _ Ht) as (t' & Ht' & [= _ Es _ Ed _ _]).
    exists t'. split_and!; congruence. }
  apply (hoare_pre _ _ (λ c, certified subject c ∧ mine c)).
  2: { intros c [Hc Ht]. split; [done|]. destruct (Ht t eq_refl) as [_ [Hs [i Hi]]%find_row_Some].
       pose proof (to_key c (proj1 (proj1 Hc)) _ _ Hi) as <-. by exists t. }
  eapply (hoare_bind _ _ _ _ (λ p c, tp_pool p = tt_database_name t ∧ certified subject c ∧ mine c)).
  { apply hoare_lift. eapply hoare_weaken; [apply (connect_hoare producer_step base_db_url (tt_id t) (tt_database_name t)
      (λ c, certified subject c ∧ mine c))|done| |done].
    - intros c c' HR. apply HR.
    - apply stable_and; auto.
    - by intros c [[[? _] _] _].
    - intros p c (Hc & _ & Hp & _). split; [exact Hp|exact Hc]. }
  intros p. apply hoare_pull. intros ->. eapply hoare_pre; [apply disable_inner_locks|]. done.
Qed.

(** C13. An acknowledged disable locks the producer out: once disabling a producer
    whose certificate is on file has returned, no request under that certificate is
    identified any more, whatever registrations and disables run meanwhile or later
    and whatever fails. *)
Theorem acknowledged_disable_locks_out subject (w w1 w2 : CW) outcome :
  rely producer_step w → certified subject (w_db w) →
  disable_producer name actor base_db_url tenant_slug w = (w1, Ok outcome) →
  rely producer_step w2 → producer_step (w_db w1) (w_db w2) →
  ∀ i, (resolve_producer subject w2).2 ≠ Ok i.
Proof.
  intros Hr Hc Hrun Hr2 HR i Hi. destruct (disable_locks subject w Hr Hc) as (_ & _ & Hl). rewrite Hrun in Hl.
  pose proof (locked_stable subject _ _ HR Hl) as Hl2.
  assert (hoare producer_step (locked subject) (resolve_producer subject) (λ _ _, False) (λ _, True)) as Hh.
  { unfold resolve_producer. eapply (hoare_bind _ _ _ _ (λ o _, ∀ ct, o = Some ct → ct_enabled ct = false)).
    - apply hoare_lift, hoare_query; [apply _|auto|done|]. intros _ c (row & Hrow & He) ct. unfold find_producer_cert.
      rewrite Hrow. simpl. destruct (cl_tenant c !! pc_tenant_id row); simpl; [|done]. by intros [= <-].
    - intros o. apply hoare_of; [apply _|]. intros _ Ho. destruct (identify o) as [x|] eqn:Hx; [|done].
      apply identify_Ok in Hx as (ct & -> & He & _). by rewrite (Ho ct eq_refl) in He. }
  destruct (Hh w2 Hr2 Hl2) as (_ & _ & Hp). by rewrite Hi in Hp.
Qed.
End Guarantees.

(** ** What a registration comes to *)

Lemma pool_query_calm {A} pool (f : Z → TenantDb → A) (w : CW) d :
  w_env w = [] → cl_database (w_db w) !! pool = Some d → pool_query pool f w = (w, Ok (f (w_now w) d)).
Proof.
  intros Hc Hd. unfold pool_query, pool_sql. rewrite sql_calm by done. unfold on_pool. rewrite Hd.
  rewrite <- (set_db_same w) at 4. do 2 f_equal. destruct (w_db w); unfold on_database; simpl in *. by rewrite insert_id.
Qed.

(** The one audit row of a registration. *)
Definition audited (name cert_subject actor : string) (tenant : N) (outcome : string) (t : Z) (c : Cluster) : Cluster :=
  on_control_audit (λ l, l ++ [MkAudit actor "producer.register" (Some tenant)
    [("name", Some name); ("cert_subject", Some cert_subject); ("outcome", Some outcome)]%string t]) c.

(** The table of outcomes, from the two databases. *)
Inductive verdict : Type := VKnown (producer : N) | VNew | VRejected (e : SqlxError).
Definition verdict_of (name cert_subject owner_team contact : string) (tenant : N) (d : TenantDb) (c : Cluster) : verdict :=
  match find_by_name name d with
  | Some p => if decide ((pr_cert_subject p, pr_owner_team p, pr_contact p) = (cert_subject, owner_team, contact))
              then VKnown (pr_id p) else VRejected rejection.DIFFERENT_INPUTS
  | None =>
      if find_by_cert_subject cert_subject d then VRejected rejection.CERT_IN_TENANT
      else match pc_tenant_id <$> cl_cert c !! cert_subject with
           | Some other => if decide (other = tenant) then VNew else VRejected rejection.CERT_ELSEWHERE
           | None => VNew
           end
  end.

Definition bind_cert (subject : string) (tenant producer : N) (c : Cluster) : Cluster :=
  on_cert (λ m, <[subject := MkCert tenant producer (from_option pc_enabled true (m !! subject))]> m) c.

Section Outcomes.
Context (name cert_subject owner_team contact actor : string) (fresh : N) (pool : string) (tenant : N).

Definition new_row (t : Z) : Producer := MkProducer fresh name cert_subject owner_team contact true t.

Definition outcome_of (d : TenantDb) (t : Z) (v : verdict) (c : Cluster) : Cluster * result RegisterOutcome ProducerError :=
  let note := audited name cert_subject actor tenant in
  match v with
  | VKnown id => (note "idempotent"%string t (bind_cert cert_subject tenant id c), Ok (MkRegister id "idempotent"))
  | VNew => (note "created"%string t (bind_cert cert_subject tenant fresh
               (on_database (<[pool := on_producer (<[fresh := new_row t]>) d]>) c)), Ok (MkRegister fresh "created"))
  | VRejected e => (note "rejected"%string t c, Err (PrDatabase e))
  end.

Lemma upsert_calm producer (w : CW) :
  w_env w = [] → is_Some (cl_tenant (w_db w) !! tenant) →
  upsert_producer_cert cert_subject tenant producer w = (set_db (bind_cert cert_subject tenant producer (w_db w)) w, Ok tt).
Proof.
  intros Hc [t Ht]. unfold upsert_producer_cert. rewrite sql_calm by done. unfold upsert_cert. rewrite Ht.
  unfold bind_cert, on_cert, from_option. by destruct (cl_cert (w_db w) !! cert_subject).
Qed.

Lemma audit_calm outcome (w : CW) :
  w_env w = [] → audit_register name cert_subject actor (Some tenant) outcome w
    = (set_db (audited name cert_subject actor tenant outcome (w_now w) (w_db w)) w, Ok tt).
Proof. intros Hc. unfold audit_register, audit_producer, record_audit, elift. by rewrite exec_calm. Qed.

Lemma snapshot_calm (w : CW) d :
  calm w → cl_database (w_db w) !! pool = Some d →
  snapshot name cert_subject pool w = (w, Ok (find_by_name name d, find_by_cert_subject cert_subject d)).
Proof.
  intros Hc Hd. unfold snapshot.
  erewrite (transaction_calm _ _ w w (find_by_name name d, find_by_cert_subject cert_subject d)); [by rewrite set_tx_calm|done| |apply Hc|done].
  unfold ebind. rewrite query_calm by apply Hc. rewrite !(pool_query_calm _ _ _ d) by (try done; apply Hc). done.
Qed.

(** A registration comes to what the table of outcomes says: in a standing world
    the inner registration re-confirms a producer registered with the same inputs,
    refuses a name with other inputs, a subject the tenant or another tenant uses,
    and otherwise adds the producer and its certificate, and in every case it leaves
    exactly one audit row, with that outcome. *)
Theorem registration_follows_the_table (w : CW) d :
  calm w → is_Some (cl_tenant (w_db w) !! tenant) → cl_database (w_db w) !! pool = Some d →
  (∀ s row, cl_cert (w_db w) !! s = Some row → is_Some (cl_tenant (w_db w) !! pc_tenant_id row)) →
  (∀ i p, td_producer d !! i = Some p → i ≠ fresh ∧ pr_id p = i) →
  let v := verdict_of name cert_subject owner_team contact tenant d (w_db w) in
  register_producer_inner name cert_subject owner_team contact actor fresh pool tenant w
  = (set_db (outcome_of d (w_now w) v (w_db w)).1 w, (outcome_of d (w_now w) v (w_db w)).2).
Proof.
  intros Hc Ht Hd Hfk Hfresh. pose proof (proj1 Hc) as He.
  unfold register_producer_inner, classify_registration, verdict_of, reject_register, ebind.
  unfold elift at 1. rewrite (snapshot_calm w d) by done. cbn [fst snd map_err].
  destruct (find_by_name name d) as [p|] eqn:Hname; cbn [fst snd].
  { destruct (decide (pr_cert_subject p = cert_subject ∧ _)) as [(-> & -> & ->)|Hne].
    - rewrite decide_True by done. unfold elift. rewrite upsert_calm by done. cbn [map_err].
      by rewrite audit_calm.
    - rewrite decide_False by naive_solver. by rewrite audit_calm. }
  destruct (find_by_cert_subject cert_subject d) as [q|] eqn:Hcert; [by rewrite audit_calm|].
  assert (∃ o, elift PrDatabase (query (λ _, find_producer_cert cert_subject)) w = (w, Ok o)
    ∧ (ct_tenant_id <$> o) = (pc_tenant_id <$> cl_cert (w_db w) !! cert_subject)) as (o & Ho & Hot).
  { unfold elift. rewrite query_calm by done. eexists. split; [reflexivity|]. unfold find_producer_cert.
    destruct (cl_cert (w_db w) !! cert_subject) as [row|] eqn:Hrow; simpl; [|done].
    destruct (Hfk _ _ Hrow) as [t' Ht']. by rewrite Ht'. }
  rewrite Ho. clear Ho. rewrite <- Hot.
  assert (insert_producer (new_row (w_now w)) d = (on_producer (<[fresh := new_row (w_now w)]>) d, true)) as Hins.
  { unfold insert_producer. rewrite decide_False; [done|]. intros [[x Hx]|(x & Hx & Hs)%Exists_exists].
    - by destruct (Hfresh _ _ Hx).
    - apply elem_of_map_values in Hx as [i Hi]. destruct (Hfresh _ _ Hi) as [Hi1 Hi2].
      assert (∀ P `{∀ x, Decision (P x)}, find_row P (td_producer d) = None → ¬ P x) as Hnone.
      { intros P HP Hn HPx. unfold find_row in Hn. destruct (filter P (map_values (td_producer d))) eqn:Hf; [|done].
        assert (x ∈ @nil Producer) as []%not_elem_of_nil. rewrite <- Hf. apply list_elem_of_filter. split; [done|].
        apply elem_of_map_values. eauto. }
      destruct Hs as [Hs|[Hs|Hs]]; simpl in Hs; [congruence|by eapply Hnone in Hname|by eapply Hnone in Hcert]. }
  assert (elift PrDatabase (insert_if_absent pool fresh name cert_subject owner_team contact) w
    = (set_db (on_database (<[pool := on_producer (<[fresh := new_row (w_now w)]>) d]>) (w_db w)) w, Ok true)) as Hrun.
  { unfold elift, insert_if_absent, ebind. rewrite utc_now_calm by done. unfold pool_sql. rewrite sql_calm by done.
    unfold on_pool. rewrite Hd. fold (new_row (w_now w)). by rewrite Hins. }
  set (w1 := set_db _ w) in Hrun.
  assert ((elift PrDatabase (upsert_producer_cert cert_subject tenant fresh) ;!
      audit_register name cert_subject actor (Some tenant) "created" ;! eret (MkRegister fresh "created")) w1
    = (set_db (outcome_of d (w_now w) VNew (w_db w)).1 w, (outcome_of d (w_now w) VNew (w_db w)).2)) as Hnew.
  { unfold elift, ebind. rewrite upsert_calm by done. cbn [map_err]. by rewrite audit_calm. }
  destruct o as [ct|]; cbn [fmap option_fmap option_map].
  - destruct (decide (ct_tenant_id ct = tenant)) as [->|Hne].
    + rewrite decide_False by naive_solver. cbn [eret]. rewrite Hrun. exact Hnew.
    + rewrite decide_True by done. by rewrite audit_calm.
  - cbn [eret]. rewrite Hrun. exact Hnew.
Qed.
End Outcomes.

(** ** Concrete runs *)

#[local] Existing Instance demo_url.

Definition fraud : Producer := MkProducer 7 "fraud" "cn=fraud" "risk" "risk@example" true 0.
Definition with_fraud : Cluster :=
  on_database (<["tenant_acme"%string := on_producer (λ _, {[7%N := fraud]}) demo_tenant_db]>) two_tenants.

Lemma with_fraud_producers db d i p :
  cl_database with_fraud !! db = Some d → td_producer d !! i = Some p → db = "tenant_acme"%string ∧ i = 7%N ∧ p = fraud.
Proof.
  unfold with_fraud; simpl. rewrite lookup_insert_Some. intros [[<- <-]|[_ Hd]].
  - simpl. rewrite lookup_singleton_Some. naive_solver.
  - rewrite lookup_insert_Some, lookup_singleton_Some in Hd. destruct Hd as [[_ <-]|[_ [_ <-]]]; simpl; by intros ?%lookup_empty_Some.
Qed.

Lemma with_fraud_ok : control_ok with_fraud ∧ certs_ok with_fraud.
Proof.
  split; [split; [apply (pi_ok two_tenants); [by apply pinned_same|apply two_tenants_ok]|split]|].
  - intros db d i p Hd Hp. by destruct (with_fraud_producers _ _ _ _ Hd Hp) as (_ & -> & ->).
  - intros db d i j a b Hd Ha Hb _. destruct (with_fraud_producers _ _ _ _ Hd Ha) as (_ & -> & _).
    by destruct (with_fraud_producers _ _ _ _ Hd Hb) as (_ & -> & _).
  - intros s row. unfold with_fraud, two_tenants; simpl. rewrite lookup_singleton_Some. intros [<- <-].
    exists acme. split; [done|]. by exists (on_producer (λ _, {[7%N := fraud]}) demo_tenant_db), fraud.
Qed.

(** A statement is lost while the run goes on. *)
Definition flaky : CW := World with_fraud 100 false [Move 0 NoFault id; Move 2 FaultAfter id] [].
Lemma flaky_rely : rely producer_step flaky.
Proof. split; [|done]. repeat apply Forall_cons_2; [intros d; reflexivity..|done]. Qed.

Lemma certificates_witness :
  certs_ok (w_db (register_producer "billing" "cn=billing" "fin" "fin@example" "ops" "postgres://" "acme" 8 flaky).1).
Proof.
  destruct (certificates_lead_to_their_producer "postgres://" "acme" "billing" "ops" "cn=billing" "fin" "fin@example" 8
    flaky flaky_rely (proj1 with_fraud_ok) (proj2 with_fraud_ok)) as [[H _] _]. exact H.
Defined.

Definition disable_fraud (w : CW) : CW * result string ProducerError :=
  disable_producer "fraud" "ops" "postgres://" "acme" w.

Lemma disable_witness :
  (disable_fraud (cluster_world with_fraud)).2 = Ok "disabled"%string
  ∧ ∀ i, (resolve_producer "cn=fraud" (disable_fraud (cluster_world with_fraud)).1).2 ≠ Ok i.
Proof.
  destruct (disable_fraud (cluster_world with_fraud)) as [w1 [o|e]] eqn:Hrun;
    [|exfalso; vm_compute in Hrun; discriminate Hrun].
  assert (rely producer_step w1) as Hr1 by (vm_compute in Hrun; injection Hrun as <- _; by split).
  split; [vm_compute in Hrun; injection Hrun as _ <-; reflexivity|].
  apply (acknowledged_disable_locks_out "postgres://" "acme" "fraud" "ops" "cn=fraud" (cluster_world with_fraud) w1 w1 o).
  - by split.
  - split; [apply with_fraud_ok|]. split; [by eexists|].
    by exists 1%N, acme, (on_producer (λ _, {[7%N := fraud]}) demo_tenant_db), 7%N, fraud.
  - exact Hrun.
  - exact Hr1.
  - reflexivity.
Defined.

Lemma table_witness :
  (register_producer_inner "fraud" "cn=fraud" "risk" "risk@example" "ops" 9 "tenant_acme" 1 (cluster_world with_fraud)).2
  = Ok (MkRegister 7 "idempotent").
Proof.
  rewrite (registration_follows_the_table "fraud" "cn=fraud" "risk" "risk@example" "ops" 9 "tenant_acme" 1
    (cluster_world with_fraud) (on_producer (λ _, {[7%N := fraud]}) demo_tenant_db)).
  - vm_compute. reflexivity.
  - by split.
  - by eexists.
  - reflexivity.
  - intros s row. simpl. rewrite lookup_singleton_Some. intros [_ <-]. by eexists.
  - intros i p. simpl. rewrite lookup_singleton_Some. by intros [<- <-].
Defined.

(** Registers "pay" under "cn=pay" for a tenant; with [crash], the certificate is not
    written any more. *)
Definition register_pay (slug : string) (fresh : N) (crash : bool) (c : Cluster) : CW * result RegisterOutcome ProducerError :=
  register_producer "pay" "cn=pay" "pay" "pay@example" "ops" "postgres://" slug fresh
    (World c 100 false (if crash then replicate 12 idle ++ [Move 0 FaultBefore id] else []) []).

(** A retried registration takes a certificate over from another tenant: a
    registration for one tenant stops between its two writes, another tenant
    registers the same subject and is told "created", and the retry of the first
    one is told "idempotent" and rebinds the certificate to the first tenant. *)
Theorem retried_registration_takes_a_certificate_over :
  let a := register_pay "acme" 8 true with_fraud in
  let b := register_pay "bolt" 9 false (w_db a.1) in
  let a' := register_pay "acme" 10 false (w_db b.1) in
  a.2 = Err (PrDatabase SqlIo)
  ∧ b.2 = Ok (MkRegister 9 "created") ∧ cl_cert (w_db b.1) !! "cn=pay"%string = Some (MkCert 2 9 true)
  ∧ a'.2 = Ok (MkRegister 8 "idempotent") ∧ cl_cert (w_db a'.1) !! "cn=pay"%string = Some (MkCert 1 8 true).
Proof. vm_compute. done. Qed.

(** A retried registration enables a disabled producer: disabled before its
    certificate was written, the producer is identified again once the registration
    is retried, while its own row still says it is disabled. *)
Theorem retried_registration_enables_a_disabled_producer :
  let a := register_pay "acme" 8 true with_fraud in
  let b := disable_producer "pay" "ops" "postgres://" "acme" (cluster_world (w_db a.1)) in
  let a' := register_pay "acme" 10 false (w_db b.1) in
  b.2 = Ok "disabled"%string ∧ a'.2 = Ok (MkRegister 8 "idempotent")
  ∧ (resolve_producer "cn=pay" (cluster_world (w_db a'.1))).2 = Ok (MkIdentity 1 8)
  ∧ (pr_enabled <$> (d ← cl_database (w_db a'.1) !! "tenant_acme"%string; td_producer d !! 8%N)) = Some false.
Proof. vm_compute. done. Qed.
