(* ===== verification/Platform.v ===== *)
(** * Platform kill switches and suspension

    Models [src/platform_kill_switch/configure.rs] and the suspend action of
    [src/platform_console/tenants.rs]: switches of the control database that hold
    one tenant or all, with their audit rows in the same transaction, the fan-out
    that wakes the dispatchers, and what a suspension stops. *)

From S2P Require Import Prelude RustStd Time Schema KillSwitch Dek Outbox Ingest Tenancy.
From stdpp Require Import base gmap strings list sorting.
From Stdlib Require Import ZArith Lia.

Local Open Scope effect_scope.
Local Open Scope Z_scope.

(** [platform_kill_switch::configure::ConfigureError]; a panic of the fan-out's
    connection check ends the request. *)
Inductive PlatformError : Type :=
| PfDatabase (e : SqlxError)
| PfAlreadyEngaged
| PfRejected (message : string)
| PfPanic.

Record EngageOutcome : Type := MkEngaged { eo_id : N; eo_notify_targets : list Tenant }.
Record ReleaseOutcome : Type := MkReleased { rl_outcome : string; rl_notify_targets : list Tenant }.
Record FanOutReport : Type := MkReport { fo_notified : nat; fo_failed : nat }.

(** ** Statements *)

(** The partial unique index on live switches. *)
Definition same_live_platform (a b : PlatformKillSwitch) : Prop :=
  pk_released_at a = None ∧ pk_released_at b = None ∧ pk_scope a = pk_scope b
  ∧ default 0%N (pk_tenant_id a) = default 0%N (pk_tenant_id b).
#[export] Instance same_live_platform_dec : RelDecision same_live_platform.
Proof. intros a b. unfold same_live_platform. apply _. Defined.

(** The checks of the table: a scope of the two, with a tenant exactly when it is
    ['tenant'], which references the tenant. *)
Definition platform_row_ok (p : PlatformKillSwitch) (c : Cluster) : Prop :=
  (pk_scope p = platform_scope.PLATFORM ∧ pk_tenant_id p = None)
  ∨ (pk_scope p = platform_scope.TENANT ∧ ∃ t, pk_tenant_id p = Some t ∧ is_Some (cl_tenant c !! t)).
#[export] Instance platform_row_ok_dec p c : Decision (platform_row_ok p c).
Proof.
  unfold platform_row_ok. destruct (pk_tenant_id p) as [t|].
  - destruct (decide (pk_scope p = platform_scope.TENANT ∧ is_Some (cl_tenant c !! t))) as [[H1 H2]|Hn];
      [left; right; eauto|right; naive_solver].
  - destruct (decide (pk_scope p = platform_scope.PLATFORM)); [left; by left|right; naive_solver].
Defined.

(** [INSERT .. ON CONFLICT .. DO NOTHING RETURNING id]. *)
Definition insert_platform (p : PlatformKillSwitch) (c : Cluster) : result (Cluster * option N) SqlxError :=
  if decide (platform_row_ok p c) then
    if decide (is_Some (cl_platform_switch c !! pk_id p)) then Err (SqlConstraint "platform_kill_switch_pkey")
    else if decide (Exists (same_live_platform p) (map_values (cl_platform_switch c))) then Ok (c, None)
    else Ok (on_platform (<[pk_id p := p]>) c, Some (pk_id p))
  else Err (SqlConstraint "platform_kill_switch_scope_check").

Definition pk_release (actor : string) (t : Z) (p : PlatformKillSwitch) : PlatformKillSwitch :=
  MkPlatformSwitch (pk_id p) (pk_scope p) (pk_tenant_id p) (pk_engaged_by p) (pk_engaged_at p) (pk_reason p)
    (Some actor) (Some t).

(** [UPDATE .. WHERE id AND released_at IS NULL RETURNING scope, tenant_id]. *)
Definition release_platform (id : N) (actor : string) (t : Z) (c : Cluster)
    : Cluster * option (string * option N) :=
  match cl_platform_switch c !! id with
  | Some p => if decide (pk_released_at p = None)
              then (on_platform (<[id := pk_release actor t p]>) c, Some (pk_scope p, pk_tenant_id p))
              else (c, None)
  | None => (c, None)
  end.

Definition newest_tenant (a b : Tenant) : Prop := tt_created_at b <= tt_created_at a.
#[export] Instance newest_tenant_dec : RelDecision newest_tenant.
Proof. intros a b. unfold newest_tenant. apply _. Defined.
(** [tenant::repo::list]. *)
Definition list_tenants (c : Cluster) : list Tenant := merge_sort newest_tenant (map_values (cl_tenant c)).

(** [fan_out_targets]. *)
Definition fan_out_targets (scope_value : string) (tenant_id : option N) (c : Cluster) : list Tenant :=
  if decide (scope_value = platform_scope.TENANT ∧ is_Some tenant_id) then
    option_list (id ← tenant_id; find_by_id id c)
  else if decide (scope_value = platform_scope.PLATFORM) then
    filter (λ t, tt_status t ∈ [status.ACTIVE; status.SUSPENDED; status.OFFBOARDING_ARCHIVE]) (list_tenants c)
  else [].

(** ** Engage and release *)

Definition audit_engage_platform (actor scope_value : string) (tenant_id : option N) (reason outcome : string)
    : CEff SqlxError unit :=
  record_audit actor "platform_kill_switch.engage" tenant_id
    [("scope", Some scope_value); ("reason", Some reason); ("outcome", Some outcome)]%string.

(** Why an engage is refused before any write, if it is. *)
Definition engage_rejection (scope_value : string) (tenant_id : option N) : CEff SqlxError (option string) :=
  if decide (scope_value = platform_scope.PLATFORM) then
    eret (match tenant_id with
          | None => None
          | Some _ => Some "a platform-scope switch must not name a tenant"%string
          end)
  else if decide (scope_value = platform_scope.TENANT) then
    match tenant_id with
    | None => eret (Some "a tenant-scope switch must name a tenant"%string)
    | Some id =>
        tenant ←! query (λ _, find_by_id id);
        eret (match tenant with None => Some "no tenant registered with id"%string | Some _ => None end)
    end
  else eret (Some "unrecognised platform_kill_switch scope"%string).

(** [engage_tx], in the caller's transaction: a domain refusal is a value, so that
    the transaction can still commit; [fresh] is the id drawn. *)
Definition engage_tx (fresh : N) (scope_value : string) (tenant_id : option N) (reason actor : string)
    : CEff SqlxError (result EngageOutcome PlatformError) :=
  rejection ←! engage_rejection scope_value tenant_id;
  match rejection with
  | Some message =>
      audit_engage_platform actor scope_value tenant_id reason "rejected" ;! eret (Err (PfRejected message))
  | None =>
      inserted ←! sql (λ t, insert_platform
        (MkPlatformSwitch fresh scope_value tenant_id actor t reason None None));
      match inserted with
      | None =>
          audit_engage_platform actor scope_value tenant_id reason "already_engaged" ;! eret (Err PfAlreadyEngaged)
      | Some _ =>
          audit_engage_platform actor scope_value tenant_id reason "engaged" ;!
          targets ←! query (λ _, fan_out_targets scope_value tenant_id);
          eret (Ok (MkEngaged fresh targets))
      end
  end.

Section FanOut.
Context `{!PgUrl} (base_db_url : string).

(** [notify_one]; a panic is not caught by the fan-out. *)
Definition notify_one (tenant : Tenant) : CEff ConnectError unit :=
  pool ←! connect_tenant_pool base_db_url (tt_id tenant) (tt_database_name tenant);
  elift CSqlx (pool_query (tp_pool pool) (λ _ _, tt)).

(** [notify_tenants]: failures are counted, never returned. *)
Fixpoint notify_tenants (targets : list Tenant) (report : FanOutReport) : CEff PlatformError FanOutReport :=
  match targets with
  | [] => eret report
  | tenant :: targets =>
      r ←! etry (notify_one tenant);
      match r with
      | Ok _ => notify_tenants targets (MkReport (S (fo_notified report)) (fo_failed report))
      | Err (CSqlx _) => notify_tenants targets (MkReport (fo_notified report) (S (fo_failed report)))
      | Err CMisrouted => ethrow PfPanic
      end
  end.

(** [platform_kill_switch::configure::engage]. *)
Definition engage_platform (fresh : N) (scope_value : string) (tenant_id : option N) (reason actor : string)
    : CEff PlatformError (EngageOutcome * FanOutReport) :=
  outcome ←! elift PfDatabase (transaction (engage_tx fresh scope_value tenant_id reason actor) (λ _, true));
  outcome ←! eof outcome;
  report ←! notify_tenants (eo_notify_targets outcome) (MkReport 0 0);
  eret (outcome, report).

(** The transaction of [platform_kill_switch::configure::release]. *)
Definition release_tx (id : N) (id_text actor : string) : CEff SqlxError ReleaseOutcome :=
  released ←! sql (λ t c, Ok (release_platform id actor t c));
  found ←! match released with
           | Some (scope_value, tenant_id) =>
               targets ←! query (λ _, fan_out_targets scope_value tenant_id);
               eret ("released"%string, tenant_id, targets)
           | None => eret ("idempotent"%string, None, [])
           end;
  record_audit actor "platform_kill_switch.release" found.1.2
    [("id", Some id_text); ("outcome", Some found.1.1)]%string ;!
  eret (MkReleased found.1.1 found.2).

Definition release_platform_switch (id : N) (id_text actor : string) : CEff PlatformError (ReleaseOutcome * FanOutReport) :=
  outcome ←! elift PfDatabase (transaction (release_tx id id_text actor) (λ _, true));
  report ←! notify_tenants (rl_notify_targets outcome) (MkReport 0 0);
  eret (outcome, report).

(** ** Suspension *)

Definition SUSPEND_REASON : string := "tenant suspended".

(** The transaction of [platform_console::tenants::suspend]: [None] when there is no
    such tenant, and then nothing is committed. *)
Definition suspend_tx (fresh id : N) (actor : string) : CEff SqlxError (option (list Tenant)) :=
  rows_affected ←! sql (λ _ c, Ok (set_status id status.SUSPENDED c));
  if (rows_affected =? 0)%nat then eret None
  else
    record_audit actor "tenant.suspend" (Some id) [] ;!
    engaged ←! engage_tx fresh platform_scope.TENANT (Some id) SUSPEND_REASON actor;
    match engaged with
    | Ok outcome => eret (Some (eo_notify_targets outcome))
    | Err PfAlreadyEngaged => eret (Some [])
    | Err _ => ethrow (SqlConfiguration "failed to engage the suspend platform switch")
    end.

(** [suspend] for an operator: whether the tenant exists. *)
Definition suspend (fresh id : N) (actor : string) : CEff PlatformError bool :=
  targets ←! elift PfDatabase (transaction (suspend_tx fresh id actor) (λ o, if o then true else false));
  match targets with
  | None => eret false
  | Some targets => notify_tenants targets (MkReport 0 0) ;! eret true
  end.
End FanOut.

(** ** The invariants *)

(** Switches sit under their own id, satisfy the checks of the table, and no two
    live ones cover the same. *)
Record platform_ok (c : Cluster) : Prop := {
  pf_row i p : cl_platform_switch c !! i = Some p → pk_id p = i ∧ platform_row_ok p c;
  pf_unique i j p q : cl_platform_switch c !! i = Some p → cl_platform_switch c !! j = Some q →
    same_live_platform p q → i = j;
}.

(** A live switch of its own holds the tenant. *)
Definition held (tenant : N) (c : Cluster) : Prop :=
  ∃ i p, cl_platform_switch c !! i = Some p ∧ pk_released_at p = None
    ∧ pk_scope p = platform_scope.TENANT ∧ pk_tenant_id p = Some tenant.
Definition suspended (tenant : N) (c : Cluster) : Prop :=
  ∃ t, cl_tenant c !! tenant = Some t ∧ tt_status t = status.SUSPENDED.
Definition suspended_are_held (c : Cluster) : Prop := ∀ tenant, suspended tenant c → held tenant c.

(** What engaging and suspending do: identities stay, the table stays well-formed,
    every suspended tenant stays held and suspended, and the audit only grows. *)
Record platform_step (c c' : Cluster) : Prop := {
  pt_pinned : pinned c c';
  pt_ok : platform_ok c → platform_ok c';
  pt_held : platform_ok c → suspended_are_held c → suspended_are_held c';
  pt_suspended tenant : suspended tenant c → suspended tenant c';
  pt_audit : cl_audit c `prefix_of` cl_audit c';
}.
#[export] Instance platform_step_pre : PreOrder platform_step.
Proof.
  split; [intros c; by split|]. intros c1 c2 c3 [A1 A2 A3 A4 A5] [B1 B2 B3 B4 B5]. split; auto; by etransitivity.
Qed.

Lemma row_ok_pinned p c c' : pinned c c' → platform_row_ok p c → platform_row_ok p c'.
Proof.
  intros HR [H|(H & t & Ht & [row Hrow])]; [by left|]. right. split; [done|]. exists t. split; [done|].
  destruct (pi_row _ _ HR _ _ Hrow) as (row' & ? & _). by eexists.
Qed.

(** *** Steps *)

(** Switches unchanged, no tenant newly suspended. *)
Lemma step_tenants c c' :
  pinned c c' → cl_platform_switch c' = cl_platform_switch c → cl_audit c `prefix_of` cl_audit c' →
  (∀ tenant, suspended tenant c' ↔ suspended tenant c) → platform_step c c'.
Proof.
  intros HR Hp Ha Hs. split; [done| | |by intros t ?%Hs|done].
  - intros [A B]. split; rewrite Hp; [|done]. intros i p Hi. destruct (A i p Hi) as [? ?]. split; [done|].
    by eapply row_ok_pinned.
  - intros _ Hh t Ht%Hs. unfold held. rewrite Hp. by apply Hh.
Qed.

(** A step that leaves the tenants alone and releases nothing. *)
Record engaging (c c' : Cluster) : Prop := {
  eg_step : platform_step c c';
  eg_tenant : cl_tenant c' = cl_tenant c;
  eg_held t : held t c → held t c';
}.
#[export] Instance engaging_pre : PreOrder engaging.
Proof.
  split; [intros c; split; [reflexivity|done|done]|]. intros c1 c2 c3 [A1 A2 A3] [B1 B2 B3].
  split; [by etransitivity|congruence|auto].
Qed.

Lemma step_control_audit l c : engaging c (on_control_audit (λ x, x ++ l) c).
Proof. split; [|done|done]. apply step_tenants; [by apply pinned_same|done|by exists l|done]. Qed.

Lemma step_insert_platform p c c' o :
  insert_platform p c = Ok (c', o) → pk_released_at p = None →
  engaging c c' ∧ (pk_scope p = platform_scope.TENANT → platform_ok c → ∀ t, pk_tenant_id p = Some t → held t c').
Proof.
  unfold insert_platform. case_decide as Hrow; [|done]. case_decide as Hfree; [done|].
  apply eq_None_not_Some in Hfree. intros Hins Hlive. case_decide as Hex; simplify_eq.
  - split; [done|]. intros Hsc [A B] t Ht. apply Exists_exists in Hex as (q & Hq & _ & Hl & Hs & Hk).
    apply elem_of_map_values in Hq as [i Hi]. exists i, q. split_and!; [done|done|congruence|].
    destruct (A i q Hi) as [_ [[Hqs _]|(_ & t' & Ht' & _)]]; [rewrite <- Hs, Hsc in Hqs; discriminate Hqs|].
    rewrite Ht, Ht' in Hk. simpl in Hk. congruence.
  - assert (∀ t, held t c → held t (on_platform (<[pk_id p := p]>) c)) as Hheld.
    { intros t (i & q & Hi & Hrest). exists i, q. simpl. by rewrite lookup_insert_ne by congruence. }
    split; [split; [split|done|done]|]; [by apply pinned_same| | |done|done|].
    + intros [A B]. split; simpl.
      * intros i q. rewrite lookup_insert_Some. intros [[<- <-]|[_ Hq]]; [done|by apply A].
      * intros i j a b. rewrite !lookup_insert_Some. intros [[<- <-]|[_ Ha]] [[<- <-]|[_ Hb]] Hs; [done| | |by eapply B].
        -- destruct Hex. apply Exists_exists. exists b. split; [apply elem_of_map_values; eauto|done].
        -- destruct Hex. apply Exists_exists. exists a. split; [apply elem_of_map_values; eauto|].
           unfold same_live_platform in *. naive_solver congruence.
    + intros _ Hh t Ht. by apply Hheld, Hh.
    + intros Hsc _ t Ht. exists (pk_id p), p. simpl. by rewrite lookup_insert_eq.
Qed.

Lemma record_audit_tx actor action tenant detail : tx_guar engaging (record_audit actor action tenant detail).
Proof. apply tx_guar_exec. intros t c. apply step_control_audit. Qed.
#[export] Hint Resolve record_audit_tx : effects.

(** An engage inside a transaction; unless it is rejected, a tenant switch holds. *)
Lemma engage_tx_post fresh scope_value tenant_id reason actor :
  tx_post (engage_tx fresh scope_value tenant_id reason actor)
    (λ c c' o, engaging c c' ∧
       (platform_ok c → scope_value = platform_scope.TENANT →
        match o with Err (PfRejected _) => True | _ => ∀ t, tenant_id = Some t → held t c' end)).
Proof.
  set (holds := λ c' : Cluster, ∀ t, tenant_id = Some t → held t c').
  assert (∀ c0 c1 c2 c3, engaging c0 c1 → engaging c1 c2 ∧ (scope_value = platform_scope.TENANT → platform_ok c1 → holds c2) →
    engaging c2 c3 → engaging c0 c3 ∧ (platform_ok c0 → scope_value = platform_scope.TENANT → holds c3)) as Hfin.
  { intros c0 c1 c2 c3 H0 [H1 H2] H3. split; [etransitivity; [exact H0|]; by etransitivity|].
    intros Hok Hsc t Ht. apply (eg_held _ _ H3), H2; [done|by apply (eg_step _ _ H0)|done]. }
  unfold engage_tx, audit_engage_platform. apply (tx_post_bind _ _ (λ c c' _, engaging c c')).
  { change (tx_guar engaging (engage_rejection scope_value tenant_id)). unfold engage_rejection. step_guar. }
  intros [message|].
  { apply (tx_post_bind _ _ (λ c c' _, engaging c c')); [apply record_audit_tx|]. intros _. apply tx_post_ret.
    intros c c1 H1 c0 H0. split; [by etransitivity|done]. }
  eapply (tx_post_bind _ _ (λ c c' o, engaging c c' ∧ (scope_value = platform_scope.TENANT → platform_ok c → holds c'))).
  { apply tx_post_sql. intros t c c' o Hi. by apply step_insert_platform in Hi. }
  intros o. destruct o as [i|].
  - apply (tx_post_bind _ _ (λ c c' _, engaging c c')); [apply record_audit_tx|].
    intros _. apply (tx_post_bind _ _ (λ c c' _, c = c')); [apply tx_post_sql; by intros t c c' a [= -> _]|].
    intros targets. apply tx_post_ret. intros c3 ? -> c2 H3 c1 H1 c0 H0. by eapply Hfin.
  - apply (tx_post_bind _ _ (λ c c' _, engaging c c')); [apply record_audit_tx|].
    intros _. apply tx_post_ret. intros c3 c2 H3 c1 H1 c0 H0. by eapply Hfin.
Qed.

(** The switches of a table that is well-formed stay so when a status changes. *)
Lemma status_platform_ok st id c : platform_ok c → platform_ok (on_tenant (alter (tt_set_status st) id) c).
Proof.
  intros [A B]. split; [|done]. intros i p Hi. destruct (A i p Hi). split; [done|]. eapply row_ok_pinned; [|done].
  by apply pinned_alter.
Qed.

(** The whole suspension: nothing, or the tenant suspended and held. *)
Lemma suspend_tx_post fresh id actor :
  tx_post (suspend_tx fresh id actor)
    (λ c c' o, (if o then true else false) = true → platform_step c c' ∧ suspended id c' ∧ (platform_ok c → held id c')).
Proof.
  unfold suspend_tx.
  apply (tx_post_bind _ _ (λ c c' n, c' = on_tenant (alter (tt_set_status status.SUSPENDED) id) c
    ∧ (n ≠ 0%nat → is_Some (cl_tenant c !! id)))).
  { apply tx_post_sql. intros _ c c' n [= <- <-]. split; [done|]. by destruct (cl_tenant c !! id). }
  intros n. destruct (Nat.eqb_spec n 0) as [->|Hn]; [by apply tx_post_ret|].
  apply (tx_post_bind _ _ (λ c c' _, engaging c c')); [apply record_audit_tx|]. intros _.
  eapply (tx_post_bind _ _ (λ c c' o, engaging c c' ∧ (platform_ok c →
    match o with Err (PfRejected _) => True | _ => held id c' end))).
  { eapply tx_post_weaken; [apply engage_tx_post|]. intros c c' o [H1 H2]. split; [done|]. intros Hok.
    specialize (H2 Hok eq_refl). destruct o as [x|[]]; auto. }
  assert (∀ c0 c3, engaging (on_tenant (alter (tt_set_status status.SUSPENDED) id) c0) c3 → is_Some (cl_tenant c0 !! id) →
    (platform_ok c0 → held id c3) → platform_step c0 c3 ∧ suspended id c3 ∧ (platform_ok c0 → held id c3)) as Hfin.
  { intros c0 c3 H1 [t0 Ht0] Hh. set (c1 := on_tenant _ c0) in *.
    assert (pinned c0 c1) as Hp by (by apply pinned_alter).
    assert (platform_ok c0 → platform_ok c1) as Hok by apply status_platform_ok.
    assert (suspended id c3) as Hs.
    { exists (tt_set_status status.SUSPENDED t0). rewrite (eg_tenant _ _ H1). simpl. by rewrite lookup_alter_eq, Ht0. }
    assert (∀ t, t ≠ id → suspended t c3 ↔ suspended t c0) as Hother.
    { intros t Ht. unfold suspended. rewrite (eg_tenant _ _ H1). simpl. by rewrite lookup_alter_ne. }
    split; [|done]. destruct H1 as [[E1 E2 E3 E4 E5] Et Eh]. split; [by etransitivity|auto| | |exact E5].
    - intros Hok0 HJ t Ht. destruct (decide (t = id)) as [->|Hne]; [by apply Hh|]. by apply Eh, HJ, Hother.
    - intros t Ht. destruct (decide (t = id)) as [->|Hne]; [done|by apply Hother]. }
  intros o. destruct o as [out|[e| |m|]]; try (by intros w Hw; split_and!; [exists 0%nat|..]).
  - apply tx_post_ret. intros c3 c2 [H2 H3] c1 H1 c0 [-> Hrow] _. apply Hfin; [by etransitivity|auto|].
    intros Hok. apply H3, (eg_step _ _ H1). by apply status_platform_ok.
  - apply tx_post_ret. intros c3 c2 [H2 H3] c1 H1 c0 [-> Hrow] _. apply Hfin; [by etransitivity|auto|].
    intros Hok. apply H3, (eg_step _ _ H1). by apply status_platform_ok.
Qed.

(** ** The operations *)

(** What every operation on switches does, releases included. *)
Record switch_step (c c' : Cluster) : Prop := {
  sw_pinned : pinned c c';
  sw_ok : platform_ok c → platform_ok c';
  sw_audit : cl_audit c `prefix_of` cl_audit c';
}.
#[export] Instance switch_step_pre : PreOrder switch_step.
Proof.
  split; [intros c; by split|]. intros c1 c2 c3 [A1 A2 A3] [B1 B2 B3]. split; auto; by etransitivity.
Qed.
Lemma platform_switch_step c c' : platform_step c c' → switch_step c c'.
Proof. intros [A B _ _ C]. by split. Qed.

Lemma step_release id actor t c : switch_step c (release_platform id actor t c).1.
Proof.
  unfold release_platform. destruct (cl_platform_switch c !! id) as [p|] eqn:Hp; [|done].
  case_decide as Hl; [|done]. split; [by apply pinned_same| |done]. intros [A B]. split; simpl.
  - intros i q. rewrite lookup_insert_Some. intros [[<- <-]|[_ Hq]]; [|by apply A]. by destruct (A id p Hp).
  - intros i j a b. rewrite !lookup_insert_Some.
    intros [[<- <-]|[_ Ha]] [[<- <-]|[_ Hb]] Hs; [done| | |by eapply B]; by destruct Hs as (H1 & H2 & _).
Qed.

Lemma release_tx_guar id id_text actor : tx_guar switch_step (release_tx id id_text actor).
Proof.
  unfold release_tx. step_guar.
  - apply tx_guar_sql. intros t c c' o [= Hr]. pose proof (step_release id actor t c) as Hs. by rewrite Hr in Hs.
  - apply tx_guar_exec. intros t c. apply platform_switch_step, (eg_step _ _ (step_control_audit _ c)).
Qed.

Section Operations.
Context `{!PgUrl} (base_db_url : string).

Lemma notify_guar (R : relation Cluster) `{!PreOrder R} targets report : guar R (notify_tenants base_db_url targets report).
Proof.
  pose proof (λ id name, connect_guar base_db_url id R name) as Hconn.
  revert report. induction targets as [|t targets IH]; intros report; cbn [notify_tenants]; unfold notify_one; step_guar.
  apply guar_pool_query, _.
Qed.
Hint Resolve notify_guar : effects.

Lemma engage_guar (R : relation Cluster) `{!PreOrder R} fresh scope_value tenant_id reason actor :
  (∀ c c', platform_step c c' → R c c') → guar R (engage_platform base_db_url fresh scope_value tenant_id reason actor).
Proof.
  intros HR. unfold engage_platform. step_guar. eapply tx_post_weaken; [apply engage_tx_post|].
  intros c c' o [H1 _]. apply HR, H1.
Qed.

Lemma suspend_guar (R : relation Cluster) `{!PreOrder R} fresh id actor :
  (∀ c c', platform_step c c' → R c c') → guar R (suspend base_db_url fresh id actor).
Proof.
  intros HR. unfold suspend. apply guar_bind; [apply _|apply guar_lift|intros o; step_guar].
  apply guar_transaction; [apply _|]. eapply tx_post_weaken; [apply suspend_tx_post|].
  intros c c' o H1 Hk. by apply HR, H1.
Qed.

(** The platform switches stay in order: engaging, releasing and suspending,
    among processes that do the same, keep every switch to its scope and tenant
    rules with no two live ones for the same scope and tenant, change no tenant's
    identity and only ever append to the audit, whichever statements, commits and
    notifications fail. *)
Theorem platform_switches_stay_in_order fresh scope_value tenant_id reason actor id id_text tenant (w : CW) :
  rely switch_step w → platform_ok (w_db w) →
  let ok w' := platform_ok (w_db w') ∧ switch_step (w_db w) (w_db w') in
  ok (engage_platform base_db_url fresh scope_value tenant_id reason actor w).1
  ∧ ok (release_platform_switch base_db_url id id_text actor w).1
  ∧ ok (suspend base_db_url fresh tenant actor w).1.
Proof.
  intros Hr Hok ok. unfold ok.
  assert (∀ (E A : Type) (m : CEff E A), guar switch_step m →
    platform_ok (w_db (m w).1) ∧ switch_step (w_db w) (w_db (m w).1)) as Hg.
  { intros E A m Hm. destruct (Hm w Hr) as [H1 _]. split; [by apply H1|done]. }
  split; [|split]; apply Hg.
  - apply engage_guar; [apply _|apply platform_switch_step].
  - unfold release_platform_switch. step_guar; [apply release_tx_guar|apply notify_guar, _].
  - apply suspend_guar; [apply _|apply platform_switch_step].
Qed.

Lemma suspended_stable tenant : stable platform_step (suspended tenant).
Proof. intros c c' HR. apply HR. Qed.

(** A suspension that is answered has happened. *)
Lemma suspend_hoare fresh id actor :
  hoare platform_step (λ _, True) (suspend base_db_url fresh id actor)
    (λ found c, found = true → suspended id c) (λ _, True).
Proof.
  unfold suspend. eapply (hoare_bind _ _ _ _ (λ o c, is_Some o → suspended id c)).
  { apply hoare_lift, hoare_transaction; [apply _|by intros ????|done|].
    eapply tx_post_weaken; [apply suspend_tx_post|]. intros c c' [l|] H1 _; simpl; [|by intros []].
    destruct (H1 eq_refl) as (? & ? & _). done. }
  intros [targets|]; [|by apply hoare_ret; [apply _|]].
  apply (hoare_pre _ _ (suspended id)); [|by intros c Hc; apply Hc].
  eapply (hoare_bind _ _ _ _ (λ _, suspended id)); [|intros r; by apply hoare_ret; [apply _|]].
  apply (sustains_guar platform_step (suspended id)); [apply suspended_stable|apply notify_guar, _].
Qed.
End Operations.

(** ** What a suspension stops *)

(** The control database as the caches of ingest and dispatcher read it. *)
Definition control_view (c : Cluster) : Db := on_platform_switch (λ _, cl_platform_switch c) empty_db.

Lemma list_active_held tenant c :
  held tenant c → ∃ p, p ∈ list_active_for_tenant tenant (control_view c).
Proof.
  intros (i & p & Hi & Hl & Hs & Ht). exists p. unfold list_active_for_tenant.
  rewrite merge_sort_Permutation, list_elem_of_filter. split; [split; [done|by right]|].
  apply elem_of_map_values. by exists i.
Qed.

(** A cache refreshed from a control database with a switch for the tenant blocks
    every request and excludes every row. *)
Lemma refresh_blocks `{!UuidText} tenant c guard tenant_rows ch producer campaign r :
  held tenant c → active_wf guard →
  let a := (merge_refresh guard tenant_rows (Some (list_active_for_tenant tenant (control_view c)))).1 in
  blocking_scope a ch producer campaign = Some PLATFORM_SCOPE
  ∧ excluded (exclusion_for_channel (active_snapshot a) (ob_channel r)) r = true.
Proof.
  intros [p Hp]%list_active_held Hwf a.
  assert (pk_id p ∈ as_platform_ids a) as Hid.
  { unfold a. rewrite merge_refresh_platform, elem_of_list_to_set. by apply list_elem_of_fmap_2. }
  split.
  - unfold blocking_scope. by rewrite decide_False by set_solver.
  - destruct (merge_refresh_wf guard tenant_rows (Some (list_active_for_tenant tenant (control_view c))) Hwf) as [_ Hpl].
    destruct (Hpl _ Hid) as (s & Hs & Hg & _). rewrite excluded_existsb. apply existsb_matches. exists s.
    split; [apply elem_of_map_values; eauto|]. unfold matches_row, matches. by rewrite decide_True.
Qed.

Lemma resolve_suspended tenant subject :
  hoare platform_step (suspended tenant) (resolve_producer subject) (λ i _, ri_tenant_id i ≠ tenant) (λ _, True).
Proof.
  unfold resolve_producer. eapply (hoare_bind _ _ _ _ (λ o _, ∀ ct, o = Some ct → ct_tenant_id ct = tenant →
    ct_tenant_status ct = status.SUSPENDED)).
  - apply hoare_lift, hoare_query; [apply _|apply suspended_stable|done|]. intros _ c (t & Ht & Hs) ct. unfold find_producer_cert.
    destruct (cl_cert c !! subject) as [row|]; simpl; [|done]. destruct (cl_tenant c !! pc_tenant_id row) as [t'|] eqn:Ht'; simpl; [|done].
    intros [= <-]; simpl. intros Hid. congruence.
  - intros o. apply hoare_of; [apply _|]. intros _ Ho. destruct (identify o) as [i|] eqn:Hi; [|done].
    apply identify_Ok in Hi as (ct & -> & _ & Ha & ->). simpl. intros Hid.
    rewrite (Ho ct eq_refl Hid) in Ha. discriminate Ha.
Qed.

(** C14. A suspension stops the tenant on both sides: once suspending it has been
    answered, and for as long as nobody activates it or releases its switch, no
    certificate is resolved to the tenant any more, and every refresh of the
    kill-switch caches that reads the control database makes ingest refuse every
    request of the tenant and keeps every one of its queued rows out of the claims,
    whatever failed or interleaved on the way. *)
Theorem suspension_stops_both_sides `{!PgUrl} `{!UuidText} base_db_url fresh tenant actor (w w' w2 : CW) :
  rely platform_step w → platform_ok (w_db w) → suspended_are_held (w_db w) →
  suspend base_db_url fresh tenant actor w = (w', Ok true) →
  rely platform_step w2 → platform_step (w_db w') (w_db w2) →
  (∀ subject i, (resolve_producer subject w2).2 = Ok i → ri_tenant_id i ≠ tenant)
  ∧ ∀ guard tenant_rows ch producer campaign r, active_wf guard →
      let a := (merge_refresh guard tenant_rows (Some (list_active_for_tenant tenant (control_view (w_db w2))))).1 in
      blocking_scope a ch producer campaign = Some PLATFORM_SCOPE
      ∧ excluded (exclusion_for_channel (active_snapshot a) (ob_channel r)) r = true.
Proof.
  intros Hr Hok HJ Hrun Hr2 HR2. destruct (suspend_hoare base_db_url fresh tenant actor w Hr I) as (_ & HR1 & Hs).
  rewrite Hrun in Hs, HR1. specialize (Hs eq_refl).
  assert (platform_step (w_db w) (w_db w2)) as HR by (by etransitivity).
  assert (suspended tenant (w_db w2)) as Hs2 by (by apply HR2). split.
  - intros subject i Hi. destruct (resolve_suspended tenant subject w2 Hr2 Hs2) as (_ & _ & Hp). by rewrite Hi in Hp.
  - intros guard tr ch producer campaign r Hwf. apply refresh_blocks; [|done]. by apply (pt_held _ _ HR).
Qed.

(** ** The fan-out *)

(** The fan-out counts every tenant it was to reach: whatever fails, a fan-out
    that ends reports as many notified and failed as it had targets, and never turns
    a failure into an error. *)
Theorem fan_out_counts_every_target `{!PgUrl} base_db_url targets (w w' : CW) r :
  notify_tenants base_db_url targets (MkReport 0 0) w = (w', r) →
  match r with
  | Ok report => (fo_notified report + fo_failed report = length targets)%nat
  | Err e => e = PfPanic
  end.
Proof.
  assert (∀ report, notify_tenants base_db_url targets report w = (w', r) → match r with
    | Ok report' => (fo_notified report' + fo_failed report' = fo_notified report + fo_failed report + length targets)%nat
    | Err e => e = PfPanic end) as Hall.
  2: { intros Hn%Hall. destruct r; [simpl in Hn; lia|done]. }
  revert w. induction targets as [|t targets IH]; intros w report; cbn [notify_tenants].
  { intros [= _ <-]. simpl. lia. }
  unfold ebind, etry. destruct (notify_one base_db_url t w) as [w1 [u|[e|]]]; [| |by intros [= _ <-]];
    intros Hn%IH; (destruct r; [simpl in *; lia|done]).
Qed.

(** ** Concrete runs *)

#[local] Existing Instance demo_url.
#[local] Existing Instance demo_uuid.

Lemma two_tenants_platform : platform_ok two_tenants ∧ suspended_are_held two_tenants.
Proof.
  split; [split|].
  - cbn; by intros i p ?%lookup_empty_Some.
  - cbn; by intros i j p q ?%lookup_empty_Some.
  - intros tenant (t & Ht & Hs). exfalso. unfold two_tenants in Ht; simpl in Ht.
    rewrite lookup_insert_Some, lookup_singleton_Some in Ht.
    destruct Ht as [[_ <-]|[_ [_ <-]]]; discriminate Hs.
Qed.

(** The first statement is delayed, and the fan-out loses its connection. *)
Definition patchy : CW :=
  World two_tenants 100 false (replicate 8 (Move 3 NoFault id) ++ [Move 0 FaultBefore id]) [].
Lemma patchy_rely (R : relation Cluster) `{!PreOrder R} : rely R patchy.
Proof. split; [|done]. apply Forall_app. split; [apply Forall_replicate|repeat constructor]; intros d; reflexivity. Qed.

Lemma platform_witness :
  platform_ok (w_db (engage_platform "postgres://" 50 platform_scope.PLATFORM None "incident" "ops" patchy).1).
Proof.
  destruct (platform_switches_stay_in_order "postgres://" 50 platform_scope.PLATFORM None "incident" "ops" 50 "50" 1 patchy
    (patchy_rely _) (proj1 two_tenants_platform)) as [[H _] _]. exact H.
Defined.

Definition suspend_acme : CW * result bool PlatformError := suspend "postgres://" 51 1 "ops" patchy.

Lemma suspension_witness :
  suspend_acme.2 = Ok true
  ∧ (∀ i, (resolve_producer "cn=fraud" suspend_acme.1).2 = Ok i → ri_tenant_id i ≠ 1%N).
Proof.
  destruct suspend_acme as [w' [b|e]] eqn:Hrun; [|exfalso; vm_compute in Hrun; discriminate Hrun].
  assert (b = true) as -> by (vm_compute in Hrun; by injection Hrun as _ <-).
  assert (rely platform_step w') as Hr' by (vm_compute in Hrun; injection Hrun as <-; by split).
  split; [done|].
  apply (suspension_stops_both_sides "postgres://" 51 1 "ops" patchy w' w' (patchy_rely _) (proj1 two_tenants_platform)
    (proj2 two_tenants_platform) Hrun Hr' (reflexivity _)).
Defined.
