(* ===== verification/Webhook.v ===== *)
(** * The webhook ingress

    Models [src/webhook/{mod,handler}.rs] and [src/webhook_verify/mod.rs]: a provider's
    callback is matched to a tenant by its token, its signature checked over the raw
    body, and the receipt staged in that tenant's database. *)

From S2P Require Import Prelude RustStd Time Schema KillSwitch Dek Ingest Receipts Tenancy.
From stdpp Require Import base gmap strings list.
From Stdlib Require Import ZArith Lia Ascii.

Local Open Scope effect_scope.
Local Open Scope Z_scope.

(** ** Signatures *)

(** [char::to_digit(16)] on a byte. *)
Definition hex_digit (a : ascii) : option N :=
  let n := N_of_ascii a in
  if in_range 48 57 n then Some (n - 48)%N
  else if in_range 97 102 n then Some (n - 87)%N
  else if in_range 65 70 n then Some (n - 55)%N
  else None.

(** [u8::from_str_radix(s, 16)] on two bytes: a leading ['+'] is a sign. *)
Definition from_str_radix16 (a b : ascii) : option N :=
  if decide (a = "+"%char) then hex_digit b
  else x ← hex_digit a; y ← hex_digit b; Some (16 * x + y)%N.

(** [str::is_char_boundary] before a rest: it does not start inside a character. *)
Definition char_boundary (rest : string) : bool :=
  match rest with
  | EmptyString => true
  | String c _ => negb (in_range 128 191 (N_of_ascii c))
  end.

(** [HexPanic] is the panic of slicing inside a character. *)
Inductive HexError : Type := HexInvalid | HexPanic.

(** The slices [&s[i..i + 2]] for even [i], up to the first error. *)
Fixpoint hex_pairs (s : string) : result string HexError :=
  match s with
  | EmptyString => Ok EmptyString
  | String a (String b rest) =>
      if char_boundary rest then
        match from_str_radix16 a b with
        | None => Err HexInvalid
        | Some n => match hex_pairs rest with
                    | Ok l => Ok (String (ascii_of_N n) l)
                    | Err e => Err e
                    end
        end
      else Err HexPanic
  | String _ EmptyString => Err HexInvalid
  end.

Definition hex_decode (s : string) : result string HexError :=
  if Nat.even (String.length s) then hex_pairs s else Err HexInvalid.

(** [Hmac<Sha256>]: keyed by a secret, the tag of a message. *)
Class HmacSha256 : Type := { new_from_slice : string → option (string → string) }.

(** [HmacSha256Verifier::verify]; [None] is a panic. [verify_slice] accepts exactly
    the tag. *)
Definition verify `{!HmacSha256} (secret body signature_header : string) : option bool :=
  let hex_digest := default signature_header (RustStd.strip_prefix "sha256=" signature_header) in
  match hex_decode hex_digest with
  | Err HexPanic => None
  | Err HexInvalid => Some false
  | Ok signature_bytes =>
      match new_from_slice secret with
      | None => Some false
      | Some mac => Some (bool_decide (mac body = signature_bytes))
      end
  end.

(** ** The pool cache *)

Abbreviation TenantPoolCache := (gmap N string).

(** [TenantPoolCache::get_or_open]; [meanwhile] is what other tasks do to the cache
    between the two locks. *)
Definition pool_get_or_open `{!PgUrl} (meanwhile : TenantPoolCache → TenantPoolCache) (pools : TenantPoolCache)
    (control_database_url : string) (tenant_id : N) (database_name : string)
    : CEff ConnectError (TenantPoolCache * string) :=
  match pools !! tenant_id with
  | Some pool => eret (pools, pool)
  | None =>
      let pools := meanwhile pools in
      match pools !! tenant_id with
      | Some pool => eret (pools, pool)
      | None =>
          opened ←! connect_tenant_pool control_database_url tenant_id database_name;
          eret (<[tenant_id := tp_pool opened]> pools, tp_pool opened)
      end
  end.

(** ** The handler *)

Record GenericReceipt : Type := MkGeneric {
  gr_provider_ref : string;
  gr_event_type : string;
  gr_occurred_at : Z;
  gr_provider_status : option string;
}.

(** What [serde_json] makes of a body, and of the value it read. *)
Class Json : Type := {
  from_slice : string → option string;
  from_value : string → option GenericReceipt;
}.

(** An HTTP status, or a panic that closes the connection. *)
Inductive Reply : Type := Status (code : Z) | Panicked.

(** The staging row of a receipt. *)
Definition staged_row (provider raw : string) (receipt : GenericReceipt) (now : Z) : StagingReceipt :=
  MkStaging now provider (gr_provider_ref receipt) (gr_occurred_at receipt) (gr_event_type receipt)
    (gr_provider_status receipt) raw.

(** [webhook_receipt::repo::insert_staging] on a pool. *)
Definition stage (pool : string) (id : N) (row : StagingReceipt) : CEff SqlxError unit :=
  pool_sql pool (λ _ d, match insert_staging id row (td_tables d) with
                        | Ok (t, u) => Ok (on_tables (λ _, t) d, u)
                        | Err e => Err e
                        end).

Section Handler.
Context `{!PgUrl} `{!HmacSha256} `{!Json}.
(** [VaultKeyStore::read_webhook_secret]. *)
Context (read_webhook_secret : string → CEff KeyStoreError string) (control_database_url : string).

(** The part of [receive_webhook] before the tenant's database is opened: the tenant,
    the raw value and the receipt, or the answer. [header] is the signature header
    as text, if it has one. *)
Definition authenticate (webhook_token : string) (header : option string) (body : string)
    : CEff Reply (Tenant * string * GenericReceipt) :=
  found ←! etry (query (λ _, find_by_webhook_token webhook_token));
  match found with
  | Ok (Some tenant) =>
      secret ←! etry (read_webhook_secret (tt_slug tenant));
      match secret with
      | Err _ => ethrow (Status 401)
      | Ok secret =>
          verified ←! match header with
                      | None => eret false
                      | Some header => eof (ok_or (verify secret body header) Panicked)
                      end;
          if negb verified then ethrow (Status 401)
          else
            raw ←! eof (ok_or (from_slice body) (Status 400));
            receipt ←! eof (ok_or (from_value raw) (Status 400));
            eret (tenant, raw, receipt)
      end
  | _ => ethrow (Status 404)
  end.

(** [receive_webhook]: the cache afterwards and the answer; [fresh] is the row id. *)
Definition receive_webhook (meanwhile : TenantPoolCache → TenantPoolCache) (pools : TenantPoolCache)
    (webhook_token provider : string) (header : option string) (body : string) (fresh : N)
    : CEff Reply (TenantPoolCache * Z) :=
  who ←! authenticate webhook_token header body;
  let '(tenant, raw, receipt) := who in
  opened ←! etry (pool_get_or_open meanwhile pools control_database_url (tt_id tenant) (tt_database_name tenant));
  match opened with
  | Err CMisrouted => ethrow Panicked
  | Err (CSqlx _) => eret (meanwhile pools, 500)
  | Ok (pools, pool) =>
      now ←! utc_now;
      result ←! etry (stage pool fresh (staged_row provider raw receipt now));
      eret (pools, match result with Ok _ => 200 | Err _ => 500 end)
  end.
End Handler.

(** ** Signatures round trip *)

Definition hex_char (n : N) : ascii := ascii_of_N (if (n <? 10)%N then n + 48 else n + 87)%N.
(** [format!("{b:02x}")] for each byte. *)
Fixpoint hex_encode (s : string) : string :=
  match s with
  | EmptyString => EmptyString
  | String c s => String (hex_char (N_of_ascii c / 16)) (String (hex_char (N_of_ascii c mod 16)) (hex_encode s))
  end.

Fixpoint str_all (P : ascii → bool) (s : string) : bool :=
  match s with EmptyString => true | String c s => P c && str_all P s end.
(** [HeaderValue::to_str] yields visible ASCII only. *)
Definition is_ascii (c : ascii) : bool := (N_of_ascii c <? 128)%N.

(** The sixteen digits, checked one by one. *)
Lemma hex_char_spec n : (n < 16)%N → hex_digit (hex_char n) = Some n ∧ hex_char n ≠ "+"%char ∧ is_ascii (hex_char n) = true.
Proof.
  intros Hn. assert (n ∈ (N.of_nat <$> seq 0 16)) as Hin.
  { apply list_elem_of_fmap. exists (N.to_nat n). split; [by rewrite N2Nat.id|]. apply elem_of_seq. lia. }
  assert (Forall (λ n, hex_digit (hex_char n) = Some n ∧ hex_char n ≠ "+"%char ∧ is_ascii (hex_char n) = true)
    (N.of_nat <$> seq 0 16)) as Hall by (repeat apply Forall_cons_2; [by vm_compute..|done]).
  rewrite Forall_forall in Hall. by apply Hall.
Qed.

Lemma boundary_ascii s : str_all is_ascii s = true → char_boundary s = true.
Proof.
  destruct s as [|c s]; simpl; [done|]. intros [Hc _]%andb_true_iff. unfold is_ascii in Hc. apply N.ltb_lt in Hc.
  unfold in_range. destruct (N.leb_spec 128 (N_of_ascii c)); [lia|done].
Qed.

Lemma hex_encode_ascii s : str_all is_ascii (hex_encode s) = true.
Proof.
  induction s as [|c s IH]; simpl; [done|]. pose proof (N_ascii_bounded c).
  destruct (hex_char_spec (N_of_ascii c / 16)) as (_ & _ & ->); [apply N.Div0.div_lt_upper_bound; lia|].
  destruct (hex_char_spec (N_of_ascii c mod 16)) as (_ & _ & ->); [by apply N.mod_lt|]. done.
Qed.

Lemma hex_encode_even s : Nat.even (String.length (hex_encode s)) = true.
Proof. by induction s. Qed.

Lemma hex_pairs_encode s : hex_pairs (hex_encode s) = Ok s.
Proof.
  induction s as [|c s IH]; cbn [hex_encode hex_pairs]; [done|]. pose proof (N_ascii_bounded c).
  rewrite boundary_ascii by apply hex_encode_ascii. unfold from_str_radix16.
  destruct (hex_char_spec (N_of_ascii c / 16)) as (-> & Hp & _); [apply N.Div0.div_lt_upper_bound; lia|].
  destruct (hex_char_spec (N_of_ascii c mod 16)) as (-> & _ & _); [by apply N.mod_lt|].
  rewrite decide_False by done. simpl. rewrite IH, <- N.Div0.div_mod. by rewrite ascii_N_embedding.
Qed.

Lemma hex_decode_encode s : hex_decode (hex_encode s) = Ok s.
Proof. unfold hex_decode. by rewrite hex_encode_even, hex_pairs_encode. Qed.

Lemma strip_sha256_encode s : RustStd.strip_prefix "sha256=" (hex_encode s) = None.
Proof.
  unfold RustStd.strip_prefix. destruct s as [|c s]; [done|]. cbn [hex_encode String.prefix].
  destruct (ascii_dec "s" (hex_char (N_of_ascii c / 16))) as [He|]; [|done]. exfalso. pose proof (N_ascii_bounded c).
  destruct (hex_char_spec (N_of_ascii c / 16)) as (Hd & _ & _); [apply N.Div0.div_lt_upper_bound; lia|].
  rewrite <- He in Hd. discriminate Hd.
Qed.

Lemma strip_prefix_app p s : RustStd.strip_prefix p (p +:+ s) = Some s.
Proof.
  unfold RustStd.strip_prefix. assert (String.prefix p (p +:+ s) = true ∧ str_drop (String.length p) (p +:+ s) = s) as [-> ->]; [|done].
  induction p as [|c p [IH1 IH2]]; simpl; [by destruct s|]. by destruct (ascii_dec c c).
Qed.

Lemma hex_pairs_ascii s : str_all is_ascii s = true → hex_pairs s ≠ Err HexPanic.
Proof.
  revert s. fix IH 1. intros [|a [|b rest]]; [done|done|]. cbn [str_all hex_pairs].
  intros (Ha & [Hb Hr]%andb_true_iff)%andb_true_iff. rewrite boundary_ascii by done.
  destruct (from_str_radix16 a b); [|done]. pose proof (IH rest Hr). by destruct (hex_pairs rest) as [|[]].
Qed.

Lemma ascii_drop n s : str_all is_ascii s = true → str_all is_ascii (str_drop n s) = true.
Proof.
  revert s. induction n as [|n IH]; intros [|c s]; simpl; try done. intros [_ Hs]%andb_true_iff. by apply IH.
Qed.

(** Signatures verify and nothing else does: a header with the hex form of the
    tag of the body under the tenant's secret, bare or after [sha256=], is accepted;
    every header that is accepted decodes to that tag; and no header of ASCII text,
    which is all the server passes on, makes the check panic. *)
Theorem signatures_verify_and_nothing_else `{!HmacSha256} secret body header mac :
  new_from_slice secret = Some mac →
  verify secret body (hex_encode (mac body)) = Some true
  ∧ verify secret body ("sha256=" +:+ hex_encode (mac body)) = Some true
  ∧ (verify secret body header = Some true →
       hex_decode (default header (RustStd.strip_prefix "sha256=" header)) = Ok (mac body))
  ∧ (str_all is_ascii header = true → is_Some (verify secret body header)).
Proof.
  intros Hm. unfold verify. rewrite Hm, strip_sha256_encode. cbn [default from_option]. split_and!.
  - rewrite hex_decode_encode. by rewrite bool_decide_true.
  - rewrite strip_prefix_app. unfold default, from_option, id. rewrite hex_decode_encode. by rewrite bool_decide_true.
  - destruct (hex_decode _) as [tag|[]]; [|done..]. intros [= ->%bool_decide_eq_true]. done.
  - intros Ha. assert (str_all is_ascii (default header (RustStd.strip_prefix "sha256=" header)) = true) as Hd.
    { unfold RustStd.strip_prefix. destruct (String.prefix _ _); [by apply ascii_drop|done]. }
    pose proof (hex_pairs_ascii _ Hd) as Hp. unfold hex_decode. destruct (Nat.even _); [|by eexists].
    destruct (hex_pairs _) as [tag|[]]; [by eexists..|done].
Qed.

(** ** What the handler writes *)

Definition pools_ok (pools : TenantPoolCache) (c : Cluster) : Prop :=
  ∀ id pool, pools !! id = Some pool → ∃ mount, routed id pool mount c.

(** [c'] is [c] with the receipt of this callback staged in the database of the
    tenant with this token, whose secret signed the body. *)
Definition stages `{!HmacSha256} `{!Json} (secret_of : string → string) (token provider : string)
    (header : option string) (body : string) (c c' : Cluster) : Prop :=
  ∃ t h raw receipt now fresh d tables,
    cl_tenant c !! tt_id t = Some t ∧ tt_webhook_token t = token
    ∧ header = Some h ∧ verify (secret_of (tt_slug t)) body h = Some true
    ∧ from_slice body = Some raw ∧ from_value raw = Some receipt
    ∧ cl_database c !! tt_database_name t = Some d
    ∧ insert_staging fresh (staged_row provider raw receipt now) (td_tables d) = Ok (tables, tt)
    ∧ c' = on_database (<[tt_database_name t := on_tables (λ _, tables) d]>) c.

(** Vault keeps out of the databases and reads the secret of the slug. *)
Class SecretLaws (read : string → CEff KeyStoreError string) (secret_of : string → string) : Prop := {
  read_secret_guar (R : relation Cluster) `{!PreOrder R} slug : guar R (read slug);
  read_secret_value slug w w' s : read slug w = (w', Ok s) → s = secret_of slug;
}.

Section Handling.
Context `{!PgUrl} `{!HmacSha256} `{!Json}.
Context (read : string → CEff KeyStoreError string) (secret_of : string → string) `{HS : !SecretLaws read secret_of}.
Context (url token provider : string) (header : option string) (body : string).

(** The tenant found, and what was checked of the callback. *)
Definition authentic (who : Tenant * string * GenericReceipt) : Prop :=
  tt_webhook_token who.1.1 = token ∧ from_slice body = Some who.1.2 ∧ from_value who.1.2 = Some who.2
  ∧ ∃ h, header = Some h ∧ verify (secret_of (tt_slug who.1.1)) body h = Some true.
(** The row is on file, with this identity. *)
Definition on_record (t : Tenant) (c : Cluster) : Prop :=
  ∃ t', cl_tenant c !! tt_id t = Some t' ∧ identity_of t' = identity_of t.
Lemma on_record_stable t : stable pinned (on_record t).
Proof.
  intros c c' HR (t' & Ht' & He). destruct (pi_row _ _ HR _ _ Ht') as (t'' & ? & ?). exists t''. split; congruence.
Qed.

Context (R : relation Cluster) `{!PreOrder R} (Rpin : ∀ c c', R c c' → pinned c c').
Context (Rstage : ∀ c c', stages secret_of token provider header body c c' → R c c').

Lemma R_stable P : stable pinned P → stable R P.
Proof. intros HP c c' HR. by apply HP, Rpin. Qed.
Hint Resolve R_stable on_record_stable tenants_ok_stable : core.

(** The state a run relies on. *)
Definition base_ok (pools : TenantPoolCache) (c : Cluster) : Prop := tenants_ok c ∧ pools_ok pools c.
Lemma base_ok_stable pools : stable R (base_ok pools).
Proof.
  apply R_stable, stable_and; [auto|]. intros c c' HR Hp id pool Hi. destruct (Hp id pool Hi) as [m Hm].
  exists m. by eapply routed_stable.
Qed.
Hint Resolve base_ok_stable : core.

Lemma authenticate_hoare pools :
  hoare R (base_ok pools) (authenticate read token header body)
    (λ who c, authentic who ∧ base_ok pools c ∧ on_record who.1.1 c) (λ _, True).
Proof.
  unfold authenticate.
  eapply (hoare_bind _ _ _ _ (λ r c, base_ok pools c ∧ ∀ t, r = Ok (Some t) → tt_webhook_token t = token ∧ on_record t c)).
  { eapply hoare_weaken; [apply (hoare_try R (base_ok pools) _
      (λ o c, base_ok pools c ∧ ∀ t, o = Some t → tt_webhook_token t = token ∧ on_record t c) (λ _, True) (λ _, True)); [auto|]|done| |done].
    - apply hoare_query; [apply _|auto|done|]. intros _ c Hc. split; [done|]. intros t [Ht [i Hi]]%find_row_Some.
      split; [done|]. pose proof (to_key c (proj1 Hc) _ _ Hi) as <-. by exists t.
    - intros [o|e] c Hc; [|by destruct Hc]. destruct Hc as [Hc Ht]. split; [done|]. intros t [= ->]. by apply Ht. }
  intros [[t|]|e]; [|by apply hoare_throw; [apply _|]..].
  apply (hoare_pre _ _ (λ c, tt_webhook_token t = token ∧ base_ok pools c ∧ on_record t c)); [|naive_solver].
  apply hoare_pull. intros Htok. set (P := λ c, base_ok pools c ∧ on_record t c).
  assert (stable R P) as HP by (apply stable_and; auto).
  eapply (hoare_bind _ _ _ _ (λ r c, (∀ s, r = Ok s → s = secret_of (tt_slug t)) ∧ P c)).
  { intros w Hr Hp. unfold etry. destruct (read_secret_guar (read:=read) R (tt_slug t) w Hr) as [HR1 HR2].
    destruct (read (tt_slug t) w) as [w1 r] eqn:Hrun; simpl in *. split_and!; [done..| |by eapply HP].
    intros s ->. by eapply read_secret_value. }
  intros [s|e]; apply hoare_pull; intros Hs; [|by apply hoare_throw; [apply _|]].
  rewrite (Hs s eq_refl) in *. clear Hs s.
  eapply (hoare_bind _ _ _ _ (λ b c, (b = true → ∃ h, header = Some h ∧ verify (secret_of (tt_slug t)) body h = Some true) ∧ P c)).
  { destruct header as [h|]; [|by apply hoare_ret; [apply _|]]. apply hoare_of; [apply _|]. intros c Hc.
    destruct (verify _ body h) as [[]|] eqn:Hv; simpl; [|done..]. split; [by exists h|done]. }
  intros [|]; apply hoare_pull; intros Hv; simpl; [|by apply hoare_throw; [apply _|]].
  destruct (from_slice body) as [raw|] eqn:Hraw; simpl; [|by apply (hoare_bind _ _ _ _ (λ _ _, False)); [apply hoare_of; [apply _|]|]].
  eapply (hoare_bind _ _ _ _ (λ x c, x = raw ∧ P c)); [by apply hoare_of; [apply _|]|]. intros x. apply hoare_pull. intros ->.
  destruct (from_value raw) as [receipt|] eqn:Hrc; simpl; [|by apply (hoare_bind _ _ _ _ (λ _ _, False)); [apply hoare_of; [apply _|]|]].
  eapply (hoare_bind _ _ _ _ (λ x c, x = receipt ∧ P c)); [by apply hoare_of; [apply _|]|]. intros x. apply hoare_pull. intros ->.
  apply hoare_ret; [apply _|]. intros c [Hb Ht]. split_and!; [|done|done]. split_and!; auto.
Qed.

Lemma pool_get_hoare meanwhile pools t :
  (∀ c, pools_ok pools c → pools_ok (meanwhile pools) c) →
  hoare R (λ c, base_ok pools c ∧ on_record t c) (pool_get_or_open meanwhile pools url (tt_id t) (tt_database_name t))
    (λ r c, pools_ok r.1 c ∧ r.2 = tt_database_name t ∧ on_record t c ∧ tenants_ok c) (λ _, True).
Proof.
  intros Hm. unfold pool_get_or_open.
  assert (∀ ps c pool, tenants_ok c → pools_ok ps c → on_record t c → ps !! tt_id t = Some pool → pool = tt_database_name t) as Hhit.
  { intros ps c pool _ Hp (t1 & Ht1 & [= _ _ _ Ed _ _]) Hi. destruct (Hp _ _ Hi) as (m & t2 & Ht2 & _ & Hd & _). congruence. }
  destruct (pools !! tt_id t) as [pool|] eqn:Hi.
  { apply hoare_ret; [apply _|]. intros c [[Hc Hp] Ht]. split_and!; eauto. }
  cbv zeta. destruct (meanwhile pools !! tt_id t) as [pool|] eqn:Hi2.
  { apply hoare_ret; [apply _|]. intros c [[Hc Hp] Ht]. split_and!; eauto. }
  eapply hoare_bind; [apply _| |].
  { apply (connect_hoare R url (tt_id t) (tt_database_name t) (λ c, base_ok pools c ∧ on_record t c)); [done| |by intros c [[? _] _]].
    apply stable_and; auto. }
  intros p. apply hoare_ret; [apply _|]. intros c ([[Hc Hp] Ht] & Hid & -> & Hroute). split_and!; [|done..].
  intros i pool. simpl. rewrite lookup_insert_Some. intros [[<- <-]|[_ Hj]]; [done|]. by apply (Hm c).
Qed.

(** C16. Only a signed receipt is staged, in its own tenant's database: whatever
    fails and however others interleave, all that a callback changes anywhere is
    that the one receipt its body holds is staged in the database of the tenant with
    this token, and only if the body verified under that tenant's secret; and the
    pool cache stays true to the tenants. *)
Theorem only_signed_receipts_are_staged meanwhile pools fresh (w : CW) :
  (∀ c, pools_ok pools c → pools_ok (meanwhile pools) c) →
  rely R w → tenants_ok (w_db w) → pools_ok pools (w_db w) →
  let '(w', r) := receive_webhook read url meanwhile pools token provider header body fresh w in
  R (w_db w) (w_db w') ∧ match r with Ok (pools', _) => pools_ok pools' (w_db w') | Err _ => True end.
Proof.
  intros Hm Hr Hok Hp.
  assert (∀ ps, stable R (pools_ok ps)) as Hps.
  { intros ps. apply R_stable. intros c c' HR Hq id pool Hi. destruct (Hq id pool Hi) as [m Hmt]. exists m. by eapply routed_stable. }
  assert (hoare R (base_ok pools) (receive_webhook read url meanwhile pools token provider header body fresh)
    (λ r, pools_ok r.1) (λ _, True)) as Hh.
  { unfold receive_webhook. eapply hoare_bind; [apply _|apply authenticate_hoare|]. intros [[t raw] receipt].
    apply hoare_pull. intros (Htok & Hraw & Hrc & h & Hh & Hv); simpl in *.
    eapply hoare_bind; [apply _|eapply (hoare_try R (λ c, base_ok pools c ∧ on_record t c)); [|exact (pool_get_hoare meanwhile pools t Hm)]|].
    { apply stable_and; auto. }
    intros [[ps pool]|[e|]].
    2: { apply hoare_ret; [apply _|]. intros c (_ & [_ Hc] & _). by apply Hm. }
    2: { by apply hoare_throw; [apply _|]. }
    simpl. set (P := λ c, pools_ok ps c ∧ pool = tt_database_name t ∧ on_record t c ∧ tenants_ok c).
    assert (stable R P) as HP.
    { apply stable_and; [auto|]. apply stable_and; [apply stable_const|]. apply stable_and; auto. }
    eapply (hoare_bind _ _ _ _ (λ _, P)); [apply hoare_now; [apply _|done|done]|]. intros now.
    eapply hoare_bind; [apply _|apply (hoare_try R P _ (λ _, pools_ok ps) (λ _, True) (λ _, True)); [done|]|].
    { apply hoare_sql; [apply _|done|done|]. intros t0 c (Hpools & -> & (t' & Ht' & He) & Htn). unfold on_pool.
      destruct (cl_database c !! tt_database_name t) as [d|] eqn:Hd; [|done].
      destruct (insert_staging fresh _ (td_tables d)) as [[tables []]|] eqn:Hi; [|done].
      assert (R c (on_database (<[tt_database_name t := on_tables (λ _, tables) d]>) c)) as HR.
      { apply Rstage. injection He as E1 E2 E3 E4 E5 E6. exists t', h, raw, receipt, now, fresh, d, tables.
        rewrite E1, E4. rewrite <- E2 in Hv. split_and!; try done. congruence. }
      split; [done|]. by eapply Hps. }
    intros [u|e]; apply hoare_ret; try apply _; [done|]. intros c (_ & Hc & _). exact Hc. }
  destruct (Hh w Hr (conj Hok Hp)) as (_ & HR & Hpost).
  destruct (receive_webhook _ _ _ _ _ _ _ _ _ w) as [w' [[ps code]|e]]; done.
Qed.
End Handling.

(** ** Deliveries in a standing world *)

(** Some staged row already stands for the receipt. *)
Definition already_staged (row : StagingReceipt) (d : Db) : bool :=
  existsb (λ s, bool_decide (same_staged s row)) (map_values (db_staging d)).

Section Standing.
Context `{!PgUrl} `{!HmacSha256} `{!Json}.
Context (read : string → CEff KeyStoreError string) (secret_of : string → string).
Context (read_calm : ∀ slug w, calm w → read slug w = (w, Ok (secret_of slug))).
Context (url token provider : string) (body : string) (w : CW) (Hc : calm w).

Lemma authenticate_calm header :
  authenticate read token header body w = (w,
    match find_by_webhook_token token (w_db w) with
    | None => Err (Status 404)
    | Some t =>
        match header with
        | None => Err (Status 401)
        | Some h =>
            match verify (secret_of (tt_slug t)) body h with
            | None => Err Panicked
            | Some false => Err (Status 401)
            | Some true =>
                match from_slice body with
                | None => Err (Status 400)
                | Some raw => match from_value raw with
                              | None => Err (Status 400)
                              | Some receipt => Ok (t, raw, receipt)
                              end
                end
            end
        end
    end).
Proof.
  pose proof (proj1 Hc) as He. unfold authenticate, ebind, etry. rewrite query_calm by done.
  destruct (find_by_webhook_token token (w_db w)) as [t|]; [|done]. rewrite read_calm by done.
  destruct header as [h|]; [|done]. unfold eof. destruct (verify _ body h) as [[]|]; [|done..]. simpl.
  destruct (from_slice body) as [raw|]; [|done]. simpl. by destruct (from_value raw).
Qed.

(** Every delivery is answered and staged once: in a standing world a signed,
    readable receipt for a known token is answered with 200, and it is then in the
    tenant's staging table, as a new row only if none stood for it; without the
    token the answer is 404, without a valid signature 401, without a readable
    receipt 400, and then nothing is written anywhere. *)
Theorem deliveries_are_answered_and_staged_once (header : option string) (fresh : N) t d :
  find_by_webhook_token token (w_db w) = Some t → cl_tenant (w_db w) !! tt_id t = Some t → is_ok (parse_url url) = true →
  cl_database (w_db w) !! tt_database_name t = Some d → db_staging (td_tables d) !! fresh = None →
  let run := receive_webhook read url id ∅ token provider header body fresh w in
  match header with
  | None => run = (w, Err (Status 401))
  | Some h =>
      match verify (secret_of (tt_slug t)) body h, raw ← from_slice body; from_value raw with
      | None, _ => run = (w, Err Panicked)
      | Some false, _ => run = (w, Err (Status 401))
      | Some true, None => run = (w, Err (Status 400))
      | Some true, Some receipt =>
          ∃ raw, from_slice body = Some raw
          ∧ let row := staged_row provider raw receipt (w_now w) in
            let tables := if already_staged row (td_tables d) then td_tables d
                          else on_staging (<[fresh := row]>) (td_tables d) in
            run = (set_db (on_database (<[tt_database_name t := on_tables (λ _, tables) d]>) (w_db w)) w,
                   Ok ({[tt_id t := tt_database_name t]}, 200))
            ∧ already_staged row tables = true
      end
  end.
Proof.
  intros Hfind Hrow Hurl Hd Hfresh. pose proof (proj1 Hc) as He. cbv zeta.
  pose proof (authenticate_calm header) as Hauth. rewrite Hfind in Hauth.
  assert (∀ e, authenticate read token header body w = (w, Err e) →
    receive_webhook read url id ∅ token provider header body fresh w = (w, Err e)) as Hstop.
  { intros e Ha. unfold receive_webhook, ebind at 1. by rewrite Ha. }
  destruct header as [h|]; [|by apply Hstop].
  destruct (verify (secret_of (tt_slug t)) body h) as [[]|]; [|by apply Hstop..].
  destruct (from_slice body) as [raw|] eqn:Hraw; simpl; [|by apply Hstop].
  destruct (from_value raw) as [receipt|] eqn:Hrc; [|by apply Hstop].
  exists raw. split; [done|]. set (row := staged_row provider raw receipt (w_now w)).
  unfold receive_webhook, ebind, etry. rewrite Hauth.
  assert (pool_get_or_open id ∅ url (tt_id t) (tt_database_name t) w
    = (w, Ok ({[tt_id t := tt_database_name t]}, tt_database_name t))) as ->.
  { unfold pool_get_or_open, id. rewrite lookup_empty. unfold ebind. by rewrite (connect_calm url (tt_id t) w t). }
  rewrite utc_now_calm by done. unfold stage, pool_sql. rewrite sql_calm by done. unfold on_pool. rewrite Hd. fold row.
  unfold insert_staging. fold (already_staged row (td_tables d)). destruct (already_staged row (td_tables d)) eqn:Hs; [split; [done|exact Hs]|].
  rewrite Hfresh. split; [done|]. unfold already_staged. apply existsb_exists. exists row.
  split; [|by apply bool_decide_eq_true]. apply list_elem_of_In, elem_of_map_values. exists fresh. simpl. apply lookup_insert_eq.
Qed.
End Standing.

(** ** Concrete runs *)

#[local] Existing Instance demo_url.
(** A stand-in for the keyed hash, and a reader that takes every body. *)
#[local] Instance demo_hmac : HmacSha256 := {| new_from_slice := λ secret, Some (λ body, secret +:+ body) |}.
#[local] Instance demo_json : Json :=
  {| from_slice := λ s, Some s; from_value := λ s, Some (MkGeneric s "delivered" 90 None) |}.

Definition demo_secret (slug : string) : CEff KeyStoreError string := eret ("secret of " +:+ slug).
#[export] Instance demo_secret_laws : SecretLaws demo_secret (λ slug, "secret of " +:+ slug).
Proof. split; [intros R HR slug; by apply guar_ret|]. by intros slug w w' s [= _ <-]. Qed.

Definition demo_signature : string := hex_encode "secret of acmeref-1".

Lemma signature_witness : verify "secret of acme" "ref-1" demo_signature = Some true.
Proof.
  destruct (signatures_verify_and_nothing_else "secret of acme" "ref-1" "" (λ body, "secret of acme" +:+ body))
    as [H _]; [reflexivity|exact H].
Defined.

Lemma staged_witness :
  pinned two_tenants (w_db (receive_webhook demo_secret "postgres://" id ∅ "tok-acme" "acme-sms" (Some demo_signature)
    "ref-1" 70 (cluster_world two_tenants)).1).
Proof.
  pose proof (only_signed_receipts_are_staged demo_secret (λ slug, "secret of " +:+ slug) "postgres://" "tok-acme"
    "acme-sms" (Some demo_signature) "ref-1" pinned (λ _ _ HR, HR)) as Hst.
  specialize (Hst ltac:(by intros c c' (t & h & raw & rc & now & fr & d & tb & _ & _ & _ & _ & _ & _ & _ & _ & ->); apply pinned_same)
    id ∅ 70%N (cluster_world two_tenants) ltac:(done) (conj (Forall_nil_2 _) eq_refl) two_tenants_ok
    ltac:(by intros i p ?%lookup_empty_Some)).
  destruct (receive_webhook _ _ _ _ _ _ _ _ _ _) as [w' r]. exact (proj1 Hst).
Defined.

Lemma delivery_witness :
  (receive_webhook demo_secret "postgres://" id ∅ "tok-acme" "acme-sms" (Some demo_signature)
    "ref-1" 70 (cluster_world two_tenants)).2 = Ok ({[1%N := "tenant_acme"%string]}, 200).
Proof.
  destruct (deliveries_are_answered_and_staged_once demo_secret (λ slug, "secret of " +:+ slug) ltac:(done) "postgres://"
    "tok-acme" "acme-sms" "ref-1" (cluster_world two_tenants) (conj eq_refl eq_refl) (Some demo_signature) 70 acme demo_tenant_db)
    as (raw & Hraw & Hrun & _).
  - vm_compute. reflexivity.
  - reflexivity.
  - reflexivity.
  - reflexivity.
  - reflexivity.
  - rewrite Hrun. reflexivity.
Defined.
