(* ===== verification/Lifecycle.v ===== *)
(** * The life of a tenant: provisioning and destruction

    Models [src/tenant/{provision,offboard,vault}.rs] and the two commands of
    [src/bin/control.rs] that call them. The Vault client and the migrations are
    parameters. *)

From S2P Require Import Prelude RustStd Time Schema KillSwitch Dek Ingest Tenancy.
From stdpp Require Import base gmap strings list.
From Stdlib Require Import ZArith Lia Decidable.

Local Open Scope effect_scope.
Local Open Scope Z_scope.

(** ** Vault *)

(** [vaultrs::error::ClientError]: an answer with a status, or anything else. *)
Inductive ClientError : Type := APIError (code : Z) | OtherClientError.

(** The calls of the Vault client that the code makes. *)
Record VaultClient : Type := MkVaultClient {
  vc_list_mounts : CEff ClientError (gset string);
  vc_enable_mount : string → CEff ClientError unit;
  vc_create_key : string → CEff ClientError unit;
  vc_set_policy : string → string → CEff ClientError unit;
  vc_set_role : string → string → CEff ClientError unit;
  vc_read_role_id : string → CEff ClientError string;
  vc_wrapped_secret_id : string → CEff ClientError string;
  vc_allow_deletion : string → CEff ClientError unit;
  vc_delete_key : string → CEff ClientError unit;
  vc_disable_mount : string → CEff ClientError unit;
  vc_delete_policy : string → CEff ClientError unit;
  vc_delete_role : string → CEff ClientError unit;
}.

Definition keystore_of_client (_ : ClientError) : KeyStoreError := Client.

(** [tolerate_not_found]. *)
Definition tolerate_not_found (r : result unit ClientError) : result unit KeyStoreError :=
  match r with
  | Ok _ => Ok tt
  | Err (APIError code) => if decide (code = 404) then Ok tt else Err Client
  | Err OtherClientError => Err Client
  end.
Definition tolerated (m : CEff ClientError unit) : CEff KeyStoreError unit :=
  r ←! etry m; eof (tolerate_not_found r).

Definition mount_path (slug : string) : string := "transit/" +:+ slug.
Definition policy_name (slug : string) : string := "tenant-" +:+ slug +:+ "-transit".
Definition KEY_NAME : string := "messgr-dek".
Definition newline : string := String (Ascii.ascii_of_nat 10) EmptyString.
Definition quote : string := String (Ascii.ascii_of_nat 34) EmptyString.

Definition quoted (s : string) : string := quote +:+ s +:+ quote.
(** One [path] block of a policy. *)
Definition policy_block (path capabilities : string) : string :=
  "path " +:+ quoted path +:+ " {" +:+ newline +:+ "  capabilities = [" +:+ capabilities +:+ "]" +:+ newline +:+ "}" +:+ newline.
(** [policy_hcl_for]. *)
Definition policy_hcl_for (mount slug : string) : string :=
  policy_block (mount +:+ "/datakey/plaintext/" +:+ KEY_NAME) (quoted "create" +:+ ", " +:+ quoted "update")
  +:+ policy_block (mount +:+ "/decrypt/" +:+ KEY_NAME) (quoted "create" +:+ ", " +:+ quoted "update")
  +:+ policy_block ("secret/data/" +:+ slug +:+ "/*") (quoted "read").

Record VaultProvisionOutcome : Type := MkVaultProvision { vo_role_id : string; vo_wrapped_secret_id : option string }.

Section Vault.
Context (client : VaultClient).

Definition ensure_transit_mount (mount : string) : CEff ClientError unit :=
  existing ←! vc_list_mounts client;
  if decide (mount +:+ "/" ∈ existing) then eret tt else vc_enable_mount client mount.

(** [provision_vault]. *)
Definition provision_vault (slug : string) (mint_secret_id : bool) : CEff KeyStoreError VaultProvisionOutcome :=
  elift keystore_of_client (ensure_transit_mount (mount_path slug)) ;!
  elift keystore_of_client (vc_create_key client (mount_path slug)) ;!
  elift keystore_of_client (vc_set_policy client (policy_name slug) (policy_hcl_for (mount_path slug) slug)) ;!
  elift keystore_of_client (vc_set_role client slug (policy_name slug)) ;!
  role_id ←! elift keystore_of_client (vc_read_role_id client slug);
  secret_id ←! (if mint_secret_id then
                  token ←! elift keystore_of_client (vc_wrapped_secret_id client slug); eret (Some token)
                else eret None);
  eret (MkVaultProvision role_id secret_id).

(** [destroy_vault]. *)
Definition destroy_vault (slug : string) : CEff KeyStoreError unit :=
  tolerated (vc_allow_deletion client (mount_path slug)) ;!
  tolerated (vc_delete_key client (mount_path slug)) ;!
  tolerated (vc_disable_mount client (mount_path slug)) ;!
  tolerated (vc_delete_policy client (policy_name slug)) ;!
  tolerated (vc_delete_role client slug).
End Vault.

(** ** Provisioning *)

(** [ProvisionError]; [PvPanic] is the panic of a mis-routed pool. *)
Inductive ProvisionError : Type := PvDatabase (e : SqlxError) | PvVault (e : KeyStoreError) | PvPanic.
Definition provision_of_connect (e : ConnectError) : ProvisionError :=
  match e with CSqlx e => PvDatabase e | CMisrouted => PvPanic end.

Record ProvisionOutcome : Type := MkProvision {
  pv_tenant_id : N;
  pv_vault_role_id : string;
  pv_vault_wrapped_secret_id : option string;
}.

Definition FOREIGN_REGION : SqlxError := SqlConfiguration "region does not match this deployment".
Definition DIFFERENT_TENANT : SqlxError := SqlConfiguration "tenant is already registered with other inputs".

(** [refuse_foreign_region]. *)
Definition refuse_foreign_region (actor slug region deployment_region : string) : CEff SqlxError unit :=
  if decide (region = deployment_region) then eret tt
  else
    record_audit actor "tenant.provision_rejected" None
      [("slug", Some slug); ("attempted_region", Some region); ("deployment_region", Some deployment_region)]%string ;!
    ethrow FOREIGN_REGION.

(** [ensure_database_exists]: two statements; a second [CREATE DATABASE] fails. *)
Definition ensure_database_exists (name : string) : CEff SqlxError unit :=
  exists_ ←! query (λ _ c, bool_decide (is_Some (cl_database c !! name)));
  if exists_ : bool then eret tt
  else sql (λ _ c, match cl_database c !! name with
                   | Some _ => Err (SqlConstraint "duplicate_database")
                   | None => Ok (on_database (<[name := empty_tenant_db]>) c, tt)
                   end).

Section Provision.
Context `{!PgUrl} (client : VaultClient).
(** [sqlx::migrate!(..).run], and the greatest version in [_sqlx_migrations]. *)
Context (migrate : string → CEff SqlxError unit) (schema_version : TenantDb → Z).

(** The tenant of the slug, new or known; [ids] are the id and token drawn for a new one. *)
Definition find_or_register (ids : N * string) (slug region database_name actor : string)
    : CEff ProvisionError (N * string) :=
  found ←! elift PvDatabase (query (λ _, find_by_slug slug));
  match found with
  | Some tenant =>
      if decide (tt_region tenant = region ∧ tt_database_name tenant = database_name)
      then eret (tt_id tenant, "idempotent"%string)
      else
        elift PvDatabase (record_audit actor "tenant.provision_rejected" (Some (tt_id tenant))
          [("slug", Some slug); ("attempted_region", Some region); ("attempted_database_name", Some database_name);
           ("existing_region", Some (tt_region tenant)); ("existing_database_name", Some (tt_database_name tenant))]%string) ;!
        ethrow (PvDatabase DIFFERENT_TENANT)
  | None =>
      elift PvDatabase (insert_provisioning ids.1 slug region database_name (mount_path slug) ids.2) ;!
      eret (ids.1, "created"%string)
  end.

(** [provision_tenant]. *)
Definition provision_tenant (ids : N * string) (base_db_url slug region database_name actor : string)
    : CEff ProvisionError ProvisionOutcome :=
  who ←! find_or_register ids slug region database_name actor;
  let '(tenant_id, outcome) := who in
  vault_outcome ←! elift PvVault (provision_vault client slug (bool_decide (outcome = "created"%string)));
  elift PvDatabase (record_vault_role_id tenant_id (vo_role_id vault_outcome)) ;!
  elift PvDatabase (ensure_database_exists database_name) ;!
  tenant_pool ←! elift provision_of_connect (connect_tenant_pool base_db_url tenant_id database_name);
  elift PvDatabase (migrate (tp_pool tenant_pool)) ;!
  version ←! elift PvDatabase (pool_query (tp_pool tenant_pool) (λ _, schema_version));
  elift PvDatabase (record_schema_version tenant_id version) ;!
  elift PvDatabase (mark_active tenant_id) ;!
  elift PvDatabase (record_audit actor "tenant.provision" (Some tenant_id)
    [("slug", Some slug); ("region", Some region); ("database_name", Some database_name);
     ("outcome", Some outcome); ("vault_role_id", Some (vo_role_id vault_outcome))]%string) ;!
  eret (MkProvision tenant_id (vo_role_id vault_outcome) (vo_wrapped_secret_id vault_outcome)).

(** The [Provision] command. *)
Definition provision_command (ids : N * string) (base_db_url deployment_region slug region database_name actor : string)
    : CEff ProvisionError ProvisionOutcome :=
  elift PvDatabase (refuse_foreign_region actor slug region deployment_region) ;!
  provision_tenant ids base_db_url slug region database_name actor.
End Provision.

(** ** Destruction *)

(** [destroy_tenant]: the key, the database, the status, the audit row. *)
Definition destroy_tenant (client : VaultClient) (tenant_id : N) (actor : string) : CEff ProvisionError unit :=
  tenant ←! elift PvDatabase (query (λ _, find_by_id tenant_id));
  tenant ←! eof (ok_or tenant (PvDatabase SqlRowNotFound));
  elift PvVault (destroy_vault client (tt_slug tenant)) ;!
  elift PvDatabase (exec (λ _, on_database (delete (tt_database_name tenant)))) ;!
  elift PvDatabase (mark_status tenant_id status.OFFBOARDING_DESTROY) ;!
  elift PvDatabase (record_audit actor "tenant.offboard_destroy" (Some tenant_id)
    [("slug", Some (tt_slug tenant)); ("database_name", Some (tt_database_name tenant))]%string).

(** The [OffboardDestroy] command; [None] when the two slugs differ or none is known. *)
Definition offboard_command (client : VaultClient) (tenant_slug confirm_slug actor : string)
    : CEff ProvisionError (option unit) :=
  if decide (confirm_slug = tenant_slug) then
    tenant ←! elift PvDatabase (query (λ _, find_by_slug tenant_slug));
    match tenant with
    | None => eret None
    | Some tenant => destroy_tenant client (tt_id tenant) actor ;! eret (Some tt)
    end
  else eret None.

(** ** What the Vault client promises *)

(** Nothing but the keys differs. *)
Definition keys_only (c c' : Cluster) : Prop := ∃ K, c' = on_key (λ _, K) c.
(** Nothing differs but keys that are gone. *)
Definition keys_fewer (c c' : Cluster) : Prop := ∃ K, c' = on_key (λ _, K) c ∧ K ⊆ cl_key c.

(** Vault touches no database; the calls of [destroy_vault] create no key, and a
    deletion that is answered with success or with 404 leaves no key behind. *)
Class VaultClientLaws (client : VaultClient) : Prop := {
  vl_setup (R : relation Cluster) `{!PreOrder R} : (∀ c c', keys_only c c' → R c c') →
    guar R (vc_list_mounts client) ∧ (∀ m, guar R (vc_enable_mount client m)) ∧ (∀ m, guar R (vc_create_key client m))
    ∧ (∀ p h, guar R (vc_set_policy client p h)) ∧ (∀ s p, guar R (vc_set_role client s p))
    ∧ (∀ s, guar R (vc_read_role_id client s)) ∧ (∀ s, guar R (vc_wrapped_secret_id client s));
  vl_teardown (R : relation Cluster) `{!PreOrder R} : (∀ c c', keys_fewer c c' → R c c') →
    (∀ m, guar R (vc_allow_deletion client m)) ∧ (∀ m, guar R (vc_delete_key client m))
    ∧ (∀ m, guar R (vc_disable_mount client m)) ∧ (∀ p, guar R (vc_delete_policy client p))
    ∧ (∀ s, guar R (vc_delete_role client s));
  vl_deleted (R : relation Cluster) `{!PreOrder R} m w :
    (∀ c c', keys_fewer c c' → R c c') → stable R (λ c, m ∉ cl_key c) → rely R w →
    tolerate_not_found (vc_delete_key client m w).2 = Ok tt → m ∉ cl_key (w_db (vc_delete_key client m w).1);
}.

Lemma guar_tolerated (R : relation Cluster) `{!PreOrder R} m : guar R m → guar R (tolerated m).
Proof. intros Hm. unfold tolerated. step_guar. Qed.

Section Teardown.
Context (client : VaultClient) `{!VaultClientLaws client} (R : relation Cluster) `{!PreOrder R}.
Hypothesis fewer : ∀ c c', keys_fewer c c' → R c c'.

Lemma destroy_vault_guar slug : guar R (destroy_vault client slug).
Proof.
  destruct (vl_teardown (client:=client) R fewer) as (H1 & H2 & H3 & H4 & H5).
  unfold destroy_vault. do 4 (apply guar_bind; [apply _|by apply guar_tolerated; [apply _|]|intros []]).
  by apply guar_tolerated; [apply _|].
Qed.

(** After [destroy_vault] the mount has no key. *)
Lemma destroy_vault_hoare slug P :
  stable R P → stable R (λ c, mount_path slug ∉ cl_key c) →
  hoare R P (destroy_vault client slug) (λ _ c, P c ∧ mount_path slug ∉ cl_key c) (λ _, True).
Proof.
  intros HP Hs. destruct (vl_teardown (client:=client) R fewer) as (H1 & H2 & H3 & H4 & H5).
  set (Q := λ c, P c ∧ mount_path slug ∉ cl_key c). assert (stable R Q) as HQ by (apply stable_and; auto).
  assert (∀ m, guar R m → sustains R Q (tolerated m)) as Hstep.
  { intros m Hm. apply sustains_guar; [done|]. by apply guar_tolerated; [apply _|]. }
  unfold destroy_vault. eapply (hoare_bind _ _ _ _ (λ _, P)).
  { apply (sustains_guar R P); [done|]. by apply guar_tolerated; [apply _|]. }
  intros _. eapply (hoare_bind _ _ _ _ (λ _, Q)).
  { intros w Hr Hp. destruct (H2 (mount_path slug) w Hr) as [HR Hr'].
    pose proof (vl_deleted (client:=client) R (mount_path slug) w fewer Hs Hr) as Hdel.
    unfold tolerated, ebind, etry, eof. destruct (vc_delete_key client (mount_path slug) w) as [w1 r]; simpl in *.
    split_and!; [done..|]. destruct (tolerate_not_found r) as [[]|e]; [|done]. split; [by eapply HP|by apply Hdel]. }
  intros _. apply (sustains_bind R Q); [apply Hstep, H3|intros _].
  apply (sustains_bind R Q); [apply Hstep, H4|intros _]. apply Hstep, H5.
Qed.
End Teardown.

(** ** Provisioning keeps the registry of tenants in order *)

(** [pinned], and a deployment that holds its own region's tenants keeps it so. *)
Definition homed (region : string) (c c' : Cluster) : Prop :=
  pinned c c' ∧ ∀ id t', cl_tenant c' !! id = Some t' →
    tt_region t' = region ∨ ∃ t, cl_tenant c !! id = Some t ∧ tt_region t = tt_region t'.
#[export] Instance homed_pre region : PreOrder (homed region).
Proof.
  split; [intros c; split; [done|eauto]|]. intros c1 c2 c3 [A1 A2] [B1 B2]. split; [by etransitivity|].
  intros id t3 Ht3. destruct (B2 _ _ Ht3) as [?|(t2 & Ht2 & <-)]; [by left|]. by apply A2.
Qed.

Definition in_region (region : string) (c : Cluster) : Prop :=
  ∀ id t, cl_tenant c !! id = Some t → tt_region t = region.
Lemma in_region_stable region : stable (homed region) (in_region region).
Proof. intros c c' [_ Hh] Hc id t' Ht'. destruct (Hh _ _ Ht') as [?|(t & Ht & <-)]; [done|by eapply Hc]. Qed.

Lemma homed_same region c c' : cl_tenant c' = cl_tenant c → homed region c c'.
Proof. intros He. split; [by apply pinned_same|]. rewrite He. eauto. Qed.
Lemma homed_alter region f id c : (∀ t, identity_of (f t) = identity_of t) → homed region c (on_tenant (alter f id) c).
Proof.
  intros Hf. split; [by apply pinned_alter|]. intros i t'. simpl. rewrite lookup_alter. case_decide; [subst|by eauto].
  destruct (cl_tenant c !! i) as [t|]; simpl; [|done]. intros [= <-]. right. exists t. split; [done|].
  specialize (Hf t). by injection Hf as _ _ -> _ _ _.
Qed.
Lemma homed_insert row c c' :
  tenants_ok c → insert_tenant row c = Ok (c', tt) → homed (tt_region row) c c' ∧ cl_tenant c' !! tt_id row = Some row.
Proof.
  unfold insert_tenant. case_decide as Hno; [done|]. intros Hok [= <-].
  apply Decidable.not_or in Hno as [Hfree Hno]. rewrite <- eq_None_not_Some in Hfree.
  assert (∀ i t, cl_tenant c !! i = Some t → ¬ same_tenant_key row t ∧ ¬ same_tenant_key t row) as Hdiff.
  { intros i t Ht. assert (¬ same_tenant_key row t) as Hn.
    { intros Hs. apply Hno, Exists_exists. exists t. split; [|done]. apply elem_of_map_values. eauto. }
    split; [done|]. unfold same_tenant_key in *. naive_solver. }
  split; [split; [split|]|by simpl; rewrite lookup_insert_eq].
  - intros i t Ht. exists t. simpl. rewrite lookup_insert_ne by congruence. eauto.
  - intros [A B]. split; simpl.
    + intros i t [[<- <-]|[_ Ht]]%lookup_insert_Some; [done|by apply A].
    + intros i j a b [[<- <-]|[_ Ha]]%lookup_insert_Some [[<- <-]|[_ Hb]]%lookup_insert_Some Hs; [done| | |by eapply B].
      * by apply (Hdiff _ _ Hb) in Hs.
      * by apply (Hdiff _ _ Ha) in Hs.
  - intros i t. simpl. intros [[<- <-]|[_ Ht]]%lookup_insert_Some; eauto.
Qed.

Section Region.
Context `{!PgUrl} (client : VaultClient) `{!VaultClientLaws client}.
Context (migrate : string → CEff SqlxError unit) (schema_version : TenantDb → Z).
(** A migration runs on the pool's database only. *)
Hypothesis migrate_guar : ∀ (R : relation Cluster) `{!PreOrder R} pool,
  (∀ f c, R c (on_database (alter f pool) c)) → guar R (migrate pool).
Context (region : string).

Lemma homed_keys c c' : keys_only c c' → homed region c c'.
Proof. intros [K ->]. by apply homed_same. Qed.

Lemma record_audit_homed actor action tenant detail : guar (homed region) (record_audit actor action tenant detail).
Proof. apply guar_exec; [apply _|]. intros t c. by apply homed_same. Qed.
Lemma mark_status_homed id s : guar (homed region) (mark_status id s).
Proof. apply guar_sql; [apply _|]. intros t c c' a [= <- _]. by apply homed_alter. Qed.
Lemma record_role_homed id role : guar (homed region) (record_vault_role_id id role).
Proof. apply guar_sql; [apply _|]. intros t c c' []. unfold set_role. case_decide; [done|]. intros [= <-]. by apply homed_alter. Qed.
Lemma record_version_homed id v : guar (homed region) (record_schema_version id v).
Proof.
  apply guar_sql; [apply _|]. intros t c c' []. unfold upsert_version. case_decide; [done|].
  destruct (cl_tenant c !! id); [|done]. intros [= <-]. by apply homed_same.
Qed.
Lemma ensure_database_homed name : guar (homed region) (ensure_database_exists name).
Proof.
  unfold ensure_database_exists. step_guar. apply guar_sql; [apply _|]. intros t c c' [].
  destruct (cl_database c !! name); [done|]. intros [= <-]. by apply homed_same.
Qed.
Lemma provision_vault_homed slug mint : guar (homed region) (provision_vault client slug mint).
Proof.
  destruct (vl_setup (client:=client) (homed region) homed_keys) as (H1 & H2 & H3 & H4 & H5 & H6 & H7).
  unfold provision_vault, ensure_transit_mount. step_guar.
Qed.
Lemma migrate_homed pool : guar (homed region) (migrate pool).
Proof. apply migrate_guar; [apply _|]. intros f c. by apply homed_same. Qed.
Hint Resolve record_audit_homed mark_status_homed record_role_homed record_version_homed
  ensure_database_homed provision_vault_homed migrate_homed : effects.

(** The row [id] has this slug, this database and the deployment's region. *)
Definition registered (id : N) (slug name : string) (c : Cluster) : Prop :=
  ∃ row, cl_tenant c !! id = Some row ∧ tt_slug row = slug ∧ tt_database_name row = name ∧ tt_region row = region.
Lemma registered_stable id slug name : stable (homed region) (registered id slug name).
Proof.
  intros c c' [HR _] (row & Hrow & H1 & H2 & H3). destruct (pi_row _ _ HR _ _ Hrow) as (row' & Hrow' & [= _ E1 E2 E3 _ _]).
  exists row'. split_and!; congruence.
Qed.
Lemma tenants_ok_homed : stable (homed region) tenants_ok.
Proof. intros c c' [HR _]. apply HR. Qed.
Hint Resolve registered_stable tenants_ok_homed : core.

Lemma find_or_register_hoare ids slug name actor :
  hoare (homed region) tenants_ok (find_or_register ids slug region name actor)
    (λ r c, tenants_ok c ∧ registered r.1 slug name c) (λ _, True).
Proof.
  unfold find_or_register.
  eapply (hoare_bind _ _ _ _ (λ o c, tenants_ok c ∧ ∀ row, o = Some row →
    tt_slug row = slug ∧ registered (tt_id row) slug (tt_database_name row) c ∨ tt_region row ≠ region)).
  { apply hoare_lift, hoare_query; [apply _|done|done|]. intros _ c Hc. split; [done|].
    intros row (Hslug & i & Hrow)%find_row_Some. destruct (decide (tt_region row = region)) as [Hreg|?]; [left|by right].
    split; [done|]. exists row. rewrite (to_key c Hc _ _ Hrow). by split_and!. }
  intros [row|].
  - case_decide as Hsame.
    + apply hoare_ret; [apply _|]. intros c [Hc Hrow]. split; [done|]. destruct Hsame as [Hreg <-].
      destruct (Hrow row eq_refl) as [[_ ?]|?]; done.
    + eapply (hoare_bind _ _ _ _ (λ _, tenants_ok)); [|intros _; by apply hoare_throw; [apply _|]].
      eapply hoare_pre; [|by intros c [Hc _]]. apply hoare_lift. apply (sustains_guar (homed region) tenants_ok); [done|].
      apply record_audit_homed.
  - eapply (hoare_bind _ _ _ _ (λ _ c, tenants_ok c ∧ registered ids.1 slug name c)).
    2: { intros _. apply hoare_ret; [apply _|]. done. }
    eapply hoare_pre; [|by intros c [Hc _]]. apply hoare_lift. unfold insert_provisioning.
    eapply (hoare_bind _ _ _ _ (λ _, tenants_ok)); [by apply hoare_now; [apply _|..]|]. intros now.
    apply hoare_sql; [apply _|done|done|]. intros _ c Hc.
    destruct (insert_tenant _ c) as [[c' []]|e] eqn:Hins; [|done].
    destruct (homed_insert _ _ _ Hc Hins) as [HR Hrow]. simpl in *. split; [done|]. split; [by eapply tenants_ok_homed|].
    eexists. split_and!; [exact Hrow|done..].
Qed.

(** Tenants stay in their region and keep their own database. A provisioning run,
    whoever runs beside it and whatever fails, only ever adds a tenant of the
    deployment's own region, changes no tenant's id, slug, region, database, mount or
    token and lets no two share one; so the start-up check of the region keeps passing. If the run reports success
    the tenant it names is on file under the slug, region and database asked for, and
    a foreign region is never reported as a success. *)
Theorem provisioning_stays_in_the_region ids url slug asked name actor (w : CW) :
  rely (homed region) w → tenants_ok (w_db w) → in_region region (w_db w) →
  let '(w', r) := provision_command client migrate schema_version ids url region slug asked name actor w in
  homed region (w_db w) (w_db w') ∧ tenants_ok (w_db w') ∧ in_region region (w_db w')
  ∧ (calm w' → (assert_region region w').2 = Ok tt)
  ∧ ∀ o, r = Ok o → asked = region ∧ registered (pv_tenant_id o) slug name (w_db w').
Proof.
  intros Hr Hok Hin.
  assert (hoare (homed region) tenants_ok (provision_command client migrate schema_version ids url region slug asked name actor)
    (λ o c, asked = region ∧ registered (pv_tenant_id o) slug name c) (λ _, True)) as Hh.
  { unfold provision_command, refuse_foreign_region.
    eapply (hoare_bind _ _ _ _ (λ _ c, asked = region ∧ tenants_ok c)).
    { apply hoare_lift. case_decide; [by apply hoare_ret; [apply _|]|].
      eapply (hoare_bind _ _ _ _ (λ _, tenants_ok)); [|intros _; by apply hoare_throw; [apply _|]].
      apply (sustains_guar (homed region) tenants_ok); [done|]. apply record_audit_homed. }
    intros _. apply hoare_pull. intros ->. unfold provision_tenant.
    eapply hoare_bind; [apply _|apply find_or_register_hoare|]. intros [id outcome]; simpl.
    apply (hoare_pre _ _ (registered id slug name)); [|by intros c [_ ?]].
    set (P := registered id slug name). assert (stable (homed region) P) as HP by apply registered_stable.
    pose proof (connect_guar url id (homed region) name) as Hconn.
    pose proof (λ pool (f : Z → TenantDb → Z), guar_pool_query (homed region) pool f) as Hread.
    unfold mark_active.
    repeat (eapply (hoare_bind _ _ _ _ (λ _, P)); [apply (sustains_guar (homed region) P); [done|by step_guar]|intros ?]).
    apply hoare_ret; [apply _|]. done. }
  destruct (Hh w Hr Hok) as (_ & HR & Hpost).
  destruct (provision_command _ _ _ _ _ _ _ _ _ _ w) as [w' r]; simpl in *.
  pose proof (in_region_stable region _ _ HR Hin) as Hin'. split_and!; [done|by eapply tenants_ok_homed|done| |].
  - intros [He _]. unfold assert_region, ebind. rewrite query_calm by done.
    destruct (find_row _ _) as [t|] eqn:Hf; [|done]. apply find_row_Some in Hf as (Hne & i & Ht). by apply Hin' in Ht.
  - intros o ->. exact Hpost.
Qed.
End Region.

(** ** Destruction takes the key first *)

Section Destroy.
Context (client : VaultClient) `{!VaultClientLaws client}.
Context (id : N) (slug name : string).

(** What others do while a tenant is destroyed: they do not touch its row, bring
    back its key, or create or drop its database. *)
Record aside (c c' : Cluster) : Prop := {
  as_row : cl_tenant c' !! id = cl_tenant c !! id;
  as_key : mount_path slug ∈ cl_key c' → mount_path slug ∈ cl_key c;
  as_database : is_Some (cl_database c' !! name) ↔ is_Some (cl_database c !! name);
}.
#[export] Instance aside_pre : PreOrder aside.
Proof.
  split; [done|]. intros c1 c2 c3 [A1 A2 A3] [B1 B2 B3]. split; [congruence|auto|by rewrite B3].
Qed.

Definition is_row (row : Tenant) (c : Cluster) : Prop := cl_tenant c !! id = Some row.
Definition gone (c : Cluster) : Prop := mount_path slug ∉ cl_key c.
Lemma is_row_stable row : stable aside (is_row row).
Proof. intros c c' [H _ _]. unfold is_row. by rewrite H. Qed.
Lemma gone_stable : stable aside gone.
Proof. intros c c' [_ H _]. unfold gone. auto. Qed.
Lemma aside_fewer c c' : keys_fewer c c' → aside c c'.
Proof. intros (K & -> & HK). split; [done|set_solver|done]. Qed.
Hint Resolve is_row_stable gone_stable : core.

(** The destruction after the key is gone: status and database. *)
Lemma drop_and_mark actor detail (w w' : CW) row r :
  rely aside w → is_row row (w_db w) → gone (w_db w) →
  (elift PvDatabase (exec (λ _, on_database (delete name))) ;!
   elift PvDatabase (mark_status id status.OFFBOARDING_DESTROY) ;!
   elift PvDatabase (record_audit actor "tenant.offboard_destroy" (Some id) detail)) w = (w', r) →
  gone (w_db w') ∧ (r = Ok tt → cl_database (w_db w') !! name = None ∧
    is_row (tt_set_status status.OFFBOARDING_DESTROY row) (w_db w')).
Proof.
  intros Hr Hrow Hgone. unfold exec, mark_status, record_audit, exec, ebind at 1, elift at 1.
  pose proof (sql_split aside (λ (_ : Z) c, Ok (on_database (delete name) c, tt)) w Hr) as Hs.
  destruct (sql _ w) as [w1 [[]|e]]; destruct Hs as (Hr1 & _ & d0 & Ha & Hs);
    apply (gone_stable _ _ Ha) in Hgone; apply (is_row_stable _ _ _ Ha) in Hrow.
  2: { intros [= <- <-]. split; [|done]. destruct Hs as [->|[? [= Hw1 _]]]; [done|by rewrite <- Hw1]. }
  injection Hs as Hw1. assert (gone (w_db w1) ∧ is_row row (w_db w1) ∧ ¬ is_Some (cl_database (w_db w1) !! name))
    as (Hgone1 & Hrow1 & Hdb) by (rewrite <- Hw1; split_and!; [done..|]; simpl; rewrite lookup_delete_eq; apply is_Some_None).
  clear Hw1. unfold ebind at 1, elift at 1.
  pose proof (sql_split aside (λ (_ : Z) c, Ok (set_status id status.OFFBOARDING_DESTROY c)) w1 Hr1) as Hs.
  destruct (sql _ w1) as [w2 [n|e]]; destruct Hs as (Hr2 & _ & d1 & Ha1 & Hs);
    apply (gone_stable _ _ Ha1) in Hgone1; apply (is_row_stable _ _ _ Ha1) in Hrow1; rewrite <- (as_database _ _ Ha1) in Hdb.
  2: { intros [= <- <-]. split; [|done]. destruct Hs as [->|[? [= Hw2 _]]]; [done|by rewrite <- Hw2]. }
  injection Hs as Hw2 _. assert (is_row (tt_set_status status.OFFBOARDING_DESTROY row) (w_db w2)) as Hrow2.
  { rewrite <- Hw2. unfold is_row in *. simpl. by rewrite lookup_alter_eq, Hrow1. }
  assert (gone (w_db w2) ∧ ¬ is_Some (cl_database (w_db w2) !! name)) as [Hgone2 Hdb2] by (by rewrite <- Hw2).
  unfold elift. intros Hrun.
  assert (guar aside (record_audit actor "tenant.offboard_destroy" (Some id) detail)) as Hg.
  { apply guar_exec; [apply _|]. by intros t c. }
  destruct (Hg w2 Hr2) as [Ha3 _]. unfold record_audit, exec in Ha3.
  destruct (sql _ w2) as [w3 r3]; simpl in *. injection Hrun as <- <-.
  split; [by eapply gone_stable|]. intros _. rewrite <- (as_database _ _ Ha3), <- eq_None_not_Some in Hdb2.
  split; [done|by eapply is_row_stable].
Qed.

(** C15. The key goes before the database. While no one else touches the tenant's row,
    brings back its key, or creates or drops its database, a run of the destruction
    that finds the database there leaves it without a database only if the Vault key
    is gone too, at whatever statement it fails; and when it reports success the key
    and the database are gone and the row says so. *)
Theorem key_goes_before_the_database actor (w w' : CW) row r :
  rely aside w → cl_tenant (w_db w) !! id = Some row → tt_slug row = slug → tt_database_name row = name →
  is_Some (cl_database (w_db w) !! name) →
  destroy_tenant client id actor w = (w', r) →
  (cl_database (w_db w') !! name = None → mount_path slug ∉ cl_key (w_db w'))
  ∧ (r = Ok tt → mount_path slug ∉ cl_key (w_db w') ∧ cl_database (w_db w') !! name = None
       ∧ cl_tenant (w_db w') !! id = Some (tt_set_status status.OFFBOARDING_DESTROY row)).
Proof.
  intros Hr Hrow Hslug Hname Hdb. unfold destroy_tenant.
  assert (∀ w1 w2 : CW, aside (w_db w) (w_db w1) → aside (w_db w1) (w_db w2) → ∀ e, r = Err e →
    (cl_database (w_db w2) !! name = None → mount_path slug ∉ cl_key (w_db w2)) ∧ (r = Ok tt →
     mount_path slug ∉ cl_key (w_db w2) ∧ cl_database (w_db w2) !! name = None
       ∧ cl_tenant (w_db w2) !! id = Some (tt_set_status status.OFFBOARDING_DESTROY row))) as Hstay.
  { intros w1 w2 Ha1 Ha2 e ->. split; [|done]. intros Hn. exfalso.
    rewrite <- (as_database _ _ Ha1), <- (as_database _ _ Ha2), Hn in Hdb. by apply is_Some_None in Hdb. }
  pose proof (guar_query (C:=Call) aside (λ _, find_by_id id) w Hr) as [Ha1 Hr1].
  assert (hoare (C:=Call) aside (is_row row) (query (λ _, find_by_id id)) (λ t c, t = Some row ∧ is_row row c) (λ _, True)) as Hq.
  { by apply hoare_query; [apply _|..]. }
  destruct (Hq w Hr Hrow) as (_ & _ & Hp1). unfold ebind at 1, elift at 1.
  destruct (query _ w) as [w1 [t|e]]; simpl in *; [|intros [= <- <-]; by eapply Hstay].
  destruct Hp1 as [-> Hrow1]. unfold ebind at 1. simpl. rewrite Hslug, Hname.
  pose proof (destroy_vault_hoare client aside aside_fewer slug (is_row row) (is_row_stable row) gone_stable w1 Hr1 Hrow1)
    as (Hr2 & Ha2 & Hp2).
  unfold ebind at 1, elift at 1. destruct (destroy_vault client slug w1) as [w2 [[]|e]]; simpl in *.
  2: { intros [= <- <-]. by eapply Hstay. }
  intros Hrun. destruct Hp2 as [Hrow2 Hgone2]. destruct (drop_and_mark _ _ _ _ row _ Hr2 Hrow2 Hgone2 Hrun) as [Hg Hok].
  split; [done|]. intros ->. destruct (Hok eq_refl). by split_and!.
Qed.
End Destroy.

(** ** Concrete runs *)

(** A Vault that keeps its promises and never fails on its own. *)
Definition demo_call {A} (f : gset string → gset string) (a : A) : CEff ClientError A :=
  elift (λ _, OtherClientError) (exec (λ _, on_key f) ;! eret a).
Definition demo_client : VaultClient :=
  MkVaultClient
    (demo_call id ∅) (λ _, demo_call id tt) (λ m, demo_call (λ K, K ∪ {[m]}) tt) (λ _ _, demo_call id tt)
    (λ _ _, demo_call id tt) (λ s, demo_call id ("role-" +:+ s)) (λ s, demo_call id ("wrapped-" +:+ s))
    (λ _, demo_call id tt) (λ m, demo_call (λ K, K ∖ {[m]}) tt) (λ m, demo_call (λ K, K ∖ {[m]}) tt)
    (λ _, demo_call id tt) (λ _, demo_call id tt).

#[export] Instance demo_client_laws : VaultClientLaws demo_client.
Proof.
  split.
  - intros R HR Hk.
    assert (∀ A f (a : A), guar R (demo_call f a)) as Hg.
    { intros A f a. unfold demo_call. step_guar. apply guar_exec; [apply _|]. intros t c. apply Hk. by exists (f (cl_key c)). }
    split_and!; intros; apply Hg.
  - intros R HR Hk.
    assert (∀ A f (a : A), (∀ K, f K ⊆ K) → guar R (demo_call f a)) as Hg.
    { intros A f a Hf. unfold demo_call. step_guar. apply guar_exec; [apply _|]. intros t c. apply Hk. by exists (f (cl_key c)). }
    split_and!; intros; apply Hg; set_solver.
  - intros R HR m w Hk Hs Hr. unfold demo_client; cbn [vc_delete_key]. unfold demo_call, elift, ebind, exec.
    pose proof (sql_split R (λ (_ : Z) c, Ok (on_key (λ K, K ∖ {[m]}) c, tt)) w Hr) as Hsp.
    destruct (sql _ w) as [w1 [[]|e]]; destruct Hsp as (_ & _ & d0 & _ & Hsp); [|done].
    intros _. injection Hsp as Hw. simpl. rewrite <- Hw. simpl. set_solver.
Qed.

#[local] Existing Instance demo_url.
Definition provision_demo (ids : N * string) (slug name : string) (w : CW) : CW * result ProvisionOutcome ProvisionError :=
  provision_command demo_client (λ _, eret tt) (λ _, 1) ids "postgres://" "eu" slug "eu" name "ops" w.

Lemma region_witness :
  let '(w', r) := provision_demo (3%N, "tok-zeta"%string) "zeta" "tenant_zeta" (cluster_world two_tenants) in
  r = Ok (MkProvision 3 "role-zeta" (Some "wrapped-zeta"%string)) ∧ tenants_ok (w_db w')
  ∧ (assert_region "eu" w').2 = Ok tt ∧ registered "eu" 3 "zeta" "tenant_zeta" (w_db w').
Proof.
  assert (in_region "eu" two_tenants) as Hin.
  { intros i t. unfold two_tenants; simpl. rewrite lookup_insert_Some, lookup_singleton_Some. naive_solver. }
  pose proof (provisioning_stays_in_the_region demo_client (λ _, eret tt) (λ _, 1)
    (λ R HR pool _, guar_ret R tt) "eu" (3%N, "tok-zeta"%string) "postgres://" "zeta" "eu" "tenant_zeta" "ops"
    (cluster_world two_tenants) (conj (Forall_nil_2 _) eq_refl) two_tenants_ok Hin) as Hp.
  unfold provision_demo. set (run := provision_command _ _ _ _ _ _ _ _ _ _ _) in *.
  assert (run.2 = Ok (MkProvision 3 "role-zeta" (Some "wrapped-zeta"%string))) as Hr by (vm_compute; reflexivity).
  assert (calm run.1) as Hc by (split; vm_compute; reflexivity).
  destruct run as [w' r]; simpl in *. subst r. destruct Hp as (_ & H1 & _ & H2 & H3).
  split_and!; [done|done|by apply H2|by apply (H3 _ eq_refl)].
Defined.

Lemma key_witness :
  let w := destroy_tenant demo_client 1 "ops" (cluster_world two_tenants) in
  w.2 = Ok tt ∧ mount_path "acme" ∉ cl_key (w_db w.1) ∧ cl_database (w_db w.1) !! "tenant_acme"%string = None.
Proof.
  cbv zeta. destruct (destroy_tenant demo_client 1 "ops" (cluster_world two_tenants)) as [w' r] eqn:Hrun.
  destruct (key_goes_before_the_database demo_client 1 "acme" "tenant_acme" "ops" (cluster_world two_tenants) w' acme r
    (conj (Forall_nil_2 _) eq_refl) eq_refl eq_refl eq_refl (ltac:(by eexists)) Hrun) as [_ Hok].
  assert (r = Ok tt) as -> by (vm_compute in Hrun; by injection Hrun as _ <-).
  destruct (Hok eq_refl) as (H1 & H2 & _). by split_and!.
Defined.

(** Running the same provisioning command again, which is documented as a harmless
    repetition, makes a suspended tenant active again, and a destroyed one too: it
    gets a new key, an empty database and the status active. *)
Theorem repeated_provisioning_revives_a_tenant :
  let again c := provision_demo (9%N, "tok-new"%string) "acme" "tenant_acme" (cluster_world c) in
  let status_of (c : Cluster) := tt_status <$> cl_tenant c !! 1%N in
  let suspended := on_tenant (alter (tt_set_status status.SUSPENDED) 1%N) two_tenants in
  let destroyed := w_db (destroy_tenant demo_client 1 "ops" (cluster_world two_tenants)).1 in
  status_of suspended = Some status.SUSPENDED ∧ status_of (w_db (again suspended).1) = Some status.ACTIVE
  ∧ status_of destroyed = Some status.OFFBOARDING_DESTROY ∧ status_of (w_db (again destroyed).1) = Some status.ACTIVE
  ∧ (cl_database (w_db (again destroyed).1) !! "tenant_acme"%string) = Some empty_tenant_db
  ∧ bool_decide (mount_path "acme" ∈ cl_key (w_db (again destroyed).1)) = true.
Proof. cbv zeta. split_and!; vm_compute; reflexivity. Qed.
