(* ===== verification/Otp.v ===== *)
(** * One-time passwords: send first, account for it afterwards

    Models [src/otp/*] and [src/sms_sender/*]: two services of one shape that call
    the provider before any database or Vault work and then write the audit record to
    the ledger, or to a file of the host when the ledger or the keys are out of reach;
    background tasks drain those files. HTTP, HMAC and JSON are parameters. *)

From S2P Require Import Prelude RustStd Time Schema KillSwitch Dek Customer Outbox Worker Ingest Tenancy.
From stdpp Require Import base gmap strings list sorting.
From Stdlib Require Import ZArith Lia Ascii.

Local Open Scope effect_scope.
Local Open Scope Z_scope.

(** ** The model *)

Module otp_model.
Definition CHANNEL : string := "sms".
Definition CLASS : string := "auth".
Definition TEMPLATE_ID : string := "otp".
Definition TEMPLATE_VERSION : Z := 1.
End otp_model.

Record SendOtpRequest : Type := MkOtpRequest { so_customer_id : N; so_destination : string; so_body : string }.

Record AuditRecord : Type := MkRecord {
  ar_tenant_id : N;
  ar_comms_request_id : N;
  ar_created_at : Z;
  ar_customer_id : N;
  ar_producer_id : N;
  ar_destination_hmac : string;
  ar_destination_ciphertext : string;
  ar_final_status : string;
  ar_provider_ref : string;
  ar_provider_status : option string;
}.

Record PendingAuditRecord : Type := MkPending {
  pa_tenant_id : N;
  pa_comms_request_id : N;
  pa_created_at : Z;
  pa_customer_id : N;
  pa_producer_id : N;
  pa_destination_ciphertext : string;
  pa_final_status : string;
  pa_provider_ref : string;
  pa_provider_status : option string;
}.

(** The record once the destination is hashed and encrypted under the customer key. *)
Definition completed (p : PendingAuditRecord) (hmac ciphertext : string) : AuditRecord :=
  MkRecord (pa_tenant_id p) (pa_comms_request_id p) (pa_created_at p) (pa_customer_id p) (pa_producer_id p)
    hmac ciphertext (pa_final_status p) (pa_provider_ref p) (pa_provider_status p).

(** [OtpError] and [SmsSenderError], as far as the two services make them. *)
Inductive OtpError : Type :=
| OMissingPeerCertificate
| OUnknownProducer
| OProducerDisabled
| OTenantNotActive
| OTenantNotConfigured
| OAuthDisabled
| OSendFailed
| ODatabase (e : SqlxError)
| OVault (e : KeyStoreError)
| OPanic.

Definition otp_of_resolution (e : ResolutionError) : OtpError :=
  match e with
  | UnknownCert => OUnknownProducer
  | Disabled _ _ => OProducerDisabled
  | ResTenantNotActive _ _ => OTenantNotActive
  | ResDatabase e => ODatabase e
  end.
Definition otp_of_registry (e : RegistryError) : OtpError :=
  match e with
  | RgUnknownTenant _ => OUnknownProducer
  | RgNotConfigured _ => OTenantNotConfigured
  | RgDatabase e => ODatabase e
  | RgVault e => OVault e
  | RgPanic => OPanic
  end.

(** The status of the answer; a panic is answered by closing the connection. *)
Definition otp_status (e : OtpError) : option Z :=
  match e with
  | OUnknownProducer | OProducerDisabled | OTenantNotActive => Some 403
  | OAuthDisabled => Some 503
  | OSendFailed => Some 502
  | OTenantNotConfigured => Some 424
  | OMissingPeerCertificate | ODatabase _ | OVault _ => Some 500
  | OPanic => None
  end.

(** [serde_json] on the two record types, one line each. *)
Class AuditJson : Type := {
  audit_line : AuditRecord → string;
  audit_of : string → option AuditRecord;
  pending_line : PendingAuditRecord → string;
  pending_of : string → option PendingAuditRecord;
}.
(** What is serialised parses back. *)
Class AuditJsonLaws `{!AuditJson} : Prop := {
  audit_of_line r : audit_of (audit_line r) = Some r;
  pending_of_line r : pending_of (pending_line r) = Some r;
}.

(** A computation that has no error to report. *)
Abbreviation Sure := (CEff Empty_set).

(** ** The switch for the whole service *)

(** [AuthEnabledCache]: what the last successful refresh read. *)
Abbreviation Flags := (gmap N bool).

Definition auth_flags (c : Cluster) : Flags :=
  map_imap (λ id _, Some (negb (bool_decide (id ∈ cl_auth_disabled c)))) (cl_tenant c).
Definition refresh_flags : CEff SqlxError Flags := query (λ _, auth_flags).
Definition is_enabled (tenant_id : N) (flags : Flags) : bool := default true (flags !! tenant_id).
(** One turn of [auth_flag::run_refresh_loop]. *)
Definition flag_refresh_turn (flags : Flags) : Sure Flags :=
  fresh ←! etry refresh_flags;
  eret (match fresh with Ok fresh => fresh | Err _ => flags end).

(** ** The ledger *)

(** [INSERT INTO comms_request .. ON CONFLICT (created_at, id) DO NOTHING]. *)
Definition audit_request (r : AuditRecord) (finalized_at : Z) : CommsRequest :=
  MkRequest (ar_tenant_id r) (ar_customer_id r) otp_model.CHANNEL otp_model.CLASS otp_model.TEMPLATE_ID
    otp_model.TEMPLATE_VERSION None (ar_destination_hmac r) (ar_destination_ciphertext r) None (ar_producer_id r)
    None None (Some (ar_final_status r)) (Some finalized_at).
Definition record_key (r : AuditRecord) : Z * N := (ar_created_at r, ar_comms_request_id r).
Definition insert_audit_request (r : AuditRecord) (finalized_at : Z) (d : Db) : Db :=
  match db_request d !! record_key r with
  | Some _ => d
  | None => on_request (<[record_key r := audit_request r finalized_at]>) d
  end.
Definition insert_audit_event (r : AuditRecord) : Db → Db :=
  insert_event (ar_created_at r, ar_comms_request_id r, ar_final_status r, ar_provider_ref r)
    (MkEvent (ar_customer_id r) (ar_provider_status r) None).

(** [repo::write_audit_record]. *)
Definition write_audit_record (pool : string) (r : AuditRecord) : CEff SqlxError unit :=
  transaction
    (finalized_at ←! utc_now;
     pool_sql pool (λ _ d, Ok (on_tables (insert_audit_request r finalized_at) d, tt)) ;!
     pool_sql pool (λ _ d, Ok (on_tables (insert_audit_event r) d, tt))) (λ _, true).

(** ** Files of the host *)

(** The outcome of a file operation is what the disk says at that instant; a failed
    write leaves the file as it was, where the host may keep part of the line. *)
Class Disk : Type := { disk_ok : Z → bool }.

Definition disk_step `{!Disk} {A} (f : gmap string (list string) → gmap string (list string) * A) : CEff SqlxError A :=
  λ w, let w' := tick w in
       if disk_ok (w_now w')
       then (set_db (on_disk (λ k, (f k).1) (w_db w')) w', Ok (f (cl_disk (w_db w'))).2)
       else (w', Err SqlIo).

(** [buffer::append], [pending::append]: open for appending, write a line, sync. *)
Definition append `{!Disk} (path line : string) : CEff SqlxError unit :=
  disk_step (λ k, (partial_alter (λ o, Some (default [] o ++ [line])) path k, tt)).
(** [std::fs::read_to_string]; [None] is [NotFound]. *)
Definition read_lines `{!Disk} (path : string) : CEff SqlxError (option (list string)) :=
  disk_step (λ k, (k, k !! path)).
(** [std::fs::write]. *)
Definition rewrite_lines `{!Disk} (path : string) (lines : list string) : CEff SqlxError unit :=
  disk_step (λ k, (<[path := lines]> k, tt)).

(** ** Providers *)

(** [provider_config::repo::list]: a channel's rows by priority. *)
Definition by_priority (a b : Z * ProviderConfig) : Prop := a.1 <= b.1.
#[export] Instance by_priority_dec : RelDecision by_priority.
Proof. intros a b. unfold by_priority. apply _. Defined.
Definition list_providers (channel : string) (d : TenantDb) : list (Z * ProviderConfig) :=
  merge_sort by_priority (omap (λ '((ch, prio), row), if decide (ch = channel) then Some (prio, row) else None)
    (map_to_list (td_provider d))).

(** [keystore::split_kv_path]. *)
Definition split_kv_path (path : string) : option (string * string) := split_once "/data/" path.

Record ResolvedProviderConfig : Type := MkResolved {
  rp_priority : Z;
  rp_credential_path : string;
  rp_api_key : string;
}.

Inductive ProviderSendError : Type := Exhausted (last : option SenderError).
Definition send_error_status (e : ProviderSendError) : option string :=
  match e with
  | Exhausted (Some e) => provider_status_of e
  | Exhausted None => None
  end.

Section Providers.
(** [VaultKeyStore::read_provider_credential], and [HttpSender::send] with an API
    key: the reply may depend on everything sent before. *)
Context (read_credential : string → string → CEff KeyStoreError string).
Context (http_send : string → list Call → string → string → result SendOutcome SenderError).

(** The loop of [resolve_all]: bad rows are skipped. *)
Fixpoint resolve_rows (rows : list (Z * ProviderConfig)) : CEff SqlxError (list ResolvedProviderConfig) :=
  match rows with
  | [] => eret []
  | (prio, row) :: rows =>
      match split_kv_path (pv_credential_path row) with
      | None => resolve_rows rows
      | Some (kv_mount, kv_path) =>
          key ←! etry (read_credential kv_mount kv_path);
          rest ←! resolve_rows rows;
          eret (match key with
                | Ok api_key => MkResolved prio (pv_credential_path row) api_key :: rest
                | Err _ => rest
                end)
      end
  end.
Definition resolve_all (pool : string) : CEff SqlxError (list ResolvedProviderConfig) :=
  configs ←! pool_query pool (λ _, list_providers otp_model.CHANNEL);
  resolve_rows configs.

(** [OtpProviderCache]. *)
Abbreviation ProviderCache := (gmap N (list ResolvedProviderConfig)).

(** [OtpProviderCache::get_or_fetch]; [meanwhile] is what other tasks do to the cache
    between the two locks. A failed load is cached as the empty list. *)
Definition get_or_fetch (meanwhile : ProviderCache → ProviderCache) (entries : ProviderCache)
    (pool : string) (tenant_id : N) : Sure (ProviderCache * list ResolvedProviderConfig) :=
  match entries !! tenant_id with
  | Some cached => eret (entries, cached)
  | None =>
      let entries := meanwhile entries in
      match entries !! tenant_id with
      | Some cached => eret (entries, cached)
      | None =>
          resolved ←! etry (resolve_all pool);
          let resolved := match resolved with Ok l => l | Err _ => [] end in
          eret (<[tenant_id := resolved]> entries, resolved)
      end
  end.

(** One request to a provider, on the record whatever the answer. *)
Definition http_call (api_key destination body : string) : Sure (result SendOutcome SenderError) :=
  λ w, let w' := tick w in
       (add_call (MkCall otp_model.CHANNEL destination body) w', Ok (http_send api_key (w_trace w') destination body)).

(** [otp::provider::send]: one provider after the other until one accepts. *)
Fixpoint send_resolved (resolved : list ResolvedProviderConfig) (destination body : string)
    (last_err : option SenderError) : Sure (result SendOutcome ProviderSendError) :=
  match resolved with
  | [] => eret (Err (Exhausted last_err))
  | config :: resolved =>
      reply ←! http_call (rp_api_key config) destination body;
      match reply with
      | Ok outcome => eret (Ok outcome)
      | Err e => send_resolved resolved destination body (Some e)
      end
  end.

(** [sms_sender::provider::ProviderConfigCache]. *)
Record ConfigCache : Type := MkConfigCache {
  cc_rows : gmap N (list (Z * ProviderConfig));
  cc_credentials : gmap string string;
}.
Definition load_rows (cache : ConfigCache) (pool : string) (tenant_id : N)
    : Sure (ConfigCache * list (Z * ProviderConfig)) :=
  fresh ←! etry (pool_query pool (λ _, list_providers otp_model.CHANNEL));
  eret (match fresh with
        | Ok fresh => (MkConfigCache (<[tenant_id := fresh]> (cc_rows cache)) (cc_credentials cache), fresh)
        | Err _ => (cache, default [] (cc_rows cache !! tenant_id))
        end).
Definition read_cached_credential (cache : ConfigCache) (credential_path kv_mount kv_path : string)
    : Sure (ConfigCache * option string) :=
  key ←! etry (read_credential kv_mount kv_path);
  eret (match key with
        | Ok key => (MkConfigCache (cc_rows cache) (<[credential_path := key]> (cc_credentials cache)), Some key)
        | Err _ => (cache, cc_credentials cache !! credential_path)
        end).

(** [sms_sender::provider::send]: the walk of the rows, reading each credential. *)
Fixpoint send_rows (cache : ConfigCache) (rows : list (Z * ProviderConfig)) (destination body : string)
    (last_err : option SenderError) : Sure (ConfigCache * result SendOutcome ProviderSendError) :=
  match rows with
  | [] => eret (cache, Err (Exhausted last_err))
  | (_, row) :: rows =>
      match split_kv_path (pv_credential_path row) with
      | None => send_rows cache rows destination body last_err
      | Some (kv_mount, kv_path) =>
          read ←! read_cached_credential cache (pv_credential_path row) kv_mount kv_path;
          match read.2 with
          | None => send_rows read.1 rows destination body last_err
          | Some api_key =>
              reply ←! http_call api_key destination body;
              match reply with
              | Ok outcome => eret (read.1, Ok outcome)
              | Err e => send_rows read.1 rows destination body (Some e)
              end
          end
      end
  end.
Definition sms_provider_send (cache : ConfigCache) (pool : string) (tenant_id : N) (destination body : string)
    : Sure (ConfigCache * result SendOutcome ProviderSendError) :=
  loaded ←! load_rows cache pool tenant_id;
  send_rows loaded.1 loaded.2 destination body None.
End Providers.

(** ** The handler *)

(** What became of an audit record, as the handler logs it. *)
Inductive Kept : Type := Written | Buffered | Deferred | Lost.

Section Handler.
Context `{!UuidText} `{AE : !Aead} `{!AuditJson} `{!Disk}.
(** HMAC-SHA256, which takes keys of any length; the key lookup of a pool, mount and
    customer; and the label that separates the two services' keys. *)
Context (hmac_sha256 : string → string → string).
Context (dek : string → string → N → CEff CustomerDekError string).
Context (label buffer_path pending_path : string).

(** [destination_hmac::compute]. *)
Definition compute_hmac (pepper destination : string) : string := hmac_sha256 pepper destination.
(** [pending::derive_key]. *)
Definition derive_key (pepper : string) : string := hmac_sha256 pepper label.

(** [persist_or_buffer]. *)
Definition persist_or_buffer (pool : string) (record : AuditRecord) : Sure Kept :=
  wrote ←! etry (write_audit_record pool record);
  match wrote with
  | Ok _ => eret Written
  | Err _ =>
      kept ←! etry (append buffer_path (audit_line record));
      eret (if is_ok kept then Buffered else Lost)
  end.

(** [compute_destination_crypto], with the nonce it draws. *)
Definition compute_destination_crypto (tenant : RegistryContext) (id customer : N) (destination nonce : string)
    : Sure (option (string * string)) :=
  key ←! etry (dek (rx_pool tenant) (tt_vault_mount (rx_tenant tenant)) customer);
  eret (match key with
        | Err _ => None
        | Ok key => match encrypt nonce key (uuid_bytes id) destination with
                    | Ok ciphertext => Some (compute_hmac (rx_pepper tenant) destination, ciphertext)
                    | Err _ => None
                    end
        end).

(** [persist_send_outcome]; [p] has the fields of the record, [nonces] are drawn for
    the customer key and for the pending key. *)
Definition persist_send_outcome (tenant : RegistryContext) (p : PendingAuditRecord) (destination : string)
    (nonces : string * string) : Sure Kept :=
  crypto ←! compute_destination_crypto tenant (pa_comms_request_id p) (pa_customer_id p) destination nonces.1;
  match crypto with
  | Some (hmac, ciphertext) => persist_or_buffer (rx_pool tenant) (completed p hmac ciphertext)
  | None =>
      match encrypt nonces.2 (derive_key (rx_pepper tenant)) (uuid_bytes (pa_comms_request_id p)) destination with
      | Ok ciphertext =>
          kept ←! etry (append pending_path (pending_line
            (MkPending (pa_tenant_id p) (pa_comms_request_id p) (pa_created_at p) (pa_customer_id p) (pa_producer_id p)
               ciphertext (pa_final_status p) (pa_provider_ref p) (pa_provider_status p))));
          eret (if is_ok kept then Deferred else Lost)
      | Err _ => eret Lost
      end
  end.

(** The status, reference and provider status of an outcome. *)
Definition outcome_fields (sent : result SendOutcome ProviderSendError) : string * string * option string :=
  match sent with
  | Ok outcome => ("sent", provider_ref outcome, Some (provider_status outcome))%string
  | Err e => ("failed", "", send_error_status e)%string
  end.

(** [send_otp]; [deliver] is the service's way to a provider, with the memory it
    keeps, and [id] the request id drawn. *)
Definition send_otp {Mem} (deliver : Mem → RegistryContext → string → string → Sure (Mem * result SendOutcome ProviderSendError))
    (flags : Flags) (mem : Mem) (id : N) (nonces : string * string) (producer : ProducerContext)
    (body : SendOtpRequest) : Sure (Mem * result N OtpError) :=
  let tenant := px_tenant producer in
  let tenant_id := tt_id (rx_tenant tenant) in
  created_at ←! utc_now;
  if negb (is_enabled tenant_id flags) then
    persist_or_buffer (rx_pool tenant)
      (MkRecord tenant_id id created_at (so_customer_id body) (px_producer_id producer) "" "" "discarded" "" None) ;!
    eret (mem, Err OAuthDisabled)
  else
    sent ←! deliver mem tenant (so_destination body) (so_body body);
    let '(status, reference, reported) := outcome_fields sent.2 in
    persist_send_outcome tenant
      (MkPending tenant_id id created_at (so_customer_id body) (px_producer_id producer) "" status reference reported)
      (so_destination body) nonces ;!
    eret (sent.1, match sent.2 with Ok _ => Ok id | Err _ => Err OSendFailed end).

(** ** Draining the files *)

Section Drain.
Context `{!PgUrl} (keystore : VaultStore) (url : string) (meanwhile : Cluster → Registry → Registry).

(** The tenant's context, with the registry as it is afterwards. *)
Definition open_tenant (contexts : Registry) (tenant_id : N) : Sure (Registry * option RegistryContext) :=
  opened ←! etry (get_or_open keystore url meanwhile contexts tenant_id);
  eret (match opened with Ok (contexts, tenant) => (contexts, Some tenant) | Err _ => (contexts, None) end).

(** The loop of [buffer::drain]: the records that stay. Lines that do not parse,
    blank ones included, are dropped. *)
Fixpoint drain_lines (contexts : Registry) (lines : list string) : Sure (Registry * list AuditRecord) :=
  match lines with
  | [] => eret (contexts, [])
  | line :: lines =>
      match audit_of line with
      | None => drain_lines contexts lines
      | Some record =>
          opened ←! open_tenant contexts (ar_tenant_id record);
          wrote ←! match opened.2 with
                   | None => eret false
                   | Some tenant => r ←! etry (write_audit_record (rx_pool tenant) record); eret (is_ok r)
                   end;
          rest ←! drain_lines opened.1 lines;
          eret (rest.1, if wrote : bool then rest.2 else record :: rest.2)
      end
  end.

(** [buffer::drain]. *)
Definition drain (contexts : Registry) : Sure Registry :=
  contents ←! etry (read_lines buffer_path);
  match contents with
  | Err _ | Ok None => eret contexts
  | Ok (Some lines) =>
      remaining ←! drain_lines contexts lines;
      etry (rewrite_lines buffer_path (map audit_line remaining.2)) ;!
      eret remaining.1
  end.

(** What the drain makes of a pending record, with the nonce it draws. *)
Definition recover (pepper key nonce : string) (p : PendingAuditRecord) : option AuditRecord :=
  match decrypt (derive_key pepper) (uuid_bytes (pa_comms_request_id p)) (pa_destination_ciphertext p) with
  | Err _ => None
  | Ok bytes =>
      match from_utf8 bytes with
      | None => None
      | Some destination =>
          match encrypt nonce key (uuid_bytes (pa_comms_request_id p)) destination with
          | Err _ => None
          | Ok ciphertext => Some (completed p (compute_hmac pepper destination) ciphertext)
          end
      end
  end.

(** One record of [pending::drain]: whether it is done with. *)
Definition recover_one (nonce : string) (tenant : RegistryContext) (p : PendingAuditRecord) : Sure bool :=
  key ←! etry (dek (rx_pool tenant) (tt_vault_mount (rx_tenant tenant)) (pa_customer_id p));
  match key with
  | Err _ => eret false
  | Ok key =>
      match recover (rx_pepper tenant) key nonce p with
      | None => eret false
      | Some record => persist_or_buffer (rx_pool tenant) record ;! eret true
      end
  end.
Fixpoint pending_lines (nonces : nat → string) (contexts : Registry) (lines : list string)
    : Sure (Registry * list PendingAuditRecord) :=
  match lines with
  | [] => eret (contexts, [])
  | line :: lines =>
      match pending_of line with
      | None => pending_lines nonces contexts lines
      | Some p =>
          opened ←! open_tenant contexts (pa_tenant_id p);
          finished ←! match opened.2 with
                      | None => eret false
                      | Some tenant => recover_one (nonces (length lines)) tenant p
                      end;
          rest ←! pending_lines nonces opened.1 lines;
          eret (rest.1, if finished : bool then rest.2 else p :: rest.2)
      end
  end.

(** [pending::drain]. *)
Definition pending_drain (nonces : nat → string) (contexts : Registry) : Sure Registry :=
  contents ←! etry (read_lines pending_path);
  match contents with
  | Err _ | Ok None => eret contexts
  | Ok (Some lines) =>
      remaining ←! pending_lines nonces contexts lines;
      etry (rewrite_lines pending_path (map pending_line remaining.2)) ;!
      eret remaining.1
  end.
End Drain.
End Handler.

(** ** The two services *)

Definition otp_label : string := "messgr-otp:pending-buffer-destination-key".
Definition sms_label : string := "sms-sender:pending-buffer-destination-key".

(** The tenant tables of a pool. *)
Definition pool_run (pool : string) (A : Type) (f : Z → Db → result (Db * A) SqlxError) : CEff SqlxError A :=
  pool_sql pool (λ t d, match f t (td_tables d) with
                        | Ok (tables, a) => Ok (on_tables (λ _, tables) d, a)
                        | Err e => Err e
                        end).
(** [get_or_create_dek] on a pool, with the cache of its context. *)
Definition pool_dek {C} `{!Lru C} (ks : VaultStore) (cache_of : string → KeyCache C)
    (pool mount : string) (customer : N) : CEff CustomerDekError string :=
  λ w, let '(w', (_, r)) := cached_dek (lookup_or_create (pool_run pool) (vs_create_dek ks mount) (vs_unwrap_dek ks mount) customer)
         customer (cache_of pool) w in (w', r).

Section Services.
Context `{!UuidText} `{AE : !Aead} `{!AuditJson} `{!Disk} `{!PgUrl}.
Context (hmac_sha256 : string → string → string) (dek : string → string → N → CEff CustomerDekError string).
Context (buffer_path pending_path : string).
Context (read_credential : string → string → CEff KeyStoreError string).
Context (http_send : string → list Call → string → string → result SendOutcome SenderError).
Context (keystore : VaultStore) (url : string) (meanwhile : Cluster → Registry → Registry).
(** What other tasks do to the provider cache while a task waits. *)
Context (between : gmap N (list ResolvedProviderConfig) → gmap N (list ResolvedProviderConfig)).

Definition otp_deliver (entries : gmap N (list ResolvedProviderConfig)) (tenant : RegistryContext)
    (destination body : string) : Sure (gmap N (list ResolvedProviderConfig) * result SendOutcome ProviderSendError) :=
  fetched ←! get_or_fetch read_credential between entries (rx_pool tenant) (tt_id (rx_tenant tenant));
  sent ←! send_resolved http_send fetched.2 destination body None;
  eret (fetched.1, sent).
Definition otp_send_otp (flags : Flags) := send_otp hmac_sha256 dek otp_label buffer_path pending_path otp_deliver flags.
Definition otp_drain := drain buffer_path keystore url meanwhile.
Definition otp_pending_drain := pending_drain hmac_sha256 dek otp_label buffer_path pending_path keystore url meanwhile.

(** [otp::provider::refresh_once]: the tenants seen so far, one after the other. *)
Fixpoint refresh_tenants (contexts : Registry) (entries : gmap N (list ResolvedProviderConfig)) (ids : list N)
    : Sure (Registry * gmap N (list ResolvedProviderConfig)) :=
  match ids with
  | [] => eret (contexts, entries)
  | tenant_id :: ids =>
      opened ←! open_tenant keystore url meanwhile contexts tenant_id;
      resolved ←! match opened.2 with
                  | None => eret None
                  | Some tenant =>
                      r ←! etry (resolve_all read_credential (rx_pool tenant));
                      eret (match r with Ok l => Some l | Err _ => None end)
                  end;
      let entries := between entries in
      refresh_tenants opened.1 (match resolved with Some l => <[tenant_id := l]> entries | None => entries end) ids
  end.
Definition refresh_once (contexts : Registry) (entries : gmap N (list ResolvedProviderConfig)) :=
  refresh_tenants contexts entries (map_to_list entries).*1.

Definition sms_deliver (cache : ConfigCache) (tenant : RegistryContext) (destination body : string)
    : Sure (ConfigCache * result SendOutcome ProviderSendError) :=
  sms_provider_send read_credential http_send cache (rx_pool tenant) (tt_id (rx_tenant tenant)) destination body.
Definition sms_send_otp (flags : Flags) := send_otp hmac_sha256 dek sms_label buffer_path pending_path sms_deliver flags.
Definition sms_drain := drain buffer_path keystore url meanwhile.
Definition sms_pending_drain := pending_drain hmac_sha256 dek sms_label buffer_path pending_path keystore url meanwhile.
End Services.

(** [ProducerContext::from_request_parts] of the two services. *)
Definition otp_from_request_parts `{!PgUrl} (keystore : VaultStore) (url : string) (meanwhile : Cluster → Registry → Registry)
    (contexts : Registry) (subject : option string) : CEff OtpError (Registry * ProducerContext) :=
  subject ←! eof (ok_or subject OMissingPeerCertificate);
  identity ←! elift otp_of_resolution (resolve_producer subject);
  opened ←! elift otp_of_registry (get_or_open keystore url meanwhile contexts (ri_tenant_id identity));
  eret (opened.1, MkProducerContext (ri_producer_id identity) opened.2).

(** The route of the OTP service, extractors included: axum runs the handler only for a
    request whose producer was identified. The registry and the provider cache are as
    the request leaves them. *)
Definition otp_route `{!UuidText} `{AE : !Aead} `{!AuditJson} `{!Disk} `{!PgUrl}
    (hmac_sha256 : string → string → string) (dek : string → string → N → CEff CustomerDekError string)
    (buffer_path pending_path : string) (read_credential : string → string → CEff KeyStoreError string)
    (http_send : string → list Call → string → string → result SendOutcome SenderError)
    (between : gmap N (list ResolvedProviderConfig) → gmap N (list ResolvedProviderConfig)) (keystore : VaultStore) (url : string)
    (meanwhile : Cluster → Registry → Registry) (flags : Flags) (contexts : Registry)
    (entries : gmap N (list ResolvedProviderConfig))
    (id : N) (nonces : string * string) (subject : option string) (body : SendOtpRequest)
    : Sure (Registry * gmap N (list ResolvedProviderConfig) * result N OtpError) :=
  producer ←! etry (otp_from_request_parts keystore url meanwhile contexts subject);
  match producer with
  | Err e => eret (contexts, entries, Err e)
  | Ok (contexts, producer) =>
      answer ←! otp_send_otp hmac_sha256 dek buffer_path pending_path read_credential http_send between
                  flags entries id nonces producer body;
      eret (contexts, answer.1, answer.2)
  end.

(** ** No outage keeps a password from being sent *)

(** What the code relies on of the key lookup: it calls no provider and writes
    nothing but the key table of its pool. *)
Class PoolDek (dek : string → string → N → CEff CustomerDekError string) : Prop := {
  pd_mute pool mount k : mute (dek pool mount k);
  pd_guar (R : relation Cluster) `{!PreOrder R} pool mount k :
    (∀ f c, R c (on_database (alter (on_tables (on_dek f)) pool) c)) → guar R (dek pool mount k);
}.

Lemma mute_pool_sql {A} pool (f : Z → TenantDb → result (TenantDb * A) SqlxError) : mute (pool_sql pool f).
Proof. apply mute_sql. Qed.
Lemma mute_disk_step `{!Disk} {A} (f : gmap string (list string) → gmap string (list string) * A) : mute (disk_step f).
Proof. intros w. unfold disk_step. by destruct (disk_ok _). Qed.
#[export] Hint Resolve mute_pool_sql mute_disk_step : effects.

(** The calls a walk of the providers makes after the calls in [history], and its end. *)
Fixpoint walk (http_send : string → list Call → string → string → result SendOutcome SenderError)
    (resolved : list ResolvedProviderConfig) (destination body : string) (history : list Call)
    (last_err : option SenderError) : list Call * result SendOutcome ProviderSendError :=
  match resolved with
  | [] => ([], Err (Exhausted last_err))
  | config :: resolved =>
      let call := MkCall otp_model.CHANNEL destination body in
      match http_send (rp_api_key config) history destination body with
      | Ok outcome => ([call], Ok outcome)
      | Err e => let '(calls, r) := walk http_send resolved destination body (history ++ [call]) (Some e) in (call :: calls, r)
      end
  end.

Lemma send_resolved_walk http_send resolved destination body last_err (w : CW) :
  let '(calls, r) := walk http_send resolved destination body (w_trace w) last_err in
  ∃ w', send_resolved http_send resolved destination body last_err w = (w', Ok r) ∧ w_trace w' = w_trace w ++ calls.
Proof.
  revert last_err w. induction resolved as [|config resolved IH]; intros last_err w; simpl.
  { exists w. by rewrite app_nil_r. }
  unfold ebind, http_call. rewrite tick_trace. destruct (http_send _ _ _ _) as [outcome|e].
  { eexists. split; [done|]. done. }
  specialize (IH (Some e) (add_call (MkCall otp_model.CHANNEL destination body) (tick w))).
  cbn [add_call w_trace] in IH. rewrite tick_trace in IH.
  destruct (walk _ _ _ _ _ _) as [calls r]. destruct IH as (w' & Hw & Ht). exists w'. split; [done|].
  rewrite Ht. by rewrite <- app_assoc.
Qed.

(** A computation without errors returns. *)
Lemma sure_returns {A} (m : Sure A) w : ∃ w' a, m w = (w', Ok a).
Proof. destruct (m w) as [w' [a|[]]]. eauto. Qed.
Lemma sure_bind {A B} (m : Sure A) (k : A → Sure B) w w' a : m w = (w', Ok a) → ebind m k w = k a w'.
Proof. intros Hm. unfold ebind. by rewrite Hm. Qed.

Section Accounting.
Context `{!UuidText} `{AE : !Aead} `{!AuditJson} `{!Disk}.
Context (hmac_sha256 : string → string → string) (dek : string → string → N → CEff CustomerDekError string).
Context `{HD : !PoolDek dek}.
Context (label buffer_path pending_path : string).

Lemma persist_or_buffer_mute pool r : mute (persist_or_buffer buffer_path pool r).
Proof. unfold persist_or_buffer, write_audit_record, append. solve_mute. Qed.
Lemma persist_outcome_mute tenant p destination nonces :
  mute (persist_send_outcome hmac_sha256 dek label buffer_path pending_path tenant p destination nonces).
Proof.
  pose proof (pd_mute (dek:=dek)). pose proof persist_or_buffer_mute.
  unfold persist_send_outcome, compute_destination_crypto, append. solve_mute.
Qed.

(** Whatever the database, Vault and the disk do, the handler's answer and its calls
    are those of the delivery. *)
Lemma send_otp_follows_delivery {Mem} deliver flags (mem : Mem) id nonces px body (w : CW) :
  is_enabled (tt_id (rx_tenant (px_tenant px))) flags = true →
  let '(w1, r) := deliver mem (px_tenant px) (so_destination body) (so_body body) (tick w) in
  ∃ mem' sent w', r = Ok (mem', sent) ∧ w_trace w' = w_trace w1
    ∧ send_otp hmac_sha256 dek label buffer_path pending_path deliver flags mem id nonces px body w
      = (w', Ok (mem', match sent with Ok _ => Ok id | Err _ => Err OSendFailed end)).
Proof.
  intros He. unfold send_otp, utc_now, ebind at 1. cbn [fst snd]. rewrite He. cbn [negb].
  destruct (deliver _ _ _ _ (tick w)) as [w1 [[mem' sent]|[]]] eqn:Hd.
  rewrite (sure_bind _ _ _ _ _ Hd). cbn [fst snd].
  destruct (outcome_fields sent) as [[status reference] reported].
  set (p := MkPending _ _ _ _ _ _ _ _ _).
  destruct (sure_returns (persist_send_outcome hmac_sha256 dek label buffer_path pending_path (px_tenant px) p
    (so_destination body) nonces) w1) as (w2 & k & Hk).
  rewrite (sure_bind _ _ _ _ _ Hk). exists mem', sent, w2. split_and!; [done| |done].
  pose proof (persist_outcome_mute (px_tenant px) p (so_destination body) nonces w1) as Hm. by rewrite Hk in Hm.
Qed.
End Accounting.

(** Identifying the producer calls no provider. *)
Lemma mute_waiting {E} meanwhile contexts : mute (while_waiting (E:=E) meanwhile contexts).
Proof. intros w. reflexivity. Qed.
Lemma from_request_parts_mute `{!PgUrl} (ks : VaultStore) plain `{HV : !VaultStoreLaws ks plain} url meanwhile contexts subject :
  mute (otp_from_request_parts ks url meanwhile contexts subject).
Proof.
  pose proof (vs_create_mute (ks:=ks)). pose proof (vs_unwrap_mute (ks:=ks)). pose proof (@mute_waiting RegistryError).
  unfold otp_from_request_parts, resolve_producer, get_or_open, open_context, connect_tenant_pool, connect_with_expected_database,
    assert_current_database, ensure_tenant_pepper, record_vault_pepper_wrapped, pool_query. solve_mute.
Qed.

Section Outages.
Context `{!UuidText} `{AE : !Aead} `{!AuditJson} `{!Disk} `{!PgUrl} (ks : VaultStore) (plain : string → string → string).
Context `{HV : !VaultStoreLaws ks plain} (hmac_sha256 : string → string → string).
Context (dek : string → string → N → CEff CustomerDekError string) `{HD : !PoolDek dek}.
Context (buffer_path pending_path : string) (read_credential : string → string → CEff KeyStoreError string).
Context (http_send : string → list Call → string → string → result SendOutcome SenderError) (between : gmap N (list ResolvedProviderConfig) → gmap N (list ResolvedProviderConfig)).

(** The handler's part. *)
Lemma sends_by_walk flags entries id nonces px body configs (w : CW) :
  is_enabled (tt_id (rx_tenant (px_tenant px))) flags = true →
  entries !! tt_id (rx_tenant (px_tenant px)) = Some configs →
  let '(calls, sent) := walk http_send configs (so_destination body) (so_body body) (w_trace w) None in
  ∃ w', otp_send_otp hmac_sha256 dek buffer_path pending_path read_credential http_send between
          flags entries id nonces px body w = (w', Ok (entries, match sent with Ok _ => Ok id | Err _ => Err OSendFailed end))
    ∧ w_trace w' = w_trace w ++ calls.
Proof.
  intros He Hc. pose proof (send_resolved_walk http_send configs (so_destination body) (so_body body) None (tick w)) as Hw.
  rewrite tick_trace in Hw. destruct (walk _ configs _ _ _ _) as [calls sent] eqn:Hwalk. destruct Hw as (w1 & Hs & Ht).
  pose proof (send_otp_follows_delivery hmac_sha256 dek otp_label buffer_path pending_path
    (otp_deliver read_credential http_send between) flags entries id nonces px body w He) as Hf.
  unfold otp_deliver, get_or_fetch in Hf. rewrite Hc in Hf. rewrite (sure_bind _ _ (tick w) (tick w) (entries, configs)) in Hf by done.
  cbn [fst snd] in Hf. rewrite (sure_bind _ _ _ _ _ Hs) in Hf. cbn [fst snd] in Hf. destruct Hf as (mem' & sent' & w' & [= <- <-] & Ht' & Hrun).
  exists w'. unfold otp_send_otp, otp_deliver, get_or_fetch. split; [exact Hrun|congruence].
Qed.
Lemma disabled_sends_nothing flags entries id nonces px body (w : CW) :
  is_enabled (tt_id (rx_tenant (px_tenant px))) flags = false →
  ∃ w', otp_send_otp hmac_sha256 dek buffer_path pending_path read_credential http_send between
          flags entries id nonces px body w = (w', Ok (entries, Err OAuthDisabled)) ∧ w_trace w' = w_trace w.
Proof.
  intros He. unfold otp_send_otp, send_otp, utc_now, ebind at 1. cbn [fst snd]. rewrite He. cbn [negb].
  set (m := persist_or_buffer _ _ _). destruct (sure_returns m (tick w)) as (w2 & k & Hk).
  rewrite (sure_bind _ _ _ _ _ Hk). exists w2. split; [done|].
  pose proof (persist_or_buffer_mute buffer_path _ _ (tick w) : w_trace (m (tick w)).1 = _) as Hm. rewrite Hk in Hm. rewrite tick_trace in Hm. exact Hm.
Qed.

(** C10. Once the producer of a request is identified and the provider credentials of its
    tenant are in memory, no outage keeps a one-time password from being sent. In every
    world, whatever statement, Vault call or file operation fails and whatever others do: a
    request whose producer is not identified, which takes a read of the control
    database, is answered with that error and no provider is called; one of a tenant
    whose sending of codes is switched off is refused and no provider is called; and for
    all others the calls made and the answer given are those of the walk of the
    tenant's providers, so that if the first provider accepts there is exactly one
    call and the answer is success. *)
Theorem outages_never_block_an_otp url meanwhile flags contexts entries id nonces subject body (w : CW) :
  let '(w', r) := otp_route hmac_sha256 dek buffer_path pending_path read_credential http_send between ks url meanwhile
                    flags contexts entries id nonces subject body w in
  match (otp_from_request_parts ks url meanwhile contexts subject w).2 with
  | Err e => w_trace w' = w_trace w ∧ r = Ok (contexts, entries, Err e)
  | Ok (reg, px) =>
      let tenant := tt_id (rx_tenant (px_tenant px)) in
      if is_enabled tenant flags then
        ∀ configs, entries !! tenant = Some configs →
        let '(calls, sent) := walk http_send configs (so_destination body) (so_body body) (w_trace w) None in
        w_trace w' = w_trace w ++ calls
        ∧ r = Ok (reg, entries, match sent with Ok _ => Ok id | Err _ => Err OSendFailed end)
        ∧ ∀ p rest outcome, configs = p :: rest →
            http_send (rp_api_key p) (w_trace w) (so_destination body) (so_body body) = Ok outcome →
            calls = [MkCall otp_model.CHANNEL (so_destination body) (so_body body)] ∧ r = Ok (reg, entries, Ok id)
      else w_trace w' = w_trace w ∧ r = Ok (reg, entries, Err OAuthDisabled)
  end.
Proof.
  pose proof (from_request_parts_mute ks plain url meanwhile contexts subject w) as Hm.
  unfold otp_route. unfold ebind at 1, etry at 1.
  destruct (otp_from_request_parts ks url meanwhile contexts subject w) as [w1 [[reg px]|e]]; simpl in Hm |- *; [|by split].
  destruct (is_enabled _ flags) eqn:He.
  - destruct (sure_returns (otp_send_otp hmac_sha256 dek buffer_path pending_path read_credential http_send between
      flags entries id nonces px body) w1) as (w2 & answer & Hrun). unfold ebind. rewrite Hrun. intros configs Hc.
    pose proof (sends_by_walk flags entries id nonces px body configs w1 He Hc) as Hs. rewrite Hm in Hs.
    destruct (walk _ configs _ _ _ _) as [calls sent] eqn:Hwalk. destruct Hs as (w' & Hs & Ht). rewrite Hrun in Hs.
    injection Hs as <- ->. split_and!; [done|done|]. intros p rest outcome -> Hok. simpl in Hwalk. rewrite Hok in Hwalk.
    by injection Hwalk as <- <-.
  - destruct (disabled_sends_nothing flags entries id nonces px body w1 He) as (w' & Hs & Ht). unfold ebind. rewrite Hs.
    split; [congruence|done].
Qed.

(** The identification is the one thing in the way: when the control database does not
    answer, no request is sent, whatever is in memory. *)
Theorem a_control_outage_blocks_every_otp url meanwhile flags contexts entries id nonces subject body (w : CW) :
  mv_fault (next_move w) ≠ NoFault →
  let '(w', r) := otp_route hmac_sha256 dek buffer_path pending_path read_credential http_send between ks url meanwhile
                    flags contexts entries id nonces (Some subject) body w in
  w_trace w' = w_trace w ∧ r = Ok (contexts, entries, Err (ODatabase SqlIo)).
Proof.
  intros Hf. unfold otp_route. unfold ebind at 1, etry at 1.
  pose proof (from_request_parts_mute ks plain url meanwhile contexts (Some subject) w) as Hm.
  assert ((otp_from_request_parts ks url meanwhile contexts (Some subject) w).2 = Err (ODatabase SqlIo)) as E.
  { unfold otp_from_request_parts, resolve_producer, query, sql, elift, ebind. simpl. by destruct (mv_fault (next_move w)). }
  destruct (otp_from_request_parts _ _ _ _ _ w) as [w1 r1]. simpl in *. subst r1. by split.
Qed.
End Outages.

(** ** Every password is accounted for *)

Section Records.
Context `{AJ : !AuditJson} (buffer_path pending_path : string).

(** The tenant's ledger has a request of this key. *)
Definition on_ledger (tenant : N) (key : Z * N) (c : Cluster) : Prop :=
  ∃ row d, cl_tenant c !! tenant = Some row ∧ cl_database c !! tt_database_name row = Some d
    ∧ is_Some (db_request (td_tables d) !! key).
(** A line of the buffer file is a record of this key. *)
Definition in_buffer (tenant : N) (key : Z * N) (c : Cluster) : Prop :=
  ∃ lines line r, cl_disk c !! buffer_path = Some lines ∧ line ∈ lines ∧ audit_of line = Some r
    ∧ ar_tenant_id r = tenant ∧ record_key r = key.
Definition pending_key (p : PendingAuditRecord) : Z * N := (pa_created_at p, pa_comms_request_id p).
Definition in_pending (tenant : N) (key : Z * N) (c : Cluster) : Prop :=
  ∃ lines line p, cl_disk c !! pending_path = Some lines ∧ line ∈ lines ∧ pending_of line = Some p
    ∧ pa_tenant_id p = tenant ∧ pending_key p = key.
Definition recorded (tenant : N) (key : Z * N) (c : Cluster) : Prop := on_ledger tenant key c ∨ in_buffer tenant key c.
Definition accounted (tenant : N) (key : Z * N) (c : Cluster) : Prop := recorded tenant key c ∨ in_pending tenant key c.

(** Records only move on: from the pending file to the buffer to the ledger. *)
Record accounting (c c' : Cluster) : Prop := {
  ac_pinned : pinned c c';
  ac_ledger t k : on_ledger t k c → on_ledger t k c';
  ac_buffer t k : in_buffer t k c → recorded t k c';
  ac_pending t k : in_pending t k c → accounted t k c';
}.
#[export] Instance accounting_pre : PreOrder accounting.
Proof.
  split; [intros c; split; [done|done|by right|by right]|].
  intros c1 c2 c3 [A1 A2 A3 A4] [B1 B2 B3 B4]. split; [by etransitivity|auto| |].
  - intros t k [H|H]%A3; [left; auto|auto].
  - intros t k [[H|H]|H]%A4; [left; left; auto|left; auto|auto].
Qed.

Lemma recorded_stable t k : stable accounting (recorded t k).
Proof. intros c c' [_ A2 A3 _] [H|H]; [left; auto|auto]. Qed.
Lemma accounted_stable t k : stable accounting (accounted t k).
Proof. intros c c' Ha [H|H]; [left; by eapply recorded_stable|by apply (ac_pending _ _ Ha)]. Qed.
Lemma on_ledger_stable t k : stable accounting (on_ledger t k).
Proof. intros c c' Ha. apply Ha. Qed.

(** A change of one tenant database that keeps its requests. *)
Lemma accounting_pool pool d d' c :
  cl_database c !! pool = Some d →
  (∀ k, is_Some (db_request (td_tables d) !! k) → is_Some (db_request (td_tables d') !! k)) →
  accounting c (on_database (<[pool := d']>) c).
Proof.
  intros Hd Hk. split; [by apply pinned_same| |by right|by right].
  intros t k (row & x & Hr & Hx & Hs). simpl in *. exists row. simpl. destruct (decide (tt_database_name row = pool)) as [He|He].
  - exists d'. rewrite He, lookup_insert_eq. rewrite He in Hx. split_and!; [done|done|]. apply Hk. congruence.
  - exists x. by rewrite lookup_insert_ne.
Qed.
(** A change that leaves tenants' identities, databases and files alone. *)
Lemma accounting_same c c' : pinned c c' → cl_database c' = cl_database c → cl_disk c' = cl_disk c → accounting c c'.
Proof.
  intros Hp Hd Hk. split; [done| | |].
  - intros t k (row & d & Hr & Hx & Hs). destruct (pi_row _ _ Hp _ _ Hr) as (row' & Hr' & [= _ _ _ E _ _]).
    exists row', d. rewrite Hd, E. done.
  - intros t k (l & x & r & H1 & H2). right. exists l, x, r. rewrite Hk. done.
  - intros t k (l & x & r & H1 & H2). right. exists l, x, r. rewrite Hk. done.
Qed.
Lemma accounting_pepper p id c : accounting c (on_tenant (alter (tt_set_pepper p) id) c).
Proof. apply accounting_same; [by apply pinned_alter|done|done]. Qed.

(** Appending to any file. *)
Lemma accounting_append path line c :
  accounting c (on_disk (partial_alter (λ o, Some (default [] o ++ [line])) path) c).
Proof.
  assert (∀ p l, cl_disk c !! p = Some l → ∃ l', partial_alter (λ o, Some (default [] o ++ [line])) path (cl_disk c) !! p = Some l'
    ∧ ∀ x, x ∈ l → x ∈ l') as Hl.
  { intros p l Hp. destruct (decide (p = path)) as [->|Hne].
    - rewrite lookup_partial_alter_eq, Hp. eexists. split; [done|]. intros x Hx. apply elem_of_app. by left.
    - rewrite lookup_partial_alter_ne by done. eauto. }
  split; [by apply pinned_same|done| |].
  - intros t k (l & x & r & H1 & H2 & H3). right. destruct (Hl _ _ H1) as (l' & H1' & Hs). exists l', x, r. eauto.
  - intros t k (l & x & r & H1 & H2 & H3). right. destruct (Hl _ _ H1) as (l' & H1' & Hs). exists l', x, r. eauto.
Qed.
Lemma appended_line path line c :
  ∃ l, cl_disk (on_disk (partial_alter (λ o, Some (default [] o ++ [line])) path) c) !! path = Some l ∧ line ∈ l.
Proof. simpl. rewrite lookup_partial_alter_eq. eexists. split; [done|]. apply elem_of_app. right. by apply list_elem_of_singleton. Qed.

Lemma insert_keeps_request r t (d : Db) k :
  is_Some (db_request d !! k) → is_Some (db_request (insert_audit_request r t d) !! k).
Proof.
  unfold insert_audit_request. destruct (db_request d !! record_key r) eqn:Hr; [done|]. simpl.
  destruct (decide (k = record_key r)) as [->|]; [by rewrite lookup_insert_eq|by rewrite lookup_insert_ne].
Qed.
Lemma insert_has_request r t (d : Db) : is_Some (db_request (insert_audit_request r t d) !! record_key r).
Proof.
  unfold insert_audit_request. destruct (db_request d !! record_key r) eqn:Hr; [by rewrite Hr|]. simpl.
  by rewrite lookup_insert_eq.
Qed.

(** A record that is written is on the ledger of its tenant, and stays. *)
Lemma write_audit_record_hoare (R : relation Cluster) `{!PreOrder R} P pool mount r :
  (∀ c c', R c c' → accounting c c') →
  (∀ pool d f c, cl_database c !! pool = Some d →
     (∀ k, is_Some (db_request (td_tables d) !! k) → is_Some (db_request (f (td_tables d)) !! k)) →
     R c (on_database (<[pool := on_tables f d]>) c)) →
  stable R P → (∀ c, P c → routed (ar_tenant_id r) pool mount c) →
  hoare R P (write_audit_record pool r) (λ _ c, P c ∧ on_ledger (ar_tenant_id r) (record_key r) c) (λ _, True).
Proof.
  intros HR Hpool HP Hrouted.
  assert (∀ f t c c' u, on_pool pool (λ (_ : Z) d, Ok (on_tables f d, tt)) t c = Ok (c', u) →
    (∀ d k, is_Some (db_request d !! k) → is_Some (db_request (f d) !! k)) →
    R c c' ∧ ∃ d, cl_database c !! pool = Some d ∧ c' = on_database (<[pool := on_tables f d]>) c) as Hstep.
  { intros f t c c' u. unfold on_pool. destruct (cl_database c !! pool) as [d|] eqn:Hd; [|done].
    intros [= <- _] Hf. split; [|eauto]. apply Hpool; auto. }
  unfold write_audit_record. apply hoare_transaction; [apply _|done|done|].
  eapply (tx_post_bind _ _ (λ c c' _, c' = c)); [by apply tx_post_now|]. intros fin.
  eapply (tx_post_bind _ _ (λ c c' _, R c c' ∧ (P c → on_ledger (ar_tenant_id r) (record_key r) c'))).
  { apply tx_post_sql. intros t c c' u Hq. destruct (Hstep _ _ _ _ _ Hq) as [HRc (d & Hd & ->)].
    { intros x k. apply insert_keeps_request. }
    split; [done|]. intros (row & Hrow & _ & Hdb & _)%Hrouted. exists row, (on_tables (insert_audit_request r fin) d).
    simpl. rewrite Hdb, lookup_insert_eq. split_and!; [done|done|]. apply insert_has_request. }
  intros u. apply tx_post_sql. intros t c c' u' Hq c0 [HR0 Hl] c1 -> Hp. destruct (Hstep _ _ _ _ _ Hq) as [HRc _]; [done|].
  assert (R c1 c') as HR1 by (by etransitivity). split; [done|]. split; [by eapply HP|].
  apply (ac_ledger _ _ (HR _ _ HRc)). auto.
Qed.
End Records.

Lemma guar_disk_step `{!Disk} (R : relation Cluster) `{!PreOrder R} {A} (f : gmap string (list string) → gmap string (list string) * A) :
  (∀ c, R c (on_disk (λ k, (f k).1) c)) → guar R (disk_step f).
Proof.
  intros Hf w Hr. destruct (rely_tick_pre R w Hr) as [H1 H2]. unfold disk_step. destruct (disk_ok _); [|done].
  split; [|done]. by etransitivity; [|apply Hf].
Qed.
Lemma hoare_disk_step `{!Disk} (R : relation Cluster) `{!PreOrder R} {A} P (f : gmap string (list string) → gmap string (list string) * A) Q :
  stable R P → (∀ c, P c → R c (on_disk (λ k, (f k).1) c) ∧ Q (f (cl_disk c)).2 (on_disk (λ k, (f k).1) c)) →
  hoare R P (disk_step f) Q (λ _, ∃ t, disk_ok t = false).
Proof.
  intros HP Hf w Hr Hp. destruct (rely_tick_pre R w Hr) as [H1 H2]. unfold disk_step.
  destruct (disk_ok (w_now (tick w))) eqn:Hd; simpl; [|by split_and!; eauto].
  destruct (Hf (w_db (tick w)) (HP _ _ H1 Hp)). split_and!; [done|by etransitivity|done].
Qed.

(** The pool changes an audit record makes. *)
Definition allows_pools (R : relation Cluster) : Prop :=
  ∀ pool d f c, cl_database c !! pool = Some d →
    (∀ k, is_Some (db_request (td_tables d) !! k) → is_Some (db_request (f (td_tables d)) !! k)) →
    R c (on_database (<[pool := on_tables f d]>) c).
Lemma allows_pools_dek R `{!Reflexive R} pool f c :
  allows_pools R → R c (on_database (alter (on_tables (on_dek f)) pool) c).
Proof.
  intros HR. destruct (cl_database c !! pool) as [d|] eqn:Hd.
  - replace (on_database (alter (on_tables (on_dek f)) pool) c) with (on_database (<[pool := on_tables (on_dek f) d]>) c).
    { by apply HR. }
    unfold on_database. f_equal. apply map_eq. intros i. rewrite lookup_alter. case_decide; [subst; by rewrite lookup_insert_eq, Hd|].
    by rewrite lookup_insert_ne.
  - replace (on_database (alter (on_tables (on_dek f)) pool) c) with c; [done|].
    destruct c; unfold on_database; simpl in *. f_equal. apply map_eq. intros i. rewrite lookup_alter.
    case_decide; [subst; by rewrite Hd|done].
Qed.

(** Where a record is, by what became of it. *)
Definition settled `{!AuditJson} `{!Disk} (buffer_path pending_path : string) (tenant : N) (key : Z * N) (k : Kept) (c : Cluster) : Prop :=
  match k with
  | Written | Buffered => recorded buffer_path tenant key c
  | Deferred => accounted buffer_path pending_path tenant key c
  | Lost => ∃ t, disk_ok t = false
  end.

Section Persist.
Context `{!UuidText} `{AE : !Aead} `{AJ : !AuditJson} `{JL : !AuditJsonLaws} `{DK : !Disk}.
Context (buffer_path pending_path : string).
Context (R : relation Cluster) `{HR : !PreOrder R}.
Context (Racc : ∀ c c', R c c' → accounting buffer_path pending_path c c') (Rpool : allows_pools R).
Context (Rappend : ∀ line c, R c (on_disk (partial_alter (λ o, Some (default [] o ++ [line])) buffer_path) c)).

Lemma persist_or_buffer_hoare P pool mount r :
  stable R P → (∀ c, P c → routed (ar_tenant_id r) pool mount c) →
  hoare R P (persist_or_buffer buffer_path pool r)
    (λ k c, P c ∧ k ≠ Deferred ∧ settled buffer_path pending_path (ar_tenant_id r) (record_key r) k c) (λ _, True).
Proof.
  intros HP Hrt. unfold persist_or_buffer. eapply hoare_bind; [apply _| |].
  { apply (hoare_try R); [done|]. by apply (write_audit_record_hoare buffer_path pending_path R P pool mount r). }
  intros [[]|e].
  { apply hoare_ret; [apply _|]. intros c [Hc Hl]. split_and!; [done|done|by left]. }
  apply (hoare_pre R _ P); [|by intros c [_ Hc]]. eapply hoare_bind; [apply _| |].
  { apply (hoare_try R); [done|]. unfold append. apply (hoare_disk_step R P _
      (λ _ c, P c ∧ in_buffer buffer_path (ar_tenant_id r) (record_key r) c)); [done|].
    intros c Hc. specialize (Rappend (audit_line r) c). split; [exact Rappend|]. split; [by eapply HP|].
    destruct (appended_line buffer_path (audit_line r) c) as (l & Hl & Hin). exists l, (audit_line r), r.
    split_and!; [done|done|apply audit_of_line|done|done]. }
  intros [[]|e']; apply hoare_ret; try apply _; intros c [H1 H2]; simpl; [by split_and!; [| |right]|by split_and!].
Qed.
End Persist.

Section Outcome.
Context `{!UuidText} `{AE : !Aead} `{AJ : !AuditJson} `{JL : !AuditJsonLaws} `{DK : !Disk}.
Context (hmac_sha256 : string → string → string) (dek : string → string → N → CEff CustomerDekError string).
Context `{HD : !PoolDek dek}.
Context (label buffer_path pending_path : string).
(** HMAC-SHA256 yields 32 bytes, and AES-GCM encrypts under any 32-byte key. *)
Context (hmac_len : ∀ key msg, String.length (hmac_sha256 key msg) = KEY_LEN).
Context (aead_total : ∀ key nonce aad msg, String.length key = KEY_LEN → is_Some (aead_encrypt key nonce aad msg)).
#[local] Abbreviation acc := (accounting buffer_path pending_path).

Lemma accounting_allows_pools : allows_pools acc.
Proof. intros pool d f c Hd Hf. by apply (accounting_pool _ _ pool d). Qed.
Hint Resolve accounting_allows_pools accounting_append : core.

Lemma persist_outcome_hoare P tenant p destination nonces :
  stable acc P → (∀ c, P c → context_ok (pa_tenant_id p) tenant c) →
  hoare acc P (persist_send_outcome hmac_sha256 dek label buffer_path pending_path tenant p destination nonces)
    (λ k c, settled buffer_path pending_path (pa_tenant_id p) (pending_key p) k c) (λ _, True).
Proof.
  intros HP Hctx. unfold persist_send_outcome. eapply (hoare_bind _ _ _ _ (λ _, P)).
  { apply (sustains_guar acc P); [done|]. unfold compute_destination_crypto.
    assert (guar acc (dek (rx_pool tenant) (tt_vault_mount (rx_tenant tenant)) (pa_customer_id p))) as Hdek.
    { apply pd_guar; [apply _|]. intros f c. apply (allows_pools_dek acc). apply accounting_allows_pools. }
    step_guar. }
  intros [[hmac ct]|].
  - eapply hoare_weaken; [apply (persist_or_buffer_hoare buffer_path pending_path acc (λ _ _ H, H) accounting_allows_pools
      (λ line c, accounting_append _ _ _ line c) P (rx_pool tenant) (tt_vault_mount (rx_tenant tenant)) (completed p hmac ct) HP)
      |auto| |done].
    + intros c Hc. by apply Hctx.
    + intros k c (_ & _ & Hs). exact Hs.
  - unfold encrypt, derive_key. rewrite hmac_len, Nat.eqb_refl. cbn [negb].
    destruct (aead_total (hmac_sha256 (rx_pepper tenant) label) nonces.2 (uuid_bytes (pa_comms_request_id p)) destination) as [ct ->].
    { apply hmac_len. }
    cbv beta iota. set (q := MkPending _ _ _ _ _ _ _ _ _). eapply hoare_bind; [apply _| |].
    { apply (hoare_try acc); [done|]. unfold append. apply (hoare_disk_step acc P _
        (λ _ c, in_pending pending_path (pa_tenant_id p) (pending_key p) c)); [done|].
      intros c Hc. split; [apply accounting_append|]. destruct (appended_line pending_path (pending_line q) c) as (l & Hl & Hin).
      exists l, (pending_line q), q. split_and!; [done|done|apply pending_of_line|done|done]. }
    intros [[]|e]; apply hoare_ret; try apply _; intros c Hc; simpl in *; [by right|by destruct Hc].
Qed.

Lemma send_otp_hoare {Mem} deliver flags (mem : Mem) id nonces px body created :
  (∀ m x d b, guar acc (deliver m x d b)) →
  let tenant := tt_id (rx_tenant (px_tenant px)) in
  hoare acc (context_ok tenant (px_tenant px))
    (if negb (is_enabled tenant flags) then
       persist_or_buffer buffer_path (rx_pool (px_tenant px))
         (MkRecord tenant id created (so_customer_id body) (px_producer_id px) "" "" "discarded" "" None) ;!
       eret (mem, Err OAuthDisabled)
     else
       sent ←! deliver mem (px_tenant px) (so_destination body) (so_body body);
       let '(status, reference, reported) := outcome_fields sent.2 in
       persist_send_outcome hmac_sha256 dek label buffer_path pending_path (px_tenant px)
         (MkPending tenant id created (so_customer_id body) (px_producer_id px) "" status reference reported)
         (so_destination body) nonces ;!
       eret (sent.1, match sent.2 with Ok _ => Ok id | Err _ => Err OSendFailed end))
    (λ _ c, accounted buffer_path pending_path tenant (created, id) c ∨ ∃ t, disk_ok t = false) (λ _, True).
Proof.
  intros Hd tenant. set (P := context_ok tenant (px_tenant px)).
  assert (stable acc P) as HP by (intros c c' Hc; apply context_ok_stable, Hc).
  assert (∀ k c, settled buffer_path pending_path tenant (created, id) k c →
    accounted buffer_path pending_path tenant (created, id) c ∨ ∃ t, disk_ok t = false) as Hset.
  { intros k c Hk. destruct k; simpl in Hk; [by left; left|by left; left|by left|by right]. }
  case_match.
  - eapply hoare_bind; [apply _| |].
    { apply (persist_or_buffer_hoare buffer_path pending_path acc (λ _ _ H, H) accounting_allows_pools
        (λ line c, accounting_append _ _ _ line c) P _ (tt_vault_mount (rx_tenant (px_tenant px)))); [done|].
      intros c [_ Hc]. exact Hc. }
    intros k. apply hoare_ret; [apply _|]. intros c (_ & _ & Hk). by apply Hset in Hk.
  - eapply (hoare_bind _ _ _ _ (λ _, P)); [by apply (sustains_guar acc P)|]. intros [mem' sent]. simpl.
    destruct (outcome_fields sent) as [[status reference] reported].
    eapply hoare_bind; [apply _|by apply persist_outcome_hoare|]. intros k. apply hoare_ret; [apply _|].
    intros c Hk. by apply Hset in Hk.
Qed.

(** C11. Every one-time password is accounted for. As long as the disk takes writes, a
    request that either service answers, with success, with a failed send or with a
    refusal, leaves a record of its id on the tenant's ledger, in the buffer file or in
    the pending file, whatever the databases and Vault do and as long as others only
    move records on; and it takes no other record away. *)
Theorem every_otp_is_accounted_for {Mem} deliver flags (mem : Mem) id nonces px body (w : CW) :
  (∀ m x d b, guar acc (deliver m x d b)) → (∀ t, disk_ok t = true) →
  rely acc w → context_ok (tt_id (rx_tenant (px_tenant px))) (px_tenant px) (w_db w) →
  ∃ w' mem' answer created,
    send_otp hmac_sha256 dek label buffer_path pending_path deliver flags mem id nonces px body w = (w', Ok (mem', answer))
    ∧ w_now w <= created ∧ acc (w_db w) (w_db w')
    ∧ accounted buffer_path pending_path (tt_id (rx_tenant (px_tenant px))) (created, id) (w_db w').
Proof.
  intros Hd Hdisk Hr Hctx. destruct (rely_tick_pre acc w Hr) as [Ha Hr1]. unfold send_otp, utc_now, ebind at 1.
  pose proof (send_otp_hoare deliver flags mem id nonces px body (w_now (tick w)) Hd (tick w) Hr1) as Hh.
  cbv zeta in *. destruct Hh as (_ & Ha1 & Hpost); [by eapply context_ok_stable; [apply Ha|]|].
  match type of Ha1 with acc _ (w_db (?m (tick w)).1) => set (run := m (tick w)) in * end.
  change (∃ w' mem' answer created, run = (w', Ok (mem', answer)) ∧ w_now w <= created ∧ acc (w_db w) (w_db w')
    ∧ accounted buffer_path pending_path (tt_id (rx_tenant (px_tenant px))) (created, id) (w_db w')).
  destruct run as [w' [[mem' answer]|[]]]. exists w', mem', answer, (w_now (tick w)). simpl in *.
  split_and!; [done|apply tick_now_le|by etransitivity|]. destruct Hpost as [?|[t Ht]]; [done|]. by rewrite Hdisk in Ht.
Qed.
End Outcome.

(** A deferred record loses nothing. What the drain makes of a pending record is
    the record the handler would have written had the customer key been there: the
    same fields, the hash of the destination, and a ciphertext that decrypts under the
    customer key to that destination. *)
Theorem deferred_records_are_recovered `{!UuidText} `{AE : !Aead} `{AL : !AeadLaws} hmac_sha256 label pepper key nonce nonce' p destination blob :
  String.length nonce = NONCE_LEN → String.length nonce' = NONCE_LEN → from_utf8 destination = Some destination →
  encrypt nonce (derive_key hmac_sha256 label pepper) (uuid_bytes (pa_comms_request_id p)) destination = Ok blob →
  pa_destination_ciphertext p = blob →
  recover hmac_sha256 label pepper key nonce' p
  = match encrypt nonce' key (uuid_bytes (pa_comms_request_id p)) destination with
    | Ok ciphertext => Some (completed p (compute_hmac hmac_sha256 pepper destination) ciphertext)
    | Err _ => None
    end
  ∧ ∀ r, recover hmac_sha256 label pepper key nonce' p = Some r →
      decrypt key (uuid_bytes (pa_comms_request_id p)) (ar_destination_ciphertext r) = Ok destination.
Proof.
  intros Hn Hn' Hu He Hp.
  assert (recover hmac_sha256 label pepper key nonce' p
    = match encrypt nonce' key (uuid_bytes (pa_comms_request_id p)) destination with
      | Ok ciphertext => Some (completed p (compute_hmac hmac_sha256 pepper destination) ciphertext)
      | Err _ => None end) as Hrec.
  { unfold recover. by rewrite Hp, (decrypt_encrypt _ _ _ _ _ Hn He), Hu. }
  split; [done|]. rewrite Hrec. intros r. destruct (encrypt nonce' _ _ _) as [ct|] eqn:Hc; [|done].
  intros [= <-]. by apply (decrypt_encrypt nonce').
Qed.

(** ** Drains *)

Section Drains.
Context `{!UuidText} `{AE : !Aead} `{AJ : !AuditJson} `{JL : !AuditJsonLaws} `{DK : !Disk} `{PU : !PgUrl}.
Context (hmac_sha256 : string → string → string) (dek : string → string → N → CEff CustomerDekError string).
Context `{HD : !PoolDek dek}.
Context (label buffer_path pending_path : string) (paths : buffer_path ≠ pending_path).
Context (ks : VaultStore) (plain : string → string → string) `{HV : !VaultStoreLaws ks plain} (url : string).
(** What other tasks do to the registry keeps its contexts in order. *)
Context (meanwhile : Cluster → Registry → Registry) (meanwhile_ok : ∀ x c, registry_ok x c → registry_ok (meanwhile c x) c).
#[local] Abbreviation acc := (accounting buffer_path pending_path).

(** While a file is drained, no one else touches it. *)
Definition untouched (path : string) (c c' : Cluster) : Prop := acc c c' ∧ cl_disk c' !! path = cl_disk c !! path.
#[export] Instance untouched_pre path : PreOrder (untouched path).
Proof. split; [done|]. intros c1 c2 c3 [A1 A2] [B1 B2]. split; [by etransitivity|congruence]. Qed.

Lemma untouched_pools path : allows_pools (untouched path).
Proof. intros pool d f c Hd Hf. split; [by apply (accounting_pool _ _ pool d)|done]. Qed.
Lemma untouched_pepper path p id c : untouched path c (on_tenant (alter (tt_set_pepper p) id) c).
Proof. split; [by apply accounting_pepper|done]. Qed.

(** What a drain knows all along. *)
Definition draining (contexts : Registry) (c : Cluster) : Prop := tenants_ok c ∧ registry_ok contexts c.
Lemma draining_stable path contexts : stable (untouched path) (draining contexts).
Proof.
  intros c c' [[Hp _ _ _] _] [H1 H2]. split; [by eapply tenants_ok_stable|by eapply registry_ok_stable].
Qed.
Hint Resolve draining_stable : core.

Lemma open_tenant_hoare path contexts id :
  hoare (untouched path) (draining contexts) (open_tenant ks url meanwhile contexts id)
    (λ r c, draining r.1 c ∧ ∀ x, r.2 = Some x → context_ok id x c) (λ _, True).
Proof.
  unfold open_tenant. eapply hoare_bind; [apply _| |].
  - apply (hoare_try (untouched path)); [done|].
    apply (get_or_open_hoare ks plain url (untouched path) (λ c c' H, ac_pinned _ _ _ _ (proj1 H))
      (untouched_pepper path) meanwhile contexts id (draining contexts)); [done|done|]. intros c [_ Hc]. auto.
  - intros [[r x]|e]; apply hoare_ret; try apply _; simpl.
    + intros c ([Hok _] & Hreg & Hx). split; [done|]. by intros ? [= <-].
    + intros c [_ Hc]. done.
Qed.

(** Every record of the lines stays or is on its ledger. *)
Definition drained (lines : list string) (remaining : list AuditRecord) (c : Cluster) : Prop :=
  ∀ line r, line ∈ lines → audit_of line = Some r → r ∈ remaining ∨ on_ledger (ar_tenant_id r) (record_key r) c.
Definition buffer_stable := untouched buffer_path.

Lemma on_ledger_untouched path t k : stable (untouched path) (on_ledger t k).
Proof. intros c c' [Ha _]. apply (ac_ledger _ _ _ _ Ha). Qed.
Lemma context_untouched path id x : stable (untouched path) (context_ok id x).
Proof. intros c c' [[Hp _ _ _] _]. by apply context_ok_stable. Qed.
Hint Resolve on_ledger_untouched context_untouched : core.

Lemma drain_lines_hoare contexts lines :
  hoare (untouched buffer_path) (draining contexts) (drain_lines ks url meanwhile contexts lines)
    (λ r c, draining r.1 c ∧ drained lines r.2 c) (λ _, True).
Proof.
  revert contexts. induction lines as [|line lines IH]; intros contexts; simpl.
  { apply hoare_ret; [apply _|]. intros c Hc. split; [done|]. by intros ? ? ?%not_elem_of_nil. }
  destruct (audit_of line) as [record|] eqn:Hline.
  2: { eapply hoare_weaken; [apply IH|done| |done]. intros r c [H1 H2]. split; [done|].
       intros l x [->|Hl]%elem_of_cons Hx; [congruence|by apply (H2 l)]. }
  eapply hoare_bind; [apply _|apply open_tenant_hoare|]. intros [reg opened]; simpl.
  eapply (hoare_bind _ _ _ _ (λ wrote c, (wrote = true → on_ledger (ar_tenant_id record) (record_key record) c) ∧ draining reg c)).
  { destruct opened as [tenant|]; [|by apply hoare_ret; [apply _|]; intros c [Hc _]].
    set (P := λ c, draining reg c ∧ context_ok (ar_tenant_id record) tenant c).
    apply (hoare_pre _ _ P); [|by intros c [Hc Hx]; split; [|apply Hx]].
    assert (stable (untouched buffer_path) P) as HP by (apply stable_and; auto).
    eapply hoare_bind; [apply _| |].
    { apply (hoare_try (untouched buffer_path)); [exact HP|].
      apply (write_audit_record_hoare buffer_path pending_path (untouched buffer_path) P (rx_pool tenant)
        (tt_vault_mount (rx_tenant tenant)) record (λ c c' H, proj1 H) (untouched_pools buffer_path) HP).
      intros c (_ & _ & Hc). exact Hc. }
    intros [[]|e]; apply hoare_ret; try apply _; simpl; [intros c [[Hc _] Hl]; auto|intros c [_ [Hc _]]; by split]. }
  intros wrote. eapply hoare_bind; [apply _| |].
  { apply (hoare_frame (untouched buffer_path) (λ c, wrote = true → on_ledger (ar_tenant_id record) (record_key record) c)); [|apply IH].
    intros c c' Ha Hl Hw. eapply on_ledger_untouched; [exact Ha|auto]. }
  intros [reg' rest]. apply hoare_ret; [apply _|]. simpl. intros c (Hl & Hreg & Hd). split; [done|].
  intros l x [->|Hin]%elem_of_cons Hx.
  - assert (x = record) as -> by congruence. destruct wrote; [by right; apply Hl|left; by apply elem_of_cons; left].
  - destruct (Hd l x Hin Hx) as [Hr|Hr]; [left|by right]. destruct wrote; [done|by apply elem_of_cons; right].
Qed.

(** Writing the remaining records back. *)
Lemma rewrite_buffer_accounts lines remaining c :
  cl_disk c !! buffer_path = Some lines → drained lines remaining c →
  acc c (on_disk (<[buffer_path := map audit_line remaining]>) c).
Proof.
  intros Hf Hd. split; [by apply pinned_same|done| |].
  - intros t k (l & line & r & H1 & H2 & H3 & <- & <-). assert (l = lines) as -> by congruence.
    destruct (Hd line r H2 H3) as [Hr|Hr]; [right|by left]. exists (map audit_line remaining), (audit_line r), r.
    simpl. rewrite lookup_insert_eq. split_and!; [done| |apply audit_of_line|done|done].
    apply list_elem_of_fmap. eauto.
  - intros t k (l & line & p & H1 & H2). right. exists l, line, p. simpl. by rewrite lookup_insert_ne.
Qed.

(** A drain from the read of its file to the rewrite: the loop keeps the file for
    itself, the last step replaces what it has read. *)
Lemma drain_frame {A} path (loop : list string → Sure (Registry * A)) (back : A → list string) contexts (Q : list string → A → Cluster → Prop) (w w' : CW) reg :
  (∀ lines, hoare (untouched path) (draining contexts) (loop lines) (λ r c, draining r.1 c ∧ Q lines r.2 c) (λ _, True)) →
  (∀ lines a, stable (untouched path) (Q lines a)) →
  (∀ lines a c, cl_disk c !! path = Some lines → Q lines a c → acc c (on_disk (<[path := back a]>) c)) →
  rely (untouched path) w → draining contexts (w_db w) →
  (contents ←! etry (read_lines path);
   match contents with
   | Err _ | Ok None => eret contexts
   | Ok (Some lines) =>
       remaining ←! loop lines;
       etry (rewrite_lines path (back remaining.2)) ;!
       eret remaining.1
   end) w = (w', Ok reg) →
  acc (w_db w) (w_db w').
Proof.
  intros Hloop HQ Hback Hr Hd Hrun.
  assert (hoare (untouched path) (draining contexts) (read_lines path)
    (λ o c, draining contexts c ∧ cl_disk c !! path = o) (λ _, True)) as Hread.
  { eapply hoare_weaken; [apply (hoare_disk_step (untouched path) (draining contexts) _ (λ o c, draining contexts c ∧ cl_disk c !! path = o))|..]; [done| |done..].
    intros c Hc. split; [by destruct c|]. by destruct c. }
  destruct (Hread w Hr Hd) as (Hr1 & [Ha1 _] & Hp1). unfold ebind at 1, etry at 1 in Hrun.
  destruct (read_lines path w) as [w1 [[lines|]|e]]; simpl in *; [|by injection Hrun as <- _..].
  destruct Hp1 as [Hd1 Hf]. destruct (Hloop lines w1 Hr1 Hd1) as (Hr2 & [Ha2 Hf2] & Hp2).
  unfold ebind at 1 in Hrun. destruct (loop lines w1) as [w2 [[reg2 a]|[]]]; simpl in *. destruct Hp2 as [_ Hq].
  destruct (rely_tick_pre (untouched path) w2 Hr2) as [[Ha3 Hf3] _].
  assert (acc (w_db w) (w_db (tick w2))) as Hacc by (etransitivity; [|exact Ha3]; etransitivity; [exact Ha1|exact Ha2]).
  unfold ebind, etry, rewrite_lines, disk_step in Hrun. destruct (disk_ok _); injection Hrun as <- _; [|done].
  etransitivity; [exact Hacc|]. apply (Hback lines a (w_db (tick w2))); [by rewrite Hf3, Hf2|]. exact (HQ lines a _ _ (conj Ha3 Hf3) Hq).
Qed.

(** Draining the buffer loses nothing. While no one else touches the buffer file, a
    drain of either service, whatever fails, leaves every record that was on a ledger,
    in the buffer or in the pending file on a ledger or in one of the files. *)
Theorem buffer_drain_loses_nothing contexts (w w' : CW) reg :
  rely (untouched buffer_path) w → tenants_ok (w_db w) → registry_ok contexts (w_db w) →
  drain buffer_path ks url meanwhile contexts w = (w', Ok reg) →
  acc (w_db w) (w_db w').
Proof.
  intros Hr Hok Hreg Hrun. eapply (drain_frame buffer_path _ (map audit_line) contexts drained); [| | | |by split|exact Hrun]; [| | |done].
  - apply drain_lines_hoare.
  - intros lines a c c' Ha Hd line r H1 H2. destruct (Hd line r H1 H2); [by left|right]. by eapply on_ledger_untouched.
  - apply rewrite_buffer_accounts.
Qed.

Lemma recover_fields pepper key nonce p r :
  recover hmac_sha256 label pepper key nonce p = Some r → ar_tenant_id r = pa_tenant_id p ∧ record_key r = pending_key p.
Proof. unfold recover. repeat case_match; try done. by intros [= <-]. Qed.

Definition pending_drained (lines : list string) (remaining : list PendingAuditRecord) (c : Cluster) : Prop :=
  ∀ line p, line ∈ lines → pending_of line = Some p →
    p ∈ remaining ∨ recorded buffer_path (pa_tenant_id p) (pending_key p) c.

Lemma recorded_untouched path t k : stable (untouched path) (recorded buffer_path t k).
Proof. intros c c' [Ha _]. by eapply recorded_stable. Qed.
Hint Resolve recorded_untouched : core.

Lemma untouched_append line c :
  untouched pending_path c (on_disk (partial_alter (λ o, Some (default [] o ++ [line])) buffer_path) c).
Proof. split; [apply accounting_append|]. simpl. by rewrite lookup_partial_alter_ne. Qed.

Context (disk_good : ∀ t, disk_ok t = true).

Lemma recover_one_hoare nonce tenant p P :
  stable (untouched pending_path) P → (∀ c, P c → context_ok (pa_tenant_id p) tenant c) →
  hoare (untouched pending_path) P (recover_one hmac_sha256 dek label buffer_path nonce tenant p)
    (λ finished c, P c ∧ (finished = true → recorded buffer_path (pa_tenant_id p) (pending_key p) c)) (λ _, True).
Proof.
  intros HP Hctx. unfold recover_one. eapply (hoare_bind _ _ _ _ (λ _, P)).
  { apply (sustains_guar (untouched pending_path) P); [done|]. apply guar_try. apply pd_guar; [apply _|].
    intros f c. apply (allows_pools_dek (untouched pending_path)). apply untouched_pools. }
  intros [key|e]; [|by apply hoare_ret; [apply _|]; intros c Hc].
  destruct (recover _ _ _ key nonce p) as [r|] eqn:Hrec; [|by apply hoare_ret; [apply _|]; intros c Hc].
  destruct (recover_fields _ _ _ _ _ Hrec) as [Ht Hk]. eapply hoare_bind; [apply _| |].
  { apply (persist_or_buffer_hoare buffer_path pending_path (untouched pending_path) (λ c c' H, proj1 H)
      (untouched_pools pending_path) untouched_append P (rx_pool tenant) (tt_vault_mount (rx_tenant tenant)) r HP).
    intros c Hc. rewrite Ht. by apply Hctx. }
  intros k. apply hoare_ret; [apply _|]. intros c (Hc & Hnd & Hs). split; [done|]. intros _. rewrite Ht, Hk in Hs.
  destruct k; simpl in Hs; [done|done|done|]. destruct Hs as [t Hbad]. by rewrite disk_good in Hbad.
Qed.

Lemma pending_lines_hoare nonces contexts lines :
  hoare (untouched pending_path) (draining contexts)
    (pending_lines hmac_sha256 dek label buffer_path ks url meanwhile nonces contexts lines)
    (λ r c, draining r.1 c ∧ pending_drained lines r.2 c) (λ _, True).
Proof.
  revert contexts. induction lines as [|line lines IH]; intros contexts; simpl.
  { apply hoare_ret; [apply _|]. intros c Hc. split; [done|]. by intros ? ? ?%not_elem_of_nil. }
  destruct (pending_of line) as [p|] eqn:Hline.
  2: { eapply hoare_weaken; [apply IH|done| |done]. intros r c [H1 H2]. split; [done|].
       intros l x [->|Hl]%elem_of_cons Hx; [congruence|by apply (H2 l)]. }
  eapply hoare_bind; [apply _|apply open_tenant_hoare|]. intros [reg opened]; simpl.
  eapply (hoare_bind _ _ _ _ (λ done_ c, (done_ = true → recorded buffer_path (pa_tenant_id p) (pending_key p) c) ∧ draining reg c)).
  { destruct opened as [tenant|]; [|by apply hoare_ret; [apply _|]; intros c [Hc _]].
    eapply hoare_weaken; [apply (recover_one_hoare _ tenant p (λ c, draining reg c ∧ context_ok (pa_tenant_id p) tenant c))|..].
    - apply stable_and; auto.
    - by intros c [_ Hc].
    - intros c [Hc Hx]. split; [done|by apply Hx].
    - intros b c [[Hc _] Hb]. done.
    - done. }
  intros finished. eapply hoare_bind; [apply _| |].
  { apply (hoare_frame (untouched pending_path) (λ c, finished = true → recorded buffer_path (pa_tenant_id p) (pending_key p) c)); [|apply IH].
    intros c c' Ha Hl Hw. eapply recorded_untouched; [exact Ha|auto]. }
  intros [reg' rest]. apply hoare_ret; [apply _|]. simpl. intros c (Hl & Hreg & Hd). split; [done|].
  intros l x [->|Hin]%elem_of_cons Hx.
  - assert (x = p) as -> by congruence. destruct finished; [by right; apply Hl|left; by apply elem_of_cons; left].
  - destruct (Hd l x Hin Hx) as [Hr|Hr]; [left|by right]. destruct finished; [done|by apply elem_of_cons; right].
Qed.

(** Draining the pending file loses nothing. While no one else touches the pending
    file and the disk takes writes, a drain moves records on to the buffer or the
    ledger or leaves them pending, whatever else fails. *)
Theorem pending_drain_loses_nothing nonces contexts (w w' : CW) reg :
  rely (untouched pending_path) w → tenants_ok (w_db w) → registry_ok contexts (w_db w) →
  pending_drain hmac_sha256 dek label buffer_path pending_path ks url meanwhile nonces contexts w = (w', Ok reg) →
  acc (w_db w) (w_db w').
Proof.
  intros Hr Hok Hreg Hrun.
  eapply (drain_frame pending_path _ (map pending_line) contexts pending_drained); [| | | |by split|exact Hrun]; [| | |done].
  - apply pending_lines_hoare.
  - intros lines a c c' Ha Hd line r H1 H2. destruct (Hd line r H1 H2); [by left|right]. by eapply recorded_untouched.
  - intros lines remaining c Hf Hd. split; [by apply pinned_same|done| |].
    + intros t k (l & line & r & H1 & H2). right. exists l, line, r. simpl. by rewrite lookup_insert_ne.
    + intros t k (l & line & p & H1 & H2 & H3 & <- & <-). assert (l = lines) as -> by congruence.
      destruct (Hd line p H2 H3) as [Hp|[Hl|(l' & x & r & B1 & B2)]]; [right|left; by left|left; right].
      * exists (map pending_line remaining), (pending_line p), p. simpl. rewrite lookup_insert_eq.
        split_and!; [done| |apply pending_of_line|done|done]. apply list_elem_of_fmap. eauto.
      * exists l', x, r. simpl. by rewrite lookup_insert_ne.
Qed.
End Drains.

(** ** The components behind the interfaces *)

(** The key lookup of Dek.v, on a pool, is what the services rely on. *)
#[export] Instance pool_dek_ok {C} `{!Lru C} ks plain `{HV : !VaultStoreLaws ks plain} (cache_of : string → KeyCache C) :
  PoolDek (pool_dek ks cache_of).
Proof.
  split.
  - intros pool mount k w. unfold pool_dek, cached_dek. destruct (cache_get _ _ _) as [c1 [p|]]; [done|].
    assert (mute (lookup_or_create (pool_run pool) (vs_create_dek ks mount) (vs_unwrap_dek ks mount) k)) as Hm.
    { pose proof (vs_create_mute (ks:=ks) mount). pose proof (vs_unwrap_mute (ks:=ks) mount).
      unfold lookup_or_create, pool_run. solve_mute. }
    specialize (Hm w). by destruct (lookup_or_create _ _ _ _ w) as [w1 [p|e]].
  - intros R HR pool mount k Hd w Hr. unfold pool_dek, cached_dek. destruct (cache_get _ _ _) as [c1 [p|]]; [done|].
    assert (guar R (lookup_or_create (pool_run pool) (vs_create_dek ks mount) (vs_unwrap_dek ks mount) k)) as Hg.
    { pose proof (vs_create_guar (ks:=ks) R mount). pose proof (vs_unwrap_guar (ks:=ks) R mount).
      assert (guar R (pool_run pool _ (λ _ d, Ok (d, find_dek k d)))) as Hq.
      { apply guar_sql; [apply _|]. intros t c c' a. unfold on_pool. destruct (cl_database c !! pool) as [d|] eqn:Hp; [|done].
        intros [= <- _]. replace (on_tables (λ _, td_tables d) d) with d by (by destruct d).
        replace (on_database (<[pool := d]>) c) with c; [done|].
        destruct c; unfold on_database; simpl in *. by rewrite insert_id. }
      unfold lookup_or_create. step_guar. apply guar_sql; [apply _|]. intros t c c' b. unfold on_pool, insert_if_absent.
      destruct (cl_database c !! pool) as [d|] eqn:Hp; [|done]. destruct (db_dek (td_tables d) !! k); intros [= <- _].
      - replace (on_tables (λ _, td_tables d) d) with d by (by destruct d).
        replace (on_database (<[pool := d]>) c) with c; [done|].
        destruct c; unfold on_database; simpl in *. by rewrite insert_id.
      - set (f := <[k := _]>). replace (on_database _ c) with (on_database (alter (on_tables (on_dek f)) pool) c); [apply Hd|].
        unfold on_database. f_equal. apply map_eq. intros i. rewrite lookup_alter.
        case_decide; [subst; by rewrite lookup_insert_eq, Hp|by rewrite lookup_insert_ne]. }
    specialize (Hg w Hr). by destruct (lookup_or_create _ _ _ _ w) as [w1 [p|e]].
Qed.

(** Both ways to a provider leave the records alone. *)
Section Deliver.
Context (R : relation Cluster) `{HR : !PreOrder R}.
Context (read_credential : string → string → CEff KeyStoreError string).
Context (read_guar : ∀ m p, guar R (read_credential m p)).
Context (http_send : string → list Call → string → string → result SendOutcome SenderError).

Lemma http_call_guar key destination body : guar R (http_call http_send key destination body).
Proof. intros w Hr. unfold http_call. destruct (rely_tick_pre R w Hr). done. Qed.
Hint Resolve http_call_guar : effects.

Lemma otp_deliver_guar between entries tenant destination body :
  guar R (otp_deliver read_credential http_send between entries tenant destination body).
Proof.
  assert (∀ rows, guar R (resolve_rows read_credential rows)) as Hrows.
  { induction rows as [|[prio row] rows IH]; simpl; step_guar. }
  assert (∀ l last, guar R (send_resolved http_send l destination body last)) as Hsend.
  { induction l as [|x l IH]; intros last; simpl; step_guar. }
  pose proof (λ pool, guar_pool_query R pool (λ _, list_providers otp_model.CHANNEL)) as Hq.
  unfold otp_deliver, get_or_fetch, resolve_all. step_guar.
Qed.
Lemma sms_deliver_guar cache tenant destination body :
  guar R (sms_deliver read_credential http_send cache tenant destination body).
Proof.
  assert (∀ rows cache last, guar R (send_rows read_credential http_send cache rows destination body last)) as Hsend.
  { induction rows as [|[prio row] rows IH]; intros cache' last; simpl; unfold read_cached_credential; step_guar. }
  pose proof (λ pool, guar_pool_query R pool (λ _, list_providers otp_model.CHANNEL)) as Hq.
  unfold sms_deliver, sms_provider_send, load_rows. step_guar.
Qed.
End Deliver.

(** ** Concrete runs *)

(** A positive number as text, for lines that parse back. *)
Fixpoint bits (p : positive) : string :=
  match p with
  | xH => ""
  | xO p => String "0"%char (bits p)
  | xI p => String "1"%char (bits p)
  end.
Fixpoint of_bits (s : string) : positive :=
  match s with
  | EmptyString => xH
  | String "0"%char s => xO (of_bits s)
  | String _ s => xI (of_bits s)
  end.
Lemma of_bits_bits p : of_bits (bits p) = p.
Proof. induction p as [p IH|p IH|]; simpl; by rewrite ?IH. Qed.

(** Strings one after the other, each character marked. *)
Fixpoint put (s tail : string) : string :=
  match s with
  | EmptyString => String "."%char tail
  | String a s => String "+"%char (String a (put s tail))
  end.
Fixpoint get (s : string) : option (string * string) :=
  match s with
  | String "."%char tail => Some (EmptyString, tail)
  | String "+"%char (String a s) => '(x, tail) ← get s; Some (String a x, tail)
  | _ => None
  end.
Fixpoint get_all (n : nat) (s : string) : option (list string) :=
  match n with
  | O => Some []
  | S n => '(x, tail) ← get s; l ← get_all n tail; Some (x :: l)
  end.
Lemma get_put s tail : get (put s tail) = Some (s, tail).
Proof. induction s as [|a s IH]; simpl; [done|]. by rewrite IH. Qed.
Lemma get_all_put l : get_all (length l) (foldr put EmptyString l) = Some l.
Proof. induction l as [|x l IH]; simpl; [done|]. rewrite get_put. simpl. by rewrite IH. Qed.

Definition number {A} `{Countable A} (x : A) : string := bits (encode x).
Definition of_number {A} `{Countable A} (s : string) : option A := decode (of_bits s).
Lemma of_number_number {A} `{Countable A} (x : A) : of_number (number x) = Some x.
Proof. unfold of_number, number. by rewrite of_bits_bits, decode_encode. Qed.
Definition maybe (o : option string) : list string :=
  match o with Some s => ["1"; s]%string | None => ["0"; ""]%string end.
Definition of_maybe (flag s : string) : option string := if decide (flag = "1"%string) then Some s else None.

Definition demo_json : AuditJson := {|
  audit_line r := foldr put EmptyString ([number (ar_tenant_id r); number (ar_comms_request_id r); number (ar_created_at r);
    number (ar_customer_id r); number (ar_producer_id r); ar_destination_hmac r; ar_destination_ciphertext r;
    ar_final_status r; ar_provider_ref r] ++ maybe (ar_provider_status r));
  audit_of s := l ← get_all 11 s;
    match l with
    | [a; b; c; d; e; f; g; h; i; j; k] =>
        a ← of_number a; b ← of_number b; c ← of_number c; d ← of_number d; e ← of_number e;
        Some (MkRecord a b c d e f g h i (of_maybe j k))
    | _ => None
    end;
  pending_line r := foldr put EmptyString ([number (pa_tenant_id r); number (pa_comms_request_id r); number (pa_created_at r);
    number (pa_customer_id r); number (pa_producer_id r); pa_destination_ciphertext r;
    pa_final_status r; pa_provider_ref r] ++ maybe (pa_provider_status r));
  pending_of s := l ← get_all 10 s;
    match l with
    | [a; b; c; d; e; g; h; i; j; k] =>
        a ← of_number a; b ← of_number b; c ← of_number c; d ← of_number d; e ← of_number e;
        Some (MkPending a b c d e g h i (of_maybe j k))
    | _ => None
    end;
|}.
#[local] Existing Instance demo_json.
#[export] Instance demo_json_laws : AuditJsonLaws.
Proof.
  split; intros r; cbn [audit_of audit_line pending_of pending_line demo_json].
  - set (l := _ ++ maybe _). assert (length l = 11%nat) as Hl by (by destruct r as [?????????[]]).
    rewrite <- Hl, get_all_put. subst l. destruct r as [?????????[]]; with_strategy opaque [number of_number] (simpl; repeat (rewrite of_number_number; simpl)); reflexivity.
  - set (l := _ ++ maybe _). assert (length l = 10%nat) as Hl by (by destruct r as [????????[]]).
    rewrite <- Hl, get_all_put. subst l. destruct r as [????????[]]; with_strategy opaque [number of_number] (simpl; repeat (rewrite of_number_number; simpl)); reflexivity.
Qed.

#[local] Existing Instance demo_url.
#[local] Existing Instance demo_aead.
#[local] Existing Instance toy_uuid.
Definition good_disk : Disk := {| disk_ok _ := true |}.
#[local] Existing Instance good_disk.

Definition demo_hmac (_ _ : string) : string := demo_dek.
Definition otp_vault : VaultStore := MkVault (λ _, eret (MkDek demo_dek "wrapped")) (λ _ _, eret demo_dek).
#[export] Instance otp_vault_laws : VaultStoreLaws otp_vault (λ _ _, demo_dek).
Proof.
  split; [intros; by apply guar_ret|intros; by apply guar_ret| | |done|done].
  - by intros m w w' d [= <- <-].
  - by intros m s w w' p [= <- <-].
Qed.
Definition otp_dek : string → string → N → CEff CustomerDekError string := pool_dek otp_vault (λ _, demo_cache).
Definition acme_context : RegistryContext := MkContext acme "tenant_acme" demo_config demo_dek empty_active.
Definition auth_service : ProducerContext := MkProducerContext 7 acme_context.
Definition login_code : SendOtpRequest := MkOtpRequest 42 "+15550100" "123456".
Definition accepting (_ : string) (_ : list Call) (_ _ : string) : result SendOutcome SenderError := Ok (MkSent "ref-1" "queued").
Definition one_provider : gmap N (list ResolvedProviderConfig) := {[1%N := [MkResolved 1 "secret/data/acme/sms" "key"]]}.
(** Vault gives no credential. *)
Definition vault_down (_ _ : string) : CEff KeyStoreError string := ethrow Client.
Definition nonces_12 : string * string := ("nonce-of-12-", "nonce-of-12.")%string.

(** Every statement fails. *)
Definition outage : CW := World two_tenants 100 false (replicate 30 (Move 0 FaultBefore (λ c, c))) [].
Definition send_login (w : CW) :=
  otp_send_otp demo_hmac otp_dek "buffer" "pending" vault_down accepting id ∅ one_provider 5 nonces_12 auth_service login_code w.

(** The control database answers once, and then every statement fails. *)
Definition late_outage : CW :=
  World two_tenants 100 false (Move 0 NoFault (λ c, c) :: replicate 30 (Move 0 FaultBefore (λ c, c))) [].
Definition acme_open : Registry := {[1%N := MkEntry acme_context 0]}.
Definition route_login (w : CW) :=
  otp_route demo_hmac otp_dek "buffer" "pending" vault_down accepting id otp_vault "postgres://" (λ _ r, r) ∅ acme_open
    one_provider 5 nonces_12 (Some "cn=fraud"%string) login_code w.
Lemma login_identified :
  ∃ reg px, (otp_from_request_parts otp_vault "postgres://" (λ _ r, r) acme_open (Some "cn=fraud"%string) late_outage).2 = Ok (reg, px)
    ∧ tt_id (rx_tenant (px_tenant px)) = 1%N.
Proof. eexists _, _. split; [vm_compute; reflexivity|vm_compute; reflexivity]. Qed.

Lemma outages_witness :
  w_trace (route_login late_outage).1 = [MkCall "sms" "+15550100" "123456"]
  ∧ ∃ reg, (route_login late_outage).2 = Ok (reg, one_provider, Ok 5%N).
Proof.
  pose proof (outages_never_block_an_otp otp_vault (λ _ _, demo_dek) demo_hmac otp_dek "buffer" "pending" vault_down accepting id
    "postgres://" (λ _ r, r) ∅ acme_open one_provider 5 nonces_12 (Some "cn=fraud"%string) login_code late_outage) as Hp.
  change (otp_route _ _ _ _ _ _ _ _ _ _ _ _ _ _ _ _ _ late_outage) with (route_login late_outage) in Hp.
  destruct (route_login late_outage) as [w' r]. destruct login_identified as (reg & px & E & Hid). rewrite E in Hp. cbv zeta in Hp.
  rewrite Hid in Hp. change (is_enabled 1 ∅) with true in Hp. cbv iota in Hp.
  specialize (Hp [MkResolved 1 "secret/data/acme/sms" "key"] eq_refl). destruct Hp as (Ht & Hr & _). split; [exact Ht|exists reg; exact Hr].
Defined.

Lemma outage_rely : rely (accounting "buffer" "pending") outage.
Proof. split; [|done]. apply Forall_replicate. intros d. reflexivity. Qed.
Lemma acme_context_ok : context_ok 1 acme_context two_tenants.
Proof. split; [done|]. exists acme. by split_and!. Qed.

Lemma demo_aead_total key nonce aad msg : String.length key = KEY_LEN → is_Some (aead_encrypt key nonce aad msg).
Proof. intros _. exists msg. reflexivity. Qed.

Lemma accounted_witness :
  ∃ w' mem' answer created, send_login outage = (w', Ok (mem', answer)) ∧ 100 <= created
    ∧ accounted "buffer" "pending" 1 (created, 5%N) (w_db w').
Proof.
  destruct (every_otp_is_accounted_for demo_hmac otp_dek otp_label "buffer" "pending" (λ _ _, eq_refl) demo_aead_total
    (otp_deliver vault_down accepting id) ∅ one_provider 5 nonces_12 auth_service login_code outage) as (w' & m & a & t & H1 & H2 & _ & H3).
  - intros m x d b. apply otp_deliver_guar; [apply _|]. intros. apply (guar_throw (accounting "buffer" "pending")).
  - done.
  - exact outage_rely.
  - exact acme_context_ok.
  - exists w', m, a, t. by split_and!.
Defined.

Lemma deferred_witness :
  recover demo_hmac otp_label demo_dek demo_dek "nonce-of-12-"
    (MkPending 1 5 100 42 7 ("nonce-of-12." +:+ "+15550100") "sent" "ref-1" None)
  = Some (MkRecord 1 5 100 42 7 demo_dek ("nonce-of-12-" +:+ "+15550100") "sent" "ref-1" None).
Proof.
  refine (eq_trans (proj1 (deferred_records_are_recovered demo_hmac otp_label demo_dek demo_dek "nonce-of-12." "nonce-of-12-"
    (MkPending 1 5 100 42 7 ("nonce-of-12." +:+ "+15550100") "sent" "ref-1" None) "+15550100" ("nonce-of-12." +:+ "+15550100")
    eq_refl eq_refl _ _ eq_refl)) _); vm_compute; reflexivity.
Defined.

(** A record that waits in the buffer, and one that waits in the pending file. *)
Definition waiting : AuditRecord := MkRecord 1 5 100 42 7 demo_dek "c" "sent" "ref-1" None.
Definition arriving : AuditRecord := MkRecord 1 6 100 43 7 demo_dek "c" "sent" "ref-2" None.
Definition undone : PendingAuditRecord := MkPending 1 8 100 42 7 ("nonce-of-12." +:+ "+15550100") "sent" "ref-3" None.
Definition with_files : Cluster :=
  on_disk (λ _, {["buffer"%string := [audit_line waiting]; "pending"%string := [pending_line undone]]}) two_tenants.
Lemma with_files_ok : tenants_ok with_files.
Proof. destruct two_tenants_ok as [A B]. split; [exact A|exact B]. Qed.
Definition ledger_keys (c : Cluster) : list (Z * N) :=
  match cl_database c !! "tenant_acme"%string with
  | Some d => (map_to_list (db_request (td_tables d))).*1
  | None => []
  end.

Lemma no_contexts_ok c : registry_ok ∅ c.
Proof. by intros i e ?%lookup_empty_Some. Qed.

Lemma buffer_drain_witness :
  let w' := (drain "buffer" otp_vault "postgres://" (λ _, id) ∅ (cluster_world with_files)).1 in
  accounting "buffer" "pending" with_files (w_db w') ∧ ledger_keys (w_db w') = [(100, 5%N)]
  ∧ cl_disk (w_db w') !! "buffer"%string = Some [].
Proof.
  cbv zeta. destruct (drain "buffer" otp_vault "postgres://" (λ _, id) ∅ (cluster_world with_files)) as [w' [reg|[]]] eqn:Hrun.
  split.
  - apply (buffer_drain_loses_nothing "buffer" "pending" ltac:(discriminate) otp_vault (λ _ _, demo_dek) "postgres://" (λ _, id) (λ _ _ H, H)
      ∅ (cluster_world with_files) w' reg (conj (Forall_nil_2 _) eq_refl) with_files_ok (no_contexts_ok _) Hrun).
  - replace w' with (drain "buffer" otp_vault "postgres://" (λ _, id) ∅ (cluster_world with_files)).1 by (by rewrite Hrun).
    split; vm_compute; reflexivity.
Defined.

Lemma pending_drain_witness :
  let w' := (pending_drain demo_hmac otp_dek otp_label "buffer" "pending" otp_vault "postgres://" (λ _, id) (λ _, "nonce-of-12-"%string) ∅
               (cluster_world with_files)).1 in
  accounting "buffer" "pending" with_files (w_db w') ∧ ledger_keys (w_db w') = [(100, 8%N)]
  ∧ cl_disk (w_db w') !! "pending"%string = Some [].
Proof.
  cbv zeta. destruct (pending_drain _ _ _ _ _ _ _ _ _ _ (cluster_world with_files)) as [w' [reg|[]]] eqn:Hrun.
  split.
  - apply (pending_drain_loses_nothing demo_hmac otp_dek otp_label "buffer" "pending" ltac:(discriminate) otp_vault (λ _ _, demo_dek)
      "postgres://" (λ _, id) (λ _ _ H, H) (λ _, eq_refl) (λ _, "nonce-of-12-"%string) ∅ (cluster_world with_files) w' reg
      (conj (Forall_nil_2 _) eq_refl) with_files_ok (no_contexts_ok _) Hrun).
  - replace w' with (pending_drain demo_hmac otp_dek otp_label "buffer" "pending" otp_vault "postgres://" (λ _, id) (λ _, "nonce-of-12-"%string) ∅
      (cluster_world with_files)).1 by (by rewrite Hrun).
    split; vm_compute; reflexivity.
Defined.

(** A record that is appended while the buffer is being drained is gone: the drain
    writes back what it read, over the new line. *)
Theorem drain_forgets_what_arrives_meanwhile :
  let appended (c : Cluster) :=
    w_db (append "buffer" (audit_line arriving) (cluster_world c)).1 in
  let w := World with_files 100 false
    [Move 0 NoFault (λ c, c); Move 0 NoFault (λ c, c); Move 0 NoFault appended] [] in
  let c := w_db (drain "buffer" otp_vault "postgres://" (λ _, id) ∅ w).1 in
  accounting "buffer" "pending" with_files (appended with_files)
  ∧ in_buffer "buffer" 1 (record_key arriving) (appended with_files)
  ∧ ledger_keys c = [(100, 5%N)] ∧ cl_disk c !! "buffer"%string = Some []
  ∧ (cl_disk c !! "pending"%string) = Some [pending_line undone].
Proof.
  cbv zeta. split_and!; [| |vm_compute; reflexivity..].
  - apply accounting_append.
  - destruct (appended_line "buffer" (audit_line arriving) with_files) as (l & H1 & H2).
    exists l, (audit_line arriving), arriving. split_and!; [exact H1|exact H2|apply audit_of_line|done|done].
Qed.

(** A refresh while Vault is out of reach replaces the credentials in memory by none,
    and from then on no password is sent until Vault is back. *)
Definition acme_provider : Cluster :=
  on_database (alter (on_provider (λ _, {[("sms"%string, 1) := MkProvider "p" "secret/data/acme/sms" 10]})) "tenant_acme"%string) two_tenants.
Theorem refresh_during_a_vault_outage_drops_the_credentials :
  let refreshed := refresh_once vault_down otp_vault "postgres://" (λ _, id) id ∅ one_provider (cluster_world acme_provider) in
  let send entries := otp_send_otp demo_hmac otp_dek "buffer" "pending" vault_down accepting id ∅ entries 5 nonces_12
                        auth_service login_code (cluster_world acme_provider) in
  (snd <$> match refreshed.2 with Ok r => Some r | Err _ => None end) = Some {[1%N := []]}
  ∧ (send one_provider).2 = Ok (one_provider, Ok 5%N)
  ∧ (send {[1%N := []]}).2 = Ok ({[1%N := []]}, Err OSendFailed)
  ∧ w_trace (send {[1%N := []]}).1 = [].
Proof. cbv zeta. split_and!; vm_compute; reflexivity. Qed.
