(* ===== verification/Settings.v ===== *)
(** * Settings: tenant configuration, quiet hours, providers and quotas

    Models [src/tenant_config/{configure,repo}.rs],
    [src/quiet_hours/{configure,repo}.rs], [src/provider_config/{configure,repo}.rs]
    and [src/producer_quota/{configure,repo}.rs]: the operations of an operator that
    create or change one row of a tenant's database, each with its audit row in the
    control database. They share one shape, the record [Setting] with its laws
    [SettingLaws]; the tenant's configuration is read and written under a lock. *)

From S2P Require Import Prelude RustStd Time Schema KillSwitch Quota QuietHours Dek Outbox Ingest Tenancy Producers Otp.
From stdpp Require Import base gmap strings list sorting pretty.
From Stdlib Require Import ZArith Lia.

Local Open Scope effect_scope.
Local Open Scope Z_scope.

(** ** Errors and audit text *)

(** The [ConfigureError] of the settings: most know only [Database]; [StPanic] is the
    panic of a mis-routed pool. *)
Inductive SettingError : Type := StDatabase (e : SqlxError) | StVault (e : KeyStoreError) | StPanic.
Definition setting_of_connect (e : ConnectError) : SettingError :=
  match e with CSqlx e => StDatabase e | CMisrouted => StPanic end.

(** How serde writes the values of an audit row: numbers and booleans, and dates and
    times by way of chrono. *)
Class ChronoText : Type := { show_datetime : Z → string; show_datetime_nanos : Z → string; show_time : Z → string }.
Definition json_num (n : Z) : option string := Some (pretty n).
Definition json_opt_num (o : option Z) : option string := pretty <$> o.
Definition json_bool (b : bool) : option string := Some (if b then "true" else "false")%string.

(** A statement that answers nothing. *)
Definition put_stmt (put : TenantDb → result TenantDb SqlxError) (d : TenantDb) : result (TenantDb * unit) SqlxError :=
  match put d with Ok d' => Ok (d', tt) | Err e => Err e end.

(** ** The shape of a [set] *)

(** How a row is found, compared with an input and written, and what is recorded. *)
Record Setting (I V : Type) : Type := MkSetting {
  sg_load : I → TenantDb → option V;
  sg_matches : I → V → bool;
  sg_upsert : string → I → CEff SqlxError unit;
  sg_audit : string → option N → I → string → CEff SqlxError unit;
}.
Arguments MkSetting {I V}.
Arguments sg_load {I V}.
Arguments sg_matches {I V}.
Arguments sg_upsert {I V}.
Arguments sg_audit {I V}.

Section Set_.
Context {I V : Type} (s : Setting I V).

Definition set_outcome (input : I) (existing : option V) : string :=
  match existing with
  | None => "created"
  | Some existing => if sg_matches s input existing then "idempotent" else "updated"
  end.

(** The [set_*_inner] without a transaction: the read, the write and the audit row are
    three statements. *)
Definition set_inner (pool : string) (tenant_id : N) (actor : string) (input : I) : CEff SettingError string :=
  existing ←! elift StDatabase (pool_query pool (λ _, sg_load s input));
  let outcome := set_outcome input existing in
  (if decide (outcome = "idempotent"%string) then eret tt else elift StDatabase (sg_upsert s pool input)) ;!
  elift StDatabase (sg_audit s actor (Some tenant_id) input outcome) ;!
  eret outcome.
End Set_.

Section Tenant_.
Context `{!PgUrl} (base_db_url : string).

(** The tenant of a slug and its pool, which most operations start with: [unknown] runs
    when there is none. *)
Definition by_slug {E A} (of_sqlx : SqlxError → E) (of_connect : ConnectError → E) (tenant_slug : string)
    (unknown : CEff E A) (body : Tenant → string → CEff E A) : CEff E A :=
  tenant ←! elift of_sqlx (query (λ _, find_by_slug tenant_slug));
  match tenant with
  | None => unknown
  | Some tenant =>
      pool ←! elift of_connect (connect_tenant_pool base_db_url (tt_id tenant) (tt_database_name tenant));
      body tenant (tp_pool pool)
  end.

(** The same for a setting, which is refused for an unknown slug after [unknown] ran. *)
Definition with_tenant {A} (tenant_slug : string) (unknown : CEff SqlxError unit)
    (body : Tenant → string → CEff SettingError A) : CEff SettingError A :=
  by_slug StDatabase setting_of_connect tenant_slug
    (elift StDatabase unknown ;! ethrow (StDatabase rejection.NO_SLUG)) body.

(** A [set] by slug: an unknown slug leaves a ["rejected"] row of no tenant. *)
Definition set_by_slug {I V} (s : Setting I V) (tenant_slug : string) (input : I) (actor : string)
    : CEff SettingError string :=
  with_tenant tenant_slug (sg_audit s actor None input "rejected")
    (λ tenant pool, set_inner s pool (tt_id tenant) actor input).

(** A read by slug: nothing is recorded. *)
Definition show_by_slug {A} (tenant_slug : string) (f : TenantDb → A) : CEff SettingError A :=
  with_tenant tenant_slug (eret tt) (λ _ pool, elift StDatabase (pool_query pool (λ _, f))).
End Tenant_.

(** ** [tenant_config] *)

(** [TenantConfigInput::matches]; the input has the columns of the row. *)
Definition config_matches (input existing : TenantConfig) : bool :=
  (cf_retention_years input =? cf_retention_years existing)
  && bool_decide (cf_default_timezone input = cf_default_timezone existing)
  && bool_decide (cf_default_locale input = cf_default_locale existing)
  && (cf_schedule_horizon_days input =? cf_schedule_horizon_days existing)
  && bool_decide (cf_quota_day_boundary_tz input = cf_quota_day_boundary_tz existing)
  && bool_decide (cf_verification_mode input = cf_verification_mode existing)
  && (cf_kill_switch_release_rate input =? cf_kill_switch_release_rate existing)
  && (cf_reconcile_attempts_cap input =? cf_reconcile_attempts_cap existing).

Definition config_detail (input : TenantConfig) : list (string * option string) :=
  [("retention_years", json_num (cf_retention_years input));
   ("default_timezone", Some (cf_default_timezone input));
   ("default_locale", Some (cf_default_locale input));
   ("schedule_horizon_days", json_num (cf_schedule_horizon_days input));
   ("quota_day_boundary_tz", Some (cf_quota_day_boundary_tz input));
   ("verification_mode", Some (cf_verification_mode input));
   ("kill_switch_release_rate", json_num (cf_kill_switch_release_rate input));
   ("reconcile_attempts_cap", json_num (cf_reconcile_attempts_cap input))]%string.
Definition audit_config (actor : string) (tenant : option N) (input : TenantConfig) (outcome : string)
    : CEff SqlxError unit :=
  record_audit actor "tenant_config.set" tenant (config_detail input ++ [("outcome", Some outcome)]%string).

(** [repo::lock_tx]: the transaction waits its turn; what it reads then is still there
    when it writes. *)
Definition lock_config (pool : string) : CEff SqlxError unit := pool_query pool (λ _ _, tt).
(** [repo::load] and [repo::load_tx]. *)
Definition load_config (pool : string) : CEff SqlxError (option TenantConfig) := pool_query pool (λ _, td_config).
Definition upsert_config (pool : string) (input : TenantConfig) : CEff SqlxError unit :=
  pool_sql pool (λ _ d, Ok (set_config input d, tt)).

Definition config_outcome (input : TenantConfig) (existing : option TenantConfig) : string :=
  match existing with
  | None => "created"
  | Some existing => if config_matches input existing then "idempotent" else "updated"
  end.

(** The transaction of [set_tenant_config_inner]. *)
Definition set_config_tx (pool : string) (input : TenantConfig) : CEff SqlxError string :=
  lock_config pool ;!
  existing ←! load_config pool;
  let outcome := config_outcome input existing in
  (if decide (outcome = "idempotent"%string) then eret tt else upsert_config pool input) ;!
  eret outcome.

Definition set_tenant_config_inner (pool : string) (tenant_id : N) (actor : string) (input : TenantConfig)
    : CEff SettingError string :=
  outcome ←! elift StDatabase (transaction (set_config_tx pool input) (λ _, true));
  elift StDatabase (audit_config actor (Some tenant_id) input outcome) ;!
  eret outcome.

Definition set_tenant_config `{!PgUrl} (base_db_url tenant_slug : string) (input : TenantConfig) (actor : string)
    : CEff SettingError string :=
  with_tenant base_db_url tenant_slug (audit_config actor None input "rejected")
    (λ tenant pool, set_tenant_config_inner pool (tt_id tenant) actor input).

Definition show_tenant_config `{!PgUrl} (base_db_url tenant_slug : string) : CEff SettingError (option TenantConfig) :=
  show_by_slug base_db_url tenant_slug td_config.

(** ** [quiet_hours] *)

Definition DEFAULT_SCOPE : string := "default".
Definition DEFAULT_SCOPE_KEY : string := "".

Definition policy_matches (input existing : QuietHoursPolicy) : bool :=
  (qh_start_local input =? qh_start_local existing) && (qh_end_local input =? qh_end_local existing).
Definition load_default (d : TenantDb) : option QuietHoursPolicy :=
  td_quiet_hours d !! (DEFAULT_SCOPE, DEFAULT_SCOPE_KEY).
Definition put_default (input : QuietHoursPolicy) (d : TenantDb) : result TenantDb SqlxError :=
  Ok (on_quiet_hours (<[(DEFAULT_SCOPE, DEFAULT_SCOPE_KEY) := input]>) d).
Definition upsert_default (pool : string) (input : QuietHoursPolicy) : CEff SqlxError unit :=
  pool_sql pool (λ _, put_stmt (put_default input)).
Definition audit_quiet_hours `{!ChronoText} (actor : string) (tenant : option N) (input : QuietHoursPolicy)
    (outcome : string) : CEff SqlxError unit :=
  record_audit actor "quiet_hours_policy.set" tenant
    [("start_local", Some (show_time (qh_start_local input)));
     ("end_local", Some (show_time (qh_end_local input))); ("outcome", Some outcome)]%string.

Definition quiet_hours_setting `{!ChronoText} : Setting QuietHoursPolicy QuietHoursPolicy :=
  MkSetting (λ _, load_default) policy_matches upsert_default audit_quiet_hours.
Definition set_quiet_hours_policy `{!PgUrl} `{!ChronoText} (base_db_url tenant_slug : string)
    (input : QuietHoursPolicy) (actor : string) : CEff SettingError string :=
  set_by_slug base_db_url quiet_hours_setting tenant_slug input actor.
Definition show_quiet_hours_policy `{!PgUrl} (base_db_url tenant_slug : string)
    : CEff SettingError (option QuietHoursPolicy) :=
  show_by_slug base_db_url tenant_slug load_default.

(** ** [provider_config] *)

(** [ProviderConfigInput]: the key of the row, and its other columns. *)
Record ProviderInput : Type := MkProviderInput { pi_channel : string; pi_priority : Z; pi_config : ProviderConfig }.

(** The row was found under the key, so those columns agree. *)
Definition provider_matches (input : ProviderInput) (existing : ProviderConfig) : bool :=
  bool_decide (pv_provider (pi_config input) = pv_provider existing)
  && bool_decide (pv_credential_path (pi_config input) = pv_credential_path existing)
  && (pv_rate_limit_per_sec (pi_config input) =? pv_rate_limit_per_sec existing).
Definition load_provider (input : ProviderInput) (d : TenantDb) : option ProviderConfig :=
  td_provider d !! (pi_channel input, pi_priority input).
Definition put_provider (input : ProviderInput) (d : TenantDb) : result TenantDb SqlxError :=
  Ok (on_provider (<[(pi_channel input, pi_priority input) := pi_config input]>) d).
Definition upsert_provider (pool : string) (input : ProviderInput) : CEff SqlxError unit :=
  pool_sql pool (λ _, put_stmt (put_provider input)).
Definition audit_provider (actor : string) (tenant : option N) (input : ProviderInput) (outcome : string)
    : CEff SqlxError unit :=
  record_audit actor "provider_config.set" tenant
    [("channel", Some (pi_channel input)); ("priority", json_num (pi_priority input));
     ("provider", Some (pv_provider (pi_config input)));
     ("credential_path", Some (pv_credential_path (pi_config input)));
     ("rate_limit_per_sec", json_num (pv_rate_limit_per_sec (pi_config input))); ("outcome", Some outcome)]%string.

Definition provider_setting : Setting ProviderInput ProviderConfig :=
  MkSetting load_provider provider_matches upsert_provider audit_provider.
Definition set_provider_config `{!PgUrl} (base_db_url tenant_slug : string) (input : ProviderInput) (actor : string)
    : CEff SettingError string :=
  set_by_slug base_db_url provider_setting tenant_slug input actor.
Definition list_provider_config `{!PgUrl} (base_db_url tenant_slug channel : string)
    : CEff SettingError (list (Z * ProviderConfig)) :=
  show_by_slug base_db_url tenant_slug (list_providers channel).

(** ** [producer_quota] *)

Record QuotaInput : Type := MkQuotaInput { qi_producer_id : N; qi_channel : string; qi_class : string; qi_quota : ProducerQuota }.
Definition qi_key (input : QuotaInput) : QuotaKey := (qi_producer_id input, qi_channel input, qi_class input).

Definition quota_matches (input : QuotaInput) (existing : ProducerQuota) : bool :=
  bool_decide (pq_per_minute (qi_quota input) = pq_per_minute existing)
  && bool_decide (pq_per_day (qi_quota input) = pq_per_day existing)
  && bool_decide (pq_enforcement (qi_quota input) = pq_enforcement existing).
(** [repo::load_one]. *)
Definition load_quota (key : QuotaKey) (d : TenantDb) : option ProducerQuota := db_quota (td_tables d) !! key.
(** [producer_id] references the producer. *)
Definition put_quota (input : QuotaInput) (d : TenantDb) : result TenantDb SqlxError :=
  match td_producer d !! qi_producer_id input with
  | None => Err (SqlConstraint "producer_quota_producer_id_fkey")
  | Some _ => Ok (on_tables (on_quota (<[qi_key input := qi_quota input]>)) d)
  end.
Definition upsert_quota (pool : string) (input : QuotaInput) : CEff SqlxError unit :=
  pool_sql pool (λ _, put_stmt (put_quota input)).
Definition audit_quota `{!UuidText} (actor : string) (tenant producer : option N) (input : QuotaInput) (outcome : string)
    : CEff SqlxError unit :=
  record_audit actor "producer_quota.set" tenant
    [("producer_id", uuid_str <$> producer); ("channel", Some (qi_channel input)); ("class", Some (qi_class input));
     ("per_minute", json_opt_num (pq_per_minute (qi_quota input)));
     ("per_day", json_opt_num (pq_per_day (qi_quota input)));
     ("enforcement", Some (pq_enforcement (qi_quota input))); ("outcome", Some outcome)]%string.

Definition quota_setting `{!UuidText} : Setting QuotaInput ProducerQuota :=
  MkSetting (λ input, load_quota (qi_key input)) quota_matches upsert_quota
    (λ actor tenant input, audit_quota actor tenant (Some (qi_producer_id input)) input).
(** [set_producer_quota_inner]. *)
Definition set_producer_quota_inner `{!UuidText} (pool : string) (tenant_id : N) (actor : string) (input : QuotaInput)
    : CEff SettingError string :=
  set_inner quota_setting pool tenant_id actor input.

(** The class and enforcement no quota may have. *)
Definition illegal_quota (class_value enforcement_value : string) : bool :=
  bool_decide (class_value = class.AUTH)
  || (bool_decide (class_value = class.TRANSACTIONAL) && bool_decide (enforcement_value = enforcement.HARD)).

Module quota_rejection.
Definition NO_PRODUCER : SqlxError := SqlConfiguration "no producer registered with name".
Definition AUTH : SqlxError := SqlConfiguration "producer_quota cannot be configured for class auth".
Definition TRANSACTIONAL : SqlxError := SqlConfiguration "producer_quota cannot use hard enforcement for class transactional".
Definition OVERRIDE_AUTH : SqlxError := SqlConfiguration "producer_quota_override cannot be configured for class auth".
Definition OVERRIDE_WINDOW : SqlxError := SqlConfiguration "producer_quota_override valid_to must be after valid_from".
Definition OVERRIDE_AMOUNT : SqlxError := SqlConfiguration "producer_quota_override per_day must be positive".
End quota_rejection.

Section Quotas.
Context `{!PgUrl} `{!UuidText} `{!ChronoText} (base_db_url : string).

(** [resolve_tenant_and_producer], in front of the work that needs both. *)
Definition with_producer {A} (tenant_slug producer_name actor action : string)
    (body : Tenant → string → N → CEff SettingError A) : CEff SettingError A :=
  with_tenant base_db_url tenant_slug
    (record_audit actor action None [("outcome", Some "rejected"); ("reason", Some "unknown tenant_slug")]%string)
    (λ tenant pool,
      producer ←! elift StDatabase (pool_query pool (λ _, find_by_name producer_name));
      match producer with
      | None =>
          elift StDatabase (record_audit actor action (Some (tt_id tenant))
            [("outcome", Some "rejected"); ("reason", Some "unknown producer_name")]%string) ;!
          ethrow (StDatabase quota_rejection.NO_PRODUCER)
      | Some producer => body tenant pool (pr_id producer)
      end).

Definition set_producer_quota (tenant_slug producer_name channel class_value : string) (quota : ProducerQuota)
    (actor : string) : CEff SettingError string :=
  with_producer tenant_slug producer_name actor "producer_quota.set" (λ tenant pool producer_id,
    let input := MkQuotaInput producer_id channel class_value quota in
    if illegal_quota class_value (pq_enforcement quota) then
      elift StDatabase (audit_quota actor (Some (tt_id tenant)) (Some producer_id) input "rejected") ;!
      ethrow (StDatabase (if decide (class_value = class.AUTH) then quota_rejection.AUTH
                          else quota_rejection.TRANSACTIONAL))
    else set_producer_quota_inner pool (tt_id tenant) actor input).

(** [ORDER BY producer_id, channel, class]. *)
Definition key_order (a b : QuotaKey * ProducerQuota) : Prop :=
  let '((p, c, l), _) := a in let '((q, d, m), _) := b in
  (p < q)%N ∨ (p = q ∧ (String.ltb c d = true ∨ (c = d ∧ String.leb l m = true))).
#[export] Instance key_order_dec : RelDecision key_order.
Proof. intros [[[p c] l] x] [[[q d] m] y]. unfold key_order. apply _. Defined.
Definition list_quotas (d : TenantDb) : list (QuotaKey * ProducerQuota) :=
  merge_sort key_order (map_to_list (db_quota (td_tables d))).
Definition list_producer_quota (tenant_slug : string) : CEff SettingError (list (QuotaKey * ProducerQuota)) :=
  show_by_slug base_db_url tenant_slug list_quotas.

(** *** Overrides *)

(** The ends of the window are in nanoseconds, as they were read. *)
Record ProducerQuotaOverrideInput : Type := MkOverrideInput {
  oi_producer_id : N;
  oi_channel : string;
  oi_class : string;
  oi_per_day : Z;
  oi_valid_from : Z;
  oi_valid_to : Z;
  oi_approved_by : string;
  oi_reason : string;
}.
(** The row of an input. *)
Definition override_row (input : ProducerQuotaOverrideInput) : ProducerQuotaOverride :=
  MkOverride (oi_producer_id input) (oi_channel input) (oi_class input) (oi_per_day input)
    (timestamptz (oi_valid_from input)) (timestamptz (oi_valid_to input)) (oi_approved_by input) (oi_reason input).

(** [repo::insert_override]; the id is drawn. *)
Definition insert_override (pool : string) (id : N) (input : ProducerQuotaOverrideInput) : CEff SqlxError unit :=
  pool_sql pool (λ _ d,
    match db_override (td_tables d) !! id, td_producer d !! oi_producer_id input with
    | Some _, _ => Err (SqlConstraint "producer_quota_override_pkey")
    | None, None => Err (SqlConstraint "producer_quota_override_producer_id_fkey")
    | None, Some _ => Ok (on_tables (on_override (<[id := override_row input]>)) d, tt)
    end).
Definition audit_override_add (actor : string) (tenant producer : option N) (input : ProducerQuotaOverrideInput)
    (outcome : string) : CEff SqlxError unit :=
  record_audit actor "producer_quota_override.add" tenant
    [("producer_id", uuid_str <$> producer); ("channel", Some (oi_channel input)); ("class", Some (oi_class input));
     ("per_day", json_num (oi_per_day input)); ("valid_from", Some (show_datetime_nanos (oi_valid_from input)));
     ("valid_to", Some (show_datetime_nanos (oi_valid_to input))); ("approved_by", Some (oi_approved_by input));
     ("outcome", Some outcome)]%string.

(** Why an override is refused, if it is. *)
Definition override_rejection (class_value : string) (per_day valid_from valid_to : Z) : option SqlxError :=
  if decide (class_value = class.AUTH) then Some quota_rejection.OVERRIDE_AUTH
  else if valid_to <=? valid_from then Some quota_rejection.OVERRIDE_WINDOW
  else if per_day <=? 0 then Some quota_rejection.OVERRIDE_AMOUNT
  else None.

Definition add_producer_quota_override (id : N) (tenant_slug producer_name channel class_value : string)
    (per_day valid_from valid_to : Z) (approved_by reason actor : string) : CEff SettingError N :=
  with_producer tenant_slug producer_name actor "producer_quota_override.add" (λ tenant pool producer_id,
    let input := MkOverrideInput producer_id channel class_value per_day valid_from valid_to approved_by reason in
    match override_rejection class_value per_day valid_from valid_to with
    | Some reason =>
        elift StDatabase (audit_override_add actor (Some (tt_id tenant)) (Some producer_id) input "rejected") ;!
        ethrow (StDatabase reason)
    | None =>
        elift StDatabase (insert_override pool id input) ;!
        elift StDatabase (audit_override_add actor (Some (tt_id tenant)) (Some producer_id) input "created") ;!
        eret id
    end).

(** [ORDER BY valid_from DESC]. *)
Definition later_override (a b : N * ProducerQuotaOverride) : Prop := po_valid_from b.2 <= po_valid_from a.2.
#[export] Instance later_override_dec : RelDecision later_override.
Proof. intros a b. unfold later_override. apply _. Defined.
Definition list_overrides (d : TenantDb) : list (N * ProducerQuotaOverride) :=
  merge_sort later_override (map_to_list (db_override (td_tables d))).
Definition list_producer_quota_overrides (tenant_slug : string) : CEff SettingError (list (N * ProducerQuotaOverride)) :=
  show_by_slug base_db_url tenant_slug list_overrides.
End Quotas.

(** ** What a setting promises *)

(** The setting is one finite map of the database: [sl_put] is the statement of the
    upsert, which puts under the input's key a value that matches the input, and the
    audit row names the action and ends with the outcome. *)
Class SettingLaws {I V : Type} (s : Setting I V) (K : Type) `{!EqDecision K} `{!Countable K} : Type := {
  sl_view : TenantDb → gmap K V;
  sl_of : I → K;
  sl_value : Z → I → option V → V;
  sl_put : Z → I → TenantDb → result TenantDb SqlxError;
  sl_action : string;
  sl_detail : I → list (string * option string);
  sl_load i d : sg_load s i d = sl_view d !! sl_of i;
  sl_matches t i o : sg_matches s i (sl_value t i o) = true;
  sl_put_view t i d d' :
    sl_put t i d = Ok d' → sl_view d' = <[sl_of i := sl_value t i (sl_view d !! sl_of i)]> (sl_view d);
  sl_calm pool i (w : CW) d :
    calm w → cl_database (w_db w) !! pool = Some d →
    sg_upsert s pool i w = match sl_put (w_now w) i d with
                           | Ok d' => (set_db (on_database (<[pool := d']>) (w_db w)) w, Ok tt)
                           | Err e => (w, Err e)
                           end;
  sl_guar (R : relation Cluster) `{!PreOrder R} pool i :
    (∀ t c d d', cl_database c !! pool = Some d → sl_put t i d = Ok d' → R c (on_database (<[pool := d']>) c)) →
    guar R (sg_upsert s pool i);
  sl_audit actor tenant i o :
    sg_audit s actor tenant i o = record_audit actor sl_action tenant (sl_detail i ++ [("outcome", Some o)]%string);
}.

(** Statements on a pool, in and out of a transaction. *)
Lemma tx_guar_pool (R : relation Cluster) `{!PreOrder R} {A} pool (f : Z → TenantDb → result (TenantDb * A) SqlxError) :
  (∀ t c d d' a, cl_database c !! pool = Some d → f t d = Ok (d', a) → R c (on_database (<[pool := d']>) c)) →
  tx_guar R (pool_sql pool f).
Proof.
  intros HR. apply tx_guar_sql. intros t c c' a. unfold on_pool. destruct (cl_database c !! pool) as [d|] eqn:Hd; [|done].
  destruct (f t d) as [[d' a']|] eqn:Hf; [|done]. intros [= <- <-]. by eapply HR.
Qed.
Lemma guar_pool (R : relation Cluster) `{!PreOrder R} {A} pool (f : Z → TenantDb → result (TenantDb * A) SqlxError) :
  (∀ t c d d' a, cl_database c !! pool = Some d → f t d = Ok (d', a) → R c (on_database (<[pool := d']>) c)) →
  guar R (pool_sql pool f).
Proof.
  intros HR. apply guar_sql; [apply _|]. intros t c c' a. unfold on_pool.
  destruct (cl_database c !! pool) as [d|] eqn:Hd; [|done]. destruct (f t d) as [[d' a']|] eqn:Hf; [|done].
  intros [= <- <-]. by eapply HR.
Qed.

#[export] Hint Extern 1 (guar _ (pool_query _ _)) => apply guar_pool_query; apply _ : effects.

Lemma on_database_id pool d c : cl_database c !! pool = Some d → on_database (<[pool := d]>) c = c.
Proof. destruct c; unfold on_database; simpl. intros Hd. by rewrite insert_id. Qed.

Lemma pool_put_calm pool (put : Z → TenantDb → result TenantDb SqlxError) (w : CW) d :
  calm w → cl_database (w_db w) !! pool = Some d →
  pool_sql pool (λ t, put_stmt (put t)) w = match put (w_now w) d with
    | Ok d' => (set_db (on_database (<[pool := d']>) (w_db w)) w, Ok tt)
    | Err e => (w, Err e)
    end.
Proof.
  intros [Hc _] Hd. unfold pool_sql. rewrite sql_calm by done. unfold on_pool, put_stmt. rewrite Hd.
  by destruct (put (w_now w) d).
Qed.

Lemma pool_put_guar (R : relation Cluster) `{!PreOrder R} pool (put : Z → TenantDb → result TenantDb SqlxError) :
  (∀ t c d d', cl_database c !! pool = Some d → put t d = Ok d' → R c (on_database (<[pool := d']>) c)) →
  guar R (pool_sql pool (λ t, put_stmt (put t))).
Proof.
  intros HR. apply guar_pool; [apply _|]. intros t c d d' u Hd. unfold put_stmt.
  destruct (put t d) as [x|] eqn:Hp; [|done]. intros [= <- _]. by eapply HR.
Qed.

#[export, refine] Instance quiet_hours_laws `{!ChronoText} : SettingLaws quiet_hours_setting (string * string) := {
  sl_view := td_quiet_hours;
  sl_of _ := (DEFAULT_SCOPE, DEFAULT_SCOPE_KEY);
  sl_value _ i _ := i;
  sl_put _ := put_default;
  sl_action := "quiet_hours_policy.set";
  sl_detail i := [("start_local", Some (show_time (qh_start_local i))); ("end_local", Some (show_time (qh_end_local i)))]%string;
}.
Proof.
  - done.
  - intros t i o. simpl. unfold policy_matches. by rewrite !Z.eqb_refl.
  - by intros t i d d' [= <-].
  - intros pool i w d Hc Hd. exact (pool_put_calm pool (λ _, put_default i) w d Hc Hd).
  - intros R HR pool i Hp. exact (pool_put_guar R pool (λ _, put_default i) Hp).
  - done.
Defined.

#[export, refine] Instance provider_laws : SettingLaws provider_setting (string * Z) := {
  sl_view := td_provider;
  sl_of i := (pi_channel i, pi_priority i);
  sl_value _ i _ := pi_config i;
  sl_put _ := put_provider;
  sl_action := "provider_config.set";
  sl_detail i := [("channel", Some (pi_channel i)); ("priority", json_num (pi_priority i));
     ("provider", Some (pv_provider (pi_config i))); ("credential_path", Some (pv_credential_path (pi_config i)));
     ("rate_limit_per_sec", json_num (pv_rate_limit_per_sec (pi_config i)))]%string;
}.
Proof.
  - done.
  - intros t i o. simpl. unfold provider_matches. by rewrite !bool_decide_true, Z.eqb_refl.
  - by intros t i d d' [= <-].
  - intros pool i w d Hc Hd. exact (pool_put_calm pool (λ _, put_provider i) w d Hc Hd).
  - intros R HR pool i Hp. exact (pool_put_guar R pool (λ _, put_provider i) Hp).
  - done.
Defined.

#[export, refine] Instance quota_laws `{!UuidText} : SettingLaws quota_setting QuotaKey := {
  sl_view d := db_quota (td_tables d);
  sl_of := qi_key;
  sl_value _ i _ := qi_quota i;
  sl_put _ := put_quota;
  sl_action := "producer_quota.set";
  sl_detail i := [("producer_id", Some (uuid_str (qi_producer_id i))); ("channel", Some (qi_channel i));
     ("class", Some (qi_class i)); ("per_minute", json_opt_num (pq_per_minute (qi_quota i)));
     ("per_day", json_opt_num (pq_per_day (qi_quota i))); ("enforcement", Some (pq_enforcement (qi_quota i)))]%string;
}.
Proof.
  - done.
  - intros t i o. simpl. unfold quota_matches. by rewrite !bool_decide_true.
  - intros t i d d'. unfold put_quota. destruct (td_producer d !! _); [|done]. by intros [= <-].
  - intros pool i w d Hc Hd. exact (pool_put_calm pool (λ _, put_quota i) w d Hc Hd).
  - intros R HR pool i Hp. exact (pool_put_guar R pool (λ _, put_quota i) Hp).
  - done.
Defined.

(** ** A set is a put *)

#[export] Instance policy_eq_dec : EqDecision QuietHoursPolicy.
Proof. solve_decision. Defined.
#[export] Instance provider_eq_dec : EqDecision ProviderConfig.
Proof. solve_decision. Defined.
#[export] Instance quota_eq_dec : EqDecision ProducerQuota.
Proof. solve_decision. Defined.
#[export] Instance config_eq_dec : EqDecision TenantConfig.
Proof. solve_decision. Defined.

(** What putting a value in the place of another, or of none, is called. *)
Definition put_outcome {V} `{!EqDecision V} (existing : option V) (v : V) : string :=
  match existing with
  | None => "created"
  | Some existing => if decide (existing = v) then "idempotent" else "updated"
  end.

Section Refinement.
Context {I V K : Type} (s : Setting I V) `{!EqDecision K} `{!Countable K} `{SL : !SettingLaws s K}.

(** The abstract operation, on the finite map the setting stands for: the outcome and
    the map after it. *)
Definition put_spec (t : Z) (i : I) (m : gmap K V) : string * gmap K V :=
  match m !! sl_of i with
  | None => ("created"%string, <[sl_of i := sl_value t i None]> m)
  | Some v => if sg_matches s i v then ("idempotent"%string, m)
              else ("updated"%string, <[sl_of i := sl_value t i (Some v)]> m)
  end.

Lemma put_spec_outcome t i m : (put_spec t i m).1 = set_outcome s i (m !! sl_of i).
Proof. unfold put_spec, set_outcome. repeat case_match; done. Qed.

Lemma put_spec_again t t' i m : put_spec t' i (put_spec t i m).2 = ("idempotent"%string, (put_spec t i m).2).
Proof.
  unfold put_spec at 2 3. destruct (m !! sl_of i) as [v|] eqn:Hm; [destruct (sg_matches s i v) eqn:Hv|]; simpl;
    unfold put_spec; by rewrite ?lookup_insert_eq, ?Hm, ?Hv, ?sl_matches.
Qed.

(** The audit row of a set of one tenant. *)
Definition set_row (actor : string) (tenant : N) (i : I) (o : string) (t : Z) : AuditRow :=
  MkAudit actor (sl_action (s:=s)) (Some tenant) (sl_detail i ++ [("outcome", Some o)]%string) t.

(** What a set leaves behind: the setting's map, one more audit row, and nothing else. *)
Lemma set_inner_calm pool tenant actor i (w : CW) d :
  calm w → cl_database (w_db w) !! pool = Some d →
  let (o, m) := put_spec (w_now w) i (sl_view (s:=s) d) in
  match set_inner s pool tenant actor i w with
  | (w', Ok o') => o' = o ∧ ∃ d', sl_view (s:=s) d' = m ∧ (d' = d ∨ sl_put (s:=s) (w_now w) i d = Ok d')
      ∧ w' = set_db (on_control_audit (λ l, l ++ [set_row actor tenant i o (w_now w)])
                       (on_database (<[pool := d']>) (w_db w))) w
  | (w', Err e) => w' = w ∧ o ≠ "idempotent"%string ∧ ∃ e', sl_put (s:=s) (w_now w) i d = Err e' ∧ e = StDatabase e'
  end.
Proof.
  intros Hc Hd. destruct (put_spec (w_now w) i (sl_view d)) as [o m] eqn:Hspec.
  assert (o = set_outcome s i (sg_load s i d)) as Ho.
  { rewrite sl_load. rewrite <- (put_spec_outcome (w_now w)). by rewrite Hspec. }
  unfold set_inner. unfold ebind at 1, elift at 1, pool_query, pool_sql. rewrite sql_calm by apply Hc.
  unfold on_pool at 1. rewrite Hd. cbn [map_err]. rewrite <- Ho.
  assert (set_db (on_database (<[pool := d]>) (w_db w)) w = w) as Hsame by (by rewrite on_database_id, set_db_same).
  rewrite Hsame. case_decide as Hi.
  - unfold ebind, eret, elift. rewrite sl_audit. unfold record_audit. rewrite exec_calm by apply Hc. simpl.
    split; [done|]. exists d. split_and!; [|by left|by rewrite on_database_id].
    revert Hspec. unfold put_spec. destruct (sl_view d !! sl_of i) as [v|]; [destruct (sg_matches s i v)|];
      intros [= <- <-]; [done|discriminate Hi..].
  - unfold ebind at 1, elift at 1. rewrite (sl_calm pool i w d Hc Hd). destruct (sl_put (w_now w) i d) as [d'|e] eqn:Hp; simpl.
    + unfold ebind, eret, elift. rewrite sl_audit. unfold record_audit.
      rewrite exec_calm by apply Hc. simpl. split; [done|]. exists d'. split_and!; [|by right|done].
      rewrite (sl_put_view _ _ _ _ Hp). revert Hspec. unfold put_spec.
      destruct (sl_view d !! sl_of i) as [v|]; [destruct (sg_matches s i v)|]; intros [= <- <-]; [by destruct Hi|done..].
    + split_and!; [done|done|eauto].
Qed.

(** Where the row found matches an input exactly when it is the value the input stands
    for, and putting it again changes nothing, a set always is the put, with the outcome
    that the old value gives. *)
Lemma set_inner_put `{!EqDecision V} pool tenant actor i (w : CW) d d' v :
  calm w → cl_database (w_db w) !! pool = Some d →
  (∀ x, sg_matches s i x = true ↔ x = v) → sl_put (s:=s) (w_now w) i d = Ok d' →
  (sl_view (s:=s) d !! sl_of i = Some v → d' = d) →
  let o := put_outcome (sl_view (s:=s) d !! sl_of i) v in
  set_inner s pool tenant actor i w
    = (set_db (on_control_audit (λ l, l ++ [set_row actor tenant i o (w_now w)]) (on_database (<[pool := d']>) (w_db w))) w, Ok o).
Proof.
  intros Hc Hd Hex Hput Hsame o. pose proof (set_inner_calm pool tenant actor i w d Hc Hd) as H.
  assert (o = (put_spec (w_now w) i (sl_view d)).1) as Ho.
  { rewrite put_spec_outcome. unfold o, put_outcome, set_outcome. destruct (sl_view d !! sl_of i) as [x|]; [|done].
    specialize (Hex x). destruct (sg_matches s i x); case_decide; naive_solver. }
  destruct (put_spec (w_now w) i (sl_view d)) as [o1 m] eqn:Hsp. simpl in Ho. subst o1.
  destruct (set_inner s pool tenant actor i w) as [w' [o'|e]]; [|destruct H as (_ & _ & e' & He & _); congruence].
  destruct H as (-> & d1 & Hv & Hd1 & ->). assert (d1 = d') as ->; [|done].
  destruct Hd1 as [->|?]; [|congruence]. symmetry. apply Hsame. revert Hsp. unfold put_spec.
  destruct (sl_view d !! sl_of i) as [x|] eqn:Hx; [destruct (sg_matches s i x) eqn:Hm|]; intros Em; apply (f_equal snd) in Em; simpl in Em.
  - f_equal. by apply Hex.
  - exfalso. rewrite Hv, <- Em, lookup_insert_eq in Hx. injection Hx as Hx. by rewrite <- Hx, sl_matches in Hm.
  - exfalso. by rewrite Hv, <- Em, lookup_insert_eq in Hx.
Qed.
End Refinement.

Lemma slug_row c slug t : tenants_ok c → find_by_slug slug c = Some t → cl_tenant c !! tt_id t = Some t ∧ tt_slug t = slug.
Proof. intros Hok (Hs & i & Hi)%find_row_Some. split; [|done]. by rewrite (to_key c Hok _ _ Hi). Qed.

(** A row of the slug was on file, with this database. *)
Definition slug_at (slug pool : string) (c : Cluster) : Prop :=
  ∃ t, cl_tenant c !! tt_id t = Some t ∧ tt_slug t = slug ∧ tt_database_name t = pool.
Lemma slug_at_stable slug pool : stable pinned (λ c, tenants_ok c ∧ slug_at slug pool c).
Proof.
  intros c c' HR [Hok (t & Ht & <- & <-)]. split; [by apply HR|].
  destruct (pi_row _ _ HR _ _ Ht) as (t' & Ht' & [= E1 E2 _ E4 _ _]). exists t'. rewrite E1. by split_and!.
Qed.
Lemma slug_at_unique slug p q c : tenants_ok c → slug_at slug p c → slug_at slug q c → p = q.
Proof.
  intros Hok (t & Ht & Hs & <-) (u & Hu & Hs' & <-). assert (tt_id t = tt_id u) as E.
  { eapply (to_unique c Hok); [done..|]. right. left. congruence. }
  rewrite E, Hu in Ht. congruence.
Qed.

Section BySlug.
Context `{PU : !PgUrl} (url slug : string) {E A : Type} (of_sqlx : SqlxError → E) (of_connect : ConnectError → E).
Context (unknown : CEff E A) (body : Tenant → string → CEff E A).

(** In a standing world a slug leads straight to the work on its tenant's database. *)
Lemma by_slug_calm (w : CW) t :
  w_env w = [] → is_ok (parse_url url) = true → tenants_ok (w_db w) → find_by_slug slug (w_db w) = Some t →
  is_Some (cl_database (w_db w) !! tt_database_name t) →
  by_slug url of_sqlx of_connect slug unknown body w = body t (tt_database_name t) w.
Proof.
  intros He Hu Hok Ht Hd. destruct (slug_row _ _ _ Hok Ht) as [Hrow _]. unfold by_slug.
  unfold ebind at 1, elift at 1. rewrite query_calm by done. rewrite Ht. cbn [map_err].
  unfold ebind, elift. by rewrite (connect_calm url (tt_id t) w t).
Qed.

Lemma slug_pool_guar (R : relation Cluster) `{!PreOrder R} :
  guar R unknown → (∀ t pool, guar R (body t pool)) → guar R (by_slug url of_sqlx of_connect slug unknown body).
Proof. intros Hu Hb. unfold by_slug. pose proof (λ id name, connect_guar url id R name) as Hconn. step_guar. Qed.

(** Among processes that keep the tenants' identities, the work is done on the database
    of a tenant with that slug. *)
Lemma by_slug_hoare (R : relation Cluster) `{!PreOrder R} P Q :
  (∀ c c', R c c' → pinned c c') → stable R P → (∀ c, P c → tenants_ok c) →
  hoare R P unknown Q (λ _, True) →
  (∀ t, hoare R (λ c, P c ∧ slug_at slug (tt_database_name t) c) (body t (tt_database_name t)) Q (λ _, True)) →
  hoare R P (by_slug url of_sqlx of_connect slug unknown body) Q (λ _, True).
Proof.
  intros HR HP Hok Hun Hb. unfold by_slug.
  eapply (hoare_bind _ _ _ _ (λ o c, P c ∧ ∀ t, o = Some t → slug_at slug (tt_database_name t) c)).
  { apply hoare_lift, hoare_query; [apply _|done|done|]. intros _ c Hc. split; [done|]. intros t Ht.
    destruct (slug_row c slug t (Hok c Hc) Ht). by exists t. }
  intros [t|]; [|eapply hoare_pre; [exact Hun|by intros c []]].
  set (P' := λ c, P c ∧ slug_at slug (tt_database_name t) c).
  assert (stable R P') as HP'.
  { intros c c' Hc [H1 H2]. split; [by eapply HP|]. by eapply slug_at_stable; [apply HR, Hc|split; [apply Hok|]]. }
  apply (hoare_pre _ _ P'); [|unfold P'; naive_solver].
  eapply (hoare_bind _ _ _ _ (λ p c, tp_pool p = tt_database_name t ∧ P' c)).
  - apply hoare_lift. eapply hoare_weaken; [apply (connect_hoare R url (tt_id t) _ P' HR HP')|done| |done].
    + intros c Hc. apply Hok, Hc.
    + intros p c (Hc & _ & Hp & _). by split.
  - intros p. apply hoare_pull. intros ->. apply Hb.
Qed.
End BySlug.

Lemma with_tenant_calm `{!PgUrl} url slug {A} unknown (body : Tenant → string → CEff SettingError A) (w : CW) t :
  w_env w = [] → is_ok (parse_url url) = true → tenants_ok (w_db w) → find_by_slug slug (w_db w) = Some t →
  is_Some (cl_database (w_db w) !! tt_database_name t) →
  with_tenant url slug unknown body w = body t (tt_database_name t) w.
Proof. apply by_slug_calm. Qed.

(** The comparisons of the code are equality, column by column. *)
Lemma policy_matches_spec i v : policy_matches i v = true ↔ v = i.
Proof. unfold policy_matches. rewrite andb_true_iff, !Z.eqb_eq. destruct i, v; simpl. (split; [intros; destruct_and?|intros [=]; split_and?]; by subst). Qed.
Lemma provider_matches_spec i v : provider_matches i v = true ↔ v = pi_config i.
Proof.
  unfold provider_matches. rewrite !andb_true_iff, !bool_decide_eq_true, Z.eqb_eq. destruct i as [? ? []], v; simpl. (split; [intros; destruct_and?|intros [=]; split_and?]; by subst).
Qed.
Lemma quota_matches_spec i v : quota_matches i v = true ↔ v = qi_quota i.
Proof. unfold quota_matches. rewrite !andb_true_iff, !bool_decide_eq_true. destruct i as [? ? ? []], v; simpl. (split; [intros; destruct_and?|intros [=]; split_and?]; by subst). Qed.
Lemma config_matches_spec i v : config_matches i v = true ↔ v = i.
Proof.
  unfold config_matches. rewrite !andb_true_iff, !bool_decide_eq_true, !Z.eqb_eq. destruct i, v; simpl. (split; [intros; destruct_and?|intros [=]; split_and?]; by subst).
Qed.
Lemma illegal_quota_spec cl e : illegal_quota cl e = bool_decide (cl = class.AUTH ∨ (cl = class.TRANSACTIONAL ∧ e = enforcement.HARD)).
Proof. unfold illegal_quota. by rewrite bool_decide_or, bool_decide_and. Qed.
Lemma config_outcome_put i o : config_outcome i o = put_outcome o i.
Proof.
  unfold config_outcome, put_outcome. destruct o as [v|]; [|done]. pose proof (config_matches_spec i v).
  destruct (config_matches i v); case_decide; naive_solver.
Qed.

Section Sets.
Context `{PU : !PgUrl} `{UT : !UuidText} `{CT : !ChronoText} (url slug actor : string).

(** The world after an operation on the tenant's database: the database, and one more
    audit row of the tenant. *)
Definition after_set (action : string) (detail : list (string * option string)) (t : Tenant) (d : TenantDb) (w : CW) : CW :=
  set_db (on_control_audit (λ l, l ++ [MkAudit actor action (Some (tt_id t)) detail (w_now w)])
    (on_database (<[tt_database_name t := d]>) (w_db w))) w.

Lemma set_config_put config (w : CW) t d :
  calm w → cl_database (w_db w) !! tt_database_name t = Some d →
  let o := put_outcome (td_config d) config in
  set_tenant_config_inner (tt_database_name t) (tt_id t) actor config w
    = (after_set "tenant_config.set" (config_detail config ++ [("outcome", Some o)]%string) t (set_config config d) w, Ok o).
Proof.
  intros Hc Hd o. unfold set_tenant_config_inner. unfold ebind at 1, elift at 1.
  assert (∃ w1, w1 = set_db (on_database (<[tt_database_name t := set_config config d]>) (w_db w)) w
    ∧ set_config_tx (tt_database_name t) config (set_tx true w) = (set_tx true w1, Ok o)) as (w1 & -> & Hb).
  { eexists. split; [done|]. unfold set_config_tx, lock_config, load_config, pool_query, upsert_config, pool_sql.
    assert (w_env (set_tx true w) = []) as He by apply Hc.
    assert (set_db (on_database (<[tt_database_name t := d]>) (w_db w)) (set_tx true w) = set_tx true w) as Hsame
      by (rewrite on_database_id by done; apply (set_db_same (set_tx true w))).
    unfold ebind at 1. rewrite sql_calm by done. unfold on_pool at 1. cbn [set_tx w_db]. rewrite Hd, Hsame.
    unfold ebind at 1. rewrite sql_calm by done. unfold on_pool at 1. cbn [set_tx w_db]. rewrite Hd, Hsame.
    rewrite config_outcome_put. fold o. case_decide as Hi.
    - assert (set_config config d = d) as ->.
      { revert Hi. unfold o, put_outcome. destruct d as [tb pr [x|] pv qh aa rl]; simpl; [|done]. case_decide; [|done]. by subst x. }
      by rewrite on_database_id, set_db_same by done.
    - unfold ebind at 1. rewrite sql_calm by done. unfold on_pool. cbn [set_tx w_db]. by rewrite Hd. }
  rewrite (transaction_calm _ _ w _ o Hc Hb) by (done || apply Hc). cbn [map_err].
  unfold ebind, elift, audit_config, record_audit, eret. rewrite set_tx_calm by (by apply calm_set_db).
  by rewrite exec_calm by apply Hc.
Qed.

(** C19. A set is a put, answered and recorded: on the database of a tenant that exists,
    with the URL in order and nobody else at work, setting the configuration, the
    quiet hours or a provider puts exactly the values given, all columns of them, in the
    row of its key, and a quota in the row of the producer of that name, channel and
    class; the answer is created where there was no row, idempotent where all columns had
    these values already and updated otherwise, one audit row with that outcome is
    appended, and nothing else changes. A quota for a producer that is not registered,
    for the class of codes, or with hard enforcement for transactional messages, is
    refused with a rejected audit row and changes nothing else. *)
Theorem sets_refine_puts (w : CW) t d :
  calm w → is_ok (parse_url url) = true → tenants_ok (w_db w) → find_by_slug slug (w_db w) = Some t →
  cl_database (w_db w) !! tt_database_name t = Some d → (∀ i p, td_producer d !! i = Some p → pr_id p = i) →
  (∀ config, let o := put_outcome (td_config d) config in
     set_tenant_config url slug config actor w
     = (after_set "tenant_config.set" (config_detail config ++ [("outcome", Some o)]%string) t (set_config config d) w, Ok o))
  ∧ (∀ policy, let o := put_outcome (td_quiet_hours d !! ("default", "")%string) policy in
     set_quiet_hours_policy url slug policy actor w
     = (after_set "quiet_hours_policy.set" [("start_local", Some (show_time (qh_start_local policy)));
          ("end_local", Some (show_time (qh_end_local policy))); ("outcome", Some o)]%string t
          (on_quiet_hours (<[("default", "")%string := policy]>) d) w, Ok o))
  ∧ (∀ ch priority provider path rate, let v := MkProvider provider path rate in
     let o := put_outcome (td_provider d !! (ch, priority)) v in
     set_provider_config url slug (MkProviderInput ch priority v) actor w
     = (after_set "provider_config.set" [("channel", Some ch); ("priority", json_num priority); ("provider", Some provider);
          ("credential_path", Some path); ("rate_limit_per_sec", json_num rate); ("outcome", Some o)]%string t
          (on_provider (<[(ch, priority) := v]>) d) w, Ok o))
  ∧ ∀ name ch cl per_minute per_day enforced, let v := MkQuota per_minute per_day enforced in
     let detail p o := [("producer_id", Some (uuid_str p)); ("channel", Some ch); ("class", Some cl);
       ("per_minute", json_opt_num per_minute); ("per_day", json_opt_num per_day); ("enforcement", Some enforced);
       ("outcome", Some o)]%string in
     set_producer_quota url slug name ch cl v actor w
     = match find_by_name name d with
       | None => (after_set "producer_quota.set" [("outcome", Some "rejected"); ("reason", Some "unknown producer_name")]%string t d w,
                  Err (StDatabase quota_rejection.NO_PRODUCER))
       | Some p =>
           if decide (cl = class.AUTH) then
             (after_set "producer_quota.set" (detail (pr_id p) "rejected"%string) t d w, Err (StDatabase quota_rejection.AUTH))
           else if decide (cl = class.TRANSACTIONAL ∧ enforced = enforcement.HARD) then
             (after_set "producer_quota.set" (detail (pr_id p) "rejected"%string) t d w, Err (StDatabase quota_rejection.TRANSACTIONAL))
           else let o := put_outcome (db_quota (td_tables d) !! (pr_id p, ch, cl)) v in
             (after_set "producer_quota.set" (detail (pr_id p) o) t (on_tables (on_quota (<[(pr_id p, ch, cl) := v]>)) d) w, Ok o)
       end.
Proof.
  intros Hc Hu Hok Ht Hd Hkeys.
  assert (∀ A unknown (body : Tenant → string → CEff SettingError A),
    with_tenant url slug unknown body w = body t (tt_database_name t) w) as Hwith.
  { intros A unknown body. apply with_tenant_calm; [apply Hc|done..|by eexists]. }
  assert (on_database (<[tt_database_name t := d]>) (w_db w) = w_db w) as Hid by (by apply on_database_id).
  split_and!.
  - intros config o. unfold set_tenant_config. rewrite Hwith. by apply set_config_put.
  - intros policy o. unfold set_quiet_hours_policy, set_by_slug. rewrite Hwith.
    refine (set_inner_put quiet_hours_setting (tt_database_name t) (tt_id t) actor policy w d
      (on_quiet_hours (<[("default", "")%string := policy]>) d) policy Hc Hd (policy_matches_spec policy) eq_refl _). intros Hx.
    destruct d; unfold on_quiet_hours; simpl in *. by rewrite insert_id.
  - intros ch priority provider path rate v o. unfold set_provider_config, set_by_slug. rewrite Hwith.
    refine (set_inner_put provider_setting (tt_database_name t) (tt_id t) actor (MkProviderInput ch priority v) w d
      (on_provider (<[(ch, priority) := v]>) d) v Hc Hd (provider_matches_spec (MkProviderInput ch priority v)) eq_refl _). intros Hx.
    destruct d; unfold on_provider; simpl in *. by rewrite insert_id.
  - intros name ch cl per_minute per_day enforced v detail. unfold set_producer_quota, with_producer. rewrite Hwith.
    unfold ebind at 1, elift at 1, pool_query, pool_sql. rewrite sql_calm by apply Hc. unfold on_pool at 1. rewrite Hd. cbn [map_err].
    rewrite Hid, set_db_same. destruct (find_by_name name d) as [p|] eqn:Hp.
    + assert (∃ i, td_producer d !! i = Some p) as [i Hi] by (by apply find_row_Some in Hp as [_ ?]).
      pose proof (Hkeys _ _ Hi) as <-. cbv zeta. cbn [pq_enforcement]. rewrite illegal_quota_spec.
      destruct (decide (cl = class.AUTH)) as [Ha|Ha]; [|destruct (decide (cl = class.TRANSACTIONAL ∧ enforced = enforcement.HARD)) as [Hh|Hh]].
      1-2: rewrite bool_decide_true by tauto;
        unfold ebind, elift, audit_quota, record_audit, after_set; rewrite exec_calm by apply Hc; rewrite Hid; done.
      rewrite bool_decide_false by tauto.
      refine (set_inner_put quota_setting (tt_database_name t) (tt_id t) actor (MkQuotaInput (pr_id p) ch cl v) w d
        (on_tables (on_quota (<[(pr_id p, ch, cl) := v]>)) d) v Hc Hd (quota_matches_spec (MkQuotaInput (pr_id p) ch cl v)) _ _).
      * simpl. unfold put_quota. simpl. by rewrite Hi.
      * intros Hx. destruct d as [[]]; unfold on_tables, on_quota; simpl in *. by rewrite insert_id.
    + unfold ebind, elift, record_audit, after_set. rewrite exec_calm by apply Hc. by rewrite Hid.
Qed.
End Sets.

(** ** Every set is recorded *)

Definition audit_grows (c c' : Cluster) : Prop := cl_audit c `prefix_of` cl_audit c'.
#[export] Instance audit_grows_pre : PreOrder audit_grows.
Proof. split; [intros c; by red|]. intros c1 c2 c3. unfold audit_grows. by intros ? ?; etransitivity. Qed.

(** A row with these columns was appended after the first [n]. *)
Definition recorded (n : nat) (actor action : string) (tenant : option N) (detail : list (string * option string))
    (c : Cluster) : Prop :=
  ∃ k t, (n ≤ k)%nat ∧ cl_audit c !! k = Some (MkAudit actor action tenant detail t).
Lemma recorded_kept n actor action tenant detail : stable audit_grows (recorded n actor action tenant detail).
Proof. intros c c' HR (k & t & Hk & Hl). exists k, t. split; [done|]. by eapply prefix_lookup_Some. Qed.

(** At least [n] rows are on file. *)
Definition audited (n : nat) (c : Cluster) : Prop := (n ≤ length (cl_audit c))%nat.
Lemma audited_stable n : stable audit_grows (audited n).
Proof. intros c c' HR. unfold audited. apply prefix_length in HR. lia. Qed.
#[export] Hint Resolve recorded_kept audited_stable : core.

Lemma record_audit_hoare n actor action tenant detail :
  hoare audit_grows (audited n) (record_audit actor action tenant detail)
    (λ _, recorded n actor action tenant detail) (λ _, True).
Proof.
  apply hoare_sql; [apply _|auto|done|]. intros t c Hn. split; [by exists [MkAudit actor action tenant detail t]|].
  exists (length (cl_audit c)), t. split; [exact Hn|]. simpl. rewrite lookup_app_r by done. by rewrite Nat.sub_diag.
Qed.

(** Work on tenants' databases never touches the audit. *)
Lemma audit_database f c : audit_grows c (on_database f c).
Proof. by red. Qed.

Section Recorded.
Context `{PU : !PgUrl} (url : string).

(** A run that answers has gone through its body on some tenant's database. *)
Lemma with_tenant_hoare n slug {A} unknown (body : Tenant → string → CEff SettingError A) (Q : A → Cluster → Prop) :
  guar audit_grows unknown → (∀ t pool, hoare audit_grows (audited n) (body t pool) Q (λ _, True)) →
  hoare audit_grows (audited n) (with_tenant url slug unknown body) Q (λ _, True).
Proof.
  intros Hun Hb. unfold with_tenant, by_slug. eapply (hoare_bind _ _ _ _ (λ _, audited n)).
  { by apply hoare_lift, hoare_query; [apply _|auto|..]. }
  intros [t|].
  - eapply (hoare_bind _ _ _ _ (λ _, audited n)); [|intros p; apply Hb].
    apply hoare_lift, (sustains_guar audit_grows); [auto|apply connect_guar, _].
  - eapply (hoare_bind _ _ _ _ (λ _, audited n)); [|intros _; by apply hoare_throw; [apply _|]].
    by apply hoare_lift, (sustains_guar audit_grows); [auto|].
Qed.

Lemma record_audit_grows actor action tenant detail : guar audit_grows (record_audit actor action tenant detail).
Proof. apply guar_exec; [apply _|]. intros t c. by exists [MkAudit actor action tenant detail t]. Qed.

(** A refusal after its audit row answers nothing. *)
Lemma reject_hoare {A} n (m : CEff SqlxError unit) e (Q : A → Cluster → Prop) :
  guar audit_grows m → hoare audit_grows (audited n) (elift StDatabase m ;! ethrow e) Q (λ _, True).
Proof.
  intros Hm. eapply (hoare_bind _ _ _ _ (λ _, audited n)); [|intros u; by apply hoare_throw; [apply _|]].
  by apply hoare_lift, (sustains_guar audit_grows); [auto|].
Qed.

Lemma set_inner_hoare {I V K} (s : Setting I V) `{!EqDecision K} `{!Countable K} `{SL : !SettingLaws s K}
    n pool tenant actor i :
  hoare audit_grows (audited n) (set_inner s pool tenant actor i)
    (λ o, recorded n actor (sl_action (s:=s)) (Some tenant) (sl_detail i ++ [("outcome", Some o)]%string)) (λ _, True).
Proof.
  unfold set_inner. eapply (hoare_bind _ _ _ _ (λ _, audited n)).
  { apply hoare_lift, (sustains_guar audit_grows); [auto|apply guar_pool_query, _]. }
  intros o. eapply (hoare_bind _ _ _ _ (λ _, audited n)).
  { case_decide; [by apply hoare_ret; [apply _|]|]. apply hoare_lift, (sustains_guar audit_grows); [auto|].
    apply sl_guar; [apply _|]. intros; apply audit_database. }
  intros u. eapply hoare_bind; [apply _|apply hoare_lift; rewrite sl_audit; apply record_audit_hoare|].
  intros u'. by apply hoare_ret; [apply _|].
Qed.

Lemma set_config_hoare n pool tenant actor i :
  hoare audit_grows (audited n) (set_tenant_config_inner pool tenant actor i)
    (λ o, recorded n actor "tenant_config.set" (Some tenant) (config_detail i ++ [("outcome", Some o)]%string)) (λ _, True).
Proof.
  unfold set_tenant_config_inner. eapply (hoare_bind _ _ _ _ (λ _, audited n)).
  { apply hoare_lift, (sustains_guar audit_grows); [auto|]. apply guar_tx; [apply _|].
    unfold set_config_tx, lock_config, load_config, upsert_config, pool_query. step_guar;
      apply tx_guar_pool; try apply _; intros; apply audit_database. }
  intros o. eapply hoare_bind; [apply _|apply hoare_lift; apply record_audit_hoare|].
  intros u. by apply hoare_ret; [apply _|].
Qed.

(** No setting changes without a record: whatever other processes do and whichever
    statements fail, a set of the tenant's configuration, its quiet hours, a provider
    or a quota that is answered with an outcome has appended, during its own run,
    an audit row with the actor, the action and that same outcome. *)
Theorem sets_are_recorded `{!ChronoText} `{!UuidText} slug actor (w : CW) :
  rely audit_grows w →
  let appended action o c := ∃ tenant detail, recorded (length (cl_audit (w_db w))) actor action (Some tenant)
    (detail ++ [("outcome", Some o)]%string) c in
  (∀ i w' o, set_tenant_config url slug i actor w = (w', Ok o) → appended "tenant_config.set"%string o (w_db w'))
  ∧ (∀ i w' o, set_quiet_hours_policy url slug i actor w = (w', Ok o) →
       appended "quiet_hours_policy.set"%string o (w_db w'))
  ∧ (∀ i w' o, set_provider_config url slug i actor w = (w', Ok o) → appended "provider_config.set"%string o (w_db w'))
  ∧ (∀ name ch cl q w' o, set_producer_quota url slug name ch cl q actor w = (w', Ok o) →
       appended "producer_quota.set"%string o (w_db w')).
Proof.
  intros Hr appended. set (n := length (cl_audit (w_db w))).
  assert (∀ (m : CEff SettingError string) action, hoare audit_grows (audited n) m
    (λ o c, ∃ tenant detail, recorded n actor action (Some tenant) (detail ++ [("outcome", Some o)]%string) c) (λ _, True) →
    ∀ w' o, m w = (w', Ok o) → appended action o (w_db w')) as Hrun.
  { intros m action Hm w' o Hmw. destruct (Hm w Hr (le_n _)) as (_ & _ & Hp). by rewrite Hmw in Hp. }
  split_and!; intros *; apply Hrun.
  - apply with_tenant_hoare; [apply record_audit_grows|]. intros t pool.
    eapply hoare_weaken; [apply set_config_hoare|done| |done]. intros o1 c1 Hc. eexists _, _. exact Hc.
  - apply with_tenant_hoare; [apply record_audit_grows|]. intros t pool.
    eapply hoare_weaken; [apply (set_inner_hoare quiet_hours_setting)|done| |done]. intros o1 c1 Hc. eexists _, _. exact Hc.
  - apply with_tenant_hoare; [apply record_audit_grows|]. intros t pool.
    eapply hoare_weaken; [apply (set_inner_hoare provider_setting)|done| |done]. intros o1 c1 Hc. eexists _, _. exact Hc.
  - apply with_tenant_hoare; [apply record_audit_grows|]. intros t pool.
    eapply (hoare_bind _ _ _ _ (λ _, audited n)).
    { apply hoare_lift, (sustains_guar audit_grows); [auto|apply guar_pool_query, _]. }
    intros [p|]; [destruct (illegal_quota _ _)|].
    + apply reject_hoare, record_audit_grows.
    + eapply hoare_weaken; [apply (set_inner_hoare quota_setting)|done| |done]. intros o1 c1 Hc. eexists _, _. exact Hc.
    + apply reject_hoare, record_audit_grows.
Qed.
End Recorded.

(** ** The tenant's configuration *)

(** The tenant's single configuration row is on file. *)
Definition configured (pool : string) (c : Cluster) : Prop :=
  ∃ d, cl_database c !! pool = Some d ∧ is_Some (td_config d).

(** What every process does to configurations: they are changed but never removed, and
    tenants keep their identities. *)
Record config_kept (c c' : Cluster) : Prop := {
  ck_pinned : pinned c c';
  ck_config pool : configured pool c → configured pool c';
}.
#[export] Instance config_kept_pre : PreOrder config_kept.
Proof. split; [intros c; by split|]. intros c1 c2 c3 [A1 A2] [B1 B2]. split; [by etransitivity|auto]. Qed.

Lemma kept_control_audit f c : config_kept c (on_control_audit f c).
Proof. split; [by apply pinned_same|done]. Qed.
Lemma kept_set_config pool d i c :
  cl_database c !! pool = Some d → config_kept c (on_database (<[pool := set_config i d]>) c).
Proof.
  intros Hd. split; [by apply pinned_same|]. intros p (x & Hx & Hcfg). unfold configured; simpl.
  destruct (decide (p = pool)) as [->|Hne]; [rewrite lookup_insert_eq|rewrite lookup_insert_ne by done]; eauto.
Qed.

(** The effect of one set, on the database as it stands. *)
Definition config_after (pool : string) (i : TenantConfig) (d : TenantDb) (c : Cluster) : Cluster :=
  if decide (config_outcome i (td_config d) = "idempotent"%string) then c
  else on_database (<[pool := set_config i d]>) c.

Lemma tx_post_pool {A} pool (f : Z → TenantDb → result (TenantDb * A) SqlxError) :
  tx_post (pool_sql pool f) (λ c c' a, ∃ t d d', cl_database c !! pool = Some d ∧ f t d = Ok (d', a)
    ∧ c' = on_database (<[pool := d']>) c).
Proof.
  apply tx_post_sql. intros t c c' a. unfold on_pool. destruct (cl_database c !! pool) as [d|]; [|done].
  destruct (f t d) as [[d' a']|] eqn:Hf; [|done]. intros [= <- <-]. eauto 10.
Qed.

Lemma set_config_tx_post pool i :
  tx_post (set_config_tx pool i) (λ c c' o, ∃ d, cl_database c !! pool = Some d
    ∧ o = config_outcome i (td_config d) ∧ c' = config_after pool i d c).
Proof.
  unfold set_config_tx, lock_config, load_config, upsert_config, pool_query.
  eapply tx_post_bind; [apply tx_post_pool|]. intros u. eapply tx_post_bind; [apply tx_post_pool|]. intros existing.
  eapply (tx_post_bind _ _ (λ c c' _, ∀ d, cl_database c !! pool = Some d → td_config d = existing →
    c' = config_after pool i d c)).
  { unfold config_after. case_decide as Hi.
    - apply tx_post_ret. intros c d Hd <-. by rewrite decide_True.
    - eapply tx_post_weaken; [apply tx_post_pool|]. intros c c' [] (t & d & d' & Hd & [= <-] & ->) d0 Hd0 He.
      rewrite decide_False by (by rewrite He). by assert (d0 = d) as -> by congruence. }
  intros u'. apply tx_post_ret. intros c3 c2 H3 c1 (t & d & d' & Hd & [= <- <-] & ->) c0 (t0 & d0 & d0' & Hd0 & [= <- _] & ->).
  rewrite (on_database_id pool d0 c0 Hd0) in *. rewrite (on_database_id pool d c0 Hd) in *. exists d. eauto.
Qed.

Lemma kept_config_after pool i d c : cl_database c !! pool = Some d → config_kept c (config_after pool i d c).
Proof. intros Hd. unfold config_after. case_decide; [done|by apply kept_set_config]. Qed.
Lemma configured_after pool i d c : cl_database c !! pool = Some d → configured pool (config_after pool i d c).
Proof.
  intros Hd. unfold config_after, config_outcome, configured. case_decide as Hi.
  - exists d. split; [done|]. destruct (td_config d); [eauto|discriminate Hi].
  - simpl. rewrite lookup_insert_eq. eauto.
Qed.

(** A set of the configuration of [pool] took effect at one moment between [c0] and [c]. *)
Definition config_set (c0 : Cluster) (pool : string) (i : TenantConfig) (o : string) (c : Cluster) : Prop :=
  ∃ c1 d, config_kept c0 c1 ∧ cl_database c1 !! pool = Some d ∧ o = config_outcome i (td_config d)
    ∧ config_kept (config_after pool i d c1) c.
Lemma config_set_stable c0 pool i o : stable config_kept (config_set c0 pool i o).
Proof. intros c c' HR (c1 & d & H1 & H2 & H3 & H4). exists c1, d. split_and!; [done..|by etransitivity]. Qed.
#[export] Hint Resolve config_set_stable : core.

Section Atomic.
Context `{PU : !PgUrl} (url : string).

Lemma record_audit_kept actor action tenant detail : guar config_kept (record_audit actor action tenant detail).
Proof. apply guar_exec; [apply _|]. intros. apply kept_control_audit. Qed.

Lemma set_tenant_config_hoare c0 slug i actor :
  hoare config_kept (λ c, config_kept c0 c ∧ tenants_ok c) (set_tenant_config url slug i actor)
    (λ o c, ∃ pool, (tenants_ok c ∧ slug_at slug pool c) ∧ config_set c0 pool i o c) (λ _, True).
Proof.
  assert (stable config_kept (λ c, config_kept c0 c ∧ tenants_ok c)) as Hst.
  { intros c c' HR [H1 H2]. split; [by etransitivity|by apply (ck_pinned _ _ HR)]. }
  apply by_slug_hoare; [apply _|apply ck_pinned|done|by intros c []| |].
  { eapply (hoare_bind _ _ _ _ (λ _, λ c, config_kept c0 c ∧ tenants_ok c)); [|intros u; by apply hoare_throw; [apply _|]].
    apply hoare_lift, (sustains_guar config_kept); [done|apply record_audit_kept]. }
  intros t. unfold set_tenant_config_inner. set (pool := tt_database_name t).
  set (Q := λ (o : string) c, (tenants_ok c ∧ slug_at slug pool c) ∧ config_set c0 pool i o c).
  assert (stable config_kept (λ c, tenants_ok c ∧ slug_at slug pool c)) as Hslug.
  { intros c c' HR. apply slug_at_stable, HR. }
  eapply (hoare_bind _ _ _ _ Q).
  { apply hoare_lift, hoare_transaction; [apply _| |done|].
    - intros c c' HR [H1 H2]. split; [by apply (Hst c)|]. apply (Hslug c c' HR). split; [apply H1|done].
    - eapply tx_post_weaken; [apply set_config_tx_post|]. intros c c' o (d & Hd & Ho & ->) [[H1 H2] H3].
      assert (config_kept c (config_after pool i d c)) as HR by (by apply kept_config_after).
      split; [done|]. split; [by apply (Hslug _ _ HR)|]. by exists c, d. }
  intros o. eapply (hoare_bind _ _ _ _ (λ _, Q o)).
  { apply hoare_lift, (sustains_guar config_kept); [apply stable_and; [apply Hslug|auto]|apply record_audit_kept]. }
  intros u. apply hoare_ret; [apply _|]. intros c Hc. by exists pool.
Qed.

(** Configurations are set one at a time: whatever other processes do and
    whichever statements fail, a set of a tenant's configuration that is answered
    took effect at one moment of its run, with the outcome the database called
    for at that moment, and of all the sets of one tenant that come after it,
    overlapping or not, none is answered with created again. *)
Theorem configurations_are_set_one_at_a_time slug i actor (w w1 : CW) o :
  rely config_kept w → tenants_ok (w_db w) → set_tenant_config url slug i actor w = (w1, Ok o) →
  (∃ pool, slug_at slug pool (w_db w1) ∧ config_set (w_db w) pool i o (w_db w1) ∧ configured pool (w_db w1))
  ∧ ∀ j actor' (w2 w3 : CW) o', rely config_kept w2 → config_kept (w_db w1) (w_db w2) →
      set_tenant_config url slug j actor' w2 = (w3, Ok o') → o' ≠ "created"%string.
Proof.
  intros Hr Hok Hrun.
  destruct (set_tenant_config_hoare (w_db w) slug i actor w Hr (conj (reflexivity _) Hok)) as (_ & HR & Hp).
  rewrite Hrun in HR, Hp. destruct Hp as (pool & [Hok1 Hs] & Hset).
  assert (configured pool (w_db w1)) as Hcfg.
  { destruct Hset as (c1 & d & _ & Hd & _ & HR2). by apply HR2, configured_after. }
  split; [by exists pool|]. intros j actor' w2 w3 o' Hr2 HR2 Hrun2.
  assert (tenants_ok (w_db w2)) as Hok2 by (by apply (pi_ok _ _ (ck_pinned _ _ HR2))).
  destruct (set_tenant_config_hoare (w_db w2) slug j actor' w2 Hr2 (conj (reflexivity _) Hok2)) as (_ & HR3 & Hp).
  rewrite Hrun2 in HR3, Hp. destruct Hp as (pool' & [Hok3 Hs'] & c1 & d & H1 & Hd & -> & _).
  assert (pool' = pool) as ->.
  { eapply slug_at_unique; [exact Hok3|exact Hs'|].
    eapply slug_at_stable; [apply (ck_pinned _ _ HR3)|]. eapply slug_at_stable; [apply (ck_pinned _ _ HR2)|by split]. }
  apply HR2, H1 in Hcfg as (d' & Hd' & [x Hx]). simplify_eq. unfold config_outcome. rewrite Hx.
  by destruct (config_matches j x).
Qed.
End Atomic.

(** ** Which quotas are on file *)

Definition quotas_legal (d : Db) : Prop :=
  ∀ p ch cl q, db_quota d !! (p, ch, cl) = Some q → illegal_quota cl (pq_enforcement q) = false.
Definition all_quotas_legal (c : Cluster) : Prop :=
  ∀ pool d, cl_database c !! pool = Some d → quotas_legal (td_tables d).

(** What every process does to quotas: it files no illegal one. *)
Definition quota_step (c c' : Cluster) : Prop := all_quotas_legal c → all_quotas_legal c'.
#[export] Instance quota_step_pre : PreOrder quota_step.
Proof. split; [intros c Hc; exact Hc|]. intros c1 c2 c3 H1 H2 H. by apply H2, H1. Qed.

Lemma quota_step_database pool d d' c :
  cl_database c !! pool = Some d → (quotas_legal (td_tables d) → quotas_legal (td_tables d')) →
  quota_step c (on_database (<[pool := d']>) c).
Proof.
  intros Hd Hl Hc p x. simpl. rewrite lookup_insert_Some. intros [[<- <-]|[_ Hx]]; [by eapply Hl, Hc|by eapply Hc].
Qed.

Lemma put_quota_legal i d d' :
  illegal_quota (qi_class i) (pq_enforcement (qi_quota i)) = false → put_quota i d = Ok d' →
  quotas_legal (td_tables d) → quotas_legal (td_tables d').
Proof.
  intros Hi. unfold put_quota. destruct (td_producer d !! _) as [row|]; [|done]. intros [= <-] Hl p ch cl q. simpl.
  rewrite lookup_insert_Some. intros [[[= <- <- <-] <-]|[_ Hq]]; [done|by eapply Hl].
Qed.

Lemma record_audit_quota actor action tenant detail : guar quota_step (record_audit actor action tenant detail).
Proof. apply guar_exec; [apply _|]. intros t c Hc. exact Hc. Qed.
#[export] Hint Resolve record_audit_quota : effects.

Lemma set_quota_inner_legal `{!UuidText} pool tenant actor i :
  illegal_quota (qi_class i) (pq_enforcement (qi_quota i)) = false →
  guar quota_step (set_producer_quota_inner pool tenant actor i).
Proof.
  intros Hi. unfold set_producer_quota_inner, set_inner.
  assert (guar quota_step (sg_upsert quota_setting pool i)) as Hu.
  { apply sl_guar; [apply _|]. intros t c d d' Hd Hp. eapply quota_step_database; [done|]. by eapply put_quota_legal. }
  step_guar; apply record_audit_quota.
Qed.

Section QuotaRuns.
Context `{PU : !PgUrl} `{UT : !UuidText} `{CT : !ChronoText} (url : string).

Lemma with_producer_guar {A} (R : relation Cluster) `{!PreOrder R} slug name actor action
    (body : Tenant → string → N → CEff SettingError A) :
  (∀ a b c d, guar R (record_audit a b c d)) → (∀ t pool p, guar R (body t pool p)) →
  guar R (with_producer url slug name actor action body).
Proof.
  intros Ha Hb. apply slug_pool_guar; [apply _|step_guar|]. intros t pool. step_guar.
Qed.

Lemma set_producer_quota_legal slug name ch cl q actor : guar quota_step (set_producer_quota url slug name ch cl q actor).
Proof.
  apply with_producer_guar; [apply _|apply record_audit_quota|]. intros t pool p. cbv zeta.
  destruct (illegal_quota cl (pq_enforcement q)) eqn:Hi; [step_guar; apply record_audit_quota|].
  by apply set_quota_inner_legal.
Qed.

Lemma add_override_legal id slug name ch cl n from to_ by_ reason actor :
  guar quota_step (add_producer_quota_override url id slug name ch cl n from to_ by_ reason actor).
Proof.
  apply with_producer_guar; [apply _|apply record_audit_quota|]. intros t pool p. cbv zeta.
  destruct (override_rejection _ _ _ _); [step_guar; apply record_audit_quota|].
  unfold insert_override. apply guar_bind; [apply _|apply guar_lift|intros _; step_guar; apply record_audit_quota].
  apply guar_pool; [apply _|]. intros t' c d d' a Hd. destruct (db_override _ !! id) as [old|]; [done|].
  destruct (td_producer d !! _) as [row|]; [|done]. intros [= <- _]. by apply quota_step_database with d.
Qed.
End QuotaRuns.

(** Overrides leave the enforcement of a quota alone. *)
Lemma merge_enforcement quotas overrides key e :
  merge_config quotas overrides !! key = Some e →
  ∃ q, quotas !! key = Some q ∧ eq_enforcement e = pq_enforcement q.
Proof.
  unfold merge_config. rewrite apply_overrides_lookup, lookup_fmap. destruct (quotas !! key) as [q|]; simpl; [|done].
  intros [= <-]. exists q. split; [done|].
  assert (∀ e0, eq_enforcement (fold_left (λ e o, if decide (override_key o = key) then raise_per_day (po_per_day o) e else e)
    overrides e0) = eq_enforcement e0) as Hf.
  { induction overrides as [|o os IH]; intros e0; simpl; [done|]. rewrite IH. by case_decide. }
  apply Hf.
Qed.

(** A tracker refreshed from legal quotas never defers a message that is exempt. *)
Lemma legal_never_defers {Tz} `{!TimeZone Tz} `{!TimeZoneLaws Tz} (q q' : QuotaTracker Tz) d overrides p ch cl now dec :
  quotas_legal d → qt_config q = merge_config (db_quota d) overrides → cl = class.AUTH ∨ cl = class.TRANSACTIONAL →
  check_and_record q p ch cl now = (q', dec) → is_defer dec = false.
Proof.
  intros Hl Hq Hcl Hrun. eapply only_hard_quotas_defer; [exact Hrun|]. intros e Hna. rewrite Hq.
  intros (pq & Hpq & ->)%merge_enforcement Hh. apply Hl in Hpq. destruct Hcl as [->| ->]; [done|].
  unfold illegal_quota in Hpq. rewrite Hh in Hpq. done.
Qed.

(** ** Concrete runs *)

Definition demo_chrono : ChronoText := {| show_datetime := pretty; show_datetime_nanos := pretty; show_time := pretty |}.
#[local] Existing Instance demo_url.
#[local] Existing Instance demo_chrono.
#[local] Existing Instance demo_uuid.

Definition demo_sms (provider : string) : ProviderInput :=
  MkProviderInput channel.SMS 1 (MkProvider provider "secret/data/acme/sms" 10).
Definition set_sms (provider : string) (w : CW) : CW * result string SettingError :=
  set_provider_config "postgres://" "acme" (demo_sms provider) "ops" w.

Lemma acme_by_slug : find_by_slug "acme" two_tenants = Some acme.
Proof. vm_compute. reflexivity. Qed.
Lemma acme_database : cl_database two_tenants !! tt_database_name acme = Some demo_tenant_db.
Proof. vm_compute. reflexivity. Qed.
Lemma demo_producers_keyed : ∀ i p, td_producer demo_tenant_db !! i = Some p → pr_id p = i.
Proof. intros i p Hi. vm_compute in Hi. repeat (destruct i as [|i]; try discriminate Hi; try (by injection Hi as <-)). Qed.

Lemma sets_refine_witness :
  set_sms "generic" (cluster_world two_tenants)
    = (after_set "ops" "provider_config.set" [("channel", Some "sms"); ("priority", Some "1"); ("provider", Some "generic");
         ("credential_path", Some "secret/data/acme/sms"); ("rate_limit_per_sec", Some "10"); ("outcome", Some "created")]%string acme
         (on_provider (<[(channel.SMS, 1) := MkProvider "generic" "secret/data/acme/sms" 10]>) demo_tenant_db) (cluster_world two_tenants),
       Ok "created"%string).
Proof.
  destruct (sets_refine_puts (PU:=demo_url) (UT:=demo_uuid) (CT:=demo_chrono) "postgres://" "acme" "ops" (cluster_world two_tenants) acme demo_tenant_db (conj eq_refl eq_refl) eq_refl
    two_tenants_ok acme_by_slug acme_database demo_producers_keyed) as (_ & _ & H & _).
  exact (H channel.SMS 1 "generic" "secret/data/acme/sms" 10)%string.
Defined.

(** Statements are delayed and the last one fails after it took effect. *)
Definition slow_cluster (n : nat) (c : Cluster) : CW :=
  World c 100 false (replicate n (Move 3 NoFault id)) [].
Lemma slow_rely (R : relation Cluster) `{!PreOrder R} n c : rely R (slow_cluster n c).
Proof. split; [|done]. apply Forall_replicate. intros d. reflexivity. Qed.

Lemma sets_recorded_witness :
  ∃ w' tenant detail, set_tenant_config "postgres://" "acme" demo_config "ops" (slow_cluster 9 two_tenants)
      = (w', Ok "idempotent"%string)
    ∧ recorded 0 "ops" "tenant_config.set" (Some tenant) (detail ++ [("outcome", Some "idempotent")]%string) (w_db w').
Proof.
  destruct (sets_are_recorded "postgres://" "acme" "ops" (slow_cluster 9 two_tenants) (slow_rely _ _ _)) as [H _].
  specialize (H demo_config). destruct (set_tenant_config "postgres://" "acme" demo_config "ops" (slow_cluster 9 two_tenants))
    as [w' [o|e]] eqn:Hrun; [|exfalso; vm_compute in Hrun; discriminate Hrun].
  assert (o = "idempotent"%string) as -> by (vm_compute in Hrun; by injection Hrun as _ <-).
  destruct (H w' _ eq_refl) as (tenant & detail & Hrec). by exists w', tenant, detail.
Defined.

Definition unconfigured : Cluster := on_database (<["tenant_acme"%string := empty_tenant_db]>) two_tenants.
Lemma unconfigured_ok : tenants_ok unconfigured.
Proof. apply (pi_ok two_tenants); [by apply pinned_same|apply two_tenants_ok]. Qed.

Definition configure_acme (w : CW) : CW * result string SettingError :=
  set_tenant_config "postgres://" "acme" demo_config "ops" w.

Lemma one_at_a_time_witness :
  ∃ w1, configure_acme (slow_cluster 9 unconfigured) = (w1, Ok "created"%string)
    ∧ (configure_acme w1).2 ≠ Ok "created"%string.
Proof.
  destruct (configure_acme (slow_cluster 9 unconfigured)) as [w1 [o|e]] eqn:Hrun;
    [|exfalso; vm_compute in Hrun; discriminate Hrun].
  assert (o = "created"%string) as -> by (vm_compute in Hrun; by injection Hrun as _ <-).
  assert (rely config_kept w1) as Hr.
  { destruct (set_tenant_config_hoare "postgres://" unconfigured "acme" demo_config "ops" _ (slow_rely config_kept 9 unconfigured)
      (conj (reflexivity _) unconfigured_ok)) as (Hr & _). unfold configure_acme in Hrun. by rewrite Hrun in Hr. }
  destruct (configurations_are_set_one_at_a_time "postgres://" "acme" demo_config "ops" (slow_cluster 9 unconfigured) w1 _
    (slow_rely _ _ _) unconfigured_ok Hrun) as [_ H].
  exists w1. split; [done|]. destruct (configure_acme w1) as [w2 [o|e]] eqn:Hrun2; [|done].
  intros [= ->]. by apply (H demo_config "ops"%string w1 w2 _ Hr (reflexivity _) Hrun2).
Defined.

(** A set without the lock is not one step: when two operators create the same provider
    row at once, both are told created, the audit holds two created rows and none
    that says the first values were overwritten. *)
Theorem overlapping_sets_both_create :
  let other (c : Cluster) := set_sms "second" (cluster_world c) in
  let mine := set_sms "first" (World two_tenants 100 false
    (replicate 5 (Move 0 NoFault id) ++ [Move 0 NoFault (λ c, w_db (other c).1)]) []) in
  (other two_tenants).2 = Ok "created"%string ∧ mine.2 = Ok "created"%string
  ∧ (pv_provider <$> (cl_database (w_db mine.1) !! "tenant_acme"%string ≫= load_provider (demo_sms "first")))
    = Some "first"%string
  ∧ (last ∘ au_detail <$> cl_audit (w_db mine.1))
    = [Some ("outcome", Some "created"); Some ("outcome", Some "created")]%string.
Proof. split_and!; vm_compute; reflexivity. Qed.
