(* ===== verification/Permissions.v ===== *)
(** * Permissions: consent, suppression and approved templates

    Models [src/consent/{configure,model,repo}.rs],
    [src/suppression/{configure,model,repo}.rs] and
    [src/template/{approve,repo}.rs]: what an operator records about who may be sent
    what, found by the keyed hash of a destination, and the message texts, which are
    approved once and never change. Consent and suppression are settings in the sense
    of Settings.v; the theorems say what they make the dispatcher's gates answer. *)

From S2P Require Import Prelude RustStd Time Schema KillSwitch QuietHours Dek Render Customer Outbox Worker Ingest Tenancy Producers Webhook Otp Settings.
From stdpp Require Import base gmap strings list sorting pretty.
From Stdlib Require Import ZArith Lia.

Local Open Scope effect_scope.
Local Open Scope Z_scope.

Definition setting_of_pepper (e : TenantPepperError) : SettingError :=
  match e with TpDatabase e => StDatabase e | TpVault e => StVault e end.

(** ** Consent *)

Record ConsentInput : Type := MkConsentInput {
  ci_address_id : N;
  ci_class : string;
  ci_opted_in : bool;
  ci_source : string;
}.

(** [ConsentInput::matches]; the row was found under the address and class. *)
Definition consent_matches (input : ConsentInput) (existing : Consent) : bool :=
  eqb (ci_opted_in input) (co_opted_in existing) && bool_decide (ci_source input = co_source existing).
Definition load_consent (input : ConsentInput) (d : TenantDb) : option Consent :=
  db_consent (td_tables d) !! (ci_address_id input, ci_class input).
(** [address_id] references the address. *)
Definition put_consent (now : Z) (input : ConsentInput) (d : TenantDb) : result TenantDb SqlxError :=
  match db_address (td_tables d) !! ci_address_id input with
  | None => Err (SqlConstraint "consent_address_id_fkey")
  | Some _ => Ok (on_tables (on_consent (<[(ci_address_id input, ci_class input)
                                          := MkConsent (ci_opted_in input) (ci_source input) now]>)) d)
  end.
(** [repo::upsert] with [Utc::now()]. *)
Definition upsert_consent (pool : string) (input : ConsentInput) : CEff SqlxError unit :=
  now ←! utc_now;
  pool_sql pool (λ _, put_stmt (put_consent now input)).
Definition consent_detail `{!UuidText} (address : option N) (input : ConsentInput) : list (string * option string) :=
  [("address_id", uuid_str <$> address); ("class", Some (ci_class input)); ("opted_in", json_bool (ci_opted_in input));
   ("source", Some (ci_source input))]%string.
Definition audit_consent `{!UuidText} (actor : string) (tenant address : option N) (input : ConsentInput) (outcome : string)
    : CEff SqlxError unit :=
  record_audit actor "consent.set" tenant (consent_detail address input ++ [("outcome", Some outcome)]%string).

Definition consent_setting `{!UuidText} : Setting ConsentInput Consent :=
  MkSetting load_consent consent_matches upsert_consent
    (λ actor tenant input, audit_consent actor tenant (Some (ci_address_id input)) input).
Definition set_consent_inner `{!UuidText} (pool : string) (tenant_id : N) (actor : string) (input : ConsentInput)
    : CEff SettingError string :=
  set_inner consent_setting pool tenant_id actor input.

Definition NO_ADDRESS : SqlxError := SqlConfiguration "no active address on file for this destination".

Section Consents.
Context `{!PgUrl} `{!UuidText} (base_db_url : string) (keystore : VaultStore) (compute : string → string → string).

(** [set_consent]; [compute] is [destination_hmac::compute]. *)
Definition set_consent (tenant_slug destination ch class_value : string) (opted_in : bool) (source actor : string)
    : CEff SettingError string :=
  let input address_id := MkConsentInput address_id class_value opted_in source in
  with_tenant base_db_url tenant_slug (audit_consent actor None None (input 0%N) "rejected") (λ tenant pool,
    pepper ←! elift setting_of_pepper (ensure_tenant_pepper keystore tenant);
    let value_hmac := compute pepper destination in
    kind ←! eof (ok_or (kind_for_channel ch) StPanic);
    address ←! elift StDatabase (pool_query pool (λ _ d, find_active_address_by_hmac kind value_hmac (td_tables d)));
    match address with
    | None =>
        elift StDatabase (audit_consent actor (Some (tt_id tenant)) None (input 0%N) "rejected") ;!
        ethrow (StDatabase NO_ADDRESS)
    | Some address => set_consent_inner pool (tt_id tenant) actor (input (ca_id address))
    end).
End Consents.

(** ** Suppression *)

Record SuppressionInput : Type := MkSuppressionInput {
  si_destination_hmac : string;
  si_reason : string;
  si_review_at : Z;
}.

(** [added_at] is not compared. *)
Definition suppression_matches (input : SuppressionInput) (existing : Suppression) : bool :=
  bool_decide (si_reason input = su_reason existing) && (si_review_at input =? su_review_at existing).
Definition load_suppression (hmac : string) (d : TenantDb) : option Suppression := db_suppression (td_tables d) !! hmac.
(** [ON CONFLICT .. DO UPDATE SET reason, review_at]: [added_at] stays. *)
Definition suppression_value (now : Z) (input : SuppressionInput) (existing : option Suppression) : Suppression :=
  MkSuppression (si_reason input) (match existing with Some old => su_added_at old | None => now end) (si_review_at input).
Definition put_suppression (now : Z) (input : SuppressionInput) (d : TenantDb) : result TenantDb SqlxError :=
  Ok (on_tables (on_suppression (λ m, <[si_destination_hmac input
        := suppression_value now input (m !! si_destination_hmac input)]> m)) d).
Definition upsert_suppression (pool : string) (input : SuppressionInput) : CEff SqlxError unit :=
  now ←! utc_now;
  pool_sql pool (λ _, put_stmt (put_suppression now input)).

(** [audit_add]: the hash, never the destination. *)
Definition audit_add `{!ChronoText} (actor : string) (tenant : option N) (hmac : option string) (reason : string)
    (review_at : Z) (outcome : string) : CEff SqlxError unit :=
  record_audit actor "suppression.add" tenant
    ([("destination_hmac", hex_encode <$> hmac); ("reason", Some reason);
      ("review_at", Some (show_datetime review_at))]%string ++ [("outcome", Some outcome)]%string).
Definition audit_remove (actor : string) (tenant : option N) (hmac outcome : string) : CEff SqlxError unit :=
  record_audit actor "suppression.remove" tenant
    [("destination_hmac", Some (hex_encode hmac)); ("outcome", Some outcome)]%string.

Definition suppression_setting `{!ChronoText} : Setting SuppressionInput Suppression :=
  MkSetting (λ input, load_suppression (si_destination_hmac input)) suppression_matches upsert_suppression
    (λ actor tenant input, audit_add actor tenant (Some (si_destination_hmac input)) (si_reason input) (si_review_at input)).
Definition add_suppression_inner `{!ChronoText} (pool : string) (tenant_id : N) (actor : string) (input : SuppressionInput)
    : CEff SettingError string :=
  set_inner suppression_setting pool tenant_id actor input.

(** [truncate_to_micros]: from the nanoseconds of a [DateTime<Utc>] to the microseconds
    a [timestamptz] holds. *)
Definition truncate_to_micros (nanos : Z) : Z := nanos / 1000.

Definition su_set_review (t : Z) (s : Suppression) : Suppression := MkSuppression (su_reason s) (su_added_at s) t.
(** [UPDATE .. SET review_at = $2 WHERE destination_hmac = $1 AND review_at > $2]: the rows affected. *)
Definition retire (hmac : string) (now : Z) (d : TenantDb) : TenantDb * nat :=
  match db_suppression (td_tables d) !! hmac with
  | Some s => if now <? su_review_at s
              then (on_tables (on_suppression (<[hmac := su_set_review now s]>)) d, 1%nat)
              else (d, 0%nat)
  | None => (d, 0%nat)
  end.
Definition retire_now (pool hmac : string) (now : Z) : CEff SqlxError nat :=
  pool_sql pool (λ _ d, Ok (retire hmac now d)).

Definition NO_SUPPRESSION : SqlxError := SqlConfiguration "no active suppression entry for this destination".
Definition added_before (a b : string * Suppression) : Prop := su_added_at a.2 <= su_added_at b.2.
#[export] Instance added_before_dec : RelDecision added_before.
Proof. intros a b. unfold added_before. apply _. Defined.
(** [repo::list]: [ORDER BY added_at]. *)
Definition list_suppressions (d : TenantDb) : list (string * Suppression) :=
  merge_sort added_before (map_to_list (db_suppression (td_tables d))).

Section Suppressions.
Context `{!PgUrl} `{!ChronoText} (base_db_url : string) (keystore : VaultStore) (compute : string → string → string).

(** [add_suppression]; [review_at] is in nanoseconds. *)
Definition add_suppression (tenant_slug destination reason : string) (review_at : Z) (actor : string)
    : CEff SettingError string :=
  let review_at := truncate_to_micros review_at in
  with_tenant base_db_url tenant_slug (audit_add actor None None reason review_at "rejected") (λ tenant pool,
    pepper ←! elift setting_of_pepper (ensure_tenant_pepper keystore tenant);
    add_suppression_inner pool (tt_id tenant) actor
      (MkSuppressionInput (compute pepper destination) reason review_at)).

(** [remove_suppression]; an unknown slug is not recorded. *)
Definition remove_suppression (tenant_slug destination actor : string) : CEff SettingError unit :=
  with_tenant base_db_url tenant_slug (eret tt) (λ tenant pool,
    pepper ←! elift setting_of_pepper (ensure_tenant_pepper keystore tenant);
    let destination_hmac := compute pepper destination in
    now ←! utc_now;
    rows_affected ←! elift StDatabase (retire_now pool destination_hmac now);
    if (rows_affected =? 0)%nat then
      elift StDatabase (audit_remove actor (Some (tt_id tenant)) destination_hmac "rejected") ;!
      ethrow (StDatabase NO_SUPPRESSION)
    else elift StDatabase (audit_remove actor (Some (tt_id tenant)) destination_hmac "retired")).

Definition list_suppression (tenant_slug : string) : CEff SettingError (list (string * Suppression)) :=
  show_by_slug base_db_url tenant_slug list_suppressions.
End Suppressions.

(** ** Templates *)

(** [ApproveError], with the panic of a mis-routed pool. *)
Inductive ApproveError : Type :=
| ApDatabase (e : SqlxError)
| ApRejected (message : string)
| ApRender (e : RenderError)
| ApPanic.
Definition approve_of_connect (e : ConnectError) : ApproveError :=
  match e with CSqlx e => ApDatabase e | CMisrouted => ApPanic end.

(** [template::repo::find]. *)
Definition find_template (template_id : string) (version : Z) (locale : string) (d : TenantDb) : option Template :=
  db_template (td_tables d) !! (template_id, version, locale).

(** [ORDER BY version, locale]. *)
Definition version_order (a b : (Z * string) * Template) : Prop :=
  a.1.1 < b.1.1 ∨ (a.1.1 = b.1.1 ∧ String.leb a.1.2 b.1.2 = true).
#[export] Instance version_order_dec : RelDecision version_order.
Proof. intros a b. unfold version_order. apply _. Defined.
Definition list_versions (template_id : string) (d : TenantDb) : list ((Z * string) * Template) :=
  merge_sort version_order
    (omap (λ '((tid, v, l), row), if decide (tid = template_id) then Some ((v, l), row) else None)
       (map_to_list (db_template (td_tables d)))).

(** [ON CONFLICT (template_id, version, locale) DO NOTHING]: whether the row is new. *)
Definition insert_template (key : string * Z * string) (row : Template) (d : TenantDb) : TenantDb * bool :=
  match db_template (td_tables d) !! key with
  | Some _ => (d, false)
  | None => (on_tables (on_template (<[key := row]>)) d, true)
  end.
Definition insert_template_if_absent (pool template_id : string) (version : Z) (ch locale body approved_by : string)
    (approved_at : Z) : CEff SqlxError bool :=
  pool_sql pool (λ _ d, Ok (insert_template (template_id, version, locale) (MkTemplate ch body approved_by approved_at) d)).

Definition audit_template (actor : string) (tenant : option N) (template_id : string) (version : Z) (ch locale outcome : string)
    : CEff SqlxError unit :=
  record_audit actor "template.approve" tenant
    [("template_id", Some template_id); ("version", json_num version); ("channel", Some ch); ("locale", Some locale);
     ("outcome", Some outcome)]%string.

Module template_rejection.
Definition NO_SLUG : string := "no tenant registered with slug".
Definition ALREADY_APPROVED : string := "is already approved; approve a new version instead".
Definition NO_TEMPLATE : string := "no such template".
End template_rejection.

(** [approve_template_inner]. *)
Definition approve_template_inner (pool : string) (tenant_id : N) (template_id : string) (version : Z)
    (ch locale body actor : string) : CEff ApproveError string :=
  now ←! utc_now;
  inserted ←! elift ApDatabase (insert_template_if_absent pool template_id version ch locale body actor now);
  if negb inserted then
    elift ApDatabase (audit_template actor (Some tenant_id) template_id version ch locale "rejected") ;!
    ethrow (ApRejected template_rejection.ALREADY_APPROVED)
  else
    elift ApDatabase (audit_template actor (Some tenant_id) template_id version ch locale "created") ;!
    eret "created"%string.

Section Templates.
Context `{!PgUrl} (base_db_url : string).

Definition approve_template (tenant_slug template_id : string) (version : Z) (ch locale body actor : string)
    : CEff ApproveError string :=
  by_slug base_db_url ApDatabase approve_of_connect tenant_slug
    (elift ApDatabase (audit_template actor None template_id version ch locale "rejected") ;!
     ethrow (ApRejected template_rejection.NO_SLUG))
    (λ tenant pool, approve_template_inner pool (tt_id tenant) template_id version ch locale body actor).

Definition resolve_tenant (tenant_slug : string) : CEff ApproveError Tenant :=
  tenant ←! elift ApDatabase (query (λ _, find_by_slug tenant_slug));
  eof (ok_or tenant (ApRejected template_rejection.NO_SLUG)).

(** A read of the tenant's templates. *)
Definition read_templates {A} (tenant_slug : string) (f : TenantDb → A) : CEff ApproveError A :=
  tenant ←! resolve_tenant tenant_slug;
  pool ←! elift approve_of_connect (connect_tenant_pool base_db_url (tt_id tenant) (tt_database_name tenant));
  elift ApDatabase (pool_query (tp_pool pool) (λ _, f)).

Definition show_template (tenant_slug template_id : string) (version : Z) (locale : string)
    : CEff ApproveError (option Template) :=
  read_templates tenant_slug (find_template template_id version locale).
Definition list_template_versions (tenant_slug template_id : string) : CEff ApproveError (list ((Z * string) * Template)) :=
  read_templates tenant_slug (list_versions template_id).
Definition render_preview (tenant_slug template_id : string) (version : Z) (locale : string) (variables : gmap string string)
    : CEff ApproveError string :=
  template ←! read_templates tenant_slug (find_template template_id version locale);
  template ←! eof (ok_or template (ApRejected template_rejection.NO_TEMPLATE));
  eof (map_err ApRender (render (te_body template) variables)).
End Templates.

(** ** Consent and suppression as settings *)

Lemma timed_put_calm pool (put : Z → TenantDb → result TenantDb SqlxError) (w : CW) d :
  calm w → cl_database (w_db w) !! pool = Some d →
  (now ←! utc_now; pool_sql pool (λ _, put_stmt (put now))) w = match put (w_now w) d with
    | Ok d' => (set_db (on_database (<[pool := d']>) (w_db w)) w, Ok tt)
    | Err e => (w, Err e)
    end.
Proof.
  intros Hc Hd. unfold ebind. rewrite utc_now_calm by apply Hc. by apply (pool_put_calm pool (λ _, put (w_now w))).
Qed.
Lemma timed_put_guar (R : relation Cluster) `{!PreOrder R} pool (put : Z → TenantDb → result TenantDb SqlxError) :
  (∀ t c d d', cl_database c !! pool = Some d → put t d = Ok d' → R c (on_database (<[pool := d']>) c)) →
  guar R (now ←! utc_now; pool_sql pool (λ _, put_stmt (put now))).
Proof. intros HR. step_guar. apply pool_put_guar; [apply _|]. eauto. Qed.

#[export, refine] Instance consent_laws `{!UuidText} : SettingLaws consent_setting (N * string) := {
  sl_view d := db_consent (td_tables d);
  sl_of i := (ci_address_id i, ci_class i);
  sl_value t i _ := MkConsent (ci_opted_in i) (ci_source i) t;
  sl_put := put_consent;
  sl_action := "consent.set";
  sl_detail i := consent_detail (Some (ci_address_id i)) i;
}.
Proof.
  - done.
  - intros t i o. simpl. unfold consent_matches; simpl. by rewrite eqb_reflx, bool_decide_true.
  - intros t i d d'. unfold put_consent. destruct (db_address _ !! _); [|done]. by intros [= <-].
  - intros pool i w d Hc Hd. exact (timed_put_calm pool (λ now, put_consent now i) w d Hc Hd).
  - intros R HR pool i Hp. exact (timed_put_guar R pool (λ now, put_consent now i) Hp).
  - done.
Defined.

#[export, refine] Instance suppression_laws `{!ChronoText} : SettingLaws suppression_setting string := {
  sl_view d := db_suppression (td_tables d);
  sl_of := si_destination_hmac;
  sl_value := suppression_value;
  sl_put := put_suppression;
  sl_action := "suppression.add";
  sl_detail i := [("destination_hmac", Some (hex_encode (si_destination_hmac i))); ("reason", Some (si_reason i));
    ("review_at", Some (show_datetime (si_review_at i)))]%string;
}.
Proof.
  - done.
  - intros t i o. simpl. unfold suppression_matches; simpl. by rewrite Z.eqb_refl, bool_decide_true.
  - by intros t i d d' [= <-].
  - intros pool i w d Hc Hd. exact (timed_put_calm pool (λ now, put_suppression now i) w d Hc Hd).
  - intros R HR pool i Hp. exact (timed_put_guar R pool (λ now, put_suppression now i) Hp).
  - done.
Defined.

(** ** What they make the dispatcher answer *)

(** The dispatcher's gate finds the row of a request under the hash of its destination. *)
Definition request_to (hmac : string) (created_at : Z) (id : N) (d : Db) : Prop :=
  ∃ r, db_request d !! (created_at, id) = Some r ∧ cr_destination_hmac r = hmac.
Lemma is_suppressed_to hmac created_at id t d :
  request_to hmac created_at id d →
  is_suppressed created_at id t d = match db_suppression d !! hmac with Some s => t <? su_review_at s | None => false end.
Proof. intros (r & Hr & <-). unfold is_suppressed. by rewrite Hr. Qed.

(** Only the setting's own table changes. *)
Lemma put_suppression_requests t i d d' :
  put_suppression t i d = Ok d' → db_request (td_tables d') = db_request (td_tables d).
Proof. by intros [= <-]. Qed.

Section Gates.
Context `{PU : !PgUrl} `{CT : !ChronoText} (url : string) (ks : VaultStore) (compute : string → string → string).
Context (slug : string) (t : Tenant) (pepper destination : string).
Context (Hurl : is_ok (parse_url url) = true).
Context (Hpepper : ∀ w, ensure_tenant_pepper ks t w = (w, Ok pepper)).

Abbreviation hash := (compute pepper destination).

(** The tenant of the slug, on its database, with nobody else at work. *)
Definition standing (d : TenantDb) (w : CW) : Prop :=
  calm w ∧ tenants_ok (w_db w) ∧ find_by_slug slug (w_db w) = Some t
  ∧ cl_database (w_db w) !! tt_database_name t = Some d.

Lemma with_tenant_standing {A} unknown (body : Tenant → string → CEff SettingError A) d w :
  standing d w → with_tenant url slug unknown body w = body t (tt_database_name t) w.
Proof. intros ([? _] & ? & ? & ?). apply with_tenant_calm; eauto. Qed.

(** A set of a suppression: at the hash, what the input says, and all else as it was. *)
Lemma add_inner_standing actor reason review d w :
  standing d w →
  let i := MkSuppressionInput hash reason review in
  ∃ w' d', add_suppression_inner (tt_database_name t) (tt_id t) actor i w
      = (w', Ok (set_outcome suppression_setting i (load_suppression hash d)))
    ∧ standing d' w' ∧ db_request (td_tables d') = db_request (td_tables d)
    ∧ db_suppression (td_tables d') = (put_spec suppression_setting (w_now w) i (db_suppression (td_tables d))).2.
Proof.
  intros (Hc & Hok & Hs & Hd) i.
  pose proof (set_inner_calm suppression_setting (tt_database_name t) (tt_id t) actor i w d Hc Hd) as Hset.
  pose proof (put_spec_outcome suppression_setting (w_now w) i (sl_view (s:=suppression_setting) d)) as Ho.
  change (db_suppression (td_tables d)) with (sl_view (s:=suppression_setting) d).
  destruct (put_spec suppression_setting (w_now w) i (sl_view d)) as [o m] eqn:Hsp. simpl in Ho. subst o.
  unfold add_suppression_inner. destruct (set_inner _ _ _ _ _ w) as [w' [o'|e]].
  - destruct Hset as (-> & d' & Hv & Hd' & ->). eexists _, d'. split; [done|]. split_and!; [|..|exact Hv].
    + split_and!; [by apply calm_set_db|by apply (pi_ok (w_db w)); [apply pinned_same|]|done|]. simpl.
      by rewrite lookup_insert_eq.
    + destruct Hd' as [->|[= <-]]; done.
  - destruct Hset as (_ & _ & e' & He & _). discriminate He.
Qed.

(** A message to another destination, or of no request on file, sees none of it. *)
Lemma is_suppressed_elsewhere created_at id τ d d' :
  db_request (td_tables d') = db_request (td_tables d) →
  (∀ h, h ≠ hash → db_suppression (td_tables d') !! h = db_suppression (td_tables d) !! h) →
  ¬ request_to hash created_at id (td_tables d) →
  is_suppressed created_at id τ (td_tables d') = is_suppressed created_at id τ (td_tables d).
Proof.
  intros Hreq Hsup Hn. unfold is_suppressed. rewrite Hreq. destruct (db_request (td_tables d) !! (created_at, id)) as [r|] eqn:Hr; [|done].
  rewrite Hsup; [done|]. intros He. apply Hn. by exists r.
Qed.
Lemma put_spec_elsewhere now i m h :
  h ≠ si_destination_hmac i → (put_spec suppression_setting now i m).2 !! h = m !! h.
Proof.
  intros Hh. unfold put_spec. change (sl_of (s:=suppression_setting) i) with (si_destination_hmac i).
  destruct (m !! si_destination_hmac i) as [v|]; [case_match|]; cbn [snd]; [done|by rewrite lookup_insert_ne by done..].
Qed.

(** The entry a put leaves has the review date of its input. *)
Lemma put_spec_review now reason review m :
  su_review_at <$> (put_spec suppression_setting now (MkSuppressionInput hash reason review) m).2 !! hash = Some review.
Proof.
  unfold put_spec. change (sl_of (s:=suppression_setting) _) with hash.
  change (sg_matches suppression_setting) with suppression_matches. change (sl_value (s:=suppression_setting)) with suppression_value.
  destruct (m !! hash) as [v|] eqn:Hm; [|cbn [snd]; by rewrite lookup_insert_eq].
  destruct (suppression_matches _ v) eqn:Hv; [|cbn [snd]; by rewrite lookup_insert_eq].
  simpl. rewrite Hm. unfold suppression_matches in Hv. simpl in *. apply andb_prop in Hv as [_ Hv%Z.eqb_eq]. by rewrite Hv.
Qed.

(** C17. A suppression holds until its review and no longer: on the database of a tenant
    whose pepper is on file, with Vault and the database answering and nobody else at
    work, adding one is answered, and from then on the dispatcher's gate stops the
    requests to that destination at exactly the instants before the review date and
    decides all other requests as before, and adding it again with the same reason
    and date, nanoseconds included, is answered as idempotent; removing it is answered exactly when it
    is still in force, and from that instant on the gate lets the destination through and
    decides all other requests as before, while a removal that is refused has left the
    tenant's database alone. *)
Theorem suppressions_hold_until_their_review actor reason review d w :
  standing d w →
  (∃ w' o d', add_suppression url ks compute slug destination reason review actor w = (w', Ok o) ∧ standing d' w'
    ∧ (∀ created_at id τ, request_to hash created_at id (td_tables d) →
         is_suppressed created_at id τ (td_tables d') = (τ <? truncate_to_micros review))
    ∧ (∀ created_at id τ, ¬ request_to hash created_at id (td_tables d) →
         is_suppressed created_at id τ (td_tables d') = is_suppressed created_at id τ (td_tables d))
    ∧ (add_suppression url ks compute slug destination reason review actor w').2 = Ok "idempotent"%string)
  ∧ ∃ w' r d', remove_suppression url ks compute slug destination actor w = (w', r) ∧ standing d' w'
    ∧ (r = Ok tt ↔ ∃ s, load_suppression hash d = Some s ∧ w_now w < su_review_at s)
    ∧ (r = Ok tt → ∀ created_at id τ, request_to hash created_at id (td_tables d) → w_now w <= τ →
         is_suppressed created_at id τ (td_tables d') = false)
    ∧ (r = Ok tt → ∀ created_at id τ, ¬ request_to hash created_at id (td_tables d) →
         is_suppressed created_at id τ (td_tables d') = is_suppressed created_at id τ (td_tables d))
    ∧ (r ≠ Ok tt → r = Err (StDatabase NO_SUPPRESSION) ∧ d' = d).
Proof.
  intros Hst. split.
  - set (i := MkSuppressionInput hash reason (truncate_to_micros review)).
    assert (∀ d w, standing d w → add_suppression url ks compute slug destination reason review actor w
      = add_suppression_inner (tt_database_name t) (tt_id t) actor i w) as Hadd.
    { intros d1 w1 H1. unfold add_suppression. rewrite (with_tenant_standing _ _ d1) by done.
      unfold ebind, elift. by rewrite Hpepper. }
    rewrite (Hadd d) by done.
    destruct (add_inner_standing actor reason (truncate_to_micros review) d w Hst) as (w' & d' & Hrun & Hst' & Hreq & Hsup).
    eexists w', _, d'. split_and!; [exact Hrun|done| | |].
    2: { intros created_at id τ. apply is_suppressed_elsewhere; [done|]. intros h Hh. rewrite Hsup. by apply put_spec_elsewhere. }
    + intros created_at id τ Hr. rewrite (is_suppressed_to hash) by (unfold request_to; by rewrite Hreq).
      pose proof (put_spec_review (w_now w) reason (truncate_to_micros review) (db_suppression (td_tables d))) as Hv.
      rewrite <- Hsup in Hv. destruct (db_suppression (td_tables d') !! hash) as [s|]; [|done]. by injection Hv as ->.
    + rewrite (Hadd d') by done.
      destruct (add_inner_standing actor reason (truncate_to_micros review) d' w' Hst') as (w2 & d2 & Hrun2 & _).
      unfold i. rewrite Hrun2. cbn [snd].
      f_equal. unfold load_suppression. rewrite Hsup.
      change hash with (sl_of (s:=suppression_setting) (MkSuppressionInput hash reason (truncate_to_micros review))).
      rewrite <- (put_spec_outcome suppression_setting (w_now w)). by rewrite put_spec_again.
  - unfold remove_suppression. rewrite (with_tenant_standing _ _ d) by done. unfold ebind at 1, elift at 1. rewrite Hpepper.
    cbn [map_err]. destruct Hst as (Hc & Hok & Hs & Hd). unfold ebind at 1. rewrite utc_now_calm by apply Hc.
    unfold ebind at 1, elift at 1, retire_now, pool_sql. rewrite sql_calm by apply Hc. unfold on_pool. rewrite Hd.
    unfold retire, load_suppression.
    assert (∀ d' w', calm w' → cl_tenant (w_db w') = cl_tenant (w_db w) → cl_database (w_db w') !! tt_database_name t = Some d' →
      standing d' w') as Hafter.
    { intros d' w' H1 H2 H3. split_and!; [done|by apply (pi_ok (w_db w)); [apply pinned_same|]| |done].
      unfold find_by_slug in *. by rewrite H2. }
    destruct (db_suppression (td_tables d) !! hash) as [s|] eqn:Hold; [destruct (Z.ltb_spec (w_now w) (su_review_at s))|];
      simpl; unfold ebind, elift, audit_remove, record_audit; rewrite exec_calm by apply Hc; simpl; rewrite ?on_database_id by done.
    + eexists _, _, _. split; [done|]. split_and!; [apply Hafter; [by repeat apply calm_set_db|done|simpl; by rewrite lookup_insert_eq]
        |naive_solver| | |done].
      2: { intros _ created_at id τ. apply is_suppressed_elsewhere; [done|]. intros h Hh. simpl. by rewrite lookup_insert_ne by done. }
      intros _ created_at id τ Hr Hle. rewrite (is_suppressed_to hash) by done. simpl.
      rewrite lookup_insert_eq. simpl. by apply Z.ltb_ge.
    + eexists _, _, d. split; [done|]. split_and!; [apply Hafter; [by repeat apply calm_set_db|done|done]| |done|done|done].
      split; [done|]. intros (s' & [= ->] & ?). lia.
    + eexists _, _, d. split; [done|]. split_and!; [apply Hafter; [by repeat apply calm_set_db|done|done]| |done|done|done].
      split; [done|]. by intros (s' & ? & _).
Qed.
End Gates.

Section ConsentGate.
Context `{PU : !PgUrl} `{UT : !UuidText} (url : string) (ks : VaultStore) (compute : string → string → string).
Context (slug : string) (t : Tenant) (pepper destination ch kind : string).
Context (Hurl : is_ok (parse_url url) = true) (Hkind : kind_for_channel ch = Some kind).
Context (Hpepper : ∀ w, ensure_tenant_pepper ks t w = (w, Ok pepper)).

(** Consent is recorded for addresses on file and decides the marketing gate: for
    a destination with an active address the command is answered, the dispatcher's
    gate from then on answers for that address and class what was recorded, and
    for every other address or class what it answered before; for a destination
    without one the command is refused, and no address, customer or consent has
    been made up. *)
Theorem consent_decides_its_own_gate class_value opted_in source actor d w :
  standing slug t d w →
  let found := find_active_address_by_hmac kind (compute pepper destination) (td_tables d) in
  (∀ a, found = Some a → db_address (td_tables d) !! ca_id a = Some a) →
  let '(w', r) := set_consent url ks compute slug destination ch class_value opted_in source actor w in
  match found with
  | None => r = Err (StDatabase NO_ADDRESS) ∧ standing slug t d w'
  | Some a => is_ok r = true ∧ ∃ d', standing slug t d' w'
      ∧ db_address (td_tables d') = db_address (td_tables d) ∧ db_customer (td_tables d') = db_customer (td_tables d)
      ∧ ∀ id cl, is_consented id cl (td_tables d')
                 = if decide ((id, cl) = (ca_id a, class_value)) then opted_in else is_consented id cl (td_tables d)
  end.
Proof.
  intros Hst found Hfile. unfold set_consent. rewrite (with_tenant_standing _ _ _ Hurl _ _ d) by done.
  unfold ebind at 1, elift at 1. rewrite Hpepper. cbn [map_err]. unfold ebind at 1. rewrite Hkind. cbn [ok_or eof].
  destruct Hst as (Hc & Hok & Hs & Hd). unfold ebind at 1, elift at 1, pool_query, pool_sql. rewrite sql_calm by apply Hc.
  unfold on_pool. rewrite Hd. cbn [map_err]. rewrite on_database_id, set_db_same by done. fold found.
  assert (∀ x l, standing slug t x (set_db (on_control_audit (λ y, y ++ l)
    (on_database (<[tt_database_name t := x]>) (w_db w))) w)) as Hafter.
  { intros x l. split_and!; [by apply calm_set_db|by apply (pi_ok (w_db w)); [apply pinned_same|]|done|].
    simpl. by rewrite lookup_insert_eq. }
  destruct found as [a|] eqn:Hf.
  - set (i := MkConsentInput (ca_id a) class_value opted_in source).
    pose proof (set_inner_calm consent_setting (tt_database_name t) (tt_id t) actor i w d Hc Hd) as Hset.
    unfold set_consent_inner. destruct (put_spec consent_setting (w_now w) i (sl_view d)) as [o m] eqn:Hsp.
    destruct (set_inner consent_setting _ _ _ i w) as [w' [o'|e]].
    2: { exfalso. destruct Hset as (_ & _ & e' & He & _). simpl in He. unfold put_consent in He. simpl in He.
         by rewrite (Hfile a eq_refl) in He. }
    destruct Hset as (_ & d' & Hv & Hd' & ->). split; [done|]. exists d'. split; [apply Hafter|].
    assert (db_address (td_tables d') = db_address (td_tables d) ∧ db_customer (td_tables d') = db_customer (td_tables d)) as [-> ->].
    { destruct Hd' as [->|Hp]; [done|]. simpl in Hp. unfold put_consent in Hp. cbn [i ci_address_id] in Hp. rewrite (Hfile a eq_refl) in Hp. by injection Hp as <-. }
    split_and!; [done..|]. intros id cl. unfold is_consented.
    change (db_consent (td_tables d')) with (sl_view (s:=consent_setting) d'). rewrite Hv. revert Hsp. unfold put_spec.
    change (sl_of (s:=consent_setting) i) with (ca_id a, class_value).
    change (sl_view (s:=consent_setting) d) with (db_consent (td_tables d)).
    destruct (db_consent (td_tables d) !! (ca_id a, class_value)) as [v|] eqn:Hold; [destruct (sg_matches _ i v) eqn:Hm|];
      intros [= _ <-]; case_decide as Hk; try rewrite lookup_insert_ne by done; try done;
      rewrite Hk, ?lookup_insert_eq; try done.
    rewrite Hold. simpl in Hm. unfold consent_matches in Hm. simpl in Hm. apply andb_prop in Hm as [Hm _].
    by apply eqb_prop in Hm.
  - unfold ebind, elift, audit_consent, record_audit. rewrite exec_calm by apply Hc. cbn [map_err ethrow]. split; [done|].
    pose proof (Hafter d) as Ha. rewrite on_database_id in Ha by done. apply Ha.
Qed.
End ConsentGate.

(** ** Templates never change *)

Definition template_at (pool : string) (key : string * Z * string) (row : Template) (c : Cluster) : Prop :=
  ∃ d, cl_database c !! pool = Some d ∧ db_template (td_tables d) !! key = Some row.

(** What every process does to templates: it adds some. *)
Record templates_kept (c c' : Cluster) : Prop := {
  tk_pinned : pinned c c';
  tk_row pool key row : template_at pool key row c → template_at pool key row c';
}.
#[export] Instance templates_kept_pre : PreOrder templates_kept.
Proof. split; [intros c; by split|]. intros c1 c2 c3 [A1 A2] [B1 B2]. split; [by etransitivity|auto]. Qed.
Lemma template_at_stable pool key row : stable templates_kept (template_at pool key row).
Proof. intros c c' HR. apply HR. Qed.
#[export] Hint Resolve template_at_stable : core.

Lemma record_audit_templates actor action tenant detail : guar templates_kept (record_audit actor action tenant detail).
Proof. apply guar_exec; [apply _|]. intros t c. split; [by apply pinned_same|done]. Qed.

Lemma kept_insert_template pool key row d c :
  cl_database c !! pool = Some d → templates_kept c (on_database (<[pool := (insert_template key row d).1]>) c).
Proof.
  intros Hd. split; [by apply pinned_same|]. intros p k r (x & Hx & Hr). unfold template_at; simpl.
  destruct (decide (p = pool)) as [->|Hne]; [|rewrite lookup_insert_ne by done; by eauto].
  simplify_eq. rewrite lookup_insert_eq. eexists. split; [done|]. unfold insert_template.
  destruct (db_template (td_tables d) !! key) eqn:Hk; [done|]. simpl. by rewrite lookup_insert_ne by congruence.
Qed.

Section TemplateRuns.
Context `{PU : !PgUrl} (url slug template_id : string) (version : Z) (ch locale body actor : string).
Abbreviation key := (template_id, version, locale).

(** The row, if it was put there by this run; or it was there before. *)
Lemma approve_inner_hoare pool tenant :
  hoare templates_kept (λ _, True) (approve_template_inner pool tenant template_id version ch locale body actor)
    (λ o c, o = "created"%string ∧ ∃ t, template_at pool key (MkTemplate ch body actor t) c) (λ _, True).
Proof.
  unfold approve_template_inner. eapply (hoare_bind _ _ _ _ (λ _ _, True)); [by apply hoare_now; [apply _|..]|]. intros now.
  eapply (hoare_bind _ _ _ _ (λ (b : bool) c, b = true → template_at pool key (MkTemplate ch body actor now) c)).
  { apply hoare_lift, hoare_sql; [apply _|done|done|]. intros t c _. unfold on_pool.
    destruct (cl_database c !! pool) as [d|] eqn:Hd; [|done].
    pose proof (kept_insert_template pool key (MkTemplate ch body actor now) d c Hd) as HR.
    destruct (insert_template _ _ d) as [d' b] eqn:Hi. split; [exact HR|]. intros ->. exists d'. simpl.
    rewrite lookup_insert_eq. split; [done|]. revert Hi. unfold insert_template.
    destruct (db_template (td_tables d) !! key); intros [= <-]. simpl. by rewrite lookup_insert_eq. }
  intros [|]; simpl.
  - apply (hoare_pre _ _ (template_at pool key (MkTemplate ch body actor now))); [|by auto].
    eapply (hoare_bind _ _ _ _ (λ _, template_at pool key (MkTemplate ch body actor now))).
    { apply hoare_lift, (sustains_guar templates_kept); [auto|apply record_audit_templates]. }
    intros u. apply hoare_ret; [apply _|]. eauto.
  - apply (hoare_pre _ _ (λ _, True)); [|done]. eapply (hoare_bind _ _ _ _ (λ _ _, True)); [|intros u; by apply hoare_throw; [apply _|]].
    apply hoare_lift, (sustains_guar templates_kept (λ _, True)); [done|apply record_audit_templates].
Qed.

(** With the row on file, an approval is never answered. *)
Lemma approve_inner_refused pool tenant row :
  hoare templates_kept (template_at pool key row) (approve_template_inner pool tenant template_id version ch locale body actor)
    (λ _ _, False) (λ _, True).
Proof.
  unfold approve_template_inner. eapply (hoare_bind _ _ _ _ (λ _, template_at pool key row)); [by apply hoare_now; [apply _|..]|].
  intros now. eapply (hoare_bind _ _ _ _ (λ (b : bool) _, b = false)).
  { apply hoare_lift, hoare_sql; [apply _|auto|done|]. intros t c (d & Hd & Hr). unfold on_pool. rewrite Hd.
    pose proof (kept_insert_template pool key (MkTemplate ch body actor now) d c Hd) as HR.
    unfold insert_template in *. rewrite Hr in *. done. }
  intros b. apply (hoare_pre _ _ (λ _, b = false ∧ True)); [|done]. apply hoare_pull. intros ->. simpl.
  eapply (hoare_bind _ _ _ _ (λ _ _, True)); [|intros u; by apply hoare_throw; [apply _|]].
  apply hoare_lift, (sustains_guar templates_kept (λ _, True)); [done|apply record_audit_templates].
Qed.

Lemma approve_unknown Q P :
  stable templates_kept P →
  hoare templates_kept P (elift ApDatabase (audit_template actor None template_id version ch locale "rejected") ;!
    ethrow (A:=string) (ApRejected template_rejection.NO_SLUG)) Q (λ _, True).
Proof.
  intros HP. eapply (hoare_bind _ _ _ _ (λ _, P)); [|intros u; by apply hoare_throw; [apply _|]].
  apply hoare_lift, (sustains_guar templates_kept); [done|apply record_audit_templates].
Qed.

Lemma slug_at_kept slug' pool : stable templates_kept (λ c, tenants_ok c ∧ slug_at slug' pool c).
Proof. intros c c' HR. apply slug_at_stable, HR. Qed.

Lemma approve_hoare :
  hoare templates_kept tenants_ok (approve_template url slug template_id version ch locale body actor)
    (λ o c, o = "created"%string ∧ ∃ pool t, (tenants_ok c ∧ slug_at slug pool c)
       ∧ template_at pool key (MkTemplate ch body actor t) c) (λ _, True).
Proof.
  assert (stable templates_kept tenants_ok) as Hst by (intros c c' HR; apply (tk_pinned _ _ HR)).
  apply by_slug_hoare; [apply _|apply tk_pinned|done|done|by apply approve_unknown|].
  intros t. eapply hoare_weaken.
  - apply (hoare_frame _ (λ c, tenants_ok c ∧ slug_at slug (tt_database_name t) c) (λ _, True));
      [apply slug_at_kept|apply approve_inner_hoare].
  - intros c Hc. by split.
  - intros o c (Hc & -> & t' & Ht). split; [done|]. by exists (tt_database_name t), t'.
  - done.
Qed.

Lemma approve_refused pool row :
  hoare templates_kept (λ c, (tenants_ok c ∧ slug_at slug pool c) ∧ template_at pool key row c)
    (approve_template url slug template_id version ch locale body actor) (λ _ _, False) (λ _, True).
Proof.
  assert (stable templates_kept (λ c, (tenants_ok c ∧ slug_at slug pool c) ∧ template_at pool key row c)) as Hst.
  { apply stable_and; [apply slug_at_kept|auto]. }
  apply by_slug_hoare; [apply _|apply tk_pinned|done|naive_solver|by apply approve_unknown|].
  intros t. eapply hoare_pre; [apply (approve_inner_refused _ _ row)|].
  intros c [[[Hok Hs] Hrow] Hs']. by rewrite (slug_at_unique _ _ _ _ Hok Hs' Hs).
Qed.
End TemplateRuns.

(** C18. An approved template never changes: whatever other processes do and whichever
    statements fail, an approval that is answered has filed exactly the body,
    channel and approver it was given, approving keeps every template of every
    tenant as it was, and while processes do nothing else to templates no later
    approval of the same template, version and locale of the tenant is ever
    answered, whoever asks with whichever body. *)
Theorem approved_templates_never_change `{!PgUrl} url slug template_id version ch locale body actor (w w1 : CW) o :
  rely templates_kept w → tenants_ok (w_db w) →
  approve_template url slug template_id version ch locale body actor w = (w1, Ok o) →
  templates_kept (w_db w) (w_db w1)
  ∧ ∃ pool at_, slug_at slug pool (w_db w1)
    ∧ template_at pool (template_id, version, locale) (MkTemplate ch body actor at_) (w_db w1)
    ∧ ∀ w2, rely templates_kept w2 → templates_kept (w_db w1) (w_db w2) →
        template_at pool (template_id, version, locale) (MkTemplate ch body actor at_) (w_db w2)
        ∧ ∀ ch' body' actor', is_ok (approve_template url slug template_id version ch' locale body' actor' w2).2 = false.
Proof.
  intros Hr Hok Hrun. destruct (approve_hoare url slug template_id version ch locale body actor w Hr Hok) as (_ & HR & Hp).
  rewrite Hrun in HR, Hp. destruct Hp as (_ & pool & t & Hs & Ht). split; [done|]. exists pool, t. split_and!; [apply Hs|done|].
  intros w2 Hr2 HR2. split; [by apply HR2|]. intros ch' body' actor'.
  destruct (approve_refused url slug template_id version ch' locale body' actor' pool (MkTemplate ch body actor t) w2 Hr2)
    as (_ & _ & Hp2).
  - split; [by apply (slug_at_kept _ _ _ _ HR2)|by apply HR2].
  - by destruct (approve_template _ _ _ _ _ _ _ _ w2).2.
Qed.

(** ** Concrete runs *)

#[local] Existing Instance demo_url.
#[local] Existing Instance demo_chrono.
#[local] Existing Instance demo_uuid.

Definition approve_hello (body : string) (w : CW) : CW * result string ApproveError :=
  approve_template "postgres://" "acme" "hello" 1 channel.SMS "en" body "ops" w.

Lemma approved_witness :
  ∃ w1, approve_hello "Hi" (slow_cluster 9 two_tenants) = (w1, Ok "created"%string)
    ∧ is_ok (approve_hello "Bye" w1).2 = false.
Proof.
  destruct (approve_hello "Hi" (slow_cluster 9 two_tenants)) as [w1 [o|e]] eqn:Hrun;
    [|exfalso; vm_compute in Hrun; discriminate Hrun].
  assert (o = "created"%string) as -> by (vm_compute in Hrun; by injection Hrun as _ <-).
  assert (rely templates_kept w1) as Hr.
  { destruct (approve_hoare "postgres://" "acme" "hello" 1 channel.SMS "en" "Hi" "ops" _ (slow_rely templates_kept 9 two_tenants)
      two_tenants_ok) as (Hr & _). unfold approve_hello in Hrun. by rewrite Hrun in Hr. }
  destruct (approved_templates_never_change "postgres://" "acme" "hello" 1 channel.SMS "en" "Hi" "ops" (slow_cluster 9 two_tenants)
    w1 _ (slow_rely _ _ _) two_tenants_ok Hrun) as (_ & pool & t & _ & _ & H).
  exists w1. split; [reflexivity|]. destruct (H w1 Hr (reflexivity _)) as [_ H2]. exact (H2 channel.SMS "Bye"%string "ops"%string).
Defined.

(** A tenant whose pepper is on file, and a toy keyed hash. *)
Definition toy_hmac (pepper destination : string) : string := pepper +:+ "/" +:+ destination.
Definition bolt_hash : string := toy_hmac "plain-wrapped-bolt" "+15550100".
Definition bolt_request : CommsRequest :=
  MkRequest 2 5 channel.SMS class.MARKETING "hello" 1 None bolt_hash "" None 7 None None None None.
Definition bolt_address : CustomerAddress := MkAddress 9 5 kind.MSISDN "" bolt_hash 1 None None 0 None 0.
Definition bolt_db : TenantDb :=
  on_tables (λ _, on_address (<[9%N := bolt_address]>) (on_request (<[(50, 3%N) := bolt_request]>) empty_db)) demo_tenant_db.
Definition bolt_cluster : CW := cluster_world (on_database (<["tenant_bolt"%string := bolt_db]>) two_tenants).
Lemma bolt_by_slug : find_by_slug "bolt" (w_db bolt_cluster) = Some bolt.
Proof. vm_compute. reflexivity. Qed.
Lemma bolt_standing : standing "bolt" bolt bolt_db bolt_cluster.
Proof.
  split_and!; [done|apply (pi_ok two_tenants); [by apply pinned_same|apply two_tenants_ok]|apply bolt_by_slug|].
  simpl. by rewrite lookup_insert_eq.
Qed.

Lemma demo_url_ok : is_ok (parse_url "postgres://") = true.
Proof. reflexivity. Qed.
Lemma bolt_pepper w : ensure_tenant_pepper (fixed_vault "k") bolt w = (w, Ok "plain-wrapped-bolt"%string).
Proof. reflexivity. Qed.

Lemma suppression_witness :
  ∃ w' o d', add_suppression "postgres://" (fixed_vault "k") toy_hmac "bolt" "+15550100" "complaint" 200999 "ops" bolt_cluster
      = (w', Ok o)
    ∧ is_suppressed 50 3 199 (td_tables d') = true ∧ is_suppressed 50 3 200 (td_tables d') = false.
Proof.
  destruct (suppressions_hold_until_their_review "postgres://" (fixed_vault "k") toy_hmac "bolt" bolt "plain-wrapped-bolt"
    "+15550100" demo_url_ok bolt_pepper "ops" "complaint" 200999 bolt_db bolt_cluster bolt_standing)
    as [(w' & o & d' & Hrun & _ & H & _ & _) _].
  exists w', o, d'. split; [exact Hrun|].
  assert (request_to (toy_hmac "plain-wrapped-bolt" "+15550100") 50 3 (td_tables bolt_db)) as Hreq.
  { exists bolt_request. split; [reflexivity|reflexivity]. }
  split; rewrite H by exact Hreq; reflexivity.
Defined.

Lemma bolt_found : find_active_address_by_hmac kind.MSISDN bolt_hash (td_tables bolt_db) = Some bolt_address.
Proof. vm_compute. reflexivity. Qed.

Lemma consent_witness :
  ∃ w' r d', set_consent "postgres://" (fixed_vault "k") toy_hmac "bolt" "+15550100" channel.SMS class.MARKETING true "web_form"
      "ops" bolt_cluster = (w', r)
    ∧ is_ok r = true ∧ is_consented 9 class.MARKETING (td_tables d') = true.
Proof.
  pose proof (consent_decides_its_own_gate "postgres://" (fixed_vault "k") toy_hmac "bolt" bolt "plain-wrapped-bolt" "+15550100"
    channel.SMS kind.MSISDN demo_url_ok eq_refl bolt_pepper class.MARKETING true "web_form" "ops" bolt_db bolt_cluster
    bolt_standing) as H.
  cbv zeta in H. fold bolt_hash in H. rewrite bolt_found in H.
  destruct (set_consent _ _ _ _ _ _ _ _ _ _ bolt_cluster) as [w' r].
  destruct H as (Hr & d' & _ & _ & _ & Hg); [intros a [= <-]; reflexivity|].
  exists w', r, d'. split_and!; [reflexivity|exact Hr|]. rewrite Hg. reflexivity.
Defined.

(** Removing a suppression under an unknown slug leaves no trace: the command fails and
    nothing at all is recorded, where every other command of the kind leaves a
    rejected row. *)
Theorem removal_for_an_unknown_slug_is_not_recorded :
  let removed := remove_suppression "postgres://" (fixed_vault "k") toy_hmac "nobody" "+15550100" "ops" bolt_cluster in
  let added := add_suppression "postgres://" (fixed_vault "k") toy_hmac "nobody" "+15550100" "complaint" 0 "ops" bolt_cluster in
  removed.2 = Err (StDatabase rejection.NO_SLUG) ∧ cl_audit (w_db removed.1) = []
  ∧ added.2 = Err (StDatabase rejection.NO_SLUG) ∧ length (cl_audit (w_db added.1)) = 1%nat.
Proof. split_and!; vm_compute; reflexivity. Qed.
