(* ===== verification/Calendar.v ===== *)
(** * Months and the names of monthly tables

    Models the dates of [src/partition_lifecycle/{lifecycle,repo}.rs]: first days of
    months, arithmetic on them, and the names [<table>_YYYY_MM] that the monthly
    tables of the ledger carry, which are read back to find out the month. The
    calendar is chrono's and not part of the repository: it is the interface
    [Calendar] with the laws [CalendarLaws]; [gregorian] implements it. *)

From S2P Require Import Prelude RustStd Time.
From stdpp Require Import base strings list pretty numbers.
From Stdlib Require Import ZArith Lia Ascii.

Local Open Scope Z_scope.
#[local] Ltac Zify.zify_post_hook ::= Z.to_euclidean_division_equations.

(** A [NaiveDate] is a number of days, as in Time.v. *)
Class Calendar : Type := {
  cal_year : Z → Z;
  cal_month : Z → Z;
  from_ymd_opt : Z → Z → Z → option Z;
  checked_add_months : Z → Z → option Z;
  checked_sub_months : Z → Z → option Z;
}.

(** What chrono documents of these: months are numbered through, the first day of
    each is [month_first], the dates of a range of years exist, every date lies in
    its month, and moving a first day by months gives a first day, or nothing outside
    the range. *)
Class CalendarLaws `{CA : !Calendar} : Type := {
  month_first : Z → Z;
  min_year : Z;
  max_year : Z;
  cal_range : min_year <= 0 ∧ 10000 <= max_year;
  month_first_lt k : month_first k < month_first (k + 1);
  from_ymd_first y m : 1 <= m <= 12 →
    from_ymd_opt y m 1 = if (min_year <=? y) && (y <=? max_year) then Some (month_first (12 * y + m - 1)) else None;
  from_ymd_month y m : ¬ 1 <= m <= 12 → from_ymd_opt y m 1 = None;
  cal_of_date d : month_first (12 * min_year) <= d < month_first (12 * max_year + 12) →
    1 <= cal_month d <= 12
    ∧ month_first (12 * cal_year d + cal_month d - 1) <= d < month_first (12 * cal_year d + cal_month d);
  add_months_first k n : 12 * min_year <= k <= 12 * max_year + 11 → 0 <= n →
    checked_add_months (month_first k) n
    = if k + n <=? 12 * max_year + 11 then Some (month_first (k + n)) else None;
  sub_months_first k n : 12 * min_year <= k <= 12 * max_year + 11 → 0 <= n →
    checked_sub_months (month_first k) n = if 12 * min_year <=? k - n then Some (month_first (k - n)) else None;
}.

(** ** [partition_name] and its inverse *)

(** [{:0w}] of an integer. *)
Fixpoint zeros (n : nat) : string := match n with O => "" | S n => String "0"%char (zeros n) end.
Definition fmt_pad (w : nat) (n : Z) : string :=
  if n <? 0 then String "-"%char (zeros (w - 1 - String.length (pretty (- n))) +:+ pretty (- n))
  else zeros (w - String.length (pretty n)) +:+ pretty n.

(** [is_ascii_digit] of every byte, and [parse] of a string of digits. *)
Definition digit_of (c : Ascii.ascii) : option Z :=
  let n := Z.of_N (Ascii.N_of_ascii c) - 48 in if (0 <=? n) && (n <=? 9) then Some n else None.
Fixpoint all_digits (s : string) : bool :=
  match s with "" => true | String c s => match digit_of c with Some _ => all_digits s | None => false end end%string.
Fixpoint parse_onto (acc : Z) (s : string) : option Z :=
  match s with
  | ""%string => Some acc
  | String c s => match digit_of c with Some n => parse_onto (10 * acc + n) s | None => None end
  end.
Definition parse_int (s : string) : option Z := match s with ""%string => None | _ => parse_onto 0 s end.

Section Names.
Context `{CA : !Calendar}.

Definition partition_name (parent_table : string) (month_start : Z) : string :=
  parent_table +:+ "_" +:+ fmt_pad 4 (cal_year month_start) +:+ "_" +:+ fmt_pad 2 (cal_month month_start).

Definition parse_partition_month (parent_table relname : string) : option Z :=
  suffix ← RustStd.strip_prefix parent_table relname ≫= RustStd.strip_prefix "_";
  '(year, month) ← split_once "_" suffix;
  if negb (String.length year =? 4)%nat || negb (String.length month =? 2)%nat then None
  else if negb (all_digits year) || negb (all_digits month) then None
  else year ← parse_int year; month ← parse_int month; from_ymd_opt year month 1.

(** [month_start], [add_months] and [subtract_months] of the lifecycle: [None] is the
    panic of their [expect]. *)
Definition month_start (date : Z) : option Z := from_ymd_opt (cal_year date) (cal_month date) 1.
Definition add_months (date months : Z) : option Z := checked_add_months date months.
Definition subtract_months (date months : Z) : option Z := checked_sub_months date months.
End Names.

(** ** Months *)

Section Laws.
Context `{CA : !Calendar} `{CL : !CalendarLaws}.

(** The month number of a date that is the first of a month of the range. *)
Definition is_month (k d : Z) : Prop := 12 * min_year <= k <= 12 * max_year + 11 ∧ d = month_first k.
Definition in_calendar (d : Z) : Prop := month_first (12 * min_year) <= d < month_first (12 * max_year + 12).

Lemma month_first_mono k l : k < l → month_first k < month_first l.
Proof.
  intros Hl. replace l with (k + 1 + Z.of_nat (Z.to_nat (l - k - 1))) by lia. generalize (Z.to_nat (l - k - 1)). intros n.
  induction n as [|n IH].
  - replace (k + 1 + Z.of_nat 0) with (k + 1) by lia. apply month_first_lt.
  - etransitivity; [exact IH|]. replace (k + 1 + Z.of_nat (S n)) with (k + 1 + Z.of_nat n + 1) by lia. apply month_first_lt.
Qed.
Lemma month_first_le k l : month_first k <= month_first l ↔ k <= l.
Proof.
  destruct (Z.lt_trichotomy k l) as [Hl|[->|Hl]]; [|lia|].
  - pose proof (month_first_mono k l Hl). lia.
  - pose proof (month_first_mono l k Hl). lia.
Qed.
Lemma month_first_inj k l : month_first k = month_first l → k = l.
Proof. intros E. pose proof (month_first_le k l). pose proof (month_first_le l k). lia. Qed.

(** The first of a month lies in that month. *)
Lemma cal_of_first k : 12 * min_year <= k <= 12 * max_year + 11 →
  1 <= cal_month (month_first k) <= 12 ∧ 12 * cal_year (month_first k) + cal_month (month_first k) - 1 = k.
Proof.
  intros Hk. destruct (cal_of_date (month_first k)) as (Hm & H1 & H2).
  - split; [apply month_first_le; lia|apply month_first_mono; lia].
  - split; [done|]. apply (proj1 (month_first_le _ _)) in H1.
    set (l := 12 * cal_year (month_first k) + cal_month (month_first k)) in *.
    assert (k < l) by (destruct (decide (l <= k)) as [Hl|]; [apply (proj2 (month_first_le _ _)) in Hl; lia|lia]). lia.
Qed.

(** Moving a month stays among the months, or panics outside the range. *)
Lemma add_months_is k d n : is_month k d → 0 <= n → k + n <= 12 * max_year + 11 →
  ∃ e, add_months d n = Some e ∧ is_month (k + n) e.
Proof.
  intros [Hk ->] Hn Hr. unfold add_months. rewrite add_months_first by done. rewrite (proj2 (Z.leb_le _ _) Hr).
  eexists. split; [done|]. split; [lia|done].
Qed.
Lemma add_months_inv k d n e : is_month k d → 0 <= n → add_months d n = Some e → is_month (k + n) e.
Proof.
  intros [Hk ->] Hn. unfold add_months. rewrite add_months_first by done. case_match eqn:E; [|done].
  intros [= <-]. apply Z.leb_le in E. split; [lia|done].
Qed.
Lemma sub_months_inv k d n e : is_month k d → 0 <= n → subtract_months d n = Some e → is_month (k - n) e.
Proof.
  intros [Hk ->] Hn. unfold subtract_months. rewrite sub_months_first by done. case_match eqn:E; [|done].
  intros [= <-]. apply Z.leb_le in E. split; [lia|done].
Qed.

(** [month_start] never panics: a date that exists lies in a month that exists. *)
Lemma month_start_is d : in_calendar d →
  ∃ e, month_start d = Some e ∧ is_month (12 * cal_year d + cal_month d - 1) e ∧ e <= d.
Proof.
  intros Hd. destruct (cal_of_date d Hd) as (Hm & H1 & H2). unfold month_start. rewrite from_ymd_first by done.
  assert (min_year <= cal_year d <= max_year) as Hy.
  { destruct Hd as [Hd1 Hd2]. set (k := 12 * cal_year d + cal_month d) in *.
    assert (12 * min_year < k). { destruct (decide (k <= 12 * min_year)) as [Hl|]; [|lia]. apply (proj2 (month_first_le _ _)) in Hl. lia. }
    assert (k - 1 < 12 * max_year + 12).
    { destruct (decide (12 * max_year + 12 <= k - 1)) as [Hl|]; [|lia]. apply (proj2 (month_first_le _ _)) in Hl. lia. }
    unfold k in *. lia. }
  rewrite (proj2 (Z.leb_le _ _)), (proj2 (Z.leb_le _ _)) by lia. eexists. split; [done|]. split; [split; [lia|done]|lia].
Qed.
End Laws.

(** ** Names and months correspond *)

Definition digit_ascii (n : Z) : ascii := ascii_of_N (Z.to_N (48 + n)).
Lemma digit_of_ascii n : 0 <= n <= 9 → digit_of (digit_ascii n) = Some n.
Proof.
  intros Hn. unfold digit_of, digit_ascii. rewrite N_ascii_embedding by lia. rewrite Z2N.id by lia.
  replace (48 + n - 48) with n by lia. by rewrite (proj2 (Z.leb_le _ _)), (proj2 (Z.leb_le _ _)) by lia.
Qed.
Lemma digit_of_Some c n : digit_of c = Some n → c = digit_ascii n ∧ 0 <= n <= 9.
Proof.
  unfold digit_of, digit_ascii. case_match eqn:E; [|done]. intros [= <-]. apply andb_prop in E as [H1%Z.leb_le H2%Z.leb_le].
  split; [|lia]. replace (Z.to_N _) with (N_of_ascii c) by lia. by rewrite ascii_N_embedding.
Qed.

(** The padded numbers, digit by digit, checked one by one. *)
Definition two_digits (n : Z) : string := String (digit_ascii (n / 10)) (String (digit_ascii (n mod 10)) "").
Definition four_digits (n : Z) : string := two_digits (n / 100) +:+ two_digits (n mod 100).
Lemma fmt_pad_checked :
  forallb (λ n, bool_decide (fmt_pad 2 n = two_digits n)) (seqZ 0 100)
  && forallb (λ n, bool_decide (fmt_pad 4 n = four_digits n)) (seqZ 0 10000) = true.
Proof. vm_compute. reflexivity. Qed.
Lemma fmt_pad_two n : 0 <= n < 100 → fmt_pad 2 n = two_digits n.
Proof.
  intros Hn. pose proof fmt_pad_checked as [H _]%andb_prop.
  apply List.forallb_forall with (x := n) in H; [by apply bool_decide_eq_true in H|].
  apply list_elem_of_In, elem_of_seqZ. lia.
Qed.
Lemma fmt_pad_four n : 0 <= n < 10000 → fmt_pad 4 n = four_digits n.
Proof.
  intros Hn. pose proof fmt_pad_checked as [_ H]%andb_prop.
  apply List.forallb_forall with (x := n) in H; [by apply bool_decide_eq_true in H|].
  apply list_elem_of_In, elem_of_seqZ. lia.
Qed.

Lemma two_digits_text n : 0 <= n < 100 → all_digits (two_digits n) = true ∧ parse_int (two_digits n) = Some n.
Proof. intros Hn. unfold two_digits. cbn [all_digits parse_int parse_onto]. rewrite !digit_of_ascii by lia. split; [done|]. f_equal. lia. Qed.
Lemma four_digits_text n : 0 <= n < 10000 → all_digits (four_digits n) = true ∧ parse_int (four_digits n) = Some n.
Proof.
  intros Hn. unfold four_digits, two_digits. rewrite !str_app_cons, str_app_nil_l. cbn [all_digits parse_int parse_onto].
  rewrite !digit_of_ascii by lia. split; [done|]. f_equal. lia.
Qed.

Lemma two_digits_inv s v : String.length s = 2%nat → parse_int s = Some v → s = two_digits v ∧ 0 <= v < 100.
Proof.
  destruct s as [|a [|b [|]]]; [done..| |done]. intros _. cbn [parse_int parse_onto]. destruct (digit_of a) as [x|] eqn:Ha; [|done].
  destruct (digit_of b) as [y|] eqn:Hb; [|done]. intros [= <-].
  apply digit_of_Some in Ha as [-> Hx], Hb as [-> Hy]. split; [|lia]. unfold two_digits.
  replace (10 * (10 * 0 + x) + y) with (10 * x + y) by lia. repeat (f_equal; try lia).
Qed.
Lemma four_digits_inv s v : String.length s = 4%nat → parse_int s = Some v → s = four_digits v ∧ 0 <= v < 10000.
Proof.
  destruct s as [|a [|b [|c [|d [|]]]]]; [done..| |done]. intros _. cbn [parse_int parse_onto]. destruct (digit_of a) as [x|] eqn:Ha; [|done].
  destruct (digit_of b) as [y|] eqn:Hb; [|done]. destruct (digit_of c) as [z|] eqn:Hc; [|done].
  destruct (digit_of d) as [t|] eqn:Hd; [|done]. intros [= <-].
  apply digit_of_Some in Ha as [-> Hx], Hb as [-> Hy], Hc as [-> Hz], Hd as [-> Ht]. split; [|lia].
  unfold four_digits, two_digits. rewrite !str_app_cons, str_app_nil_l. repeat (f_equal; try lia).
Qed.

Lemma split_digits y m : all_digits y = true → split_once "_" (y +:+ "_" +:+ m) = Some (y, m).
Proof.
  intros Hy. assert (str_find "_" (y +:+ "_" +:+ m) = Some (String.length y)) as Hf.
  { induction y as [|c y IH]; [by destruct m|]. rewrite str_app_cons. cbn [all_digits] in Hy.
    destruct (digit_of c) as [n|] eqn:Hc; [|done]. cbn [str_find]. rewrite IH by done.
    assert (String.prefix "_" (String c (y +:+ "_" +:+ m)) = false) as ->; [|done].
    cbn [String.prefix]. destruct (ascii_dec "_" c) as [<-|]; [by vm_compute in Hc|done]. }
  unfold split_once. rewrite Hf, str_take_app. f_equal. f_equal.
  replace (String.length y + String.length "_")%nat with (String.length (y +:+ "_")) by (by rewrite str_length_app).
  by rewrite <- str_app_assoc, str_drop_app.
Qed.

Section Names_Laws.
Context `{CA : !Calendar} `{CL : !CalendarLaws}.

(** A name is read exactly when it is the name of a month of the years with four digits. *)
Lemma parse_partition_month_iff table name d :
  parse_partition_month table name = Some d
  ↔ ∃ k, 0 <= k < 120000 ∧ d = month_first k ∧ name = table +:+ "_" +:+ four_digits (k / 12) +:+ "_" +:+ two_digits (k mod 12 + 1).
Proof.
  unfold parse_partition_month. pose proof cal_range as Hr. split.
  - destruct (RustStd.strip_prefix table name) as [s|] eqn:H1; [|done]. simpl.
    destruct (RustStd.strip_prefix "_" s) as [s'|] eqn:H2; [|done]. simpl.
    destruct (split_once "_" s') as [[y m]|] eqn:H3; [|done]. simpl.
    apply strip_prefix_Some in H1 as ->, H2 as ->. apply split_once_Some in H3 as ->.
    destruct (String.length y =? 4)%nat eqn:Hy; [|done]. destruct (String.length m =? 2)%nat eqn:Hm; [|done]. simpl.
    destruct (negb (all_digits y) || negb (all_digits m)); [done|]. apply Nat.eqb_eq in Hy, Hm.
    destruct (parse_int y) as [v|] eqn:Hv; [|done]. destruct (parse_int m) as [u|] eqn:Hu; [|done]. simpl.
    apply four_digits_inv in Hv as [-> Hv]; [|done]. apply two_digits_inv in Hu as [-> Hu]; [|done].
    destruct (decide (1 <= u <= 12)) as [H|H]; [|by rewrite from_ymd_month].
    rewrite from_ymd_first by done. rewrite (proj2 (Z.leb_le _ _)), (proj2 (Z.leb_le _ _)) by lia. intros [= <-].
    exists (12 * v + u - 1). split_and!; [lia..|done|]. repeat (f_equal; try lia).
  - intros (k & Hk & -> & ->).
    assert (RustStd.strip_prefix table (table +:+ "_" +:+ four_digits (k / 12) +:+ "_" +:+ two_digits (k mod 12 + 1))
      = Some ("_" +:+ four_digits (k / 12) +:+ "_" +:+ two_digits (k mod 12 + 1))) as -> by (by apply strip_prefix_Some).
    cbn [option_bind mbind].
    assert (∀ s, RustStd.strip_prefix "_" ("_" +:+ s) = Some s) as -> by (intros s; by apply strip_prefix_Some).
    cbn [option_bind mbind]. destruct (four_digits_text (k / 12)) as [H1 H2]; [lia|].
    destruct (two_digits_text (k mod 12 + 1)) as [H3 H4]; [lia|]. rewrite split_digits by done. cbn [option_bind mbind].
    rewrite H1, H2, H3, H4. simpl. rewrite from_ymd_first by lia.
    rewrite (proj2 (Z.leb_le _ _)), (proj2 (Z.leb_le _ _)) by lia. do 2 f_equal. lia.
Qed.

Lemma partition_name_text table k : 0 <= k < 120000 →
  partition_name table (month_first k) = table +:+ "_" +:+ four_digits (k / 12) +:+ "_" +:+ two_digits (k mod 12 + 1).
Proof.
  intros Hk. pose proof cal_range. destruct (cal_of_first k) as [Hm E]; [lia|]. unfold partition_name.
  replace (k / 12) with (cal_year (month_first k)) by lia. replace (k mod 12 + 1) with (cal_month (month_first k)) by lia.
  by rewrite fmt_pad_four, fmt_pad_two by lia.
Qed.

(** C32. The names of the monthly tables and their months determine each other: for the
    months of the years 0 to 9999 reading a name back gives its month, and a
    name that is read as a month is the name of that month. *)
Theorem names_and_months_correspond table name d :
  parse_partition_month table name = Some d
  ↔ name = partition_name table d ∧ ∃ k, 0 <= k < 120000 ∧ d = month_first k.
Proof.
  rewrite parse_partition_month_iff. split.
  - intros (k & Hk & -> & ->). rewrite partition_name_text by done. eauto.
  - intros (-> & k & Hk & ->). exists k. rewrite partition_name_text by done. done.
Qed.
End Names_Laws.

(** ** The Gregorian calendar *)

(** Days before a month, counted from March: a year has 365 days, plus the leap days
    before it, and the months from March on have [(153 m + 2) / 5] days before them. *)
Definition greg_first (k : Z) : Z :=
  let y := (k - 2) / 12 in
  365 * y + y / 4 - y / 100 + y / 400 + (153 * ((k - 2) mod 12) + 2) / 5 - 719468.
(** The month of a day: 4800 months have 146097 days, and the month this suggests is
    at most one off. *)
Definition greg_month (d : Z) : Z :=
  let k := (d + 719468) * 4800 / 146097 + 2 in
  if d <? greg_first k then k - 1 else if greg_first (k + 1) <=? d then k + 1 else k.
Definition GREG_MIN_YEAR : Z := -262143.
Definition GREG_MAX_YEAR : Z := 262142.
Definition greg_ok (k : Z) : bool := (12 * GREG_MIN_YEAR <=? k) && (k <=? 12 * GREG_MAX_YEAR + 11).
(** The days of a month end where the next one begins. *)
Definition greg_date (k day : Z) : option Z :=
  if greg_ok k && (1 <=? day) && (day <=? greg_first (k + 1) - greg_first k) then Some (greg_first k + day - 1) else None.
(** A month further on; the day is the last one of a shorter month. *)
Definition greg_shift (d n : Z) : option Z :=
  let k := greg_month d in
  let day := d - greg_first k + 1 in
  greg_date (k + n) (Z.min day (greg_first (k + n + 1) - greg_first (k + n))).

Definition gregorian : Calendar := {|
  cal_year d := greg_month d / 12;
  cal_month d := greg_month d mod 12 + 1;
  from_ymd_opt y m d := if (1 <=? m) && (m <=? 12) then greg_date (12 * y + m - 1) d else None;
  checked_add_months := greg_shift;
  checked_sub_months d n := greg_shift d (- n);
|}.

Lemma greg_first_lt k : greg_first k < greg_first (k + 1).
Proof.
  unfold greg_first. assert ((k + 1 - 2) mod 12 = 0 ∨ (k + 1 - 2) mod 12 = (k - 2) mod 12 + 1) as [E|E] by lia.
  - assert ((k + 1 - 2) / 12 = (k - 2) / 12 + 1) as -> by lia. assert ((k - 2) mod 12 = 11) as -> by lia. rewrite E.
    set (y := (k - 2) / 12). clearbody y. clear. lia.
  - assert ((k + 1 - 2) / 12 = (k - 2) / 12) as -> by lia. rewrite E. set (m := (k - 2) mod 12). clearbody m. clear. lia.
Qed.

(** Months run close to their average length. *)
Lemma greg_first_near k : 146097 * (k - 2) - 4800 * 3 <= 4800 * (greg_first k + 719468) <= 146097 * (k - 2) + 4800 * 3.
Proof.
  unfold greg_first. assert (k - 2 = 12 * ((k - 2) / 12) + (k - 2) mod 12) as E by lia.
  assert (0 <= (k - 2) mod 12 <= 11) as Hm by lia. set (y := (k - 2) / 12) in *. set (m := (k - 2) mod 12) in *.
  rewrite E. clearbody y m. clear E k. lia.
Qed.
Lemma greg_month_spec d : greg_first (greg_month d) <= d < greg_first (greg_month d + 1).
Proof.
  unfold greg_month. set (k := (d + 719468) * 4800 / 146097 + 2).
  assert (146097 * (k - 2) <= (d + 719468) * 4800 < 146097 * (k - 2) + 146097) as Hk by (unfold k; lia). clearbody k.
  pose proof (greg_first_near (k - 1)). pose proof (greg_first_near (k + 2)). pose proof (greg_first_lt k).
  destruct (Z.ltb_spec d (greg_first k)); [replace (k - 1 + 1) with k by lia; lia|].
  destruct (Z.leb_spec (greg_first (k + 1)) d); [replace (k + 1 + 1) with (k + 2) by lia|]; lia.
Qed.

Lemma greg_first_mono k l : k <= l → greg_first k <= greg_first l.
Proof.
  intros Hl. replace l with (k + Z.of_nat (Z.to_nat (l - k))) by lia. generalize (Z.to_nat (l - k)). intros n.
  induction n as [|n IH]; [by rewrite Z.add_0_r|]. replace (k + Z.of_nat (S n)) with (k + Z.of_nat n + 1) by lia.
  pose proof (greg_first_lt (k + Z.of_nat n)). lia.
Qed.
Lemma greg_month_unique k d : greg_first k <= d < greg_first (k + 1) → greg_month d = k.
Proof.
  intros Hd. pose proof (greg_month_spec d). set (l := greg_month d) in *. clearbody l.
  destruct (Z.lt_trichotomy l k) as [Hl|[->|Hl]]; [|done|].
  - pose proof (greg_first_mono (l + 1) k). lia.
  - pose proof (greg_first_mono (k + 1) l). lia.
Qed.
Lemma greg_month_first k : greg_month (greg_first k) = k.
Proof. apply greg_month_unique. pose proof (greg_first_lt k). lia. Qed.
Lemma greg_date_first k : greg_date k 1 = if greg_ok k then Some (greg_first k) else None.
Proof.
  unfold greg_date. pose proof (greg_first_lt k). destruct (greg_ok k); [|done].
  rewrite (proj2 (Z.leb_le 1 (greg_first (k + 1) - _))) by lia. simpl. f_equal. lia.
Qed.
Lemma greg_shift_first k n : greg_shift (greg_first k) n = if greg_ok (k + n) then Some (greg_first (k + n)) else None.
Proof.
  unfold greg_shift. rewrite greg_month_first. pose proof (greg_first_lt (k + n)).
  replace (Z.min _ _) with 1 by lia. apply greg_date_first.
Qed.

#[export, refine] Instance gregorian_laws : CalendarLaws (CA:=gregorian) := {
  month_first := greg_first; min_year := GREG_MIN_YEAR; max_year := GREG_MAX_YEAR;
  month_first_lt := greg_first_lt;
}.
Proof.
  - unfold GREG_MIN_YEAR, GREG_MAX_YEAR. lia.
  - intros y m Hm. cbn. rewrite (proj2 (Z.leb_le _ _)), (proj2 (Z.leb_le _ _)) by lia. simpl. rewrite greg_date_first.
    unfold greg_ok. unfold GREG_MIN_YEAR, GREG_MAX_YEAR.
    destruct (Z.leb_spec (-262143) y), (Z.leb_spec y 262142); simpl.
    + by rewrite (proj2 (Z.leb_le _ _)), (proj2 (Z.leb_le _ _)) by lia.
    + rewrite (proj2 (Z.leb_gt _ (12 * 262142 + 11))) by lia. by rewrite andb_false_r.
    + by rewrite (proj2 (Z.leb_gt (12 * -262143) _)) by lia.
    + by rewrite (proj2 (Z.leb_gt (12 * -262143) _)) by lia.
  - intros y m Hm. cbn. destruct (Z.leb_spec 1 m), (Z.leb_spec m 12); [lia|done..].
  - intros d _. cbn. split; [lia|]. pose proof (greg_month_spec d).
    replace (12 * (greg_month d / 12) + (greg_month d mod 12 + 1) - 1) with (greg_month d) by lia.
    replace (12 * (greg_month d / 12) + (greg_month d mod 12 + 1)) with (greg_month d + 1) by lia. done.
  - intros k n Hk Hn. cbn. rewrite greg_shift_first. unfold greg_ok. by rewrite (proj2 (Z.leb_le _ (k + n))) by lia.
  - intros k n Hk Hn. cbn. rewrite greg_shift_first. unfold greg_ok.
    rewrite (proj2 (Z.leb_le (k + - n) _)) by lia. by rewrite andb_true_r.
Defined.

Example gregorian_examples :
  (cal_year (Calendar:=gregorian) 19782, cal_month (Calendar:=gregorian) 19782) = (2024, 2)
  ∧ from_ymd_opt (Calendar:=gregorian) 2024 2 29 = Some 19782 ∧ from_ymd_opt (Calendar:=gregorian) 2023 2 29 = None
  ∧ checked_add_months (Calendar:=gregorian) 19782 12 = from_ymd_opt (Calendar:=gregorian) 2025 2 28
  ∧ partition_name (CA:=gregorian) "comms_event" 19782 = "comms_event_2024_02"%string.
Proof. split_and!; vm_compute; reflexivity. Qed.
