(* ===== verification/Partitions.v ===== *)
(** * Monthly tables of the ledger and the sweep of idempotency keys

    Models [src/partition_lifecycle/{lifecycle,repo,model}.rs] and
    [src/idempotency_sweep.rs]: the command that creates the tables of this and the
    next month ahead of time, moves old ones to a slower tablespace, and detaches and
    drops those past the tenant's retention; and the one that deletes idempotency keys
    that have expired. The names and months are those of Calendar.v. *)

From S2P Require Import Prelude RustStd Time Schema Dek Ingest Tenancy Producers Settings Calendar.
From stdpp Require Import base gmap strings list pretty.
From Stdlib Require Import ZArith Lia.

Local Open Scope effect_scope.
Local Open Scope Z_scope.

(** ** Data *)

Definition MOVE_AFTER_MONTHS : Z := 18.
Definition COLD_TABLESPACE : string := "messgr_cold".
Definition PARTITIONED_TABLES : list string := ["comms_request"; "comms_event"]%string.

(** [PartitionLifecycleError]; [PlPanic] is a failed [expect], an overflow where
    those are checked, or a mis-routed pool. *)
Inductive PartitionLifecycleError : Type := PlDatabase (e : SqlxError) | PlPanic.
Definition lifecycle_of_connect (e : ConnectError) : PartitionLifecycleError :=
  match e with CSqlx e => PlDatabase e | CMisrouted => PlPanic end.

Record PartitionInfo : Type := MkPartition { pt_name : string; pt_month_start : Z; pt_tablespace : option string }.
Record LifecycleReport : Type := MkLifecycle {
  lr_created : list string;
  lr_moved : list string;
  lr_dropped : list string;
  lr_retention_skipped : bool;
}.
(** What the round of one table adds to the report. *)
Definition lr_add (a b : LifecycleReport) : LifecycleReport :=
  MkLifecycle (lr_created a ++ lr_created b) (lr_moved a ++ lr_moved b) (lr_dropped a ++ lr_dropped b)
    (lr_retention_skipped a || lr_retention_skipped b).

(** ** The statements *)

Definition rl_set_parent (p : option string) (r : Relation) : Relation :=
  MkRelation p (rl_from r) (rl_to r) (rl_tablespace r) (rl_index r) (rl_request r) (rl_event r).
Definition rl_set_tablespace (t : string) (r : Relation) : Relation :=
  MkRelation (rl_parent r) (rl_from r) (rl_to r) (Some t) (rl_index r) (rl_request r) (rl_event r).
Definition rl_on_index f (r : Relation) : Relation :=
  MkRelation (rl_parent r) (rl_from r) (rl_to r) (rl_tablespace r) (f (rl_index r)) (rl_request r) (rl_event r).

Definition NO_RELATION : SqlxError := SqlConstraint "relation does not exist".
Definition NO_TABLESPACE : SqlxError := SqlConstraint "tablespace does not exist".
Definition IS_RELATION : SqlxError := SqlConstraint "relation already exists".
Definition OVERLAP : SqlxError := SqlConstraint "partition would overlap".
Definition NOT_A_PARTITION : SqlxError := SqlConstraint "relation is not a partition".

(** The rows of a partitioned table that lie in a monthly table. *)
Definition within (r : Relation) (t : Z) : bool := (rl_from r <=? t) && (t <? rl_to r).
Definition requests_of (parent : string) (r : Relation) (d : TenantDb) : gmap (Z * N) CommsRequest :=
  if decide (parent = "comms_request"%string) then filter (λ kv, within r kv.1.1 = true) (db_request (td_tables d)) else ∅.
Definition events_of (parent : string) (r : Relation) (d : TenantDb) : gmap EventKey CommsEvent :=
  if decide (parent = "comms_event"%string) then filter (λ kv, within r kv.1.1.1.1 = true) (db_event (td_tables d)) else ∅.
Definition without_rows (parent : string) (r : Relation) (d : TenantDb) : TenantDb :=
  on_tables (λ b, on_request (λ m, m ∖ requests_of parent r d) (on_event (λ m, m ∖ events_of parent r d) b)) d.

(** [SELECT to_regclass($1) IS NOT NULL]. *)
Definition relation_exists (name : string) (d : TenantDb) : bool := bool_decide (is_Some (td_relation d !! name)).

(** [CREATE TABLE … PARTITION OF … FOR VALUES FROM … TO …]: the name is free and no
    partition of the same table shares an instant with it. PostgreSQL gives the new table
    an index for each index of the parent, under names of its own. *)
Definition overlaps (parent : string) (from to : Z) (r : Relation) : Prop :=
  rl_parent r = Some parent ∧ from < rl_to r ∧ rl_from r < to.
#[export] Instance overlaps_dec parent from to r : Decision (overlaps parent from to r).
Proof. unfold overlaps. apply _. Defined.
Definition create_relation (indexes : list string) (parent name : string) (from to : Z) (d : TenantDb)
    : result (TenantDb * unit) SqlxError :=
  match td_relation d !! name with
  | Some _ => Err IS_RELATION
  | None =>
      if decide (Exists (λ nr, overlaps parent from to nr.2) (map_to_list (td_relation d))) then Err OVERLAP
      else Ok (on_relation (<[name := MkRelation (Some parent) from to None (list_to_map ((λ i, (i, None)) <$> indexes)) ∅ ∅]>) d, tt)
  end.

(** The children of a table in [pg_inherits], with their tablespaces. *)
Definition children (parent : string) (d : TenantDb) : list (string * option string) :=
  omap (λ nr : string * Relation, if decide (rl_parent nr.2 = Some parent) then Some (nr.1, rl_tablespace nr.2) else None)
    (map_to_list (td_relation d)).

(** The tablespaces of the PostgreSQL instance, which its operator makes and all its
    databases share. *)
Class Tablespaces : Type := { tablespaces : list string }.

(** [ALTER TABLE … SET TABLESPACE], [pg_indexes] and [ALTER INDEX … SET TABLESPACE]. *)
Definition alter_table_tablespace `{!Tablespaces} (name tablespace : string) (d : TenantDb) : result (TenantDb * unit) SqlxError :=
  match td_relation d !! name with
  | None => Err NO_RELATION
  | Some r =>
      if decide (tablespace ∈ tablespaces) then Ok (on_relation (<[name := rl_set_tablespace tablespace r]>) d, tt)
      else Err NO_TABLESPACE
  end.
Definition index_names (name : string) (d : TenantDb) : list string :=
  match td_relation d !! name with None => [] | Some r => (map_to_list (rl_index r)).*1 end.
Definition has_index (index : string) (r : Relation) : Prop := is_Some (rl_index r !! index).
#[export] Instance has_index_dec index r : Decision (has_index index r).
Proof. unfold has_index. apply _. Defined.
Definition alter_index_tablespace `{!Tablespaces} (index tablespace : string) (d : TenantDb) : result (TenantDb * unit) SqlxError :=
  if decide (Exists (λ nr, has_index index nr.2) (map_to_list (td_relation d))) then
    if decide (tablespace ∈ tablespaces) then Ok (on_relation (fmap (rl_on_index (alter (λ _, Some tablespace) index))) d, tt)
    else Err NO_TABLESPACE
  else Err NO_RELATION.

(** [ALTER TABLE … DETACH PARTITION …]: the table takes its rows along. *)
Definition detach (parent name : string) (d : TenantDb) : result (TenantDb * unit) SqlxError :=
  match td_relation d !! name with
  | None => Err NO_RELATION
  | Some r =>
      if decide (rl_parent r = Some parent) then
        let r' := MkRelation None (rl_from r) (rl_to r) (rl_tablespace r) (rl_index r) (requests_of parent r d) (events_of parent r d) in
        Ok (on_relation (<[name := r']>) (without_rows parent r d), tt)
      else Err NOT_A_PARTITION
  end.
(** [DROP TABLE …]; one that is attached loses its rows too. *)
Definition drop_relation (name : string) (d : TenantDb) : result (TenantDb * unit) SqlxError :=
  match td_relation d !! name with
  | None => Err NO_RELATION
  | Some r =>
      let d := match rl_parent r with Some parent => without_rows parent r d | None => d end in
      Ok (on_relation (delete name) d, tt)
  end.

(** ** [repo] and [lifecycle] *)

Section Lifecycle.
Context `{CA : !Calendar} `{PU : !PgUrl} `{TS : !Tablespaces}.
(** The names PostgreSQL gives to the indexes of a new table, and whether the build
    checks arithmetic for overflow. *)
Context (indexes : string → list string) (overflow_checks : bool).

Abbreviation expect o := (eof (ok_or o PlPanic)).

(** A loop whose rounds each push some names. *)
Fixpoint for_names {A} (f : A → CEff PartitionLifecycleError (list string)) (l : list A)
    : CEff PartitionLifecycleError (list string) :=
  match l with
  | [] => eret []
  | x :: l => names ←! f x; rest ←! for_names f l; eret (names ++ rest)
  end.

Definition partition_exists (pool name : string) : CEff SqlxError bool := pool_query pool (λ _, relation_exists name).

Definition create_partition (pool parent_table : string) (month : Z) : CEff PartitionLifecycleError unit :=
  let name := partition_name parent_table month in
  month_end ←! expect (checked_add_months month 1);
  elift PlDatabase (pool_sql pool (λ _, create_relation (indexes name) parent_table name (month * day) (month_end * day))).

Definition list_partitions (pool parent_table : string) : CEff SqlxError (list PartitionInfo) :=
  rows ←! pool_query pool (λ _, children parent_table);
  eret (omap (λ row : string * option string,
    (λ month, MkPartition row.1 month row.2) <$> parse_partition_month parent_table row.1) rows).

Fixpoint alter_indexes (pool tablespace : string) (index_names : list string) : CEff SqlxError unit :=
  match index_names with
  | [] => eret tt
  | index_name :: rest => pool_sql pool (λ _, alter_index_tablespace index_name tablespace) ;! alter_indexes pool tablespace rest
  end.
Definition move_to_tablespace (pool partition_name tablespace : string) : CEff SqlxError unit :=
  pool_sql pool (λ _, alter_table_tablespace partition_name tablespace) ;!
  names ←! pool_query pool (λ _, index_names partition_name);
  alter_indexes pool tablespace names.

Definition detach_and_drop (pool parent_table partition_name : string) : CEff SqlxError unit :=
  pool_sql pool (λ _, detach parent_table partition_name) ;!
  pool_sql pool (λ _, drop_relation partition_name).

(** The three loops of [run]. *)
Definition create_ahead (pool table : string) (month : Z) : CEff PartitionLifecycleError (list string) :=
  let name := partition_name table month in
  exists_ ←! elift PlDatabase (partition_exists pool name);
  if exists_ : bool then eret [] else create_partition pool table month ;! eret [name].
Definition move_cold (pool : string) (move_boundary : Z) (partition : PartitionInfo)
    : CEff PartitionLifecycleError (list string) :=
  partition_end ←! expect (add_months (pt_month_start partition) 1);
  if (partition_end <=? move_boundary) && negb (bool_decide (pt_tablespace partition = Some COLD_TABLESPACE)) then
    elift PlDatabase (move_to_tablespace pool (pt_name partition) COLD_TABLESPACE) ;! eret [pt_name partition]
  else eret [].
Definition drop_old (pool table : string) (drop_boundary : Z) (partition : PartitionInfo)
    : CEff PartitionLifecycleError (list string) :=
  partition_end ←! expect (add_months (pt_month_start partition) 1);
  if partition_end <=? drop_boundary then
    elift PlDatabase (detach_and_drop pool table (pt_name partition)) ;! eret [pt_name partition]
  else eret [].

(** [(config.retention_years as u32) * 12]. *)
Definition retention_months (retention_years : Z) : option Z :=
  let months := as_u32 retention_years * 12 in
  if overflow_checks && (u32_modulus <=? months) then None else Some (as_u32 months).

Definition run_table (pool : string) (current_month next_month move_boundary : Z) (tenant_config : option TenantConfig)
    (table : string) : CEff PartitionLifecycleError LifecycleReport :=
  created ←! for_names (create_ahead pool table) [current_month; next_month];
  partitions ←! elift PlDatabase (list_partitions pool table);
  moved ←! for_names (move_cold pool move_boundary) partitions;
  match tenant_config with
  | Some config =>
      months ←! expect (retention_months (cf_retention_years config));
      drop_boundary ←! expect (subtract_months current_month months);
      dropped ←! for_names (drop_old pool table drop_boundary) partitions;
      eret (MkLifecycle created moved dropped false)
  | None => eret (MkLifecycle created moved [] true)
  end.

Definition run (pool : string) (as_of : Z) (tenant_config : option TenantConfig) : CEff PartitionLifecycleError LifecycleReport :=
  current_month ←! expect (month_start (date_naive as_of));
  next_month ←! expect (add_months current_month 1);
  move_boundary ←! expect (subtract_months current_month MOVE_AFTER_MONTHS);
  requests ←! run_table pool current_month next_month move_boundary tenant_config "comms_request";
  events ←! run_table pool current_month next_month move_boundary tenant_config "comms_event";
  eret (lr_add requests events).

Definition run_inner (pool : string) (as_of : Z) : CEff PartitionLifecycleError LifecycleReport :=
  tenant_config ←! elift PlDatabase (load_config pool);
  run pool as_of tenant_config.

Definition run_for_tenant (base_db_url tenant_slug : string) (as_of : Z) : CEff PartitionLifecycleError LifecycleReport :=
  by_slug base_db_url PlDatabase lifecycle_of_connect tenant_slug (ethrow (PlDatabase rejection.NO_SLUG))
    (λ _ pool, run_inner pool as_of).
End Lifecycle.

(** ** [idempotency_sweep] *)

Inductive SweepError : Type := SwDatabase (e : SqlxError) | SwUnknownTenant (slug : string) | SwPanic.
Definition sweep_of_connect (e : ConnectError) : SweepError := match e with CSqlx e => SwDatabase e | CMisrouted => SwPanic end.

(** [DELETE FROM idempotency WHERE expires_at <= $1]. *)
Definition swept (as_of : Z) (kv : (N * string) * Idempotency) : Prop := id_expires_at kv.2 <= as_of.
#[export] Instance swept_dec as_of kv : Decision (swept as_of kv).
Proof. unfold swept. apply _. Defined.
Definition delete_expired (as_of : Z) (d : TenantDb) : TenantDb * nat :=
  (on_tables (on_idempotency (filter (λ kv, ¬ swept as_of kv))) d, size (filter (swept as_of) (db_idempotency (td_tables d)))).
Definition sweep (pool : string) (as_of : Z) : CEff SweepError nat :=
  elift SwDatabase (pool_sql pool (λ _ d, Ok (delete_expired as_of d))).
Definition sweep_for_tenant `{!PgUrl} (control_database_url tenant_slug : string) (as_of : Z) : CEff SweepError nat :=
  by_slug control_database_url SwDatabase sweep_of_connect tenant_slug (ethrow (SwUnknownTenant tenant_slug))
    (λ _ pool, sweep pool as_of).

(** ** What a run keeps *)

(** The rule for a statement on a pool. *)
Lemma hoare_pool (R : relation Cluster) `{!PreOrder R} {A} (P : Cluster → Prop) pool
    (f : Z → TenantDb → result (TenantDb * A) SqlxError) (Q : A → Cluster → Prop) :
  stable R P →
  (∀ t c d d' a, P c → cl_database c !! pool = Some d → f t d = Ok (d', a) →
     R c (on_database (<[pool := d']>) c) ∧ Q a (on_database (<[pool := d']>) c)) →
  hoare R P (pool_sql pool f) Q (λ _, True).
Proof.
  intros Hs Hf. apply hoare_sql; [apply _|done|done|]. intros t c Hp. unfold on_pool.
  destruct (cl_database c !! pool) as [d|] eqn:Hd; [|done]. destruct (f t d) as [[d' a]|] eqn:E; [|done]. by eapply Hf.
Qed.
Lemma total_pool {A} (P : Cluster → Prop) pool (f : Z → TenantDb → result (TenantDb * A) SqlxError) (Q : A → Cluster → Prop) :
  (∀ t c, P c → ∃ d d' a, cl_database c !! pool = Some d ∧ f t d = Ok (d', a) ∧ Q a (on_database (<[pool := d']>) c)) →
  totally P (pool_sql pool f) Q.
Proof.
  intros Hf. apply total_sql. intros t c Hp. destruct (Hf t c Hp) as (d & d' & a & Hd & E & HQ).
  unfold on_pool. rewrite Hd, E. eauto.
Qed.

(** What a run needs may be more than what its lemma asks for. *)
Lemma hoare_also (R : relation Cluster) `{!PreOrder R} {E A} (F P : Cluster → Prop) (m : CEff E A) Q X :
  stable R F → hoare R P m Q X → (∀ c, F c → P c) → hoare R F m (λ a c, F c ∧ Q a c) X.
Proof.
  intros Hs Hm HP. apply (hoare_pre _ _ (λ c, F c ∧ P c)); [by apply (hoare_frame _ F P)|]. intros c Hc. auto.
Qed.

Section Kept.
Context `{CA : !Calendar} `{CL : !CalendarLaws} `{TS : !Tablespaces} (cur : Z).

(** [name] is the table of month number [k]. *)
Definition month_table (table name : string) (k : Z) : Prop :=
  table ∈ PARTITIONED_TABLES ∧ parse_partition_month table name = Some (month_first k).

(** The catalogue makes sense: a table named after a month that is attached is attached
    to that table and holds that month, and those of the current month and later are attached. *)
Definition sound (d : TenantDb) : Prop :=
  ∀ table name k r, month_table table name k → td_relation d !! name = Some r →
    (∀ q, rl_parent r = Some q → q = table ∧ rl_from r = month_first k * day ∧ rl_to r = month_first (k + 1) * day)
    ∧ (cur <= k → rl_parent r = Some table).
Definition all_sound (c : Cluster) : Prop := ∀ pool d, cl_database c !! pool = Some d → sound d.

(** The months that the retention of a configuration no longer covers, and the instants
    before the end of such a month. *)
Definition expired (cfg : option TenantConfig) (k : Z) : Prop :=
  ∃ c, cfg = Some c ∧ k + 1 <= cur - as_u32 (as_u32 (cf_retention_years c) * 12).
Definition old (cfg : option TenantConfig) (t : Z) : Prop := ∃ k, expired cfg k ∧ t < month_first (k + 1) * day.

(** One step of a database: the configuration and the rows within the retention stay,
    tables of the current month and later stay, and earlier ones are not attached. *)
Record kept_db (d d' : TenantDb) : Prop := {
  kd_config : td_config d' = td_config d;
  kd_request t id : ¬ old (td_config d) t → is_Some (db_request (td_tables d) !! (t, id)) →
    is_Some (db_request (td_tables d') !! (t, id));
  kd_event t id ty ref : ¬ old (td_config d) t → is_Some (db_event (td_tables d) !! (t, id, ty, ref)) →
    is_Some (db_event (td_tables d') !! (t, id, ty, ref));
  kd_ahead table name k : month_table table name k → cur <= k → is_Some (td_relation d !! name) → is_Some (td_relation d' !! name);
  kd_past table name k r' : month_table table name k → k < cur → td_relation d' !! name = Some r' → rl_parent r' = Some table →
    ∃ r, td_relation d !! name = Some r ∧ rl_parent r = Some table;
}.
Definition kept (c c' : Cluster) : Prop :=
  pinned c c' ∧ (all_sound c → all_sound c' ∧ ∀ pool d, cl_database c !! pool = Some d → ∃ d', cl_database c' !! pool = Some d' ∧ kept_db d d').

Lemma kept_db_refl d : kept_db d d.
Proof. split; eauto. Qed.
Lemma kept_db_trans d1 d2 d3 : kept_db d1 d2 → kept_db d2 d3 → kept_db d1 d3.
Proof.
  intros [A1 A2 A3 A4 A5] [B1 B2 B3 B4 B5]. split.
  - congruence.
  - intros t id Ho H. apply B2; [by rewrite A1|auto].
  - intros t id ty ref Ho H. apply B3; [by rewrite A1|auto].
  - eauto.
  - intros table name k r' Hm Hk Hr Hp. destruct (B5 _ _ _ _ Hm Hk Hr Hp) as (r & H1 & H2). eauto.
Qed.
#[export] Instance kept_pre : PreOrder kept.
Proof.
  split.
  - intros c. split; [reflexivity|]. intros Hs. split; [done|]. intros pool d Hd. exists d. split; [done|apply kept_db_refl].
  - intros c1 c2 c3 [P12 H12] [P23 H23]. split; [by etransitivity|]. intros Hs. destruct (H12 Hs) as [Hs2 G12]. destruct (H23 Hs2) as [Hs3 G23]. split; [done|].
    intros pool d Hd. destruct (G12 _ _ Hd) as (d2 & Hd2 & K12). destruct (G23 _ _ Hd2) as (d3 & Hd3 & K23).
    exists d3. split; [done|by eapply kept_db_trans].
Qed.

Lemma kept_step pool d d' c :
  cl_database c !! pool = Some d → (sound d → sound d' ∧ kept_db d d') → kept c (on_database (<[pool := d']>) c).
Proof.
  intros Hd Hk. split; [by apply pinned_same|]. intros Hs. destruct (Hk (Hs _ _ Hd)) as [Hs' K]. split.
  - intros pool' e. simpl. rewrite lookup_insert_Some. intros [[<- <-]|[_ He]]; [done|by eapply Hs].
  - intros pool' e He. simpl. destruct (decide (pool' = pool)) as [->|Hn].
    + rewrite lookup_insert_eq. exists d'. split; [done|]. by simplify_eq.
    + rewrite lookup_insert_ne by done. exists e. split; [done|apply kept_db_refl].
Qed.

(** ** The names of the two tables *)

Lemma month_table_name table name k : month_table table name k →
  0 <= k < 120000 ∧ name = table +:+ "_" +:+ four_digits (k / 12) +:+ "_" +:+ two_digits (k mod 12 + 1).
Proof.
  intros [_ (l & Hl & E & ->)%parse_partition_month_iff]. apply month_first_inj in E as <-. done.
Qed.
Lemma partition_name_table table k : table ∈ PARTITIONED_TABLES → 0 <= k < 120000 →
  month_table table (partition_name table (month_first k)) k.
Proof. intros Ht Hk. split; [done|]. apply parse_partition_month_iff. exists k. by rewrite partition_name_text. Qed.
Lemma month_table_unique table table' name k k' : month_table table name k → month_table table' name k' → table = table' ∧ k = k'.
Proof.
  intros H1 H2. assert (table = table') as <-.
  { destruct (month_table_name _ _ _ H1) as [_ E1], (month_table_name _ _ _ H2) as [_ E2]. rewrite E1 in E2.
    destruct H1 as [[->|[->|[]%not_elem_of_nil]%elem_of_cons]%elem_of_cons _],
      H2 as [[->|[->|[]%not_elem_of_nil]%elem_of_cons]%elem_of_cons _]; [done| | |done]; discriminate E2. }
  split; [done|]. destruct H1 as [_ H1], H2 as [_ H2]. rewrite H1 in H2. injection H2. apply month_first_inj.
Qed.

(** ** The statements keep to it *)

Lemma sound_same d d' : (∀ name r', td_relation d' !! name = Some r' →
    ∃ r, td_relation d !! name = Some r ∧ rl_parent r' = rl_parent r ∧ rl_from r' = rl_from r ∧ rl_to r' = rl_to r) →
  sound d → sound d'.
Proof. intros HR Hs table name k r' Hm Hr. destruct (HR _ _ Hr) as (r & H1 & -> & -> & ->). by apply (Hs table name). Qed.

(** Statements on tablespaces change neither rows nor bounds. *)
Lemma same_shape_kept d m :
  (∀ name, match td_relation d !! name, m !! name with
           | Some r, Some r' => rl_parent r' = rl_parent r ∧ rl_from r' = rl_from r ∧ rl_to r' = rl_to r
           | None, None => True
           | _, _ => False
           end) →
  sound d → sound (on_relation (λ _, m) d) ∧ kept_db d (on_relation (λ _, m) d).
Proof.
  intros Hm Hs. split.
  - apply (sound_same d); [|done]. intros name r' Hr. simpl in Hr. specialize (Hm name). rewrite Hr in Hm. case_match; [eauto|done].
  - split; [done|done|done| |]; simpl.
    + intros table name k _ _ [r Hr]. specialize (Hm name). rewrite Hr in Hm. case_match; [eauto|done].
    + intros table name k r' _ _ Hr Hp. specialize (Hm name). rewrite Hr in Hm. case_match; [|done].
      destruct Hm as [E _]. exists r. split; [done|congruence].
Qed.
Lemma alter_table_kept name ts d d' u : alter_table_tablespace name ts d = Ok (d', u) → sound d → sound d' ∧ kept_db d d'.
Proof.
  unfold alter_table_tablespace. destruct (td_relation d !! name) as [r|] eqn:Hr; [|done]. case_decide; [|done]. intros [= <- _].
  apply same_shape_kept. intros name'. destruct (decide (name' = name)) as [->|].
  - by rewrite Hr, lookup_insert_eq.
  - rewrite lookup_insert_ne by done. by case_match.
Qed.
Lemma alter_index_kept index ts d d' u : alter_index_tablespace index ts d = Ok (d', u) → sound d → sound d' ∧ kept_db d d'.
Proof.
  unfold alter_index_tablespace. do 2 (case_decide; [|done]). intros [= <- _]. apply same_shape_kept. intros name.
  rewrite lookup_fmap. by destruct (td_relation d !! name).
Qed.

Lemma create_kept ix table k d d' u : table ∈ PARTITIONED_TABLES → cur <= k → 0 <= k < 120000 →
  create_relation ix table (partition_name table (month_first k)) (month_first k * day) (month_first (k + 1) * day) d = Ok (d', u) →
  sound d → sound d' ∧ kept_db d d'.
Proof.
  intros Ht Hk Hr. unfold create_relation. set (name := partition_name table (month_first k)).
  destruct (td_relation d !! name) as [|] eqn:Hn; [done|]. case_decide; [done|]. intros [= <- _] Hs.
  assert (month_table table name k) as Hname by (by apply partition_name_table). split.
  - intros table' name' k' r Hm. simpl. rewrite lookup_insert_Some. intros [[<- <-]|[_ H1]]; [|by eapply Hs].
    destruct (month_table_unique _ _ _ _ _ Hname Hm) as [<- <-]. simpl. split; [|done]. by intros q [= <-].
  - split; [done|done|done| |]; simpl.
    + intros table' name' k' _ _ [r H1]. destruct (decide (name' = name)) as [->|]; [by rewrite lookup_insert_eq|].
      rewrite lookup_insert_ne by done. eauto.
    + intros table' name' k' r' Hm Hlt. rewrite lookup_insert_Some. intros [[<- <-]|[_ H1]] Hp; [|eauto].
      destruct (month_table_unique _ _ _ _ _ Hname Hm) as [_ <-]. lia.
Qed.

(** The rows a table of an expired month takes along are all old. *)
Lemma without_rows_kept table name k r d :
  month_table table name k → expired (td_config d) k → rl_to r = month_first (k + 1) * day →
  (∀ t id, ¬ old (td_config d) t → is_Some (db_request (td_tables d) !! (t, id)) →
     is_Some (db_request (td_tables (without_rows table r d)) !! (t, id)))
  ∧ (∀ t id ty ref, ¬ old (td_config d) t → is_Some (db_event (td_tables d) !! (t, id, ty, ref)) →
     is_Some (db_event (td_tables (without_rows table r d)) !! (t, id, ty, ref))).
Proof.
  intros Hm He Hto. assert (∀ t, within r t = true → old (td_config d) t) as Hw.
  { intros t [_ H]%andb_prop. apply Z.ltb_lt in H. exists k. split; [done|]. by rewrite <- Hto. }
  split; simpl.
  - intros t id Ho [x Hx]. exists x. rewrite lookup_difference_Some. split; [done|]. unfold requests_of. case_decide; [|done].
    apply map_lookup_filter_None. right. intros y _ Hy. by apply Ho, Hw.
  - intros t id ty ref Ho [x Hx]. exists x. rewrite lookup_difference_Some. split; [done|]. unfold events_of. case_decide; [|done].
    apply map_lookup_filter_None. right. intros y _ Hy. by apply Ho, Hw.
Qed.

Lemma expired_past cfg k : expired cfg k → k < cur.
Proof. intros (c & _ & H). unfold as_u32, u32_modulus in H. pose proof (Z.mod_pos_bound (cf_retention_years c mod 4294967296 * 12) 4294967296). lia. Qed.

Lemma detach_kept table name k d d' u : month_table table name k → expired (td_config d) k →
  detach table name d = Ok (d', u) → sound d →
  (sound d' ∧ kept_db d d') ∧ ∃ r, td_relation d' !! name = Some r ∧ rl_parent r = None.
Proof.
  intros Hm He. unfold detach. destruct (td_relation d !! name) as [r|] eqn:Hr; [|done]. case_decide as Hp; [|done].
  intros [= <- _] Hs. destruct (Hs _ _ _ _ Hm Hr) as [Hb _]. destruct (Hb _ Hp) as (_ & _ & Hto).
  destruct (without_rows_kept table name k r d Hm He Hto) as [K1 K2]. pose proof (expired_past _ _ He). split; [split|].
  - intros table' name' k' r' Hm'. simpl. rewrite lookup_insert_Some. intros [[<- <-]|[_ H1]]; [|by eapply Hs].
    destruct (month_table_unique _ _ _ _ _ Hm Hm') as [<- <-]. simpl. split; [done|lia].
  - split; [done|done|done| |]; simpl.
    + intros table' name' k' Hm' Hk [r' H1]. destruct (decide (name' = name)) as [->|]; [by rewrite lookup_insert_eq|].
      rewrite lookup_insert_ne by done. eauto.
    + intros table' name' k' r' Hm' Hlt. rewrite lookup_insert_Some. intros [[<- <-]|[_ H1]]; [done|eauto].
  - simpl. rewrite lookup_insert_eq. eauto.
Qed.

Lemma drop_kept table name k d d' u : month_table table name k → expired (td_config d) k →
  drop_relation name d = Ok (d', u) → sound d → (sound d' ∧ kept_db d d') ∧ td_relation d' !! name = None.
Proof.
  intros Hm He. unfold drop_relation. destruct (td_relation d !! name) as [r|] eqn:Hr; [|done]. intros [= <- _] Hs.
  destruct (Hs _ _ _ _ Hm Hr) as [Hb _]. pose proof (expired_past _ _ He).
  set (e := match rl_parent r with Some parent => without_rows parent r d | None => d end).
  assert (td_relation e = td_relation d ∧ td_config e = td_config d
    ∧ (∀ t id, ¬ old (td_config d) t → is_Some (db_request (td_tables d) !! (t, id)) → is_Some (db_request (td_tables e) !! (t, id)))
    ∧ (∀ t id ty ref, ¬ old (td_config d) t → is_Some (db_event (td_tables d) !! (t, id, ty, ref)) →
         is_Some (db_event (td_tables e) !! (t, id, ty, ref)))) as (E1 & E2 & K1 & K2).
  { unfold e. destruct (rl_parent r) as [q|]; [|done]. destruct (Hb q eq_refl) as (-> & _ & Hto).
    destruct (without_rows_kept table name k r d Hm He Hto). done. }
  split; [split|].
  - intros table' name' k' r' Hm'. simpl. rewrite E1, lookup_delete_Some. intros [_ H1]. by eapply Hs.
  - split; [done|done|done| |]; simpl; rewrite E1.
    + intros table' name' k' Hm' Hk H1. destruct (decide (name' = name)) as [->|]; [|by rewrite lookup_delete_ne].
      destruct (month_table_unique _ _ _ _ _ Hm Hm') as [_ <-]. lia.
    + intros table' name' k' r' Hm' Hlt [_ H1]%lookup_delete_Some. eauto.
  - simpl. by rewrite lookup_delete_eq.
Qed.
End Kept.

Section Runs.
Context `{CA : !Calendar} `{CL : !CalendarLaws} `{PU : !PgUrl} `{TS : !Tablespaces} (indexes : string → list string) (overflow_checks : bool).
Context (cur : Z) (Hcur : 0 <= cur < 119999) (pool : string).
Notation kept := (kept cur).
Notation all_sound := (all_sound cur).
Notation expired := (expired cur).

Lemma hoare_expect {A B} (R : relation Cluster) `{!PreOrder R} (P : Cluster → Prop) (o : option A)
    (k : A → CEff PartitionLifecycleError B) Q :
  (∀ a, o = Some a → hoare R P (k a) Q (λ _, True)) → hoare R P (ebind (eof (ok_or o PlPanic)) k) Q (λ _, True).
Proof. intros Hk. destruct o as [a|]; [exact (Hk a eq_refl)|]. intros w Hr Hp. split_and!; [done|reflexivity|done]. Qed.

(** *** What is true of the pool's database between the steps *)

Definition based (cfg : option TenantConfig) (c : Cluster) : Prop :=
  all_sound c ∧ ∃ d, cl_database c !! pool = Some d ∧ td_config d = cfg.
Definition covered (table : string) (k : Z) (c : Cluster) : Prop :=
  ∃ d, cl_database c !! pool = Some d ∧ is_Some (td_relation d !! partition_name table (month_first k)).
Definition left_over (table : string) (cfg : option TenantConfig) (l : list string) (c : Cluster) : Prop :=
  ∀ d name k r, cl_database c !! pool = Some d → month_table table name k → expired cfg k →
    td_relation d !! name = Some r → rl_parent r = Some table → name ∈ l.

Lemma based_stable cfg : stable kept (based cfg).
Proof.
  intros c c' HK [Hs (d & Hd & E)]. destruct (proj2 HK Hs) as [Hs' G]. destruct (G _ _ Hd) as (d' & Hd' & K).
  split; [done|]. exists d'. split; [done|]. by rewrite (kd_config _ _ _ K).
Qed.
Lemma covered_stable cfg table k : table ∈ PARTITIONED_TABLES → cur <= k < 120000 →
  stable kept (λ c, based cfg c ∧ covered table k c).
Proof.
  intros Ht Hk c c' HK [Hb (d & Hd & Hr)]. split; [by eapply based_stable|]. destruct (proj2 HK (proj1 Hb)) as [_ G].
  destruct (G _ _ Hd) as (d' & Hd' & K). exists d'. split; [done|].
  eapply (kd_ahead _ _ _ K table _ k); [by apply partition_name_table; [|lia]|lia|done].
Qed.
Lemma left_over_stable cfg table l : stable kept (λ c, based cfg c ∧ left_over table cfg l c).
Proof.
  intros c c' HK [Hb HL]. split; [by eapply based_stable|]. intros d' name k r' Hd' Hm He Hr Hp.
  destruct Hb as [Hs (d & Hd & _)]. destruct (proj2 HK Hs) as [_ G]. destruct (G _ _ Hd) as (e & He' & K). simplify_eq.
  destruct (kd_past _ _ _ K table name k r' Hm (expired_past _ _ _ He) Hr Hp) as (r & H1 & H2). eauto.
Qed.
#[local] Hint Resolve based_stable covered_stable left_over_stable : core.

(** *** The steps *)

Lemma create_ahead_hoare cfg table k : table ∈ PARTITIONED_TABLES → cur <= k < 120000 →
  hoare kept (based cfg) (create_ahead indexes pool table (month_first k)) (λ _ c, based cfg c ∧ covered table k c) (λ _, True).
Proof.
  intros Ht Hk. pose proof cal_range as Hr. set (name := partition_name table (month_first k)). unfold create_ahead. fold name.
  eapply (hoare_bind _ _ _ _ (λ (b : bool) c, based cfg c ∧ (b = true → covered table k c))).
  { apply hoare_lift, hoare_pool; [apply _|auto|]. intros t c d d' b Hb Hd [= <- <-].
    rewrite on_database_id by done. split; [reflexivity|]. split; [done|]. intros H%bool_decide_eq_true. by exists d. }
  intros [].
  { apply hoare_ret; [apply _|]. intros c [Hb H]. auto. }
  unfold create_partition. fold name. eapply (hoare_bind _ _ _ _ (λ _ c, based cfg c ∧ covered table k c)).
  2: { intros _. apply hoare_ret; [apply _|]. done. }
  apply (hoare_pre _ _ (based cfg)); [|by intros c []].
  apply hoare_expect; [apply _|]. intros e He. fold (add_months (month_first k) 1) in He.
  apply (add_months_inv k) in He as [_ ->]; [|split; [lia|done]|lia].
  apply hoare_lift, hoare_pool; [apply _|auto|]. intros t c d d' u Hb Hd Hf.
  assert (kept c (on_database (<[pool := d']>) c)) as HK.
  { apply (kept_step _ _ d); [done|]. apply (create_kept cur (indexes name) table k d d' u); [done|lia|lia|exact Hf]. }
  split; [done|]. split; [by eapply based_stable|]. exists d'. split; [apply lookup_insert_eq|].
  revert Hf. unfold create_relation. case_match; [done|]. case_decide; [done|]. intros [= <- _]. simpl. by rewrite lookup_insert_eq.
Qed.

Lemma alter_indexes_guar ts l : guar kept (alter_indexes pool ts l).
Proof.
  induction l as [|i l IH]; [apply guar_ret; apply _|]. simpl. apply guar_bind; [apply _| |done].
  apply guar_pool; [apply _|]. intros t c d d' u Hd Hf. apply (kept_step _ _ d); [done|]. eapply alter_index_kept, Hf.
Qed.
Lemma move_cold_guar b p : guar kept (move_cold pool b p).
Proof.
  unfold move_cold, move_to_tablespace. pose proof alter_indexes_guar. step_guar.
  apply guar_pool; [apply _|]. intros t c d d' u Hd Hf. apply (kept_step _ _ d); [done|]. eapply alter_table_kept, Hf.
Qed.
Lemma for_names_guar {A} (f : A → CEff PartitionLifecycleError (list string)) l :
  (∀ x, guar kept (f x)) → guar kept (for_names f l).
Proof. intros Hf. induction l as [|x l IH]; simpl; step_guar; auto. Qed.

(** The partitions found are all those attached under the name of a month. *)
Definition infos_ok (table : string) (l : list PartitionInfo) : Prop :=
  ∀ p, p ∈ l → ∃ k, pt_month_start p = month_first k ∧ month_table table (pt_name p) k.
Lemma children_elem table d name ts :
  (name, ts) ∈ children table d ↔ ∃ r, td_relation d !! name = Some r ∧ rl_parent r = Some table ∧ rl_tablespace r = ts.
Proof.
  unfold children. rewrite list_elem_of_omap. split.
  - intros ([n r] & Hr & E). apply elem_of_map_to_list in Hr. simpl in E. case_decide; [|done]. injection E as <- <-. eauto.
  - intros (r & Hr & Hp & <-). exists (name, r). split; [by apply elem_of_map_to_list|]. simpl. by rewrite decide_True.
Qed.
Lemma list_partitions_hoare cfg table : table ∈ PARTITIONED_TABLES →
  hoare kept (based cfg) (list_partitions pool table)
    (λ l c, infos_ok table l ∧ based cfg c ∧ left_over table cfg (pt_name <$> l) c) (λ _, True).
Proof.
  intros Ht. unfold list_partitions.
  eapply (hoare_bind _ _ _ _ (λ rows c, based cfg c ∧ ∃ d, cl_database c !! pool = Some d ∧ rows = children table d)).
  { apply hoare_pool; [apply _|auto|]. intros t c d d' rows Hb Hd [= <- <-]. rewrite on_database_id by done.
    split; [reflexivity|]. eauto. }
  intros rows. apply hoare_ret; [apply _|]. intros c [Hb (d & Hd & ->)]. split_and!; [|done|].
  - intros p Hp. apply list_elem_of_omap in Hp as ([n ts] & Hn & E). simpl in E. destruct (parse_partition_month table n) as [m|] eqn:Hm; [|done].
    injection E as <-. simpl. pose proof (proj1 (parse_partition_month_iff _ _ _) Hm) as (k & Hk & -> & _). exists k. by split_and!.
  - intros d' name k r Hd' [_ Hm] He Hr Hp. simplify_eq.
    apply list_elem_of_fmap. exists (MkPartition name (month_first k) (rl_tablespace r)). split; [done|].
    apply list_elem_of_omap. exists (name, rl_tablespace r). split; [apply children_elem; eauto|]. simpl. by rewrite Hm.
Qed.

Lemma drop_old_hoare table c0 p l k :
  table ∈ PARTITIONED_TABLES → pt_month_start p = month_first k → month_table table (pt_name p) k →
  let b := cur - as_u32 (as_u32 (cf_retention_years c0) * 12) in
  hoare kept (λ c, based (Some c0) c ∧ left_over table (Some c0) (pt_name p :: l) c)
    (drop_old pool table (month_first b) p) (λ _ c, based (Some c0) c ∧ left_over table (Some c0) l c) (λ _, True).
Proof.
  intros Ht Hst Hm b. pose proof (month_table_name _ _ _ Hm) as [Hk _]. pose proof cal_range as Hr.
  unfold drop_old. apply hoare_expect; [apply _|]. intros e He. rewrite Hst in He.
  apply (add_months_inv k) in He as [_ ->]; [|split; [lia|done]|lia].
  assert (expired (Some c0) k ↔ k + 1 <= b) as Hex.
  { unfold Partitions.expired. split; [intros (c & [= <-] & H); lia|]. intros H. exists c0. split; [done|lia]. }
  destruct (Z.leb_spec (month_first (k + 1)) (month_first b)) as [Hle|Hgt].
  2: { apply hoare_ret; [apply _|]. intros c [Hb HL]. split; [done|]. intros d name k' r Hd Hm' He Hr' Hp.
       specialize (HL _ _ _ _ Hd Hm' He Hr' Hp). apply elem_of_cons in HL as [->|]; [|done].
       destruct (month_table_unique _ _ _ _ _ Hm Hm') as [_ <-]. apply Hex in He.
       apply (proj2 (month_first_le _ _)) in He. lia. }
  apply (proj1 (month_first_le _ _)), Hex in Hle.
  unfold detach_and_drop. eapply (hoare_bind _ _ _ _ (λ _ c, based (Some c0) c ∧ left_over table (Some c0) l c)).
  2: { intros _. apply hoare_ret; [apply _|]. done. }
  apply hoare_lift. eapply (hoare_bind _ _ _ _ (λ _ c, based (Some c0) c ∧ left_over table (Some c0) l c)).
  - apply hoare_pool; [apply _|auto|]. intros t c d d' u [Hb HL] Hd Hf.
    assert (td_config d = Some c0) as Ec. { destruct Hb as [_ (d1 & H1 & H2)]. by simplify_eq. }
    destruct (detach_kept cur table (pt_name p) k d d' u Hm) as [Hk' (r0 & Hr0 & Hn0)];
      [by rewrite Ec|done|by apply Hb in Hd|].
    assert (kept c (on_database (<[pool := d']>) c)) as HK by (apply (kept_step _ _ d); done).
    split; [done|]. destruct (left_over_stable _ _ _ _ _ HK (conj Hb HL)) as [Hb' HL']. split; [done|].
    intros e name k' r Hd' Hm' He Hr' Hp. specialize (HL' _ _ _ _ Hd' Hm' He Hr' Hp).
    apply elem_of_cons in HL' as [->|]; [exfalso|done]. simpl in Hd'. rewrite lookup_insert_eq in Hd'. simplify_eq.
  - intros _. apply hoare_pool; [apply _|auto|]. intros t c d d' u [Hb HL] Hd Hf.
    assert (td_config d = Some c0) as Ec. { destruct Hb as [_ (d1 & H1 & H2)]. by simplify_eq. }
    destruct (drop_kept cur table (pt_name p) k d d' u Hm) as [Hk' _]; [by rewrite Ec|done|by apply Hb in Hd|].
    assert (kept c (on_database (<[pool := d']>) c)) as HK by (apply (kept_step _ _ d); done).
    split; [done|]. exact (left_over_stable _ _ _ _ _ HK (conj Hb HL)).
Qed.
Lemma drop_loop_hoare table c0 l :
  table ∈ PARTITIONED_TABLES → infos_ok table l →
  let b := cur - as_u32 (as_u32 (cf_retention_years c0) * 12) in
  hoare kept (λ c, based (Some c0) c ∧ left_over table (Some c0) (pt_name <$> l) c)
    (for_names (drop_old pool table (month_first b)) l) (λ _ c, based (Some c0) c ∧ left_over table (Some c0) [] c) (λ _, True).
Proof.
  intros Ht Hl b. induction l as [|p l IH]; [by apply hoare_ret; [apply _|]|]. simpl.
  destruct (Hl p) as (k & Hk & Hm); [by left|].
  eapply hoare_bind; [apply _|by eapply (drop_old_hoare table c0 p (pt_name <$> l))|]. intros names.
  eapply hoare_bind; [apply _|apply IH; intros q Hq; apply Hl; by right|]. intros rest. by apply hoare_ret; [apply _|].
Qed.

(** *** The whole run *)

(** What a round leaves for its table: this and the next month are there, and no month
    past the retention is. *)
Definition in_shape (cfg : option TenantConfig) (table : string) (c : Cluster) : Prop :=
  covered table cur c ∧ covered table (cur + 1) c ∧ left_over table cfg [] c.
Lemma in_shape_stable cfg table : table ∈ PARTITIONED_TABLES → stable kept (λ c, based cfg c ∧ in_shape cfg table c).
Proof.
  intros Ht c c' HK (Hb & H1 & H2 & H3). split; [by eapply based_stable|]. split_and!.
  - eapply (covered_stable cfg table cur); [done|lia|exact HK|done].
  - eapply (covered_stable cfg table (cur + 1)); [done|lia|exact HK|done].
  - eapply (left_over_stable cfg table []); [exact HK|done].
Qed.

Lemma retention_value years m : retention_months overflow_checks years = Some m → m = as_u32 (as_u32 years * 12).
Proof. unfold retention_months. case_match; [done|]. by intros [= <-]. Qed.

Lemma run_table_hoare cfg b table : table ∈ PARTITIONED_TABLES →
  hoare kept (based cfg) (run_table indexes overflow_checks pool (month_first cur) (month_first (cur + 1)) b cfg table)
    (λ r c, lr_retention_skipped r = bool_decide (cfg = None) ∧ based cfg c ∧ in_shape cfg table c) (λ _, True).
Proof.
  intros Ht. set (ahead c := covered table cur c ∧ covered table (cur + 1) c). pose proof cal_range as Hr. unfold run_table.
  assert (stable kept (λ c, based cfg c ∧ ahead c)) as Hst.
  { intros c c' HK (Hb & H1 & H2). split; [by eapply based_stable|]. split.
    - eapply (covered_stable cfg table cur); [done|lia|exact HK|done].
    - eapply (covered_stable cfg table (cur + 1)); [done|lia|exact HK|done]. }
  eapply (hoare_bind _ _ _ _ (λ _ c, based cfg c ∧ ahead c)).
  { simpl. eapply hoare_bind; [apply _|apply (create_ahead_hoare cfg table cur); [done|lia]|]. intros l1.
    apply hoare_bind with (Q1 := λ _ c, based cfg c ∧ ahead c); [apply _| |intros l2; by apply hoare_ret; [apply _|]].
    eapply hoare_bind; [apply _|eapply (hoare_also _ _ (based cfg));
      [by apply covered_stable; [|lia]|apply (create_ahead_hoare cfg table (cur + 1)); [done|lia]|by intros c []]|].
    intros l2. apply hoare_bind with (Q1 := λ _ c, based cfg c ∧ ahead c); [apply _|apply hoare_ret; [apply _|]|].
    - intros c [[Hb H1] [_ H2]]. by split_and!.
    - intros l3. by apply hoare_ret; [apply _|]. }
  intros created. eapply (hoare_bind _ _ _ _ (λ l c, infos_ok table l ∧ (based cfg c ∧ ahead c) ∧ based cfg c ∧ left_over table cfg (pt_name <$> l) c)).
  { apply hoare_lift. eapply hoare_weaken; [eapply (hoare_also _ _ (based cfg) _ _ _ Hst); [apply (list_partitions_hoare cfg table Ht)|by intros c []]|done| |done].
    by intros l c (H1 & H2 & H3 & H4). }
  intros l. apply hoare_pull. intros Hl. set (S := λ c, (based cfg c ∧ ahead c) ∧ based cfg c ∧ left_over table cfg (pt_name <$> l) c).
  assert (stable kept S) as HS.
  { intros c c' HK [H1 H2]. split; [by eapply Hst|by eapply left_over_stable]. }
  eapply (hoare_bind _ _ _ _ (λ _, S)).
  { apply (sustains_guar kept); [done|]. apply for_names_guar, move_cold_guar. }
  intros moved. destruct cfg as [c0|].
  - apply hoare_expect; [apply _|]. intros m Hm. apply retention_value in Hm as ->.
    apply hoare_expect; [apply _|]. intros b' Hb'.
    apply (sub_months_inv cur) in Hb' as [_ ->]; [|split; [lia|done]|unfold as_u32, u32_modulus; apply Z.mod_pos_bound; lia].
    eapply (hoare_bind _ _ _ _ (λ _ c, (based (Some c0) c ∧ ahead c) ∧ based (Some c0) c ∧ left_over table (Some c0) [] c)).
    { eapply (hoare_frame _ _ _ _ _ _ Hst), drop_loop_hoare; done. }
    intros dropped. apply hoare_ret; [apply _|]. intros c [[Hb [H1 H2]] [_ H3]]. by split_and!.
  - apply hoare_ret; [apply _|]. intros c [[Hb [H1 H2]] _]. split_and!; [done|done|]. split_and!; [done|done|].
    intros d name k r _ _ (c' & [=] & _).
Qed.

Context (as_of : Z) (Has : month_start (date_naive as_of) = Some (month_first cur)).

Lemma run_hoare cfg :
  hoare kept (based cfg) (run indexes overflow_checks pool as_of cfg)
    (λ r c, lr_retention_skipped r = bool_decide (cfg = None) ∧ based cfg c
       ∧ in_shape cfg "comms_request" c ∧ in_shape cfg "comms_event" c) (λ _, True).
Proof.
  unfold run. pose proof cal_range as Hr. apply hoare_expect; [apply _|]. intros m. rewrite Has. intros [= <-].
  apply hoare_expect; [apply _|]. intros n Hn. apply (add_months_inv cur) in Hn as [_ ->]; [|split; [lia|done]|lia].
  apply hoare_expect; [apply _|]. intros b _.
  assert ("comms_request"%string ∈ PARTITIONED_TABLES) as T1 by set_solver.
  assert ("comms_event"%string ∈ PARTITIONED_TABLES) as T2 by set_solver.
  eapply hoare_bind; [apply _|apply run_table_hoare, T1|]. intros r1. apply hoare_pull. intros E1.
  eapply (hoare_bind _ _ _ _ (λ r c, lr_retention_skipped r = bool_decide (cfg = None) ∧ based cfg c
    ∧ in_shape cfg "comms_request" c ∧ in_shape cfg "comms_event" c)).
  { eapply hoare_weaken; [eapply (hoare_also _ _ (based cfg) _ _ _ (in_shape_stable cfg _ T1)); [apply (run_table_hoare cfg b _ T2)|by intros c []]|done| |done].
    intros r c [[Hb H1] (E & _ & H2)]. by split_and!. }
  intros r2. apply hoare_pull. intros E2. apply hoare_ret; [apply _|]. intros c Hc. split; [|done].
  simpl. rewrite E1, E2. apply orb_diag.
Qed.

Lemma run_inner_hoare :
  hoare kept all_sound (run_inner indexes overflow_checks pool as_of)
    (λ r c, ∃ cfg, lr_retention_skipped r = bool_decide (cfg = None) ∧ based cfg c
       ∧ in_shape cfg "comms_request" c ∧ in_shape cfg "comms_event" c) (λ _, True).
Proof.
  unfold run_inner. assert (stable kept all_sound) as Hst by (intros c c' [_ HK] Hs; by apply HK).
  eapply (hoare_bind _ _ _ _ based).
  { apply hoare_lift, hoare_pool; [apply _|done|]. intros t c d d' cfg Hs Hd [= <- <-]. rewrite on_database_id by done.
    split; [reflexivity|]. split; [done|]. eauto. }
  intros cfg. eapply hoare_weaken; [apply (run_hoare cfg)|done| |done]. intros r c Hc. by exists cfg.
Qed.
End Runs.

Section Lifecycle_Theorems.
Context `{CA : !Calendar} `{CL : !CalendarLaws} `{PU : !PgUrl} `{TS : !Tablespaces} (indexes : string → list string) (overflow_checks : bool).
Context (cur as_of : Z) (Hcur : 0 <= cur < 119999) (Has : month_start (date_naive as_of) = Some (month_first cur)).
Context (url slug : string).

Definition in_order (c : Cluster) : Prop := all_sound cur c ∧ tenants_ok c.
Lemma run_for_tenant_hoare :
  hoare (kept cur) in_order (run_for_tenant indexes overflow_checks url slug as_of)
    (λ r c, ∃ pool cfg, slug_at slug pool c ∧ lr_retention_skipped r = bool_decide (cfg = None) ∧ based cur pool cfg c
       ∧ in_shape cur pool cfg "comms_request" c ∧ in_shape cur pool cfg "comms_event" c) (λ _, True).
Proof.
  unfold run_for_tenant. apply by_slug_hoare; [apply _|by intros c c' []| |by intros c []|by apply hoare_throw; [apply _|]|].
  { intros c c' [Hp HK] [Hs Hok]. split; [by apply HK|by eapply tenants_ok_stable]. }
  intros t. set (pool := tt_database_name t).
  eapply hoare_weaken; [eapply (hoare_also _ (λ c, tenants_ok c ∧ slug_at slug pool c ∧ all_sound cur c) (all_sound cur)); [|
    by apply (run_inner_hoare indexes overflow_checks cur Hcur pool as_of)|by intros c (_ & _ & H)]| | |done].
  - intros c c' [Hp HK] (Hok & Hat & Hs). destruct (slug_at_stable _ _ _ _ Hp (conj Hok Hat)). split_and!; [done|done|by apply HK].
  - by intros c [[Hs Hok] Hat].
  - intros r c [(_ & Hat & _) (cfg & H)]. by exists pool, cfg.
Qed.

(** C30. Nothing within the retention is lost: wherever a lifecycle run stops and whatever
    fails, in a month before December 9999 and as long as the catalogue is in order and
    the others keep it so, every database of the cluster keeps its configuration, all its
    ledger rows and events when none is set, and otherwise, for a retention that is not
    negative and whose months fit 32 bits (a longer one wraps around,
    [huge_retention_drops_recent_rows]), those since the month that lies the retention
    before the current one. *)
Theorem lifecycle_keeps_the_retention (w : CW) pool d :
  rely (kept cur) w → in_order (w_db w) → cl_database (w_db w) !! pool = Some d →
  ∃ d', cl_database (w_db (run_for_tenant indexes overflow_checks url slug as_of w).1) !! pool = Some d'
    ∧ td_config d' = td_config d
    ∧ ∀ t, (∀ c, td_config d = Some c → 0 <= cf_retention_years c * 12 < u32_modulus
                 ∧ month_first (cur - 12 * cf_retention_years c) * day <= t) →
        (∀ id, is_Some (db_request (td_tables d) !! (t, id)) → is_Some (db_request (td_tables d') !! (t, id)))
        ∧ (∀ id ty ref, is_Some (db_event (td_tables d) !! (t, id, ty, ref)) → is_Some (db_event (td_tables d') !! (t, id, ty, ref))).
Proof.
  intros Hr Hs Hd. destruct (run_for_tenant_hoare w Hr Hs) as (_ & HK & _). destruct (proj2 HK (proj1 Hs)) as [_ G].
  destruct (G _ _ Hd) as (d' & Hd' & K). exists d'. split; [done|]. split; [apply K|]. intros t Ht.
  assert (¬ old cur (td_config d) t) as Ho.
  { intros (k & (c & Ec & Hk) & Hlt). destruct (Ht c Ec) as [Hm Hle]. unfold as_u32 in Hk.
    assert (cf_retention_years c mod u32_modulus = cf_retention_years c) as E1 by (apply Z.mod_small; unfold u32_modulus in *; lia).
    rewrite E1, Z.mod_small in Hk by lia.
    pose proof (proj2 (month_first_le (k + 1) (cur - 12 * cf_retention_years c))) as Hmo. time_lia. }
  split; intros; [by apply K|by apply K].
Qed.

(** After a run the ledger is ready: when a run answers, and the others keep the
    catalogue in order, then the ledger and the event table of the tenant each have a
    table attached for the current and one for the next month, with exactly their
    bounds, no month past the retention is attached any more, and dropping was
    skipped exactly when no configuration is set. *)
Theorem lifecycle_leaves_the_ledger_ready (w w' : CW) report :
  rely (kept cur) w → in_order (w_db w) →
  run_for_tenant indexes overflow_checks url slug as_of w = (w', Ok report) →
  ∃ pool d, slug_at slug pool (w_db w') ∧ cl_database (w_db w') !! pool = Some d ∧ lr_retention_skipped report = bool_decide (td_config d = None)
    ∧ ∀ table, table ∈ PARTITIONED_TABLES →
        (∀ k, cur <= k <= cur + 1 → ∃ r, td_relation d !! partition_name table (month_first k) = Some r
           ∧ rl_parent r = Some table ∧ rl_from r = month_first k * day ∧ rl_to r = month_first (k + 1) * day)
        ∧ (∀ name k r, parse_partition_month table name = Some (month_first k) → td_relation d !! name = Some r →
             rl_parent r = Some table → ¬ expired cur (td_config d) k).
Proof.
  intros Hr Hs E. destruct (run_for_tenant_hoare w Hr Hs) as (_ & _ & HQ). rewrite E in HQ. simpl in HQ.
  destruct HQ as (pool & cfg & Hat & Hskip & [Hs' (d & Hd & Ec)] & H1 & H2). exists pool, d. split; [done|]. split; [done|]. rewrite Ec. split; [done|].
  intros table Ht. assert (in_shape cur pool cfg table (w_db w')) as (Hc & Hn & HL).
  { by apply elem_of_cons in Ht as [->|[->|[]%not_elem_of_nil]%elem_of_cons]. }
  split.
  - intros k Hk. assert (is_Some (td_relation d !! partition_name table (month_first k))) as [r Hrel].
    { assert (k = cur ∨ k = cur + 1) as [->| ->] by lia; [destruct Hc as (e & He & H)|destruct Hn as (e & He & H)]; by simplify_eq. }
    assert (month_table table (partition_name table (month_first k)) k) as Hm by (apply partition_name_table; [done|lia]).
    exists r. destruct (Hs' _ _ Hd _ _ _ _ Hm Hrel) as [Hb Ha]. assert (rl_parent r = Some table) as Hp by (apply Ha; lia).
    destruct (Hb _ Hp) as (_ & Hf & Hto). done.
  - intros name k r Hm Hrel Hp He. by destruct (not_elem_of_nil name (HL _ _ _ _ Hd (conj Ht Hm) He Hrel Hp)).
Qed.
End Lifecycle_Theorems.

(** ** A run on its own comes to its end *)

Lemma total_expect {A B} (P : Cluster → Prop) (o : option A) a (k : A → CEff PartitionLifecycleError B) Q :
  o = Some a → totally P (k a) Q → totally P (ebind (eof (ok_or o PlPanic)) k) Q.
Proof. intros -> Hk. exact Hk. Qed.

Section Completes.
Context `{CA : !Calendar} `{CL : !CalendarLaws} `{PU : !PgUrl} `{TS : !Tablespaces} (indexes : string → list string) (overflow_checks : bool).
Context (cur : Z) (Hcur : 0 <= cur < 119999) (pool : string) (cfg : option TenantConfig).
Context (Hcold : COLD_TABLESPACE ∈ tablespaces).

(** Every partition of the two tables carries the name of a month. *)
Definition tidy (d : TenantDb) : Prop :=
  ∀ table name r, table ∈ PARTITIONED_TABLES → td_relation d !! name = Some r → rl_parent r = Some table →
    ∃ k, month_table table name k.
(** The pool's database, with these partitions of a table in it. *)
Definition holds (table : string) (l : list string) (c : Cluster) : Prop :=
  ∃ d, cl_database c !! pool = Some d ∧ sound cur d ∧ tidy d ∧ td_config d = cfg
    ∧ ∀ name, name ∈ l → ∃ r, td_relation d !! name = Some r ∧ rl_parent r = Some table.

Lemma holds_db table l d c : sound cur d → tidy d → td_config d = cfg →
  (∀ name, name ∈ l → ∃ r, td_relation d !! name = Some r ∧ rl_parent r = Some table) →
  holds table l (on_database (<[pool := d]>) c).
Proof. intros. exists d. split; [apply lookup_insert_eq|done]. Qed.

Lemma free_month_fits table k d : table ∈ PARTITIONED_TABLES → 0 <= k < 120000 → sound cur d → tidy d →
  td_relation d !! partition_name table (month_first k) = None →
  ¬ Exists (λ nr, overlaps table (month_first k * day) (month_first (k + 1) * day) nr.2) (map_to_list (td_relation d)).
Proof.
  intros Ht Hk Hs Hti Hn ([name r] & Hr%elem_of_map_to_list & Hp & H1 & H2)%Exists_exists. simpl in *.
  destruct (Hti _ _ _ Ht Hr Hp) as [k' Hm]. destruct (Hs _ _ _ _ Hm Hr) as [Hb _]. destruct (Hb _ Hp) as (_ & E1 & E2).
  rewrite E2 in H1. rewrite E1 in H2. pose proof (proj2 (month_first_le (k' + 1) k)). pose proof (proj2 (month_first_le (k + 1) k')).
  assert (k' = k) as -> by time_lia. destruct (month_table_name _ _ _ Hm) as [_ E].
  rewrite partition_name_text, <- E in Hn by done. congruence.
Qed.

Lemma create_ahead_total table k : table ∈ PARTITIONED_TABLES → cur <= k < 120000 →
  totally (holds table []) (create_ahead indexes pool table (month_first k)) (λ _, holds table []).
Proof.
  intros Ht Hk. pose proof cal_range as Hr. unfold create_ahead. set (name := partition_name table (month_first k)).
  eapply (total_bind _ _ _ (λ (b : bool) c, holds table [] c ∧ ∃ d, cl_database c !! pool = Some d ∧ b = relation_exists name d)).
  { apply total_lift, total_pool. intros t c (d & Hd & H). exists d, d, (relation_exists name d). rewrite on_database_id by done.
    split_and!; [done|done|by exists d|by exists d]. }
  intros [].
  { apply total_ret. by intros c []. }
  unfold create_partition. fold name. apply (total_bind _ _ _ (λ _, holds table [])); [|intros u; by apply total_ret].
  destruct (add_months_is k (month_first k) 1) as (e & He & [_ ->]); [split; [lia|done]|lia|lia|].
  apply (total_expect _ _ (month_first (k + 1))); [exact He|]. apply total_lift, total_pool.
  intros t c ((d & Hd & Hs & Hti & Hcfg & _) & d0 & Hd0 & Hex). simplify_eq.
  assert (td_relation d !! name = None) as Hn.
  { symmetry in Hex. apply bool_decide_eq_false in Hex. by apply eq_None_not_Some. }
  assert (create_relation (indexes name) table name (month_first k * day) (month_first (k + 1) * day) d
    = Ok (on_relation (<[name := MkRelation (Some table) (month_first k * day) (month_first (k + 1) * day) None
            (list_to_map ((λ i, (i, None)) <$> indexes name)) ∅ ∅]>) d, tt)) as Hc.
  { unfold create_relation. rewrite Hn. rewrite decide_False; [done|]. apply free_month_fits; [done|lia|done..]. }
  exists d. eexists _, tt. split; [done|]. split; [exact Hc|]. apply holds_db; [| |done|by intros ? ?%not_elem_of_nil].
  - eapply create_kept; [exact Ht|apply Hk|lia|exact Hc|done].
  - intros table' name' r Ht'. simpl. rewrite lookup_insert_Some. intros [[<- <-]|[_ H1]] Hp; [|by eapply Hti].
    injection Hp as <-. exists k. apply partition_name_table; [done|lia].
Qed.

Lemma list_partitions_total table : table ∈ PARTITIONED_TABLES →
  totally (holds table []) (list_partitions pool table)
    (λ l c, (infos_ok table l ∧ NoDup (pt_name <$> l)) ∧ holds table (pt_name <$> l) c).
Proof.
  intros Ht. unfold list_partitions.
  eapply (total_bind _ _ _ (λ rows c, ∃ d, cl_database c !! pool = Some d ∧ (sound cur d ∧ tidy d ∧ td_config d = cfg) ∧ rows = children table d)).
  { apply total_pool. intros t c (d & Hd & Hs & Hti & Hc & _). exists d, d. eexists. rewrite on_database_id by done.
    split_and!; [done|done|]. by exists d. }
  intros rows. apply total_ret. intros c (d & Hd & (Hs & Hti & Hc) & ->).
  assert (pt_name <$> omap (λ row : string * option string,
    (λ month, MkPartition row.1 month row.2) <$> parse_partition_month table row.1) (children table d)
    = filter (λ n, is_Some (parse_partition_month table n)) (children table d).*1) as E.
  { generalize (children table d). intros rows. induction rows as [|[n ts] rows IH]; [done|]. cbn [omap list_omap]. rewrite fmap_cons.
    cbn [fst]. destruct (parse_partition_month table n) as [m|] eqn:Hm; cbn [fmap option_fmap option_map].
    - rewrite filter_cons_True by (rewrite Hm; eauto). rewrite fmap_cons. by rewrite IH.
    - rewrite filter_cons_False by (rewrite Hm; by intros [? [=]]). done. }
  split; [split|].
  - intros p Hp. apply list_elem_of_omap in Hp as ([n ts] & Hn & E'). simpl in E'. destruct (parse_partition_month table n) as [m|] eqn:Hm; [|done].
    injection E' as <-. simpl. pose proof (proj1 (parse_partition_month_iff _ _ _) Hm) as (k & Hk & -> & _). exists k. by split_and!.
  - rewrite E. apply NoDup_filter. unfold children. generalize (NoDup_fst_map_to_list (td_relation d)).
    generalize (map_to_list (td_relation d)). intros rs. induction rs as [|[n r] rs IH]; simpl; [constructor|].
    intros [H1 H2]%NoDup_cons. case_decide; [|auto]. simpl. constructor; [|auto]. intros ([n' ts] & -> & Hin)%list_elem_of_fmap.
    apply list_elem_of_omap in Hin as ([n2 r2] & Hin & E2). simpl in E2. case_decide; [|done]. injection E2 as <- _.
    apply H1, list_elem_of_fmap. by exists (n2, r2).
  - exists d. split_and!; [done..|]. rewrite E. intros name [_ Hin]%list_elem_of_filter.
    apply list_elem_of_fmap in Hin as ([n ts] & -> & Hin). apply children_elem in Hin as (r & H1 & H2 & _). eauto.
Qed.

(** Moving a table and its indexes changes nothing but tablespaces. *)
Definition reshaped (d d' : TenantDb) : Prop :=
  td_config d' = td_config d ∧ ∀ name, match td_relation d !! name, td_relation d' !! name with
    | Some r, Some r' => rl_parent r' = rl_parent r ∧ rl_from r' = rl_from r ∧ rl_to r' = rl_to r
        ∧ ∀ i, has_index i r → has_index i r'
    | None, None => True
    | _, _ => False
    end.
Lemma reshaped_holds table l d d' c : reshaped d d' → cl_database c !! pool = Some d → holds table l c →
  holds table l (on_database (<[pool := d']>) c).
Proof.
  intros [Hc HR] Hd (e & He & Hs & Hti & Hcfg & Hl). simplify_eq. apply holds_db; [| |by rewrite Hc|].
  - apply (sound_same _ d); [|done]. intros name r' Hr'. specialize (HR name). rewrite Hr' in HR.
    destruct (td_relation d !! name) as [r|]; [|done]. exists r. tauto.
  - intros t name r' Ht Hr' Hp. specialize (HR name). rewrite Hr' in HR.
    destruct (td_relation d !! name) as [r|] eqn:Hr; [|done]. eapply Hti; [done|done|].
    destruct HR as [E _]. congruence.
  - intros name (r & Hr & Hp)%Hl. specialize (HR name). rewrite Hr in HR.
    destruct (td_relation d' !! name) as [r'|]; [|done]. exists r'. split; [done|].
    destruct HR as [E _]. congruence.
Qed.
Lemma alter_index_reshaped i ts d d' u : alter_index_tablespace i ts d = Ok (d', u) → reshaped d d'.
Proof.
  unfold alter_index_tablespace. do 2 (case_decide; [|done]). intros [= <- _]. split; [done|]. intros name. simpl.
  rewrite lookup_fmap. destruct (td_relation d !! name) as [r|]; [|done]. split_and!; [done..|]. intros j [x Hj].
  unfold has_index. simpl. destruct (decide (i = j)) as [->|]; [rewrite lookup_alter_eq|rewrite lookup_alter_ne by done]; rewrite Hj; eauto.
Qed.
Lemma alter_indexes_total table l ts is_ : ts ∈ tablespaces →
  totally (λ c, holds table l c ∧ ∃ d, cl_database c !! pool = Some d
             ∧ ∀ i, i ∈ is_ → ∃ name r, td_relation d !! name = Some r ∧ has_index i r)
    (alter_indexes pool ts is_) (λ _, holds table l).
Proof.
  intros Hts. induction is_ as [|i is_ IH]; [apply total_ret; by intros c []|]. simpl. eapply total_bind; [|intros u; apply IH].
  apply total_pool. intros t c [Hh (d & Hd & Hi)]. destruct (Hi i) as (name & r & Hr & Hri); [by left|].
  assert (alter_index_tablespace i ts d = Ok (on_relation (fmap (rl_on_index (alter (λ _, Some ts) i))) d, tt)) as E.
  { unfold alter_index_tablespace. rewrite decide_True; [by rewrite decide_True|]. apply Exists_exists. exists (name, r).
    split; [by apply elem_of_map_to_list|done]. }
  exists d. eexists _, tt. split; [done|]. split; [exact E|]. pose proof (alter_index_reshaped _ _ _ _ _ E) as HR.
  split; [by eapply reshaped_holds|]. eexists. split; [apply lookup_insert_eq|]. intros j Hj.
  destruct (Hi j) as (n' & r' & Hr' & Hrj); [by right|]. destruct HR as [_ HR]. specialize (HR n'). rewrite Hr' in HR.
  destruct (td_relation (on_relation _ d) !! n') as [r2|] eqn:E2; [|done]. exists n', r2. split; [done|]. by apply HR.
Qed.
Lemma move_cold_total table l b p k : month_table table (pt_name p) k → pt_month_start p = month_first k → pt_name p ∈ l →
  totally (holds table l) (move_cold pool b p) (λ _, holds table l).
Proof.
  intros Hm Hk Hp. pose proof (month_table_name _ _ _ Hm) as [Hr _]. pose proof cal_range. unfold move_cold.
  destruct (add_months_is k (month_first k) 1) as (e & He & _); [split; [lia|done]|lia|lia|]. rewrite <- Hk in He.
  apply (total_expect _ _ e _ _ He). case_match; [|by apply total_ret].
  apply (total_bind _ _ _ (λ _, holds table l)); [|intros u; by apply total_ret]. apply total_lift. unfold move_to_tablespace.
  apply (total_bind _ _ _ (λ _, holds table l)).
  { apply total_pool. intros t c Hh. pose proof Hh as (d & Hd & _ & _ & _ & Hl). destruct (Hl _ Hp) as (r & Hrel & _).
    exists d. eexists _, tt. unfold alter_table_tablespace. rewrite Hrel, decide_True by done. split_and!; [done|done|].
    apply (reshaped_holds table l d); [|done..]. split; [done|]. intros name. simpl. destruct (decide (name = pt_name p)) as [->|].
    - by rewrite Hrel, lookup_insert_eq.
    - rewrite lookup_insert_ne by done. by case_match. }
  intros u. eapply total_bind; [|intros names; by apply alter_indexes_total]. apply total_pool. intros t c Hh.
  pose proof Hh as (d & Hd & _). exists d, d. eexists. rewrite on_database_id by done. split_and!; [done|done|done|]. exists d.
  split; [done|]. intros i. unfold index_names. destruct (td_relation d !! pt_name p) as [r|] eqn:Hrel; [|by intros ?%not_elem_of_nil].
  intros ([i' x] & -> & Hi)%list_elem_of_fmap. apply elem_of_map_to_list in Hi. exists (pt_name p), r. split; [done|]. by exists x.
Qed.

(** Detaching and dropping one partition leaves the others attached. *)
Lemma drop_old_total table l b p k c0 : cfg = Some c0 → b = cur - as_u32 (as_u32 (cf_retention_years c0) * 12) →
  month_table table (pt_name p) k → pt_month_start p = month_first k → NoDup (pt_name p :: l) →
  totally (holds table (pt_name p :: l)) (drop_old pool table (month_first b) p) (λ _, holds table l).
Proof.
  intros Hc0 Hb Hm Hk [Hnin _]%NoDup_cons. pose proof (month_table_name _ _ _ Hm) as [Hr _]. pose proof cal_range. unfold drop_old.
  destruct (add_months_is k (month_first k) 1) as (e & He & [_ ->]); [split; [lia|done]|lia|lia|]. rewrite <- Hk in He.
  apply (total_expect _ _ _ _ _ He). destruct (Z.leb_spec (month_first (k + 1)) (month_first b)) as [Hle|].
  2: { apply total_ret. intros c (d & Hd & Hs & Hti & Hc & Hl). exists d. split_and!; [done..|]. intros n Hn. apply Hl. by right. }
  apply (proj1 (month_first_le _ _)) in Hle. assert (expired cur cfg k) as Hex by (exists c0; split; [done|lia]).
  apply (total_bind _ _ _ (λ _, holds table l)); [|intros u; by apply total_ret]. apply total_lift. unfold detach_and_drop.
  apply (total_bind _ _ _ (λ _ c, holds table l c ∧ ∃ d, cl_database c !! pool = Some d ∧ is_Some (td_relation d !! pt_name p))).
  - apply total_pool. intros t c (d & Hd & Hs & Hti & Hc & Hl). destruct (Hl (pt_name p)) as (r & Hrel & Hp); [by left|].
    destruct (detach table (pt_name p) d) as [[d' u]|] eqn:E.
    2: { unfold detach in E. rewrite Hrel, decide_True in E by done. done. }
    destruct (detach_kept cur table (pt_name p) k d d' u) as [[Hs' K] (r0 & Hr0 & Hn0)]; [done|by rewrite Hc|done|done|].
    unfold detach in E. rewrite Hrel, decide_True in E by done. injection E as <- <-. exists d. eexists _, tt.
    split; [done|]. unfold detach. rewrite Hrel, decide_True by done. split; [done|]. split.
    + apply holds_db; [done| |done|].
      * intros t' name r' Ht' Hr' Hp'. simpl in Hr'. apply lookup_insert_Some in Hr' as [[<- <-]|[_ Hr']]; [done|by eapply Hti].
      * intros name Hn. simpl. rewrite lookup_insert_ne by (intros <-; done). apply Hl. by right.
    + eexists. split; [apply lookup_insert_eq|]. simpl. rewrite lookup_insert_eq. eauto.
  - intros _. apply total_pool. intros t c [(d & Hd & Hs & Hti & Hc & Hl) (d0 & Hd0 & [r Hrel])]. rewrite Hd in Hd0. injection Hd0 as <-.
    destruct (drop_relation (pt_name p) d) as [[d' u]|] eqn:E.
    2: { unfold drop_relation in E. rewrite Hrel in E. done. }
    destruct (drop_kept cur table (pt_name p) k d d' u) as [[Hs' K] Hn0]; [done|by rewrite Hc|done|done|].
    exists d, d', u. split_and!; [done|done|].
    assert (td_relation d' = delete (pt_name p) (td_relation d)) as Er.
    { unfold drop_relation in E. rewrite Hrel in E. injection E as <- _. by destruct (rl_parent r). }
    apply holds_db; [done| |by rewrite (kd_config _ _ _ K)|].
    + intros t' name r' Ht' Hr' Hp'. rewrite Er in Hr'. apply lookup_delete_Some in Hr' as [_ Hr']. by eapply Hti.
    + intros name Hn. rewrite Er, lookup_delete_ne by (intros <-; done). by apply Hl.
Qed.

Lemma for_names_total {A} (f : A → CEff PartitionLifecycleError (list string)) l (P : Cluster → Prop) :
  (∀ x, x ∈ l → totally P (f x) (λ _, P)) → totally P (for_names f l) (λ _, P).
Proof.
  induction l as [|x l IH]; intros Hf; simpl; [by apply total_ret|].
  eapply total_bind; [apply Hf; by left|]. intros names. eapply total_bind; [apply IH; intros y Hy; apply Hf; by right|].
  intros rest. by apply total_ret.
Qed.
Lemma drop_loop_total table b c0 l : cfg = Some c0 → b = cur - as_u32 (as_u32 (cf_retention_years c0) * 12) →
  infos_ok table l → NoDup (pt_name <$> l) →
  totally (holds table (pt_name <$> l)) (for_names (drop_old pool table (month_first b)) l) (λ _, holds table []).
Proof.
  intros Hc Hb. induction l as [|p l IH]; intros Hl Hnd; [by apply total_ret|]. simpl.
  destruct (Hl p) as (k & Hk & Hm); [by left|].
  eapply total_bind; [by eapply (drop_old_total table (pt_name <$> l) b p k c0)|]. intros names.
  eapply total_bind; [apply IH; [intros q Hq; apply Hl; by right|by apply NoDup_cons in Hnd as [_ Hnd]]|].
  intros rest. by apply total_ret.
Qed.

(** The retention that can be counted in months and back from the current one. *)
Definition retention_fits (c0 : TenantConfig) : Prop :=
  0 <= 12 * cf_retention_years c0 < u32_modulus ∧ 12 * min_year <= cur - 12 * cf_retention_years c0.
Lemma run_table_total table b : table ∈ PARTITIONED_TABLES → (∀ c0, cfg = Some c0 → retention_fits c0) →
  totally (holds table []) (run_table indexes overflow_checks pool (month_first cur) (month_first (cur + 1)) b cfg table)
    (λ _, holds table []).
Proof.
  intros Ht Hfit. pose proof cal_range. unfold run_table.
  eapply total_bind; [apply for_names_total; intros x Hx;
    apply elem_of_cons in Hx as [->|[->|[]%not_elem_of_nil]%elem_of_cons]; apply create_ahead_total; [done|lia|done|lia]|].
  intros created. eapply total_bind; [by apply total_lift, list_partitions_total|]. intros l. apply total_pull. intros [Hl Hnd].
  eapply total_bind; [apply for_names_total; intros p Hp; destruct (Hl p Hp) as (k & Hk & Hm);
    eapply (move_cold_total table _ b p k); [done|done|apply list_elem_of_fmap; eauto]|].
  intros moved. destruct cfg as [c0|] eqn:Ecfg.
  - destruct (Hfit c0 eq_refl) as [H1 H2].
    assert (as_u32 (cf_retention_years c0) * 12 = 12 * cf_retention_years c0) as E.
    { unfold as_u32. rewrite Z.mod_small by (unfold u32_modulus in *; lia). lia. }
    assert (as_u32 (as_u32 (cf_retention_years c0) * 12) = 12 * cf_retention_years c0) as E'.
    { rewrite E. unfold as_u32. by apply Z.mod_small. }
    apply (total_expect _ _ (12 * cf_retention_years c0)).
    { unfold retention_months. rewrite E', E. rewrite (proj2 (Z.leb_gt _ _)) by lia. by rewrite andb_false_r. }
    apply (total_expect _ _ (month_first (cur - 12 * cf_retention_years c0))).
    { unfold subtract_months. rewrite sub_months_first by lia. by rewrite (proj2 (Z.leb_le _ _)). }
    eapply total_bind; [apply (drop_loop_total table _ c0 l); [done|by rewrite E'|done|done]|].
    intros dropped. by apply total_ret.
  - apply total_ret. intros c (d & Hd & Hs & Hti & Hc & _). exists d. split_and!; [done..|by intros ? ?%not_elem_of_nil].
Qed.
Lemma holds_other table table' c : holds table [] c → holds table' [] c.
Proof. intros (d & Hd & Hs & Hti & Hc & _). exists d. split_and!; [done..|by intros ? ?%not_elem_of_nil]. Qed.
Lemma run_total as_of : month_start (date_naive as_of) = Some (month_first cur) → (∀ c0, cfg = Some c0 → retention_fits c0) →
  12 * min_year <= cur - 18 → totally (holds "comms_request" []) (run indexes overflow_checks pool as_of cfg) (λ _ _, True).
Proof.
  intros Has Hfit Hmv. pose proof cal_range. unfold run. apply (total_expect _ _ _ _ _ Has).
  destruct (add_months_is cur (month_first cur) 1) as (e & He & [_ ->]); [split; [lia|done]|lia|lia|]. apply (total_expect _ _ _ _ _ He).
  apply (total_expect _ _ (month_first (cur - 18))).
  { unfold subtract_months, MOVE_AFTER_MONTHS. rewrite sub_months_first by lia. by rewrite (proj2 (Z.leb_le _ _)). }
  eapply total_bind; [by apply run_table_total; [set_solver|]|]. intros r1.
  eapply total_bind; [eapply total_pre; [by apply (run_table_total "comms_event"); [set_solver|]|intros c; apply holds_other]|].
  intros r2. by apply total_ret.
Qed.
End Completes.

(** C31. A lifecycle run on its own comes to its end: once the operator has made the cold
    tablespace, for a tenant on file, on a database whose monthly tables have their names
    and bounds, in a month before December 9999 from which eighteen months and the
    retention, where one is set, can be counted back, and where no statement fails, the
    command answers. *)
Theorem lifecycle_run_completes `{CA : !Calendar} `{CL : !CalendarLaws} `{PU : !PgUrl} `{TS : !Tablespaces} indexes overflow_checks cur as_of url slug
    (w : CW) t d :
  COLD_TABLESPACE ∈ tablespaces → 0 <= cur < 119999 → 12 * min_year <= cur - 18 → month_start (date_naive as_of) = Some (month_first cur) →
  calm w → is_ok (parse_url url) = true → tenants_ok (w_db w) → find_by_slug slug (w_db w) = Some t →
  cl_database (w_db w) !! tt_database_name t = Some d → sound cur d → tidy d →
  (∀ c, td_config d = Some c → retention_fits cur c) →
  ∃ c' report, run_for_tenant indexes overflow_checks url slug as_of w = (set_db c' w, Ok report).
Proof.
  intros Hcold Hcur Hmv Has Hc Hu Hok Ht Hd Hs Hti Hfit. unfold run_for_tenant. rewrite (by_slug_calm url slug _ _ _ _ w t) by (done || apply Hc || eauto).
  unfold run_inner, load_config. unfold ebind at 1, elift at 1, pool_query, pool_sql. rewrite sql_calm by apply Hc.
  unfold on_pool. rewrite Hd. cbn [map_err]. rewrite on_database_id, set_db_same by done.
  destruct (run_total indexes overflow_checks cur Hcur (tt_database_name t) (td_config d) Hcold as_of Has Hfit Hmv w Hc) as (c' & r & E & _).
  - exists d. split_and!; [done..|by intros ? ?%not_elem_of_nil].
  - eauto.
Qed.

(** ** Sweeping *)

(** Keys that have not expired are still on file, unchanged. *)
Definition keys_kept (as_of : Z) (c c' : Cluster) : Prop :=
  ∀ pool d key row, cl_database c !! pool = Some d → db_idempotency (td_tables d) !! key = Some row → as_of < id_expires_at row →
    ∃ d', cl_database c' !! pool = Some d' ∧ db_idempotency (td_tables d') !! key = Some row.
#[export] Instance keys_kept_pre as_of : PreOrder (keys_kept as_of).
Proof.
  split; [intros c pool d key row; eauto|]. intros c1 c2 c3 H12 H23 pool d key row Hd Hk He.
  destruct (H12 _ _ _ _ Hd Hk He) as (d' & Hd' & Hk'). eauto.
Qed.
Lemma delete_expired_lookup as_of d key :
  db_idempotency (td_tables (delete_expired as_of d).1) !! key
  = row ← db_idempotency (td_tables d) !! key; guard (as_of < id_expires_at row);; Some row.
Proof.
  simpl. rewrite map_lookup_filter. destruct (db_idempotency (td_tables d) !! key) as [row|]; [|done]. simpl.
  unfold swept. simpl. repeat case_guard; [done|lia|lia|done].
Qed.

Section Sweep.
Context `{PU : !PgUrl} (url slug : string) (as_of : Z).

(** A sweep forgets exactly what has expired: in every world it leaves each key that
    expires after the given instant as it is; with nobody else at work it deletes those
    that expire up to that instant from the tenant's database, answers how many
    there were, and changes nothing else. *)
Theorem sweep_forgets_only_expired_keys (w : CW) :
  (rely (keys_kept as_of) w → keys_kept as_of (w_db w) (w_db (sweep_for_tenant url slug as_of w).1))
  ∧ (∀ t d, calm w → is_ok (parse_url url) = true → tenants_ok (w_db w) → find_by_slug slug (w_db w) = Some t →
       cl_database (w_db w) !! tt_database_name t = Some d →
       sweep_for_tenant url slug as_of w
       = (set_db (on_database (<[tt_database_name t := (delete_expired as_of d).1]>) (w_db w)) w,
          Ok (size (filter (swept as_of) (db_idempotency (td_tables d)))))
       ∧ ∀ key, db_idempotency (td_tables (delete_expired as_of d).1) !! key
           = row ← db_idempotency (td_tables d) !! key; guard (as_of < id_expires_at row);; Some row).
Proof.
  split.
  - intros Hr. assert (guar (keys_kept as_of) (sweep_for_tenant url slug as_of)) as Hg; [|by apply Hg].
    apply slug_pool_guar; [apply _|step_guar|]. intros t pool. apply guar_lift, guar_pool; [apply _|].
    intros t' c d d' n Hd [= <- _] pool' e key row He Hk Hx. simpl. destruct (decide (pool' = pool)) as [->|].
    + rewrite lookup_insert_eq. eexists. split; [done|]. rewrite Hd in He. injection He as <-.
      change (db_idempotency (td_tables (delete_expired as_of d).1) !! key = Some row). rewrite delete_expired_lookup, Hk.
      simpl. by case_guard.
    + rewrite lookup_insert_ne by done. eauto.
  - intros t d Hc Hu Hok Ht Hd. split; [|intros key; apply delete_expired_lookup].
    unfold sweep_for_tenant. rewrite (by_slug_calm url slug _ _ _ _ w t) by (done || apply Hc || eauto).
    unfold sweep, elift, pool_sql. rewrite sql_calm by apply Hc. unfold on_pool. by rewrite Hd.
Qed.
End Sweep.

(** ** Examples *)

Definition month_entry (e : string * Z) : string * Relation :=
  (partition_name (CA:=gregorian) e.1 (greg_first e.2),
   MkRelation (Some e.1) (greg_first e.2 * day) (greg_first (e.2 + 1) * day) None {["idx_" +:+ pretty e.2 := None]} ∅ ∅).
(** Tables that were made for their months are in order. *)
Lemma entries_in_order cur l d : Forall (λ e, e.1 ∈ PARTITIONED_TABLES ∧ 0 <= e.2 < 120000) l →
  td_relation d = list_to_map (month_entry <$> l) → sound (CA:=gregorian) cur d ∧ tidy (CA:=gregorian) d.
Proof.
  intros Hl E. assert (∀ name r, td_relation d !! name = Some r → ∃ table k,
    month_table (CA:=gregorian) table name k ∧ rl_parent r = Some table ∧ rl_from r = greg_first k * day ∧ rl_to r = greg_first (k + 1) * day) as HB.
  { intros name r. rewrite E. intros Hr%elem_of_list_to_map_2. apply list_elem_of_fmap in Hr as ([table k] & [= -> ->] & Hin).
    rewrite Forall_forall in Hl. destruct (Hl _ Hin) as [Ht Hk]. exists table, k. split; [|done].
    exact (partition_name_table (CA:=gregorian) table k Ht Hk). }
  split.
  - intros table name k r Hm Hr. destruct (HB _ _ Hr) as (table' & k' & Hm' & Hp & Hf & Ht).
    destruct (month_table_unique _ _ _ _ _ Hm Hm') as [<- <-]. rewrite Hp. split; [|done]. by intros q [= <-].
  - intros table name r Ht Hr Hp. destruct (HB _ _ Hr) as (table' & k' & Hm' & Hp' & _). rewrite Hp in Hp'. injection Hp' as <-. eauto.
Qed.

(** February 2024, a table of 2010 and one of 2022, with a request in each. *)
Definition feb_2024 : Z := 24289.
Definition leap_day : Z := 19782 * day + 5 * hour.
Definition jan_2010 : Z := 12 * 2010.
Definition jan_2022 : Z := 12 * 2022.
Definition plain_request : CommsRequest :=
  MkRequest 1 5 channel.SMS class.MARKETING "promo" 1 None "" "" None 7 None None None None.
Definition aged_db (retention : Z) : TenantDb :=
  on_relation (λ _, list_to_map (month_entry <$> [("comms_request", jan_2010); ("comms_request", jan_2022)]%string))
    (on_tables (on_request (λ _, {[(greg_first jan_2010 * day, 1%N) := plain_request; (greg_first jan_2022 * day, 2%N) := plain_request]}))
       (set_config (MkConfig retention "Etc/UTC" "en" 90 "Etc/UTC" verification_mode.OBSERVE 500 5) empty_tenant_db)).
Definition aged_cluster (retention : Z) : Cluster := on_database (<["tenant_acme"%string := aged_db retention]>) two_tenants.
#[local] Existing Instance demo_url.
#[local] Existing Instance gregorian.
Definition cold_made : Tablespaces := {| tablespaces := [COLD_TABLESPACE] |}.
#[local] Existing Instance cold_made.
Lemma cold_is_made : COLD_TABLESPACE ∈ tablespaces.
Proof. by left. Qed.
Definition demo_lifecycle (overflow_checks : bool) (w : CW) : CW * result LifecycleReport PartitionLifecycleError :=
  run_for_tenant (λ name, [name +:+ "_pkey"])%string overflow_checks "postgres://" "acme" leap_day w.

Lemma feb_range : 0 <= feb_2024 < 119999.
Proof. unfold feb_2024. lia. Qed.
Lemma leap_day_month : month_start (date_naive leap_day) = Some (month_first feb_2024).
Proof. vm_compute. reflexivity. Qed.
Lemma aged_in_order retention : in_order feb_2024 (aged_cluster retention).
Proof.
  split.
  - intros pool d. simpl. rewrite lookup_insert_Some. intros [[<- <-]|[_ H]].
    + eapply entries_in_order; [|reflexivity]. repeat constructor; simpl; try set_solver; unfold jan_2010, jan_2022; lia.
    + revert H. rewrite lookup_insert_Some, lookup_singleton_Some. intros [[_ <-]|[_ [_ <-]]]; by apply (entries_in_order _ []).
  - eapply tenants_ok_stable; [|exact two_tenants_ok]. by apply pinned_same.
Qed.
Lemma still_rely R (c : Cluster) : rely R (cluster_world c).
Proof. split; [constructor|done]. Qed.

Lemma retention_witness :
  ∃ d', cl_database (w_db (demo_lifecycle true (cluster_world (aged_cluster 7))).1) !! "tenant_acme"%string = Some d'
    ∧ is_Some (db_request (td_tables d') !! (greg_first jan_2022 * day, 2%N)).
Proof.
  destruct (lifecycle_keeps_the_retention (λ name, [name +:+ "_pkey"])%string true feb_2024 leap_day feb_range leap_day_month
    "postgres://" "acme" (cluster_world (aged_cluster 7)) "tenant_acme" (aged_db 7)
    (still_rely _ _) (aged_in_order 7) eq_refl) as (d' & Hd & _ & Hk).
  exists d'. split; [exact Hd|]. apply Hk; [|eexists; reflexivity]. intros c [= <-]. vm_compute. split; [split; [|split]|]; discriminate || reflexivity.
Defined.

Lemma demo_lifecycle_ok : (demo_lifecycle true (cluster_world (aged_cluster 7))).2
  = Ok (MkLifecycle ["comms_request_2024_02"; "comms_request_2024_03"; "comms_event_2024_02"; "comms_event_2024_03"]
          ["comms_request_2010_01"; "comms_request_2022_01"] ["comms_request_2010_01"] false)%string.
Proof. vm_compute. reflexivity. Qed.

Lemma events_listed : "comms_event"%string ∈ PARTITIONED_TABLES.
Proof. set_solver. Qed.
Lemma feb_here : feb_2024 <= feb_2024 <= feb_2024 + 1.
Proof. unfold feb_2024. lia. Qed.
Lemma ready_witness :
  ∃ w' report pool d, demo_lifecycle true (cluster_world (aged_cluster 7)) = (w', Ok report)
    ∧ slug_at "acme" pool (w_db w') ∧ cl_database (w_db w') !! pool = Some d
    ∧ ∃ r, td_relation d !! partition_name "comms_event" (month_first feb_2024) = Some r ∧ rl_parent r = Some "comms_event"%string.
Proof.
  pose proof demo_lifecycle_ok as Hok. destruct (demo_lifecycle true (cluster_world (aged_cluster 7))) as [w' [report|]] eqn:E; [|discriminate Hok].
  destruct (lifecycle_leaves_the_ledger_ready (λ name, [name +:+ "_pkey"])%string true feb_2024 leap_day feb_range leap_day_month
    "postgres://" "acme" (cluster_world (aged_cluster 7)) w' report (still_rely _ _) (aged_in_order 7) E) as (pool & d & Hat & Hd & _ & Ht).
  exists w', report, pool, d. split; [reflexivity|]. split; [exact Hat|]. split; [exact Hd|].
  destruct (Ht "comms_event"%string events_listed) as [Hk _]. destruct (Hk feb_2024 feb_here) as (r & Hr & Hp & _).
  exists r. split; [exact Hr|exact Hp].
Defined.

Lemma acme_aged retention : find_by_slug "acme" (w_db (cluster_world (aged_cluster retention))) = Some acme.
Proof. vm_compute. reflexivity. Qed.
Lemma completes_witness :
  ∃ c' report, demo_lifecycle true (cluster_world (aged_cluster 7)) = (set_db c' (cluster_world (aged_cluster 7)), Ok report).
Proof.
  apply (lifecycle_run_completes (λ name, [name +:+ "_pkey"])%string true feb_2024 leap_day "postgres://" "acme"
    (cluster_world (aged_cluster 7)) acme (aged_db 7) cold_is_made feb_range).
  - vm_compute. discriminate.
  - exact leap_day_month.
  - split; reflexivity.
  - reflexivity.
  - apply (aged_in_order 7).
  - apply acme_aged.
  - reflexivity.
  - apply (entries_in_order feb_2024 [("comms_request", jan_2010); ("comms_request", jan_2022)]%string); [|reflexivity].
    repeat constructor; simpl; try set_solver; unfold jan_2010, jan_2022; lia.
  - apply (entries_in_order feb_2024 [("comms_request", jan_2010); ("comms_request", jan_2022)]%string); [|reflexivity].
    repeat constructor; simpl; try set_solver; unfold jan_2010, jan_2022; lia.
  - intros c [= <-]. vm_compute. split; [split; [|reflexivity]|]; discriminate.
Defined.

(** Two keys, one of which has expired. *)
Definition keys_db : TenantDb :=
  on_tables (on_idempotency (λ _, {[(7%N, "old"%string) := MkIdempotency 1 50; (7%N, "new"%string) := MkIdempotency 2 500]})) empty_tenant_db.
Definition keys_cluster : Cluster := on_database (<["tenant_acme"%string := keys_db]>) two_tenants.
Lemma keys_acme : find_by_slug "acme" (w_db (cluster_world keys_cluster)) = Some acme.
Proof. vm_compute. reflexivity. Qed.
Lemma keys_ok : tenants_ok keys_cluster.
Proof. eapply tenants_ok_stable; [|exact two_tenants_ok]. by apply pinned_same. Qed.
Lemma one_swept : size (filter (swept 100) (db_idempotency (td_tables keys_db))) = 1%nat.
Proof. vm_compute. reflexivity. Qed.
Lemma sweep_witness :
  (∃ w', sweep_for_tenant "postgres://" "acme" 100 (cluster_world keys_cluster) = (w', Ok 1%nat))
  ∧ keys_kept 100 keys_cluster (w_db (sweep_for_tenant "postgres://" "acme" 100 (cluster_world keys_cluster)).1).
Proof.
  destruct (sweep_forgets_only_expired_keys "postgres://" "acme" 100 (cluster_world keys_cluster)) as [Hk Hc].
  split; [|apply Hk, still_rely].
  destruct (Hc acme keys_db) as [E _]; [split; reflexivity|reflexivity|exact keys_ok|exact keys_acme|reflexivity|].
  rewrite E, one_swept. eexists. reflexivity.
Defined.

(** ** Where the code departs from its purpose *)

(** A run that is cut off between the two statements of [detach_and_drop] leaves the
    detached table with its rows behind, and the next run, which lists only attached
    tables, does not drop it either: the rows outlive the retention. *)
Definition cut_off (n : nat) (retention : Z) : CW :=
  World (aged_cluster retention) 100 false (replicate n (Move 0 NoFault id) ++ [Move 0 FaultBefore id]) [].
Definition relation_of (name : string) (w : CW) : option Relation :=
  cl_database (w_db w) !! "tenant_acme"%string ≫= λ d, td_relation d !! name.
Theorem interrupted_drop_is_never_finished :
  let first := demo_lifecycle true (cut_off 17 7) in
  let again := demo_lifecycle true (World (w_db first.1) 200 false [] []) in
  first.2 = Err (PlDatabase SqlIo)
  ∧ (lr_dropped <$> (match again.2 with Ok r => Some r | Err _ => None end)) = Some []
  ∧ (size ∘ rl_request <$> relation_of "comms_request_2010_01" again.1) = Some 1%nat.
Proof. split_and!; vm_compute; reflexivity. Qed.

(** A run that is cut off between moving a table and moving its indexes leaves the
    indexes behind for good: the next run finds the table on the cold tablespace and
    does not look at its indexes. *)
Theorem interrupted_move_leaves_indexes_behind :
  let first := demo_lifecycle true (cut_off 12 20) in
  let again := demo_lifecycle true (World (w_db first.1) 200 false [] []) in
  first.2 = Err (PlDatabase SqlIo) ∧ is_ok again.2 = true
  ∧ (rl_tablespace <$> relation_of "comms_request_2010_01" again.1) = Some (Some COLD_TABLESPACE)
  ∧ ((λ r, (map_to_list (rl_index r)).*2) <$> relation_of "comms_request_2010_01" again.1) = Some [None].
Proof. split_and!; vm_compute; reflexivity. Qed.

(** Without the cold tablespace a run fails at the first old table, before anything is
    dropped: rows past the retention stay. *)
Theorem missing_tablespace_blocks_the_retention :
  let no_cold := {| tablespaces := [] |} in
  let run := run_for_tenant (TS:=no_cold) (λ name, [name +:+ "_pkey"])%string true "postgres://" "acme" leap_day
               (cluster_world (aged_cluster 7)) in
  run.2 = Err (PlDatabase NO_TABLESPACE) ∧ (rl_parent <$> relation_of "comms_request_2010_01" run.1) = Some (Some "comms_request"%string).
Proof. split; vm_compute; reflexivity. Qed.

(** The largest retentions that the command line accepts overflow the count of months:
    where overflow is checked the run panics, and where it is not, 357913942 years
    are counted as eight months and the tables of 2022 are dropped in 2024. *)
Theorem huge_retention_drops_recent_rows :
  (demo_lifecycle true (cluster_world (aged_cluster 357913942))).2 = Err PlPanic
  ∧ relation_of "comms_request_2022_01" (demo_lifecycle false (cluster_world (aged_cluster 357913942))).1 = None.
Proof. split_and!; vm_compute; reflexivity. Qed.
