(* ===== verification/Aside.v ===== *)
(** * What leaves the settings alone

    The settings of a tenant are the rows its operators and users file: configuration,
    providers, quiet hours, quotas, overrides, consents, suppressions and templates. A
    relation between clusters that allows every step which keeps them ([Aside]) also
    allows the operations proved here: registration, switches, cancellation, keys,
    provisioning, destruction, partitions and sweeps. The theorems about quotas and about
    column types instantiate it. *)

From S2P Require Import Prelude RustStd Time Schema KillSwitch Quota Dek Ingest Tenancy Producers Platform Lifecycle Otp Settings Permissions Calendar Partitions.
From stdpp Require Import base gmap strings list.
From Stdlib Require Import ZArith.

Local Open Scope effect_scope.
Local Open Scope Z_scope.

Record Filed : Type := MkFiled {
  fl_config : option TenantConfig;
  fl_provider : gmap (string * Z) ProviderConfig;
  fl_quiet_hours : gmap (string * string) QuietHours.QuietHoursPolicy;
  fl_quota : gmap QuotaKey ProducerQuota;
  fl_override : gmap N ProducerQuotaOverride;
  fl_consent : gmap (N * string) Consent;
  fl_suppression : gmap string Suppression;
  fl_template : gmap (string * Z * string) Template;
}.
Definition filed (d : TenantDb) : Filed :=
  let t := td_tables d in
  MkFiled (td_config d) (td_provider d) (td_quiet_hours d) (db_quota t) (db_override t) (db_consent t) (db_suppression t) (db_template t).

Class Aside (R : relation Cluster) : Prop := {
  aside_pre :: PreOrder R;
  aside_control c c' : cl_database c' = cl_database c → R c c';
  aside_pool c pool d d' : cl_database c !! pool = Some d → filed d' = filed d → R c (on_database (<[pool := d']>) c);
  aside_create c pool : cl_database c !! pool = None → R c (on_database (<[pool := empty_tenant_db]>) c);
  aside_drop c pool : R c (on_database (delete pool) c);
}.

(** Keeping every quota legal is one. *)
#[export] Instance quota_aside : Aside quota_step.
Proof.
  assert (quotas_legal (td_tables empty_tenant_db)) as He by (intros p ch cl q; simpl; by rewrite lookup_empty).
  split; [apply _| | | |].
  - intros c c' E Hc p d. rewrite E. apply Hc.
  - intros c pool d d' Hd E. eapply quota_step_database; [exact Hd|]. unfold quotas_legal.
    assert (db_quota (td_tables d') = db_quota (td_tables d)) as -> by exact (f_equal fl_quota E). done.
  - intros c pool _ Hc p d. simpl. rewrite lookup_insert_Some. intros [[_ <-]|[_ Hd]]; [exact He|by eapply Hc].
  - intros c pool Hc p d. simpl. rewrite lookup_delete_Some. intros [_ Hd]. by eapply Hc.
Qed.

Section Aside_Rules.
Context (R : relation Cluster) `{HA : !Aside R}.

Lemma aside_pool_sql {A} pool (f : Z → TenantDb → result (TenantDb * A) SqlxError) :
  (∀ t d d' a, f t d = Ok (d', a) → filed d' = filed d) → guar R (pool_sql pool f).
Proof. intros Hf. apply guar_pool; [apply _|]. intros t c d d' a Hd Hr. eapply aside_pool; [exact Hd|by eapply Hf]. Qed.
Lemma aside_run pool A (f : Z → Db → result (Db * A) SqlxError) :
  (∀ t d d' a, f t d = Ok (d', a) → ∀ x, filed (on_tables (λ _, d') x) = filed (on_tables (λ _, d) x)) → guar R (pool_run pool A f).
Proof.
  intros Hf. apply aside_pool_sql. intros t d d' a. destruct (f t (td_tables d)) as [[x y]|] eqn:E; [|done].
  intros [= <- _]. rewrite (Hf _ _ _ _ E d). by destruct d.
Qed.
Lemma aside_sql {A} (f : Z → Cluster → result (Cluster * A) SqlxError) :
  (∀ t c c' a, f t c = Ok (c', a) → cl_database c' = cl_database c) → guar (C:=Call) R (sql f).
Proof. intros Hf. apply guar_sql; [apply _|]. intros t c c' a Hr. by eapply aside_control, Hf. Qed.
Lemma aside_exec (f : Z → Cluster → Cluster) : (∀ t c, cl_database (f t c) = cl_database c) → guar (C:=Call) R (exec f).
Proof. intros Hf. apply guar_exec; [apply _|]. intros t c. by apply aside_control. Qed.
Lemma aside_audit actor action tenant detail : guar R (record_audit actor action tenant detail).
Proof. by apply aside_exec. Qed.
Lemma aside_query {A} pool (f : Z → TenantDb → A) : guar R (pool_query pool f).
Proof. by apply guar_pool_query, _. Qed.
End Aside_Rules.
#[export] Hint Resolve aside_audit aside_query : effects.
#[export] Hint Extern 0 (Aside _) => apply _ : effects.

(** ** Switches, cancellation, producers *)

Section Tenants.
Context (R : relation Cluster) `{HA : !Aside R}.

Lemma aside_engage pool id t sc key onq reason actor : guar R (engage_via (pool_run pool) record_audit id t sc key onq reason actor).
Proof.
  unfold engage_via, audit_engage. step_guar. apply aside_run; [done|]. intros t' d d' a. unfold insert_switch.
  repeat case_decide; by intros [= <- _].
Qed.
Lemma aside_release `{!UuidText} pool t id actor : guar R (release_via (pool_run pool) record_audit t id actor).
Proof.
  unfold release_via. step_guar. apply aside_run; [done|]. intros t' d d' a. unfold release_switch.
  repeat case_match; by intros [= <- _].
Qed.
Lemma aside_cancel pool id p : guar R (cancel_via (pool_run pool) id p).
Proof.
  unfold cancel_via. step_guar; (apply aside_run; [done|]); intros t' d d' a; [|by intros [= <- _]].
  unfold mark_cancelled. repeat case_match; by intros [= <- _].
Qed.
Lemma aside_upsert_cert subject t p : guar R (upsert_producer_cert subject t p).
Proof. apply aside_sql; [done|]. intros t' c c' a. unfold upsert_cert. case_match; by intros [= <- _]. Qed.
Lemma aside_register_inner name subject team contact actor fresh pool t :
  guar R (register_producer_inner name subject team contact actor fresh pool t).
Proof.
  pose proof (aside_upsert_cert subject t) as Hu.
  assert (guar R (classify_registration name subject team contact actor pool t)) as Hc.
  { unfold classify_registration, snapshot, reject_register, audit_register, audit_producer. step_guar;
      apply tx_guar_sql; intros ? ? ? ? Hq; by apply pool_query_id in Hq as [-> _]. }
  unfold register_producer_inner, reject_register, audit_register, audit_producer, insert_if_absent. step_guar.
  apply aside_pool_sql; [done|]. intros ? d d' b [= E]. revert E. unfold insert_producer. case_decide; by intros [= <- _].
Qed.
Lemma aside_disable_inner name actor pool t : guar R (disable_producer_inner name actor pool t).
Proof.
  unfold disable_producer_inner, audit_disable, audit_producer. step_guar.
  - by apply aside_exec.
  - apply aside_pool_sql; [done|]. by intros ? ? ? ? [= <- _].
Qed.
End Tenants.
#[export] Hint Resolve aside_engage aside_release aside_cancel aside_register_inner aside_disable_inner : effects.

(** ** The platform *)

Section Platform_.
Context (R : relation Cluster) `{HA : !Aside R} `{PU : !PgUrl} (url : string).

Lemma aside_tx_audit actor action tenant detail : tx_guar R (record_audit actor action tenant detail).
Proof. apply tx_guar_exec. intros t c. by apply aside_control. Qed.
Lemma aside_notify targets report : guar R (notify_tenants url targets report).
Proof.
  revert report. induction targets as [|t targets IH]; intros report; simpl; [apply guar_ret; apply _|].
  pose proof (connect_guar url (tt_id t) R (tt_database_name t)) as Hc. unfold notify_one. step_guar; apply IH.
Qed.
Lemma aside_engage_tx fresh sc t reason actor : tx_guar R (engage_tx fresh sc t reason actor).
Proof.
  pose proof aside_tx_audit as Ha. unfold engage_tx, engage_rejection, audit_engage_platform. step_guar.
  apply tx_guar_sql. intros t' c c' a. unfold insert_platform. repeat case_decide; intros [= <- _]; by apply aside_control.
Qed.
Lemma aside_engage_platform fresh sc t reason actor : guar R (engage_platform url fresh sc t reason actor).
Proof. pose proof aside_engage_tx. pose proof aside_notify. unfold engage_platform. step_guar. Qed.
Lemma aside_release_platform id text actor : guar R (release_platform_switch url id text actor).
Proof.
  pose proof aside_notify. pose proof aside_tx_audit. unfold release_platform_switch, release_tx. step_guar.
  apply tx_guar_sql. intros t c c' a [= E]. apply aside_control. revert E. unfold release_platform.
  repeat case_match; by intros [= <- _].
Qed.
End Platform_.

(** ** Provisioning and destruction *)

Section Provisioning.
Context (R : relation Cluster) `{HA : !Aside R} `{PU : !PgUrl} (client : VaultClient) `{VL : !VaultClientLaws client}.
Context (migrate : string → CEff SqlxError unit) (schema_version : TenantDb → Z) (migrates : ∀ pool, guar R (migrate pool)).

Lemma aside_keys c c' : keys_only c c' → R c c'.
Proof. intros [K ->]. by apply aside_control. Qed.
Lemma aside_insert_tenant id slug region name mount token : guar R (insert_provisioning id slug region name mount token).
Proof.
  unfold insert_provisioning. step_guar. apply aside_sql; [done|]. intros ? c c' ?. unfold insert_tenant.
  repeat case_match; by intros [= <- _].
Qed.
Lemma aside_role id role : guar R (record_vault_role_id id role).
Proof. apply aside_sql; [done|]. intros ? c c' ?. unfold set_role. repeat case_match; by intros [= <- _]. Qed.
Lemma aside_version id v : guar R (record_schema_version id v).
Proof. apply aside_sql; [done|]. intros ? c c' ?. unfold upsert_version. repeat case_match; by intros [= <- _]. Qed.
Lemma aside_status id s : guar R (mark_status id s).
Proof. apply aside_sql; [done|]. by intros ? c c' ? [= <- _]. Qed.
Lemma aside_database name : guar R (ensure_database_exists name).
Proof.
  unfold ensure_database_exists. step_guar. apply guar_sql; [apply _|]. intros ? c c' ?.
  destruct (cl_database c !! name) eqn:E; [done|]. intros [= <- _]. by apply aside_create.
Qed.
Lemma aside_provision ids url slug region database actor :
  guar R (provision_tenant client migrate schema_version ids url slug region database actor).
Proof.
  destruct (vl_setup R aside_keys) as (H1 & H2 & H3 & H4 & H5 & H6 & H7).
  pose proof (λ id name, connect_guar url id R name) as Hc. pose proof aside_insert_tenant. pose proof aside_role.
  pose proof aside_version. pose proof aside_status. pose proof aside_database.
  unfold provision_tenant, provision_vault, ensure_transit_mount, find_or_register, mark_active. step_guar.
Qed.
Lemma aside_destroy id actor : guar R (destroy_tenant client id actor).
Proof.
  assert (∀ c c', keys_fewer c c' → R c c') as Hk by (intros c c' (K & -> & _); by apply aside_control).
  pose proof (λ slug, destroy_vault_guar client R Hk slug) as Hd. pose proof aside_status.
  unfold destroy_tenant. step_guar. apply guar_exec; [apply _|]. intros t' c. apply aside_drop.
Qed.
End Provisioning.

(** ** Keys, partitions, sweeps *)

Section Upkeep.
Context (R : relation Cluster) `{HA : !Aside R}.

Lemma aside_pre_provision pool (create : CEff KeyStoreError Dek) ids o : guar R create → guar R (pre_provision_via (pool_run pool) create ids o).
Proof.
  intros Hc. revert o. induction ids as [|c ids IH]; intros o; cbn [pre_provision_via]; [apply guar_ret; apply _|].
  step_guar; try apply IH; (apply aside_run; [done|]); intros t d d' b; [by intros [= <- _]|].
  intros [= E]. revert E. unfold Dek.insert_if_absent. case_match; by intros [= <- _].
Qed.
Lemma aside_sweep pool as_of : guar R (sweep pool as_of).
Proof. unfold sweep. step_guar. apply aside_pool_sql; [done|]. by intros t d d' n [= <- _]. Qed.

(** The statements of the lifecycle touch tables of messages only. *)
Lemma filed_without_rows parent r d : filed (without_rows parent r d) = filed d.
Proof. done. Qed.
Lemma aside_relation pool (f : TenantDb → result (TenantDb * unit) SqlxError) :
  (∀ d d' u, f d = Ok (d', u) → filed d' = filed d) → guar R (pool_sql pool (λ _, f)).
Proof. intros Hf. apply aside_pool_sql; [done|]. intros t d d' u. apply Hf. Qed.
Lemma aside_alter_indexes `{!Tablespaces} pool ts l : guar R (alter_indexes pool ts l).
Proof.
  induction l as [|i l IH]; [apply guar_ret; apply _|]. cbn [alter_indexes]. apply guar_bind; [apply _| |done].
  apply aside_relation. intros d d' u. unfold alter_index_tablespace. do 2 (case_decide; [|done]). by intros [= <- _].
Qed.
Lemma aside_create_ahead `{!Calendar} indexes pool table m : guar R (create_ahead indexes pool table m).
Proof.
  unfold create_ahead, partition_exists, create_partition. cbv zeta. step_guar. apply aside_relation.
  intros d d' u. unfold create_relation. case_match; [done|]. case_decide; by intros [= <- _].
Qed.
Lemma aside_move_cold `{!Calendar} `{!Tablespaces} pool b p : guar R (move_cold pool b p).
Proof.
  pose proof aside_alter_indexes. unfold move_cold, move_to_tablespace. step_guar. apply aside_relation.
  intros d d' u. unfold alter_table_tablespace. case_match; [|done]. case_decide; [|done]. by intros [= <- _].
Qed.
Lemma aside_drop_old `{!Calendar} pool table b p : guar R (drop_old pool table b p).
Proof.
  unfold drop_old, detach_and_drop. step_guar; apply aside_relation; intros d d' u; [unfold detach|unfold drop_relation].
  - case_match; [|done]. case_decide; by intros [= <- _].
  - case_match; [|done]. case_match; by intros [= <- _].
Qed.
Lemma aside_for_names {A} (f : A → CEff PartitionLifecycleError (list string)) l : (∀ x, guar R (f x)) → guar R (for_names f l).
Proof. intros Hf. induction l as [|x l IH]; simpl; step_guar; auto. Qed.
Lemma aside_lifecycle `{!Calendar} `{!PgUrl} `{!Tablespaces} indexes checks url slug as_of : guar R (run_for_tenant indexes checks url slug as_of).
Proof.
  assert (∀ pool table cur next b cfg, guar R (run_table indexes checks pool cur next b cfg table)) as Ht.
  { intros. unfold run_table, list_partitions. step_guar; apply aside_for_names; intros;
      auto using aside_create_ahead, aside_move_cold, aside_drop_old. }
  apply slug_pool_guar; [apply _|step_guar|]. intros t pool. unfold run_inner, run, load_config. step_guar.
Qed.
End Upkeep.
