(* ===== verification/QueryApi.v ===== *)
(** * Query API: who may read what

    Models [src/query_api/{tenant,auth_mw,path,handlers,views}.rs], [src/auth/*],
    [src/access_audit/*], [src/comms_query/*], [src/outbox_query/*] and
    [src/profile.rs]: the routes that read the ledger, their roles, the decryption of
    a message, and the access audit of compliance users. A handler is a program
    whose early returns are its errors; what it answers is a [Response], where a page
    or JSON document is the value it shows. *)

From S2P Require Import Prelude RustStd Time Schema KillSwitch Quota Dek Customer Ingest Tenancy Producers Webhook Otp Settings.
From stdpp Require Import base gmap strings list sorting pretty.
From Stdlib Require Import ZArith Lia Ascii.

Local Open Scope effect_scope.
Local Open Scope Z_scope.

(** ** [profile] and [auth] *)

Inductive Profile : Type := Dev | Staging | Production.
(** [str::to_ascii_lowercase]. *)
Definition ascii_lower (c : ascii) : ascii :=
  let n := N_of_ascii c in if (65 <=? n)%N && (n <=? 90)%N then ascii_of_N (n + 32) else c.
Fixpoint to_ascii_lowercase (s : string) : string :=
  match s with ""%string => ""%string | String c s => String (ascii_lower c) (to_ascii_lowercase s) end.
Definition parse_profile (value : string) : option Profile :=
  let v := to_ascii_lowercase value in
  if decide (v = "dev" ∨ v = "development")%string then Some Dev
  else if decide (v = "staging")%string then Some Staging
  else if decide (v = "production" ∨ v = "prod")%string then Some Production
  else None.
(** [Profile::from_env]: [None] is the panic; an unset variable means [Dev]. *)
Definition profile_from_env (var : option string) : option Profile :=
  match var with Some value => parse_profile value | None => Some Dev end.
Definition is_dev (p : Profile) : bool := match p with Dev => true | _ => false end.

Module role.
Definition CUSTOMER_SERVICE : string := "customer_service".
Definition COMPLIANCE : string := "compliance".
Definition CAMPAIGN_OPS : string := "campaign_ops".
Definition COMMS_OPS : string := "comms_ops".
Definition ADMIN : string := "admin".
End role.

Record Identity : Type := MkUser { iy_actor : string; iy_role : string; iy_tenant_id : N }.
Inductive AuthError : Type := Unauthenticated.

(** The trait [AuthProvider]. *)
Class AuthProvider : Type := { authenticate : N → CEff AuthError Identity }.
(** A provider keeps out of the databases. *)
Class AuthLaws `{!AuthProvider} : Prop := {
  authenticate_guar (R : relation Cluster) `{!PreOrder R} tenant : guar R (authenticate tenant);
}.

(** [MockProvider]: [None] is the panic of [new] outside [Dev]. *)
Record MockProvider : Type := MkMock { mock_actor : string; mock_role : string }.
Definition mock_new (profile : Profile) (actor role : string) : option MockProvider :=
  if is_dev profile then Some (MkMock actor role) else None.
Definition mock_authenticate (m : MockProvider) (tenant_id : N) : CEff AuthError Identity :=
  eret (MkUser (mock_actor m) (mock_role m) tenant_id).
Definition mock_provider (m : MockProvider) : AuthProvider := {| authenticate := mock_authenticate m |}.

(** ** [comms_query] and [outbox_query] *)

Record CommsFilter : Type := MkFilter {
  cf_customer_id : option N;
  cf_channel : option string;
  cf_class : option string;
  cf_campaign_id : option string;
  cf_producer_id : option N;
  cf_from : option Z;
  cf_to : option Z;
  cf_status : option string;
  cf_scheduled : option bool;
}.

Record CommsRequestSummary : Type := MkSummary {
  sm_id : N; sm_created_at : Z; sm_customer_id : N; sm_channel : string; sm_class : string;
  sm_template_id : string; sm_template_version : Z; sm_campaign_id : option string; sm_producer_id : N;
  sm_scheduled_for : option Z; sm_expires_at : option Z; sm_final_status : option string; sm_finalized_at : option Z;
}.
(** [SUMMARY_COLUMNS]. *)
Definition summary (kv : (Z * N) * CommsRequest) : CommsRequestSummary :=
  let r := kv.2 in
  MkSummary kv.1.2 kv.1.1 (cr_customer_id r) (cr_channel r) (cr_class r) (cr_template_id r) (cr_template_version r)
    (cr_campaign_id r) (cr_producer_id r) (cr_scheduled_for r) (cr_expires_at r) (cr_final_status r) (cr_finalized_at r).

(** [CommsRequestDetail] is the row under its key; this is what is shown of it. *)
Record CommsRequestDetailView : Type := MkDetailView {
  dv_summary : CommsRequestSummary;
  dv_destination : string;
  dv_body : option string;
}.
Record CommsEventRow : Type := MkEventRow {
  er_comms_request_id : N; er_customer_id : N; er_occurred_at : Z; er_event_type : string; er_provider_ref : string;
  er_provider_status : option string;
}.
Record CampaignReachCount : Type := MkReach { rc_final_status : option string; rc_count : nat }.

(** [($n IS NULL OR column = $n)]. *)
Definition opt_is {A} `{!EqDecision A} (o : option A) (x : A) : bool :=
  match o with None => true | Some y => bool_decide (x = y) end.
Definition comms_matches (f : CommsFilter) (kv : (Z * N) * CommsRequest) : bool :=
  let r := kv.2 in
  opt_is (cf_customer_id f) (cr_customer_id r) && opt_is (cf_channel f) (cr_channel r) && opt_is (cf_class f) (cr_class r)
  && opt_is (Some <$> cf_campaign_id f) (cr_campaign_id r) && opt_is (cf_producer_id f) (cr_producer_id r)
  && match cf_from f with None => true | Some t => t <=? kv.1.1 end
  && match cf_to f with None => true | Some t => kv.1.1 <=? t end
  && opt_is (Some <$> cf_status f) (cr_final_status r)
  && opt_is (cf_scheduled f) (bool_decide (is_Some (cr_scheduled_for r)) && bool_decide (cr_final_status r = None)).

Definition newest_first (a b : CommsRequestSummary) : Prop := sm_created_at b <= sm_created_at a.
#[export] Instance newest_first_dec : RelDecision newest_first.
Proof. intros a b. unfold newest_first. apply _. Defined.
Definition list_rows (f : CommsFilter) (limit : nat) (d : Db) : list CommsRequestSummary :=
  take limit (merge_sort newest_first (summary <$> filter (λ kv, comms_matches f kv = true) (map_to_list (db_request d)))).

Definition detail_row (created_at : Z) (id : N) (d : Db) : option CommsRequest := db_request d !! (created_at, id).

Definition event_order (a b : CommsEventRow) : Prop := er_occurred_at a <= er_occurred_at b.
#[export] Instance event_order_dec : RelDecision event_order.
Proof. intros a b. unfold event_order. apply _. Defined.
Definition event_rows (id : N) (d : Db) : list CommsEventRow :=
  merge_sort event_order (omap (λ kv : EventKey * CommsEvent,
    let '((t, request, ty, ref), e) := kv in
    if decide (request = id) then Some (MkEventRow request (ce_customer_id e) t ty ref (ce_provider_status e)) else None)
    (map_to_list (db_event d))).

(** [timeline]: the second statement, for the ids the first one found. *)
Definition timeline_rows (ids : gset N) (limit : nat) (d : Db) : list CommsRequestSummary :=
  take limit (merge_sort newest_first (summary <$> filter (λ kv, cr_customer_id kv.2 ∈ ids) (map_to_list (db_request d)))).

Definition reach_counts (campaign_id : string) (d : Db) : list CampaignReachCount :=
  (λ sn : option string * nat, MkReach sn.1 sn.2) <$> map_to_list
    (foldr (λ (kv : (Z * N) * CommsRequest) m, <[cr_final_status kv.2 := S (default 0%nat (m !! cr_final_status kv.2))]> m) ∅
      (filter (λ kv, cr_campaign_id kv.2 = Some campaign_id) (map_to_list (db_request d)))).

Record OutboxQueueFilter : Type := MkQueueFilter {
  qf_producer_id : option N; qf_campaign_id : option string; qf_due_before : option Z; qf_due_after : option Z;
}.
Definition default_queue_filter : OutboxQueueFilter := MkQueueFilter None None None None.
Record OutboxQueueRow : Type := MkQueueRow {
  qr_comms_request_id : N; qr_created_at : Z; qr_channel : string; qr_class : string; qr_producer_id : N;
  qr_campaign_id : option string; qr_next_attempt_at : Z; qr_expires_at : option Z;
}.
Definition queue_matches (f : OutboxQueueFilter) (r : Outbox) : bool :=
  bool_decide (ob_cancelled_at r = None)
  && opt_is (qf_producer_id f) (ob_producer_id r) && opt_is (Some <$> qf_campaign_id f) (ob_campaign_id r)
  && match qf_due_before f with None => true | Some t => ob_next_attempt_at r <=? t end
  && match qf_due_after f with None => true | Some t => t <=? ob_next_attempt_at r end.
Definition due_first (a b : OutboxQueueRow) : Prop := qr_next_attempt_at a <= qr_next_attempt_at b.
#[export] Instance due_first_dec : RelDecision due_first.
Proof. intros a b. unfold due_first. apply _. Defined.
Definition queue_rows (f : OutboxQueueFilter) (limit : nat) (d : Db) : list OutboxQueueRow :=
  take limit (merge_sort due_first
    ((λ r, MkQueueRow (ob_id r) (ob_created_at r) (ob_channel r) (ob_class r) (ob_producer_id r) (ob_campaign_id r)
             (ob_next_attempt_at r) (ob_expires_at r))
     <$> filter (λ r, queue_matches f r = true) (map_values (db_outbox d)))).

(** ** What is answered *)

Record QuotaRow : Type := MkQuotaRow {
  qw_producer_name : string; qw_channel : string; qw_class : string; qw_minute_display : string; qw_day_display : string;
  qw_blocked_24h : Z; qw_sparkline_points : string;
}.
Record QuotaDisplayRow : Type := MkQuotaDisplay {
  qd_producer_name : string; qd_channel : string; qd_class : string; qd_per_minute_display : string;
  qd_per_day_display : string; qd_enforcement : string;
}.
Record OverrideDisplayRow : Type := MkOverrideDisplay { od_producer_name : string; od_override : ProducerQuotaOverride }.

(** A JSON document or the data of a page. *)
Inductive View : Type :=
| VComms (rows : list CommsRequestSummary)
| VDetail (detail : CommsRequestDetailView)
| VReach (counts : list CampaignReachCount)
| VUsage (rows : list (UsageKey * UsageCount))
| VQuota (key : QuotaKey) (quota : ProducerQuota)
| TimelinePage (actor role : string) (customer_id : N) (rows : list CommsRequestSummary)
| DetailPage (actor role : string) (detail : CommsRequestDetailView) (events : list CommsEventRow)
| ReachPage (actor role campaign_id : string) (counts : list CampaignReachCount)
| QuotaPage (actor role tenant_slug : string) (rows : list QuotaRow)
| SwitchPage (actor role tenant_slug : string) (active : list KillSwitch) (platform_suspended_since : list Z)
| BlastPage (rows : gmap string nat)
| ScheduledPage (actor role tenant_slug filter_producer_id filter_campaign_id : string) (rows : list OutboxQueueRow)
| ProducersPage (actor role tenant_slug : string) (producers : list Producer) (quotas : list QuotaDisplayRow)
    (overrides : list OverrideDisplayRow).

(** [Closed] is the connection of a handler that panicked. *)
Inductive Response : Type := Status (code : Z) | Message (code : Z) (text : string) | Page (v : View) | Closed.
Definition is_page (r : Response) : bool := match r with Page _ => true | _ => false end.

Abbreviation Handler := (CEff Response Response).
Definition answer_of (x : result Response Response) : Response := match x with Ok r => r | Err r => r end.

Definition database_error (e : SqlxError) : Response := Status 500.

(** ** Tenant and identity *)

Record QueryContext : Type := MkQc { qc_tenant_id : N; qc_pool : string; qc_vault_mount : string }.
Definition context_of_connect (e : ConnectError) : Response := match e with CSqlx _ => Status 500 | CMisrouted => Closed end.

Section Extract.
Context `{PU : !PgUrl} `{AP : !AuthProvider} (url : string) (meanwhile : TenantPoolCache → TenantPoolCache).

(** [TenantContext::from_request_parts]. *)
Definition tenant_context (pools : TenantPoolCache) (slug : string) : CEff Response (TenantPoolCache * QueryContext) :=
  tenant ←! elift database_error (query (λ _, find_by_slug slug));
  tenant ←! eof (ok_or tenant (Status 404));
  opened ←! elift context_of_connect (pool_get_or_open meanwhile pools url (tt_id tenant) (tt_database_name tenant));
  eret (opened.1, MkQc (tt_id tenant) opened.2 (tt_vault_mount tenant)).

(** [AuthedUser::from_request_parts]. *)
Definition authed_user (pools : TenantPoolCache) (slug : string) : CEff Response (TenantPoolCache * Identity) :=
  opened ←! tenant_context pools slug;
  identity ←! elift (λ _, Status 401) (authenticate (qc_tenant_id opened.2));
  eret (opened.1, identity).
End Extract.

Definition require_role (identity : Identity) (allowed : list string) : CEff Response unit :=
  if decide (iy_role identity ∈ allowed) then eret tt else ethrow (Status 403).

(** [identity_owns]: the actor of a customer-service user is a customer id. *)
Definition identity_owns `{!UuidText} (identity : Identity) (customer_id : N) : bool :=
  match parse_str (iy_actor identity) with Some owned => (owned =? customer_id)%N | None => false end.

(** ** The data routes *)

Definition LIST_LIMIT : nat := 200.

(** A read on the pool's tables, and the end of a handler. *)
Definition read_tables {A} (pool : string) (f : Db → A) : CEff Response A :=
  elift database_error (pool_query pool (λ _ d, f (td_tables d))).

Section Windows.
Context {Tz : Type} `{TZ : !TimeZone Tz}.

(** The copies of the tracker's windows. *)
Definition query_minute_window_start (now : Z) : Z := duration_trunc now minute.
Definition query_day_window_start (tz : Tz) (now : Z) : Z :=
  let local_date := date_naive (to_local tz now) in
  let naive_midnight := and_time local_date 0 in
  match earliest (from_local tz naive_midnight) with
  | Some dt => dt
  | None => naive_midnight
  end.

Definition DEFAULT_QUOTA_DAY_BOUNDARY_TZ : string := "UTC".
Definition current_windows (pool : string) : CEff SqlxError (Z * Z) :=
  config ←! load_config pool;
  let tz_name := match config with Some c => cf_quota_day_boundary_tz c | None => DEFAULT_QUOTA_DAY_BOUNDARY_TZ end in
  let tz := default tz_utc (tz_from_str tz_name) in
  now ←! utc_now;
  eret (query_minute_window_start now, query_day_window_start tz now).
End Windows.

Section Handlers.
Context `{UT : !UuidText} `{AE : !Aead} {Tz : Type} `{TZ : !TimeZone Tz} (ks : VaultStore).
(** Whether Askama renders the data of a page. *)
Context (renders : View → bool).

Definition render_page (v : View) : Response := if renders v then Page v else Status 500.

Definition list_comms (identity : Identity) (tenant : QueryContext) (f : CommsFilter) : Handler :=
  require_role identity [role.COMPLIANCE] ;!
  rows ←! read_tables (qc_pool tenant) (list_rows f LIST_LIMIT);
  eret (Page (VComms rows)).

(** Who may see a row of this customer. *)
Definition may_see (identity : Identity) (customer_id : N) : CEff Response unit :=
  if decide (iy_role identity = role.COMPLIANCE) then eret tt
  else if decide (iy_role identity = role.CUSTOMER_SERVICE) then
    if identity_owns identity customer_id then eret tt else ethrow (Status 403)
  else ethrow (Status 403).

(** [String::from_utf8] of a decrypted column. *)
Definition decrypt_text (dek aad blob : string) : CEff Response string :=
  bytes ←! eof (map_err (λ _, Status 500) (decrypt dek aad blob));
  eof (ok_or (from_utf8 bytes) (Status 500)).

Definition decrypt_detail (tenant : QueryContext) (key : Z * N) (row : CommsRequest) : CEff Response CommsRequestDetailView :=
  dek_row ←! read_tables (qc_pool tenant) (find_dek (cr_customer_id row));
  dek_row ←! eof (ok_or dek_row (Status 500));
  dek ←! elift (λ _, Status 500) (vs_unwrap_dek ks (qc_vault_mount tenant) (dk_wrapped_dek dek_row));
  let aad := uuid_bytes key.2 in
  destination ←! decrypt_text dek aad (cr_destination_ciphertext row);
  body ←! match cr_payload_ciphertext row with
          | Some ciphertext => text ←! decrypt_text dek aad ciphertext; eret (Some text)
          | None => eret None
          end;
  eret (MkDetailView (summary (key, row)) destination body).

(** The row a detail route names, for those who may see it. *)
Definition visible_row (identity : Identity) (tenant : QueryContext) (id : N) (created_at : Z) : CEff Response CommsRequest :=
  row ←! read_tables (qc_pool tenant) (detail_row created_at id);
  row ←! eof (ok_or row (Status 404));
  may_see identity (cr_customer_id row) ;!
  eret row.

Definition comms_detail (identity : Identity) (tenant : QueryContext) (id : N) (created_at : Z) : Handler :=
  row ←! visible_row identity tenant id created_at;
  view ←! decrypt_detail tenant (created_at, id) row;
  eret (Page (VDetail view)).

(** [comms_query::repo::timeline]: two statements. *)
Definition timeline (tenant : QueryContext) (customer_id : N) : CEff Response (list CommsRequestSummary) :=
  ids ←! read_tables (qc_pool tenant) (alias_set customer_id);
  read_tables (qc_pool tenant) (timeline_rows ids LIST_LIMIT).

Definition customer_timeline (identity : Identity) (tenant : QueryContext) (customer_id : N) : Handler :=
  may_see identity customer_id ;!
  rows ←! timeline tenant customer_id;
  eret (Page (VComms rows)).

Definition campaign_reach (identity : Identity) (tenant : QueryContext) (campaign_id : string) : Handler :=
  require_role identity [role.COMPLIANCE; role.CAMPAIGN_OPS] ;!
  counts ←! read_tables (qc_pool tenant) (reach_counts campaign_id);
  eret (Page (VReach counts)).

Definition producer_usage (identity : Identity) (tenant : QueryContext) (producer_id : N) : Handler :=
  require_role identity [role.COMMS_OPS] ;!
  windows ←! elift database_error (current_windows (Tz:=Tz) (qc_pool tenant));
  rows ←! read_tables (qc_pool tenant) (load_current_usage windows.1 windows.2);
  eret (Page (VUsage (filter (λ row : UsageKey * UsageCount, row.1.1.1.1.1 = producer_id) rows))).

Definition producer_quota (identity : Identity) (tenant : QueryContext) (producer_id : N) (ch cl : string) : Handler :=
  require_role identity [role.COMMS_OPS] ;!
  quota ←! elift database_error (pool_query (qc_pool tenant) (λ _, load_quota (producer_id, ch, cl)));
  quota ←! eof (ok_or quota (Status 404));
  eret (Page (VQuota (producer_id, ch, cl) quota)).

(** ** The pages of [views] *)

Definition ui_customer_timeline (identity : Identity) (tenant : QueryContext) (customer_id : N) : Handler :=
  may_see identity customer_id ;!
  rows ←! timeline tenant customer_id;
  eret (render_page (TimelinePage (iy_actor identity) (iy_role identity) customer_id rows)).

Definition ui_comms_detail (identity : Identity) (tenant : QueryContext) (id : N) (created_at : Z) : Handler :=
  row ←! visible_row identity tenant id created_at;
  events ←! read_tables (qc_pool tenant) (event_rows id);
  detail ←! decrypt_detail tenant (created_at, id) row;
  eret (render_page (DetailPage (iy_actor identity) (iy_role identity) detail events)).

Definition ui_campaign_reach (identity : Identity) (tenant : QueryContext) (campaign_id : string) : Handler :=
  require_role identity [role.COMPLIANCE; role.CAMPAIGN_OPS] ;!
  counts ←! read_tables (qc_pool tenant) (reach_counts campaign_id);
  eret (render_page (ReachPage (iy_actor identity) (iy_role identity) campaign_id counts)).
End Handlers.

(** ** The access audit *)

Definition CUSTOMER_ID_ROUTES : list string :=
  ["/t/{tenant_slug}/customers/{id}/timeline"; "/t/{tenant_slug}/ui/customers/{id}/timeline"]%string.

(** [str::split('/')]. *)
Fixpoint split_slash_onto (acc s : string) : list string :=
  match s with
  | ""%string => [str_rev acc]
  | String c s => if decide (c = "/"%char) then str_rev acc :: split_slash_onto "" s else split_slash_onto (String c acc) s
  end.
Definition split_slash (s : string) : list string := split_slash_onto "" s.

(** The segment before the first one that is [timeline]. *)
Definition extract_path_customer_id `{!UuidText} (path : string) : option N :=
  let segments := split_slash path in
  idx ← fst <$> list_find (.= "timeline"%string) segments;
  match idx with
  | O => None
  | S idx => segments !! idx ≫= parse_str
  end.

(** [access_audit::repo::record]; the table keeps rows in the order of their arrival
    and the random id is left out. *)
Definition record_access (pool : string) (row : AccessAudit) : CEff SqlxError unit :=
  pool_sql pool (λ _ d, Ok (on_access_audit (λ l, l ++ [row]) d, tt)).

(** The audit step of [access_audit_mw]; a failed write is logged and forgotten. The
    pattern that matched is the whole one; [path] is the path without [/t/{tenant_slug}],
    which axum strips for the routers that are nested under it. *)
Definition audit_access `{!UuidText} (tenant : QueryContext) (identity : Identity) (matched_path : option string) (path query_params : string)
    : CEff Response unit :=
  if decide (iy_role identity = role.COMPLIANCE) then
    let customer_id := p ← matched_path; if decide (p ∈ CUSTOMER_ID_ROUTES) then extract_path_customer_id path else None in
    now ←! utc_now;
    r ←! etry (record_access (qc_pool tenant)
      (MkAccess now (iy_actor identity) (iy_role identity) (default ""%string matched_path) customer_id query_params));
    eret tt
  else eret tt.

Section Middleware.
Context `{UT : !UuidText} `{PU : !PgUrl} `{AP : !AuthProvider} (url : string) (meanwhile : TenantPoolCache → TenantPoolCache).

(** [access_audit_mw] around a handler with its extractors: the tenant and the user are
    resolved once for the audit and again for the handler. *)
Definition access_audit_mw (pools : TenantPoolCache) (slug : string) (matched_path : option string) (path query_params : string)
    (handler : Identity → QueryContext → Handler) : CEff Response (TenantPoolCache * Response) :=
  first ←! tenant_context url meanwhile pools slug;
  identity ←! elift (λ _, Status 401) (authenticate (qc_tenant_id first.2));
  audit_access first.2 identity matched_path path query_params ;!
  user ←! authed_user url meanwhile first.1 slug;
  opened ←! tenant_context url meanwhile user.1 slug;
  response ←! handler user.2 opened.2;
  eret (opened.1, response).
End Middleware.

(** ** What the reads answer *)

(** The dashboard looks at the windows the dispatcher counts in. *)
Lemma windows_agree_with_the_tracker {Tz} `{!TimeZone Tz} (tz : Tz) now :
  query_minute_window_start now = minute_window_start now ∧ query_day_window_start tz now = day_window_start tz now.
Proof. done. Qed.

#[export] Instance newest_first_total : Total newest_first.
Proof. intros a b. unfold newest_first. lia. Qed.
#[export] Instance newest_first_trans : Transitive newest_first.
Proof. intros a b c. unfold newest_first. lia. Qed.

(** Prefixes of a sorted permutation: the newest of the rows that qualify. *)
Definition newest (rows all : list CommsRequestSummary) (limit : nat) : Prop :=
  StronglySorted newest_first rows ∧ (length rows ≤ limit)%nat
  ∧ ∃ rest, rows ++ rest ≡ₚ all ∧ (rest ≠ [] → length rows = limit) ∧ ∀ x y, x ∈ rows → y ∈ rest → newest_first x y.
Lemma take_newest all limit : newest (take limit (merge_sort newest_first all)) all limit.
Proof.
  set (l := merge_sort newest_first all). pose proof (merge_sort_Permutation newest_first all : l ≡ₚ all) as Hp.
  pose proof (StronglySorted_merge_sort newest_first all : StronglySorted newest_first l) as Hs. clearbody l.
  rewrite <- (take_drop limit l) in Hs. apply StronglySorted_app in Hs as (H1 & H2 & H3). split_and!.
  - done.
  - rewrite length_take. lia.
  - exists (drop limit l). split_and!; [by rewrite take_drop| |].
    + intros Hne. rewrite length_take. destruct (decide (limit ≤ length l)%nat); [lia|]. by rewrite drop_ge in Hne by lia.
    + intros x y Hx Hy. by apply H1.
Qed.

(** ** Paths *)

Fixpoint no_slash (s : string) : bool :=
  match s with ""%string => true | String c s => negb (bool_decide (c = "/"%char)) && no_slash s end.
Lemma str_rev_onto_app s acc t : str_rev_onto s (acc +:+ t) = (str_rev_onto s acc +:+ t)%string.
Proof. revert acc. induction s as [|c s IH]; intros acc; [done|]. simpl. by rewrite <- str_app_cons, IH. Qed.
Lemma str_rev_onto_nil s acc : str_rev_onto s acc = (str_rev s +:+ acc)%string.
Proof. unfold str_rev. by rewrite <- str_rev_onto_app, str_app_nil_l. Qed.
Lemma split_slash_acc acc a s :
  no_slash a = true → split_slash_onto acc (a +:+ String "/" s) = (str_rev acc +:+ a)%string :: split_slash s.
Proof.
  revert acc. induction a as [|c a IH]; intros acc Ha.
  - rewrite str_app_nil_l, str_app_nil_r. done.
  - rewrite str_app_cons. simpl in Ha. apply andb_prop in Ha as [Hc Ha]. apply negb_true_iff, bool_decide_eq_false in Hc.
    cbn [split_slash_onto]. rewrite decide_False by done. rewrite IH by done. f_equal.
    unfold str_rev at 1. cbn [str_rev_onto]. rewrite str_rev_onto_nil, str_app_assoc. by rewrite str_app_cons, str_app_nil_l.
Qed.
Lemma split_slash_cons a s : no_slash a = true → split_slash (a +:+ String "/" s) = a :: split_slash s.
Proof. intros Ha. unfold split_slash. rewrite split_slash_acc by done. by rewrite str_app_nil_l. Qed.

(** The customer of a timeline path, as the nested router sees it. *)
Lemma extract_timeline `{!UuidText} u c :
  no_slash u = true → u ≠ "timeline"%string → parse_str u = Some c →
  extract_path_customer_id ("/customers/" +:+ u +:+ "/timeline") = Some c
  ∧ extract_path_customer_id ("/ui/customers/" +:+ u +:+ "/timeline") = Some c.
Proof.
  intros Hu Hnu Hp.
  assert (∀ y, ("/customers/" +:+ y)%string = ("" +:+ String "/" ("customers" +:+ String "/" y))%string) as E2 by done.
  assert (∀ y, ("/ui/customers/" +:+ y)%string = ("" +:+ String "/" ("ui" +:+ String "/" ("customers" +:+ String "/" y)))%string) as E3 by done.
  unfold extract_path_customer_id. split; rewrite ?E2, ?E3;
    rewrite !split_slash_cons by done; simpl; rewrite !decide_False by done; simpl; done.
Qed.
