(* ===== verification/Admin.v ===== *)
(** * The admin panel and the routes of the query API

    Models [src/query_api/admin.rs], the statements of [src/producer/repo.rs] and
    [src/producer_quota/repo.rs] it reads with, and the route table of
    [src/query_api/mod.rs]: the quota dashboard, the kill-switch console, the scheduled
    queue and the producer registry, which call the operations of KillSwitch.v,
    Ingest.v, Producers.v and Settings.v on the tenant's pool. *)

From S2P Require Import Prelude RustStd Time Schema KillSwitch Quota Dek Render Customer Outbox Ingest Tenancy Producers Platform Webhook Otp Settings Permissions Calendar Aside QueryApi.
From stdpp Require Import base gmap strings list sorting pretty.
From Stdlib Require Import ZArith Lia Ascii.

Local Open Scope effect_scope.
Local Open Scope Z_scope.

(** ** Forms and formats *)

Definition SCHEDULED_LIMIT : nat := 200.

Definition database_or_rejected (e : SqlxError) : Response :=
  match e with SqlConfiguration message => Message 400 message | _ => database_error e end.
Definition producer_error (e : ProducerError) : Response :=
  match e with PrDatabase e => database_or_rejected e | _ => Closed end.
Definition setting_error (e : SettingError) : Response :=
  match e with StDatabase e => database_or_rejected e | _ => Closed end.

(** [producer_name]: the id where there is no producer. *)
Definition producer_name `{!UuidText} (producers : list Producer) (id : N) : string :=
  match list_find (λ p, pr_id p = id) (rev producers) with Some (_, p) => pr_name p | None => uuid_str id end.
Definition format_limit (value : Z) (limit : option Z) : string :=
  match limit with Some l => pretty value +:+ " / " +:+ pretty l | None => pretty value +:+ " (no limit)" end.
Definition format_optional_limit (limit : option Z) : string :=
  match limit with Some l => pretty l | None => "no limit"%string end.

(** [str::parse::<i32>]: a sign, digits, and the range. *)
Definition parse_i32 (s : string) : option Z :=
  n ← match s with
      | String "-" s => Z.opp <$> parse_int s
      | String "+" s => parse_int s
      | _ => parse_int s
      end;
  if (- i32_max - 1 <=? n) && (n <=? i32_max) then Some n else None.
(** A form field that is left empty is no value. *)
Definition non_empty (o : option string) : option string := s ← o; if decide (s = ""%string) then None else Some s.
Definition parse_limit (o : option string) : CEff Response (option Z) :=
  match non_empty o with
  | None => eret None
  | Some s => n ←! eof (ok_or (parse_i32 s) (Status 400)); eret (Some n)
  end.

(** What chrono reads, in nanoseconds: RFC 3339, and the value of a [datetime-local] input. *)
Class ChronoParse : Type := { parse_rfc3339 : string → option Z; parse_local_minute : string → option Z }.
Definition parse_form_datetime `{!ChronoParse} (value : string) : option Z :=
  match parse_rfc3339 value with Some t => Some t | None => parse_local_minute value end.

Record EngageForm : Type := MkEngageForm { ef_scope : string; ef_scope_key : option string; ef_on_queued : string; ef_reason : string }.
Record RegisterProducerForm : Type := MkRegisterForm { rf_name : string; rf_cert_subject : string; rf_owner_team : string; rf_contact : string }.
Record SetQuotaForm : Type := MkQuotaForm {
  sf_channel : string; sf_class : string; sf_per_minute : option string; sf_per_day : option string; sf_enforcement : string;
}.
Record AddOverrideForm : Type := MkOverrideForm {
  af_channel : string; af_class : string; af_per_day : Z; af_valid_from : string; af_valid_to : string;
  af_approved_by : string; af_reason : string;
}.

(** ** Statements *)

Definition name_order (a b : Producer) : Prop := String.leb (pr_name a) (pr_name b) = true.
#[export] Instance name_order_dec : RelDecision name_order.
Proof. intros a b. unfold name_order. apply _. Defined.
(** [producer::repo::list] and [find_by_id]. *)
Definition list_producers (d : TenantDb) : list Producer := merge_sort name_order (map_values (td_producer d)).
Definition find_producer_by_id (id : N) (d : TenantDb) : option Producer := td_producer d !! id.

(** [producer_quota::repo::load_usage_history]. *)
Definition window_order (a b : UsageKey * UsageCount) : Prop := a.1.2 <= b.1.2.
#[export] Instance window_order_dec : RelDecision window_order.
Proof. intros a b. unfold window_order. apply _. Defined.
Definition load_usage_history (since : Z) (d : Db) : list (UsageKey * UsageCount) :=
  merge_sort window_order
    (filter (λ kv, kv.1.1.2 = granularity.MINUTE ∧ since <= kv.1.2) (map_to_list (db_usage d))).

(** [platform_kill_switch::repo::list_active_for_tenant], on the control database. *)
Definition suspensions (tenant : N) (c : Cluster) : list PlatformKillSwitch :=
  list_active_for_tenant tenant (on_platform_switch (λ _, cl_platform_switch c) empty_db).

Section Panel.
Context `{UT : !UuidText} `{AE : !Aead} {Tz : Type} `{TZ : !TimeZone Tz} `{CT : !ChronoText} `{CP : !ChronoParse}.
Context (ks : VaultStore) (renders : View → bool).
(** [build_sparkline]: the points of a polyline, by floating-point arithmetic. *)
Context (build_sparkline : list Z → string).
Notation page v := (eret (render_page renders v)).

Definition read_pool {A} (pool : string) (f : TenantDb → A) : CEff Response A :=
  elift database_error (pool_query pool (λ _, f)).

(** ** The quota dashboard *)

(** One row of [ui_quota_dashboard]. *)
Definition usage_of (key : QuotaKey) (rows : list (UsageKey * UsageCount)) : list (UsageKey * UsageCount) :=
  filter (λ u, u.1.1.1 = key) rows.
Definition sent_in (g : string) (rows : list (UsageKey * UsageCount)) : Z :=
  match list_find (λ u : UsageKey * UsageCount, u.1.1.2 = g) rows with Some (_, u) => us_sent u.2 | None => 0 end.
Definition quota_row (producers : list Producer) (current history : list (UsageKey * UsageCount)) (kq : QuotaKey * ProducerQuota)
    : QuotaRow :=
  let '(key, q) := kq in
  let mine := usage_of key current in
  let past := usage_of key history in
  MkQuotaRow (producer_name producers key.1.1) key.1.2 key.2
    (format_limit (sent_in granularity.MINUTE mine) (pq_per_minute q))
    (format_limit (sent_in granularity.DAY mine) (pq_per_day q))
    (foldr (λ u n, us_blocked u.2 + n) 0 past) (build_sparkline ((λ u, us_sent u.2) <$> past)).

Definition ui_quota_dashboard (identity : Identity) (tenant : QueryContext) (tenant_slug : string) : Handler :=
  require_role identity [role.COMMS_OPS] ;!
  quotas ←! read_pool (qc_pool tenant) list_quotas;
  producers ←! read_pool (qc_pool tenant) list_producers;
  windows ←! elift database_error (current_windows (Tz:=Tz) (qc_pool tenant));
  current ←! read_tables (qc_pool tenant) (load_current_usage windows.1 windows.2);
  now ←! utc_now;
  history ←! read_tables (qc_pool tenant) (load_usage_history (now - 24 * hour));
  page (QuotaPage (iy_actor identity) (iy_role identity) tenant_slug (quota_row producers current history <$> quotas)).

(** ** The kill-switch console *)

Definition kill_switches_page (tenant : QueryContext) (identity : Identity) (tenant_slug : string) : Handler :=
  suspended ←! elift database_error (query (λ _, suspensions (qc_tenant_id tenant)));
  active ←! read_tables (qc_pool tenant) list_active;
  page (SwitchPage (iy_actor identity) (iy_role identity) tenant_slug active (pk_engaged_at <$> suspended)).

Definition ui_kill_switches (identity : Identity) (tenant : QueryContext) (tenant_slug : string) : Handler :=
  require_role identity [role.COMMS_OPS] ;! kill_switches_page tenant identity tenant_slug.

Definition ui_blast_radius (identity : Identity) (tenant : QueryContext) (scope_value : string) (scope_key : option string) : Handler :=
  require_role identity [role.COMMS_OPS] ;!
  rows ←! read_tables (qc_pool tenant) (blast_radius scope_value (non_empty scope_key));
  page (BlastPage rows).

Definition switch_error (e : ConfigureError) : Response :=
  match e with AlreadyEngaged => Status 409 | CfgDatabase e => database_or_rejected e end.
Definition engage_kill_switch (fresh : N) (identity : Identity) (tenant : QueryContext) (tenant_slug : string) (form : EngageForm) : Handler :=
  require_role identity [role.COMMS_OPS] ;!
  elift switch_error (engage_via (pool_run (qc_pool tenant)) record_audit fresh (qc_tenant_id tenant)
    (ef_scope form) (non_empty (ef_scope_key form)) (ef_on_queued form) (ef_reason form) (iy_actor identity)) ;!
  kill_switches_page tenant identity tenant_slug.
(** [release] never answers [AlreadyEngaged]; the arm is [unreachable!]. *)
Definition release_error (e : ConfigureError) : Response :=
  match e with AlreadyEngaged => Closed | CfgDatabase e => database_or_rejected e end.
Definition release_kill_switch (identity : Identity) (tenant : QueryContext) (id : N) (tenant_slug : string) : Handler :=
  require_role identity [role.COMMS_OPS] ;!
  elift release_error (release_via (pool_run (qc_pool tenant)) record_audit (qc_tenant_id tenant) id (iy_actor identity)) ;!
  kill_switches_page tenant identity tenant_slug.

(** ** The scheduled queue *)

(** [From<ScheduledQuery> for OutboxQueueFilter]. *)
Definition scheduled_filter (producer_id : option N) (campaign_id : option string) : OutboxQueueFilter :=
  MkQueueFilter producer_id (non_empty campaign_id) None None.
(** [empty_uuid_as_none]; [None] is the refusal of the query string. *)
Definition empty_uuid_as_none (opt : option string) : option (option N) :=
  match opt with
  | None => Some None
  | Some s => if decide (s = ""%string) then Some None else Some <$> parse_str s
  end.
Definition scheduled_page (tenant : QueryContext) (identity : Identity) (tenant_slug : string) (f : OutboxQueueFilter) : Handler :=
  rows ←! read_tables (qc_pool tenant) (queue_rows f SCHEDULED_LIMIT);
  page (ScheduledPage (iy_actor identity) (iy_role identity) tenant_slug (default ""%string (uuid_str <$> qf_producer_id f))
    (default ""%string (qf_campaign_id f)) rows).
Definition ui_scheduled_queue (identity : Identity) (tenant : QueryContext) (tenant_slug : string) (producer_id campaign_id : option string) : Handler :=
  producer_id ←! eof (ok_or (empty_uuid_as_none producer_id) (Status 400));
  require_role identity [role.COMMS_OPS] ;!
  scheduled_page tenant identity tenant_slug (scheduled_filter producer_id campaign_id).
Definition cancel_scheduled (identity : Identity) (tenant : QueryContext) (id : N) (tenant_slug : string) (producer_id : N) : Handler :=
  require_role identity [role.COMMS_OPS] ;!
  elift database_error (cancel_via (pool_run (qc_pool tenant)) id producer_id) ;!
  scheduled_page tenant identity tenant_slug default_queue_filter.

(** ** The producer registry *)

Definition producers_page (tenant : QueryContext) (identity : Identity) (tenant_slug : string) : Handler :=
  producers ←! read_pool (qc_pool tenant) list_producers;
  quotas ←! read_pool (qc_pool tenant) list_quotas;
  overrides ←! read_pool (qc_pool tenant) list_overrides;
  page (ProducersPage (iy_actor identity) (iy_role identity) tenant_slug producers
    ((λ kq : QuotaKey * ProducerQuota, MkQuotaDisplay (producer_name producers kq.1.1.1) kq.1.1.2 kq.1.2
        (format_optional_limit (pq_per_minute kq.2)) (format_optional_limit (pq_per_day kq.2)) (pq_enforcement kq.2)) <$> quotas)
    ((λ io : N * ProducerQuotaOverride, MkOverrideDisplay (producer_name producers (po_producer_id io.2)) io.2) <$> overrides)).

Definition ui_producer_registry (identity : Identity) (tenant : QueryContext) (tenant_slug : string) : Handler :=
  require_role identity [role.ADMIN] ;! producers_page tenant identity tenant_slug.

Definition admin_register_producer (fresh : N) (identity : Identity) (tenant : QueryContext) (tenant_slug : string)
    (form : RegisterProducerForm) : Handler :=
  require_role identity [role.ADMIN] ;!
  elift producer_error (register_producer_inner (rf_name form) (rf_cert_subject form) (rf_owner_team form) (rf_contact form)
    (iy_actor identity) fresh (qc_pool tenant) (qc_tenant_id tenant)) ;!
  producers_page tenant identity tenant_slug.

Definition admin_disable_producer (identity : Identity) (tenant : QueryContext) (id : N) (tenant_slug : string) : Handler :=
  require_role identity [role.ADMIN] ;!
  producer ←! read_pool (qc_pool tenant) (find_producer_by_id id);
  producer ←! eof (ok_or producer (Status 404));
  elift producer_error (disable_producer_inner (pr_name producer) (iy_actor identity) (qc_pool tenant) (qc_tenant_id tenant)) ;!
  producers_page tenant identity tenant_slug.

(** An audit row whose failure is ignored. *)
Definition audit_ok (m : CEff SqlxError unit) : CEff Response unit := _ ←! etry m; eret tt.

Definition admin_set_producer_quota (identity : Identity) (tenant : QueryContext) (id : N) (tenant_slug : string) (form : SetQuotaForm) : Handler :=
  require_role identity [role.ADMIN] ;!
  per_minute ←! parse_limit (sf_per_minute form);
  per_day ←! parse_limit (sf_per_day form);
  let input := MkQuotaInput id (sf_channel form) (sf_class form) (MkQuota per_minute per_day (sf_enforcement form)) in
  if bool_decide (sf_class form = class.AUTH)
     || (bool_decide (sf_class form = class.TRANSACTIONAL) && bool_decide (sf_enforcement form = enforcement.HARD)) then
    audit_ok (audit_quota (iy_actor identity) (Some (qc_tenant_id tenant)) (Some id) input "rejected") ;!
    ethrow (Status 400)
  else
    elift setting_error (set_producer_quota_inner (qc_pool tenant) (qc_tenant_id tenant) (iy_actor identity) input) ;!
    producers_page tenant identity tenant_slug.

(** The three checks of [add_quota_override]. *)
Definition override_refusal (form : AddOverrideForm) (valid_from valid_to : Z) : option string :=
  if decide (af_class form = class.AUTH) then Some "producer_quota_override cannot be configured for class auth"%string
  else if valid_to <=? valid_from then Some "producer_quota_override valid_to must be after valid_from"%string
  else if af_per_day form <=? 0 then Some "producer_quota_override per_day must be positive"%string
  else None.
Definition admin_add_quota_override (fresh : N) (identity : Identity) (tenant : QueryContext) (id : N) (tenant_slug : string)
    (form : AddOverrideForm) : Handler :=
  require_role identity [role.ADMIN] ;!
  valid_from ←! eof (ok_or (parse_form_datetime (af_valid_from form)) (Status 400));
  valid_to ←! eof (ok_or (parse_form_datetime (af_valid_to form)) (Status 400));
  let input := MkOverrideInput id (af_channel form) (af_class form) (af_per_day form) valid_from valid_to (af_approved_by form) (af_reason form) in
  match override_refusal form valid_from valid_to with
  | Some reason =>
      audit_ok (audit_override_add (iy_actor identity) (Some (qc_tenant_id tenant)) (Some id) input "rejected") ;!
      ethrow (Message 400 reason)
  | None =>
      elift database_error (insert_override (qc_pool tenant) fresh input) ;!
      audit_ok (audit_override_add (iy_actor identity) (Some (qc_tenant_id tenant)) (Some id) input "created") ;!
      producers_page tenant identity tenant_slug
  end.
End Panel.

(** ** The routes *)

(** The table of [router], with what the extractors make of path, query and form. *)
Inductive Route : Type :=
| RListComms (f : CommsFilter)
| RCommsDetail (id : N) (created_at : Z)
| RTimeline (customer_id : N)
| RReach (campaign_id : string)
| RUsage (producer_id : N)
| RQuota (producer_id : N) (ch cl : string)
| RUiTimeline (customer_id : N)
| RUiDetail (id : N) (created_at : Z)
| RUiReach (campaign_id : string)
| RUiQuota
| RUiSwitches
| RUiBlast (scope_value : string) (scope_key : option string)
| REngage (form : EngageForm)
| RRelease (id : N)
| RUiScheduled (producer_id campaign_id : option string)
| RCancel (id producer_id : N)
| RUiProducers
| RRegister (form : RegisterProducerForm)
| RDisable (id : N)
| RSetQuota (id : N) (form : SetQuotaForm)
| RAddOverride (id : N) (form : AddOverrideForm).

(** [MatchedPath]. *)
Definition route_pattern (r : Route) : string :=
  "/t/{tenant_slug}" +:+
  match r with
  | RListComms _ => "/comms"
  | RCommsDetail _ _ => "/comms/{id}"
  | RTimeline _ => "/customers/{id}/timeline"
  | RReach _ => "/campaigns/{id}/reach"
  | RUsage _ => "/producers/{id}/usage"
  | RQuota _ _ _ => "/producers/{id}/quota"
  | RUiTimeline _ => "/ui/customers/{id}/timeline"
  | RUiDetail _ _ => "/ui/comms/{id}"
  | RUiReach _ => "/ui/campaigns/{id}/reach"
  | RUiQuota => "/ui/admin/quota"
  | RUiSwitches => "/ui/admin/kill-switches"
  | RUiBlast _ _ => "/ui/admin/kill-switches/blast-radius"
  | REngage _ => "/admin/kill-switches"
  | RRelease _ => "/admin/kill-switches/{id}/release"
  | RUiScheduled _ _ => "/ui/admin/scheduled"
  | RCancel _ _ => "/admin/scheduled/{id}/cancel"
  | RUiProducers => "/ui/admin/producers"
  | RRegister _ => "/admin/producers"
  | RDisable _ => "/admin/producers/{id}/disable"
  | RSetQuota _ _ => "/admin/producers/{id}/quota"
  | RAddOverride _ _ => "/admin/producers/{id}/quota/override"
  end%string.

Section Routes.
Context `{UT : !UuidText} `{AE : !Aead} {Tz : Type} `{TZ : !TimeZone Tz} `{CT : !ChronoText} `{CP : !ChronoParse}.
Context (ks : VaultStore) (renders : View → bool) (build_sparkline : list Z → string) (fresh : N).

Definition handle (tenant_slug : string) (r : Route) (identity : Identity) (tenant : QueryContext) : Handler :=
  match r with
  | RListComms f => list_comms identity tenant f
  | RCommsDetail id created_at => comms_detail ks identity tenant id created_at
  | RTimeline customer_id => customer_timeline identity tenant customer_id
  | RReach campaign_id => campaign_reach identity tenant campaign_id
  | RUsage producer_id => producer_usage (Tz:=Tz) identity tenant producer_id
  | RQuota producer_id ch cl => producer_quota identity tenant producer_id ch cl
  | RUiTimeline customer_id => ui_customer_timeline renders identity tenant customer_id
  | RUiDetail id created_at => ui_comms_detail ks renders identity tenant id created_at
  | RUiReach campaign_id => ui_campaign_reach renders identity tenant campaign_id
  | RUiQuota => ui_quota_dashboard (Tz:=Tz) renders build_sparkline identity tenant tenant_slug
  | RUiSwitches => ui_kill_switches renders identity tenant tenant_slug
  | RUiBlast scope_value scope_key => ui_blast_radius renders identity tenant scope_value scope_key
  | REngage form => engage_kill_switch renders fresh identity tenant tenant_slug form
  | RRelease id => release_kill_switch renders identity tenant id tenant_slug
  | RUiScheduled producer_id campaign_id => ui_scheduled_queue renders identity tenant tenant_slug producer_id campaign_id
  | RCancel id producer_id => cancel_scheduled renders identity tenant id tenant_slug producer_id
  | RUiProducers => ui_producer_registry renders identity tenant tenant_slug
  | RRegister form => admin_register_producer renders fresh identity tenant tenant_slug form
  | RDisable id => admin_disable_producer renders identity tenant id tenant_slug
  | RSetQuota id form => admin_set_producer_quota renders identity tenant id tenant_slug form
  | RAddOverride id form => admin_add_quota_override renders fresh identity tenant id tenant_slug form
  end.

(** A request: the slug, the text of its path below [/t/{tenant_slug}], which is what the
    nested router and its middleware see, its query, and the route they match. *)
Record QueryRequest : Type := MkRequestTo { qx_slug : string; qx_path : string; qx_query : string; qx_route : Route }.
Definition serve `{PU : !PgUrl} `{AP : !AuthProvider} (url : string) (meanwhile : TenantPoolCache → TenantPoolCache)
    (pools : TenantPoolCache) (req : QueryRequest) : CEff Response (TenantPoolCache * Response) :=
  access_audit_mw url meanwhile pools (qx_slug req) (Some (route_pattern (qx_route req))) (qx_path req) (qx_query req)
    (handle (qx_slug req) (qx_route req)).
End Routes.

(** ** Who may do what *)

Section Roles.
Context `{UT : !UuidText}.

(** The roles of the route table; a customer-service user sees what is their own. *)
Definition reader_roles (r : Route) : list string :=
  match r with
  | RListComms _ | RCommsDetail _ _ | RTimeline _ | RUiTimeline _ | RUiDetail _ _ => [role.COMPLIANCE]
  | RReach _ | RUiReach _ => [role.COMPLIANCE; role.CAMPAIGN_OPS]
  | RUsage _ | RQuota _ _ _ | RUiQuota | RUiSwitches | RUiBlast _ _ | REngage _ | RRelease _ | RUiScheduled _ _ | RCancel _ _ =>
      [role.COMMS_OPS]
  | RUiProducers | RRegister _ | RDisable _ | RSetQuota _ _ | RAddOverride _ _ => [role.ADMIN]
  end.
Definition writer_roles (r : Route) : list string :=
  match r with
  | REngage _ | RRelease _ | RCancel _ _ => [role.COMMS_OPS]
  | RRegister _ | RDisable _ | RSetQuota _ _ | RAddOverride _ _ => [role.ADMIN]
  | _ => []
  end.
(** The customer a page is about, where it is about one. *)
Definition subject_of (r : Route) (v : View) : option N :=
  match r, v with
  | RTimeline id, _ | RUiTimeline id, _ => Some id
  | RCommsDetail _ _, VDetail d => Some (sm_customer_id (dv_summary d))
  | RUiDetail _ _, DetailPage _ _ d _ => Some (sm_customer_id (dv_summary d))
  | _, _ => None
  end.
Definition entitled (i : Identity) (r : Route) (v : View) : Prop :=
  iy_role i ∈ reader_roles r
  ∨ iy_role i = role.CUSTOMER_SERVICE ∧ ∃ c, subject_of r v = Some c ∧ parse_str (iy_actor i) = Some c.
End Roles.

(** ** What a program can answer *)

(** Whatever the world, a result satisfies [Q], and an early answer is no page. *)
Definition yields {A} (m : CEff Response A) (Q : A → Prop) : Prop :=
  ∀ w, match (m w).2 with Ok a => Q a | Err r => is_page r = false end.
Definition shows (m : Handler) (P : View → Prop) : Prop := yields m (λ r, ∀ v, r = Page v → P v).

Lemma yields_ret {A} (a : A) (Q : A → Prop) : Q a → yields (eret a) Q.
Proof. by intros H w. Qed.
Lemma yields_throw {A} r (Q : A → Prop) : is_page r = false → yields (ethrow r) Q.
Proof. by intros H w. Qed.
Lemma yields_bind {A B} (m : CEff Response A) (k : A → CEff Response B) Q1 Q :
  yields m Q1 → (∀ a, Q1 a → yields (k a) Q) → yields (ebind m k) Q.
Proof.
  intros Hm Hk w. specialize (Hm w). unfold ebind. destruct (m w) as [w1 [a|r]]; simpl in *; [by apply Hk|done].
Qed.
Lemma shows_bind {A} (m : CEff Response A) (k : A → Handler) Q1 P :
  yields m Q1 → (∀ a, Q1 a → shows (k a) P) → shows (ebind m k) P.
Proof. apply yields_bind. Qed.
Lemma yields_true {A} (m : CEff Response A) (Q : A → Prop) : yields m Q → yields m (λ _, True).
Proof. intros Hm w. specialize (Hm w). by destruct (m w).2. Qed.
Lemma yields_lift {E A} (f : E → Response) (m : CEff E A) : (∀ e, is_page (f e) = false) → yields (elift f m) (λ _, True).
Proof. intros Hf w. unfold elift. destruct (m w) as [w1 [a|e]]; simpl; [done|apply Hf]. Qed.
Lemma yields_of {A} (o : option A) r : is_page r = false → yields (eof (ok_or o r)) (λ a, o = Some a).
Proof. intros Hr w. by destruct o. Qed.
Lemma yields_of_any {A} (x : result A Response) : (∀ r, x = Err r → is_page r = false) → yields (eof x) (λ _, True).
Proof. intros Hr w. destruct x as [a|r]; simpl; [done|by apply Hr]. Qed.
Lemma yields_now : yields utc_now (λ _, True).
Proof. done. Qed.
Lemma yields_try {E A} (m : CEff E A) : yields (etry m) (λ _, True).
Proof. intros w. unfold etry. by destruct (m w). Qed.
Lemma yields_role i l : yields (require_role i l) (λ _, iy_role i ∈ l).
Proof. unfold require_role. case_decide; [by apply yields_ret|by apply yields_throw]. Qed.
Lemma yields_read {A} pool (f : Db → A) : yields (read_tables pool f) (λ _, True).
Proof. by apply yields_lift. Qed.
Lemma yields_read_pool {A} pool (f : TenantDb → A) : yields (read_pool pool f) (λ _, True).
Proof. by apply yields_lift. Qed.
Lemma yields_audit_ok m : yields (audit_ok m) (λ _, True).
Proof. unfold audit_ok. eapply yields_bind; [apply yields_try|]. intros _ _. by apply yields_ret. Qed.

Section Answers.
Context `{UT : !UuidText} `{AE : !Aead} {Tz : Type} `{TZ : !TimeZone Tz} `{CT : !ChronoText} `{CP : !ChronoParse}.
Context (ks : VaultStore) (renders : View → bool) (build_sparkline : list Z → string) (fresh : N).

Lemma yields_see i c : yields (may_see i c) (λ _, iy_role i = role.COMPLIANCE
  ∨ iy_role i = role.CUSTOMER_SERVICE ∧ parse_str (iy_actor i) = Some c).
Proof.
  unfold may_see. case_decide; [apply yields_ret; by left|]. case_decide; [|by apply yields_throw].
  unfold identity_owns. destruct (parse_str (iy_actor i)) as [o|] eqn:E; [|by apply yields_throw].
  destruct (N.eqb_spec o c) as [E'|]; [|by apply yields_throw]. apply yields_ret. right. split; [done|congruence].
Qed.
Lemma yields_visible i t id at_ : yields (visible_row i t id at_) (λ row, iy_role i = role.COMPLIANCE
  ∨ iy_role i = role.CUSTOMER_SERVICE ∧ parse_str (iy_actor i) = Some (cr_customer_id row)).
Proof.
  unfold visible_row. eapply yields_bind; [apply yields_read|]. intros o _. eapply yields_bind; [by apply yields_of|].
  intros row _. eapply yields_bind; [apply yields_see|]. intros u H. by apply yields_ret.
Qed.
Lemma yields_decrypt dek aad blob : yields (decrypt_text dek aad blob) (λ _, True).
Proof.
  unfold decrypt_text. eapply yields_bind.
  - apply yields_of_any. intros r. destruct (decrypt dek aad blob); [done|]. by intros [= <-].
  - intros bytes _. eapply yields_true. by apply yields_of.
Qed.
Lemma yields_detail t key row : yields (decrypt_detail ks t key row) (λ v, dv_summary v = summary (key, row)).
Proof.
  unfold decrypt_detail. eapply yields_bind; [apply yields_read|]. intros o _. eapply yields_bind; [by apply yields_of|].
  intros dk _. eapply yields_bind; [by apply yields_lift|]. intros dek _. eapply yields_bind; [apply yields_decrypt|].
  intros dest _. eapply (yields_bind _ _ (λ _, True)).
  - destruct (cr_payload_ciphertext row); [|by apply yields_ret]. eapply yields_bind; [apply yields_decrypt|].
    intros text _. by apply yields_ret.
  - intros body _. by apply yields_ret.
Qed.
Lemma yields_render v (P : View → Prop) : P v → shows (eret (render_page renders v)) P.
Proof. intros Hv. apply yields_ret. unfold render_page. case_match; [|done]. by intros v' [= <-]. Qed.
Lemma yields_page v (P : View → Prop) : P v → shows (eret (Page v)) P.
Proof. intros Hv. apply yields_ret. by intros v' [= <-]. Qed.
Lemma yields_limit o : yields (parse_limit o) (λ _, True).
Proof.
  unfold parse_limit. case_match; [|by apply yields_ret]. eapply yields_bind; [by apply yields_of|]. intros n _. by apply yields_ret.
Qed.
Lemma yields_timeline t c : yields (timeline t c) (λ _, True).
Proof. unfold timeline. eapply yields_bind; [apply yields_read|]. intros ids _. apply yields_read. Qed.

Lemma not_page_rejected e : is_page (database_or_rejected e) = false.
Proof. by destruct e. Qed.
Lemma not_page_producer e : is_page (producer_error e) = false.
Proof. destruct e; [apply not_page_rejected|done..]. Qed.
Lemma not_page_setting e : is_page (setting_error e) = false.
Proof. destruct e; [apply not_page_rejected|done..]. Qed.
Lemma not_page_switch e : is_page (switch_error e) = false ∧ is_page (release_error e) = false.
Proof. destruct e; split; apply not_page_rejected || done. Qed.
End Answers.

#[export] Hint Resolve yields_now yields_try yields_role yields_read yields_read_pool yields_audit_ok yields_see yields_visible
  yields_detail yields_limit yields_timeline not_page_rejected not_page_producer not_page_setting : answers.

(** Steps through a handler, leaving the pages. *)
Ltac step_shows :=
  repeat (first
    [ match goal with
      | |- shows (ebind (eof (ok_or _ _)) _) _ => eapply shows_bind; [by apply yields_of|intros ? ?]
      | |- shows (ebind (elift _ _) _) _ => eapply shows_bind; [apply yields_lift; intros ?; solve [done | eauto with answers | apply not_page_switch]|intros ? _]
      | |- shows (ebind _ _) _ => eapply shows_bind; [solve [eauto with answers]|intros ? ?]
      | |- shows (ethrow _) _ => by apply yields_throw
      | |- shows (eret (render_page _ _)) _ => apply yields_render
      | |- shows (eret (Page _)) _ => apply yields_page
      | |- shows (match ?x with _ => _ end) _ => destruct x
      end ]).

Section Access.
Context `{UT : !UuidText} `{AE : !Aead} {Tz : Type} `{TZ : !TimeZone Tz} `{CT : !ChronoText} `{CP : !ChronoParse}.
Context (ks : VaultStore) (renders : View → bool) (build_sparkline : list Z → string) (fresh : N).
Notation handle := (handle (Tz:=Tz) ks renders build_sparkline fresh).

Lemma handle_shows slug r i t : shows (handle slug r i t) (entitled i r).
Proof.
  destruct r; simpl;
    unfold list_comms, comms_detail, customer_timeline, campaign_reach, producer_usage, producer_quota, ui_customer_timeline,
      ui_comms_detail, ui_campaign_reach, ui_quota_dashboard, ui_kill_switches, ui_blast_radius, engage_kill_switch, release_kill_switch,
      ui_scheduled_queue, cancel_scheduled, ui_producer_registry, admin_register_producer, admin_disable_producer, admin_set_producer_quota,
      admin_add_quota_override, kill_switches_page, scheduled_page, producers_page; cbv zeta; step_shows;
    unfold entitled; simpl; cbv beta in *; try (left; assumption);
    match goal with H : _ = role.COMPLIANCE ∨ _ |- _ => destruct H as [->|[Hr Ha]]; [left; by left|right; split; [done|]] end;
    eexists; (split; [|exact Ha]); try done;
    match goal with H : dv_summary _ = _ |- _ => by rewrite H end.
Qed.

(** A handler leaves the databases alone unless the user has the role that writes. *)
Lemma refused_guar (R : relation Cluster) `{!PreOrder R} i l (k : unit → Handler) :
  iy_role i ∉ l → guar R (ebind (require_role i l) k).
Proof.
  intros Hl. unfold require_role. rewrite decide_False by done. change (guar R (ethrow (C:=Call) (A:=Response) (Status 403))).
  by apply guar_throw.
Qed.
Lemma handle_silent plain `{HV : !VaultStoreLaws ks plain} (R : relation Cluster) `{!PreOrder R} slug r i t :
  iy_role i ∉ writer_roles r → guar R (handle slug r i t).
Proof.
  intros Hw. pose proof (vs_unwrap_guar (ks:=ks) R) as Hv.
  assert (∀ A pool (f : Db → A), guar R (read_tables pool f)) as Hread.
  { intros A pool f. apply guar_lift, guar_pool_query; apply _. }
  assert (∀ A pool (f : TenantDb → A), guar R (read_pool pool f)) as Hpool.
  { intros A pool f. apply guar_lift, guar_pool_query; apply _. }
  assert (∀ pool, guar R (load_config pool)) as Hload by (intros pool; by apply guar_pool_query).
  assert (∀ pool key, guar R (pool_query pool (λ _, load_quota key))) as Hquota by (intros pool key; by apply guar_pool_query).
  destruct r; simpl; simpl in Hw; try (by apply refused_guar);
    unfold list_comms, comms_detail, customer_timeline, campaign_reach, producer_usage, producer_quota, ui_customer_timeline,
      ui_comms_detail, ui_campaign_reach, ui_quota_dashboard, ui_kill_switches, ui_blast_radius, ui_scheduled_queue, ui_producer_registry,
      visible_row, decrypt_detail, decrypt_text, may_see, timeline, require_role, current_windows, kill_switches_page, scheduled_page,
      producers_page; cbv zeta; step_guar.
Qed.

Lemma yields_context `{PU : !PgUrl} url meanwhile pools slug : yields (tenant_context url meanwhile pools slug) (λ _, True).
Proof.
  unfold tenant_context. eapply yields_bind; [by apply yields_lift|]. intros o _. eapply yields_bind; [by apply yields_of|].
  intros t _. eapply yields_bind; [apply yields_lift; by intros []|]. intros x _. by apply yields_ret.
Qed.

(** C20. Every route keeps to its roles: a page is only ever answered to a user whom the
    authentication provider named and whose role the route table allows, or to a
    customer-service user about the customer they are; and a handler run for a user
    without the role that writes leaves every database as it was. *)
Theorem routes_keep_to_their_roles plain `{HV : !VaultStoreLaws ks plain} `{PU : !PgUrl} `{AP : !AuthProvider}
    url meanwhile pools req :
  (∀ w w' x v, serve (Tz:=Tz) ks renders build_sparkline fresh url meanwhile pools req w = (w', x) →
     match x with Ok (_, r) => r = Page v | Err r => r = Page v end →
     ∃ tenant i w1 w2, authenticate tenant w1 = (w2, Ok i) ∧ entitled i (qx_route req) v)
  ∧ (∀ (R : relation Cluster) i t, PreOrder R → iy_role i ∉ writer_roles (qx_route req) →
       guar R (handle (qx_slug req) (qx_route req) i t)).
Proof.
  split; [|intros R i t HR Hw; by eapply handle_silent].
  assert (yields (serve (Tz:=Tz) ks renders build_sparkline fresh url meanwhile pools req) (λ x, ∀ v, x.2 = Page v →
    ∃ tenant i w1 w2, authenticate tenant w1 = (w2, Ok i) ∧ entitled i (qx_route req) v)) as Hy.
  { unfold serve, access_audit_mw. eapply yields_bind; [apply yields_context|]. intros first _.
    eapply yields_bind; [by apply yields_lift|]. intros i0 _. eapply (yields_bind _ _ (λ _, True)).
    { unfold audit_access. case_decide; [|by apply yields_ret]. eapply yields_bind; [apply yields_now|]. intros now _.
      eapply yields_bind; [apply yields_try|]. intros r _. by apply yields_ret. }
    intros _ _. eapply (yields_bind _ _ (λ x, ∃ tenant w1 w2, authenticate tenant w1 = (w2, Ok x.2))).
    { unfold authed_user. eapply yields_bind; [apply yields_context|]. intros opened _.
      eapply (yields_bind _ _ (λ i, ∃ tenant w1 w2, authenticate tenant w1 = (w2, Ok i))).
      - intros w. unfold elift. destruct (authenticate _ w) as [w' [i|e]] eqn:E; [|done]. simpl. by exists (qc_tenant_id opened.2), w, w'.
      - intros i Hi. by apply yields_ret. }
    intros user (tenant & w1 & w2 & Hu). eapply yields_bind; [apply yields_context|]. intros opened _.
    eapply yields_bind; [apply handle_shows|]. intros response Hresp. apply yields_ret. intros v Hv.
    exists tenant, user.2, w1, w2. split; [done|by apply Hresp]. }
  intros w w' x v E Hx. specialize (Hy w). rewrite E in Hy. destruct x as [[pools' r]|r]; simpl in Hy; [by apply Hy|]. by subst r.
Qed.
End Access.

(** ** Compliance *)

Section Compliance.
Context `{UT : !UuidText} `{AE : !Aead} {Tz : Type} `{TZ : !TimeZone Tz} `{CT : !ChronoText} `{CP : !ChronoParse}.
Context (ks : VaultStore) (renders : View → bool) (build_sparkline : list Z → string) (fresh : N).
Context `{PU : !PgUrl} `{AP : !AuthProvider} (url : string).

(** The cache holds no pool of this tenant but its own. *)
Definition cache_right (pools : TenantPoolCache) (t : Tenant) : Prop := ∀ p, pools !! tt_id t = Some p → p = tt_database_name t.
Definition context_of (t : Tenant) : QueryContext := MkQc (tt_id t) (tt_database_name t) (tt_vault_mount t).

Lemma tenant_context_calm pools slug (w : CW) t :
  w_env w = [] → is_ok (parse_url url) = true → tenants_ok (w_db w) → find_by_slug slug (w_db w) = Some t →
  is_Some (cl_database (w_db w) !! tt_database_name t) → cache_right pools t →
  ∃ pools', cache_right pools' t ∧ tenant_context url id pools slug w = (w, Ok (pools', context_of t)).
Proof.
  intros He Hu Hok Ht Hd Hc. destruct (slug_row _ _ _ Hok Ht) as [Hrow _]. unfold tenant_context.
  unfold ebind at 1, elift at 1. rewrite query_calm by done. rewrite Ht. cbn [map_err]. unfold ebind at 1. cbn [ok_or eof].
  unfold ebind, elift, pool_get_or_open. destruct (pools !! tt_id t) as [p|] eqn:Hp.
  - exists pools. split; [done|]. apply Hc in Hp as ->. done.
  - cbn [id]. rewrite Hp. unfold ebind. rewrite (connect_calm url (tt_id t) w t) by done. simpl.
    exists (<[tt_id t := tt_database_name t]> pools). split; [|done]. intros p. rewrite lookup_insert_eq. by intros [= <-].
Qed.

(** The row a request of a compliance user leaves. *)
Definition access_row (i : Identity) (req : QueryRequest) (now : Z) : AccessAudit :=
  MkAccess now (iy_actor i) (iy_role i) (route_pattern (qx_route req))
    (if decide (route_pattern (qx_route req) ∈ CUSTOMER_ID_ROUTES) then extract_path_customer_id (qx_path req) else None) (qx_query req).

Lemma audit_access_calm i req (w : CW) t d :
  w_env w = [] → iy_role i = role.COMPLIANCE → cl_database (w_db w) !! tt_database_name t = Some d →
  audit_access (context_of t) i (Some (route_pattern (qx_route req))) (qx_path req) (qx_query req) w
  = (set_db (on_database (<[tt_database_name t := on_access_audit (λ l, l ++ [access_row i req (w_now w)]) d]>) (w_db w)) w, Ok tt).
Proof.
  intros He Hr Hd. unfold audit_access. rewrite decide_True by done. cbv zeta. unfold ebind at 1. rewrite utc_now_calm by done.
  unfold ebind, etry, record_access, pool_sql. rewrite sql_calm by exact He. unfold on_pool. cbn [qc_pool context_of].
  rewrite Hd. reflexivity.
Qed.

(** C21. A compliance request is recorded before it is answered: for a tenant on file
    whose database answers and that no cached pool leads away from, with nobody else at
    work, a request that is authenticated as a compliance user's first appends one row to
    the access audit of the tenant it names, with the user, the route and the query,
    and then answers what the handler answers on that database; on both timeline
    routes the row names the customer whose id, in any form of a UUID, is the
    segment of the path before the last. *)
Theorem compliance_access_is_recorded pools req (w : CW) t d i :
  calm w → is_ok (parse_url url) = true → tenants_ok (w_db w) → find_by_slug (qx_slug req) (w_db w) = Some t →
  cl_database (w_db w) !! tt_database_name t = Some d → cache_right pools t →
  (∀ w1 : CW, authenticate (tt_id t) w1 = (w1, Ok i)) → iy_role i = role.COMPLIANCE →
  let recorded := set_db (on_database (<[tt_database_name t := on_access_audit (λ l, l ++ [access_row i req (w_now w)]) d]>) (w_db w)) w in
  let answer := handle (Tz:=Tz) ks renders build_sparkline fresh (qx_slug req) (qx_route req) i (context_of t) recorded in
  (∃ pools', serve (Tz:=Tz) ks renders build_sparkline fresh url id pools req w
     = (answer.1, match answer.2 with Ok r => Ok (pools', r) | Err r => Err r end))
  ∧ (∀ c u, parse_str "timeline" = None → no_slash u = true → parse_str u = Some c →
       qx_route req = RTimeline c ∧ qx_path req = ("/customers/" +:+ u +:+ "/timeline")%string
       ∨ qx_route req = RUiTimeline c ∧ qx_path req = ("/ui/customers/" +:+ u +:+ "/timeline")%string →
       aa_customer_id (access_row i req (w_now w)) = Some c).
Proof.
  intros [He Htx] Hu Hok Ht Hd Hcr Hau Hrole recorded answer. split.
  - unfold serve, access_audit_mw.
    destruct (tenant_context_calm pools (qx_slug req) w t) as (p1 & Hc1 & E1); [exact He|exact Hu|exact Hok|exact Ht|exists d; exact Hd|exact Hcr|].
    unfold ebind at 1. rewrite E1. unfold ebind at 1, elift at 1. cbn [snd qc_tenant_id context_of]. rewrite Hau. cbn [map_err].
    unfold ebind at 1. rewrite (audit_access_calm i req w t d He Hrole Hd). fold recorded.
    assert (tenants_ok (w_db recorded)) as Hok' by (apply (tenants_ok_stable (w_db w)); [by apply pinned_same|exact Hok]).
    assert (is_Some (cl_database (w_db recorded) !! tt_database_name t)) as Hd' by (simpl; rewrite lookup_insert_eq; eauto).
    destruct (tenant_context_calm p1 (qx_slug req) recorded t) as (p2 & Hc2 & E2); [exact He|exact Hu|exact Hok'|exact Ht|exact Hd'|exact Hc1|].
    unfold ebind at 1, authed_user. unfold ebind at 1. cbn [fst]. rewrite E2. unfold ebind at 1, elift at 1. cbn [snd qc_tenant_id context_of].
    rewrite Hau. cbn [map_err].
    destruct (tenant_context_calm p2 (qx_slug req) recorded t) as (p3 & Hc3 & E3); [exact He|exact Hu|exact Hok'|exact Ht|exact Hd'|exact Hc2|].
    unfold eret at 1. unfold ebind at 1. cbn [fst snd]. rewrite E3. exists p3. unfold ebind. cbn [fst snd]. fold answer. by destruct answer as [w' [r|r]].
  - intros c u Ht0 Hs Hp Hroute. assert (u ≠ "timeline"%string) as Hn by congruence.
    destruct (extract_timeline u c Hs Hn Hp) as [E1 E2]. unfold access_row. cbn [aa_customer_id].
    destruct Hroute as [[-> ->]|[-> ->]]; (rewrite decide_True; [done|]); [left|right; left].
Qed.
End Compliance.

(** ** What was accepted is shown *)

Section Shown.
Context `{UT : !UuidText} `{AE : !Aead} (ks : VaultStore).

(** What time may do to a request: everything but lose it, its keys or its texts. *)
Definition texts_kept (d0 d : Db) : Prop :=
  (∀ k q, db_request d0 !! k = Some q → ∃ q', db_request d !! k = Some q' ∧ cr_customer_id q' = cr_customer_id q
     ∧ cr_destination_ciphertext q' = cr_destination_ciphertext q ∧ cr_payload_ciphertext q' = cr_payload_ciphertext q)
  ∧ db_dek d0 ⊆ db_dek d.

Lemma may_see_own i c (w : CW) : iy_role i = role.COMPLIANCE ∨ iy_role i = role.CUSTOMER_SERVICE ∧ parse_str (iy_actor i) = Some c →
  may_see i c w = (w, Ok tt).
Proof.
  intros [Hr|[Hr Ha]]; unfold may_see.
  - by rewrite decide_True.
  - case_decide; [done|]. rewrite decide_True by done. unfold identity_owns. by rewrite Ha, N.eqb_refl.
Qed.
Lemma read_tables_calm {A} pool (f : Db → A) (w : CW) d :
  w_env w = [] → cl_database (w_db w) !! pool = Some d → read_tables pool f w = (w, Ok (f (td_tables d))).
Proof.
  intros He Hd. unfold read_tables, elift, pool_query, pool_sql. rewrite sql_calm by done. unfold on_pool. rewrite Hd.
  by rewrite on_database_id, set_db_same.
Qed.
Lemma decrypt_text_ok dek aad blob text (w : CW) : decrypt dek aad blob = Ok text → from_utf8 text = Some text →
  decrypt_text dek aad blob w = (w, Ok text).
Proof. intros Hd Hu. unfold decrypt_text, ebind, eof. rewrite Hd. simpl. by rewrite Hu. Qed.

(** C22. What ingest accepted, the query API shows: after a 201, and whatever happened to
    the request since as long as its texts and keys are on file, a compliance user, or a
    customer-service user who is its customer, reads the destination that was
    submitted and the approved template it named rendered with the submitted variables. *)
Theorem accepted_messages_are_shown `{AL : !AeadLaws} tn plain producer header body dr w0 w0' id (w : CW) t d i :
  KeyServiceLaws (tn_keys tn) plain → nonces_ok dr → rely grows w0 → customer_wf (w_db w0) →
  create_comms tn producer header body dr w0 = (w0', Ok (201, id)) →
  calm w → cl_database (w_db w) !! tt_database_name t = Some d → texts_kept (w_db w0') (td_tables d) →
  (∀ s, vs_unwrap_dek ks (tt_vault_mount t) s w = (w, Ok (plain s))) →
  from_utf8 (rq_destination body) = Some (rq_destination body) →
  (∀ template text, names_template body template (w_db w0') → render template (rq_variables body) = Ok text → from_utf8 text = Some text) →
  ∃ created customer,
    (iy_role i = role.COMPLIANCE ∨ iy_role i = role.CUSTOMER_SERVICE ∧ parse_str (iy_actor i) = Some customer →
     ∃ v template text, comms_detail ks i (context_of t) id created w = (w, Ok (Page (VDetail v)))
       ∧ sm_id (dv_summary v) = id ∧ sm_customer_id (dv_summary v) = customer
       ∧ dv_destination v = rq_destination body ∧ dv_body v = Some text
       ∧ names_template body template (w_db w0') ∧ render template (rq_variables body) = Ok text).
Proof.
  intros HS Hn Hr Hwf Hrun Hc Hd [Hq Hk] Hv Hu1 Hu2.
  destruct (create_hoare tn plain producer header body dr Hn w0 Hr Hwf) as (_ & _ & Hres). rewrite Hrun in Hres. cbn in Hres.
  destruct Hres as (key & _ & _ & [Hs|(_ & _ & Ha)]); [discriminate Hs|].
  destruct Ha as (created & q & r & kind & dek & template & text & ct & HA).
  destruct HA as (Hreq & _ & _ & _ & _ & _ & _ & _ & _ & _ & _ & _ & _ & _ & _ & Hcust & HA).
  destruct HA as (_ & _ & _ & _ & _ & _ & _ & _ & _ & _ & _ & _ & (row & Hrow & ->) & Hdd & Hct & Hdt & Hname & Htext).
  cbn [snd] in *. destruct (Hq _ _ Hreq) as (q' & Hq' & E1 & E2 & E3). exists created, (cr_customer_id q'). intros Hsee.
  exists (MkDetailView (summary (created, id, q')) (rq_destination body) (Some text)), template, text. split_and!; try done.
  unfold comms_detail, visible_row, decrypt_detail. cbn [qc_pool context_of qc_vault_mount].
  unfold ebind at 1 2. rewrite (read_tables_calm _ _ w d) by (apply Hc || done). unfold detail_row. rewrite Hq'.
  unfold ebind at 1. cbn [ok_or eof]. unfold ebind at 1. rewrite may_see_own by done. unfold eret at 1.
  unfold ebind at 1 2. rewrite (read_tables_calm _ _ w d) by (apply Hc || done). unfold find_dek.
  rewrite E1, <- Hcust in *. rewrite (lookup_weaken _ _ _ _ Hrow Hk). unfold ebind at 1. cbn [ok_or eof].
  unfold ebind at 1, elift at 1. rewrite Hv. cbn [map_err]. unfold ebind at 1. cbn [snd].
  rewrite (decrypt_text_ok _ _ _ (rq_destination body)) by (by rewrite ?E2). rewrite E3, Hct.
  unfold ebind at 1 2. rewrite (decrypt_text_ok _ _ _ text) by (done || by eapply Hu2). done.
Qed.
End Shown.

(** ** Quotas *)

Lemma insert_override_quota pool id o : guar quota_step (insert_override pool id o).
Proof.
  apply guar_pool; [apply _|]. intros t c d d' a Hd. repeat case_match; try done. intros [= <- _]. by eapply quota_step_database.
Qed.

(** Every command and every page that writes quotas. *)
Section Legal.
Context `{UT : !UuidText} `{AE : !Aead} {Tz : Type} `{TZ : !TimeZone Tz} `{CT : !ChronoText} `{CP : !ChronoParse}.
Context (ks : VaultStore) (renders : View → bool) (build_sparkline : list Z → string) (fresh : N).
Notation handle := (handle (Tz:=Tz) ks renders build_sparkline fresh).

Lemma read_quota {A} pool (f : Db → A) : guar quota_step (read_tables pool f).
Proof. apply guar_lift, guar_pool_query; apply _. Qed.
Lemma read_pool_quota {A} pool (f : TenantDb → A) : guar quota_step (read_pool pool f).
Proof. apply guar_lift, guar_pool_query; apply _. Qed.
Hint Resolve read_quota read_pool_quota insert_override_quota set_quota_inner_legal : effects.

Lemma panel_quota_legal i t id slug form : guar quota_step (admin_set_producer_quota renders i t id slug form).
Proof.
  unfold admin_set_producer_quota, producers_page, require_role, parse_limit, audit_ok, audit_quota.
  apply guar_bind; [apply _|step_guar|]. intros _. apply guar_bind; [apply _|step_guar|]. intros per_minute.
  apply guar_bind; [apply _|step_guar|]. intros per_day. cbv zeta.
  destruct (_ || _) eqn:Hi; [step_guar|]. apply guar_bind; [apply _|by apply guar_lift, set_quota_inner_legal|step_guar].
Qed.
Hint Resolve panel_quota_legal : effects.
Lemma handle_quota plain `{HV : !VaultStoreLaws ks plain} slug r i t : guar quota_step (handle slug r i t).
Proof.
  destruct (decide (iy_role i ∈ writer_roles r)) as [Hw|Hw];
    [|apply (handle_silent ks renders build_sparkline fresh plain quota_step); exact Hw].
  destruct r; simpl in Hw; try (by apply elem_of_nil in Hw); simpl; try apply panel_quota_legal;
    unfold engage_kill_switch, release_kill_switch, cancel_scheduled, admin_register_producer, admin_disable_producer,
      admin_add_quota_override, kill_switches_page, scheduled_page, producers_page, require_role, audit_ok, audit_override_add;
    cbv zeta; step_guar.
Qed.

(** C23. No configuration holds back a one-time code or a transactional message: the
    commands and every page of the query API, run by anyone and among processes that
    do the same, keep every quota on file legal, and the panel refuses an override
    for the reasons the command does; a tracker that read its limits from a database
    in that state never defers a message of the two classes. *)
Theorem quotas_never_hold_back_codes `{PU : !PgUrl} `{TL : !TimeZoneLaws Tz} plain `{HV : !VaultStoreLaws ks plain} url :
  (∀ slug r i t, guar quota_step (handle slug r i t))
  ∧ (∀ slug name ch cl q actor, guar quota_step (set_producer_quota url slug name ch cl q actor))
  ∧ (∀ id slug name ch cl n from to_ by_ reason actor,
       guar quota_step (add_producer_quota_override url id slug name ch cl n from to_ by_ reason actor))
  ∧ (∀ form from to_, is_Some (override_refusal form from to_) ↔ is_Some (override_rejection (af_class form) (af_per_day form) from to_))
  ∧ (∀ c pool d (q q' : QuotaTracker Tz) overrides p ch cl now dec,
       all_quotas_legal c → cl_database c !! pool = Some d → qt_config q = merge_config (db_quota (td_tables d)) overrides →
       cl = class.AUTH ∨ cl = class.TRANSACTIONAL → check_and_record q p ch cl now = (q', dec) → is_defer dec = false).
Proof.
  split_and!.
  - intros slug r i t. by apply (handle_quota plain).
  - intros. apply set_producer_quota_legal.
  - intros. apply add_override_legal.
  - intros form from to_. unfold override_refusal, override_rejection. repeat case_match; split; intros [x [=]]; eauto.
  - intros c pool d q q' overrides p ch cl now dec Hc Hd. by apply legal_never_defers, (Hc pool).
Qed.
End Legal.

(** ** Timelines *)

(** C24. A timeline is complete: with nobody else at work, a user who may see a customer
    that was never merged away is shown the newest two hundred of the messages to it
    and to every customer merged into it, newest first, and nothing else. *)
Theorem timelines_are_complete `{UT : !UuidText} (w : CW) t d i c :
  calm w → cl_database (w_db w) !! tt_database_name t = Some d → db_alias (td_tables d) !! c = None →
  iy_role i = role.COMPLIANCE ∨ iy_role i = role.CUSTOMER_SERVICE ∧ parse_str (iy_actor i) = Some c →
  ∃ rows all, customer_timeline i (context_of t) c w = (w, Ok (Page (VComms rows))) ∧ newest rows all LIST_LIMIT
    ∧ (∀ s, s ∈ all ↔ ∃ k q, db_request (td_tables d) !! k = Some q ∧ s = summary (k, q)
         ∧ let tables := World (td_tables d) 0 false [] [] in expand_alias (cr_customer_id q) tables = (tables, Ok c)).
Proof.
  intros [He Htx] Hd Ha Hsee. eexists _, _. split; [|split; [apply take_newest|]].
  - unfold customer_timeline, timeline. unfold ebind at 1. rewrite may_see_own by done. unfold ebind at 1 2. cbn [qc_pool context_of].
    rewrite !(read_tables_calm _ _ w d) by done. reflexivity.
  - intros s. rewrite list_elem_of_fmap. split.
    + intros ([k q] & -> & [Hq Hk]%list_elem_of_filter). apply elem_of_map_to_list in Hk. exists k, q. split_and!; [done..|].
      by apply (alias_set_is_what_expands_to_it c (cr_customer_id q) (World (td_tables d) 0 false [] [])).
    + intros (k & q & Hk & -> & Hx). exists (k, q). split; [done|]. apply list_elem_of_filter. split; [|by apply elem_of_map_to_list].
      by apply (alias_set_is_what_expands_to_it c (cr_customer_id q) (World (td_tables d) 0 false [] [])).
Qed.

(** ** Concrete runs *)

Section Runs.
#[local] Existing Instance demo_url.
#[local] Existing Instance demo_uuid.
#[local] Existing Instance demo_aead.
#[local] Existing Instance demo_chrono.
Definition demo_parse : ChronoParse := {| parse_rfc3339 _ := None; parse_local_minute _ := None |}.
#[local] Existing Instance demo_parse.
Definition auditor : AuthProvider := mock_provider (MkMock "auditor" role.COMPLIANCE).
#[local] Existing Instance auditor.
Definition auditor_user : Identity := MkUser "auditor" role.COMPLIANCE 1.

(** The tables after the request that [Ingest.demo_created] accepts. *)
Definition shown_db : TenantDb := on_tables (λ _, w_db demo_created.1) demo_tenant_db.
Definition shown_cluster : Cluster := on_database (<["tenant_acme"%string := shown_db]>) two_tenants.
Lemma shown_cluster_ok : tenants_ok shown_cluster.
Proof. apply (pi_ok two_tenants); [by apply pinned_same|apply two_tenants_ok]. Qed.
Lemma shown_acme : find_by_slug "acme" shown_cluster = Some acme.
Proof. vm_compute. reflexivity. Qed.
Lemma shown_database : cl_database shown_cluster !! tt_database_name acme = Some shown_db.
Proof. unfold shown_cluster. cbn [on_database cl_database]. apply lookup_insert_eq. Qed.

Definition ask (req : QueryRequest) (w : CW) : CW * result (TenantPoolCache * Response) Response :=
  serve (Tz:=Shift) otp_vault (λ _, true) (λ _, ""%string) 9 "postgres://" id ∅ req w.
Definition reach_request : QueryRequest := MkRequestTo "acme" "/campaigns/spring/reach" "" (RReach "spring").
Lemma reach_answer : (ask reach_request (cluster_world shown_cluster)).2
  = Ok ({[1%N := "tenant_acme"%string]}, Page (VReach [])).
Proof. vm_compute. reflexivity. Qed.

Lemma roles_witness :
  ∃ tenant i w1 w2, authenticate tenant w1 = (w2, Ok i) ∧ entitled i (RReach "spring") (VReach []).
Proof.
  destruct (routes_keep_to_their_roles (Tz:=Shift) otp_vault (λ _, true) (λ _, ""%string) 9 (λ _ _, demo_dek)
    "postgres://" id ∅ reach_request) as [H _].
  apply (H (cluster_world shown_cluster) (ask reach_request (cluster_world shown_cluster)).1
    (ask reach_request (cluster_world shown_cluster)).2 (VReach [])).
  - exact (surjective_pairing (ask reach_request (cluster_world shown_cluster))).
  - rewrite reach_answer. reflexivity.
Defined.

Definition timeline_path (u : string) : string := ("/customers/" +:+ u +:+ "/timeline")%string.
Definition timeline_request (c : N) (u : string) : QueryRequest := MkRequestTo "acme" (timeline_path u) "" (RTimeline c).
Lemma shown_cache : cache_right ∅ acme.
Proof. intros p Hp. rewrite lookup_empty in Hp. discriminate Hp. Qed.

Lemma auditor_known : ∀ w1 : CW, authenticate (tt_id acme) w1 = (w1, Ok auditor_user).
Proof. reflexivity. Qed.

Lemma compliance_witness :
  aa_customer_id (access_row auditor_user (timeline_request 7 "7") 100) = Some 7%N
  ∧ ∃ rest, td_access_audit <$> (cl_database (w_db (ask (timeline_request 7 "7") (cluster_world shown_cluster)).1) !! "tenant_acme"%string)
      = Some (access_row auditor_user (timeline_request 7 "7") 100 :: rest).
Proof.
  destruct (compliance_access_is_recorded (Tz:=Shift) otp_vault (λ _, true) (λ _, ""%string) 9 "postgres://" ∅ (timeline_request 7 "7")
    (cluster_world shown_cluster) acme shown_db auditor_user (conj eq_refl eq_refl) demo_url_ok shown_cluster_ok shown_acme shown_database
    shown_cache auditor_known eq_refl) as [[pools H] Hc].
  split; [exact (Hc 7%N "7"%string eq_refl eq_refl eq_refl (or_introl (conj eq_refl eq_refl)))|].
  unfold ask. rewrite H. exists []. vm_compute. reflexivity.
Defined.

Lemma shown_run : demo_created = (demo_created.1, Ok (201, 102%N)).
Proof. vm_compute. reflexivity. Qed.
Lemma shown_texts : texts_kept (w_db demo_created.1) (td_tables shown_db).
Proof. split; [intros k q Hq; exists q; split_and!; [exact Hq|reflexivity..]|]. change (td_tables shown_db) with (w_db demo_created.1). reflexivity. Qed.
Lemma shown_template : te_body <$> map_values (db_template (w_db demo_created.1)) = ["Hi {{name}}"%string].
Proof. vm_compute. reflexivity. Qed.
Lemma shown_utf8 : ∀ template text, names_template demo_body template (w_db demo_created.1) →
  render template (rq_variables demo_body) = Ok text → from_utf8 text = Some text.
Proof.
  intros template text (l & te & Hl & Hb & _).
  assert (template ∈ te_body <$> map_values (db_template (w_db demo_created.1))) as Hin.
  { apply list_elem_of_fmap. exists te. split; [by symmetry|]. apply elem_of_map_values. eexists. exact Hl. }
  rewrite shown_template in Hin. apply list_elem_of_singleton in Hin as ->.
  assert (render "Hi {{name}}" (rq_variables demo_body) = Ok "Hi Ada"%string) as -> by (vm_compute; reflexivity).
  intros [= <-]. vm_compute. reflexivity.
Qed.
Lemma shown_witness :
  ∃ created v, comms_detail otp_vault auditor_user (context_of acme) 102 created (cluster_world shown_cluster)
      = (cluster_world shown_cluster, Ok (Page (VDetail v)))
    ∧ dv_destination v = "+15550100"%string ∧ is_Some (dv_body v).
Proof.
  destruct (accepted_messages_are_shown otp_vault demo_tenant (λ _, demo_dek) 7 (Some "k1"%string) demo_body demo_draws demo_start
    demo_created.1 102 (cluster_world shown_cluster) acme shown_db auditor_user (cold_service_laws _ _) demo_nonces
    (conj (Forall_nil_2 _) eq_refl) demo_start_wf shown_run (conj eq_refl eq_refl) shown_database shown_texts (λ s, eq_refl) eq_refl
    shown_utf8) as (created & customer & H).
  destruct (H (or_introl eq_refl)) as (v & template & text & Hrun & _ & _ & Hd & Hb & _).
  exists created, v. split; [exact Hrun|]. split; [exact Hd|]. exists text. exact Hb.
Defined.

Lemma shown_alias : db_alias (td_tables shown_db) !! 7%N = None.
Proof. vm_compute. reflexivity. Qed.
Lemma timelines_witness :
  ∃ rows, customer_timeline auditor_user (context_of acme) 7 (cluster_world shown_cluster)
    = (cluster_world shown_cluster, Ok (Page (VComms rows))).
Proof.
  destruct (timelines_are_complete (cluster_world shown_cluster) acme shown_db auditor_user 7 (conj eq_refl eq_refl) shown_database
    shown_alias (or_introl eq_refl)) as (rows & all & Hrun & _). exists rows. exact Hrun.
Defined.

Definition strict_form : SetQuotaForm := MkQuotaForm channel.SMS class.TRANSACTIONAL None (Some "1"%string) enforcement.HARD.
Lemma shown_legal : all_quotas_legal shown_cluster.
Proof.
  intros pool d. unfold shown_cluster, two_tenants. cbn [on_database cl_database]. rewrite !lookup_insert_Some, lookup_singleton_Some.
  assert (db_quota (td_tables shown_db) = ∅) as E1 by (vm_compute; reflexivity).
  assert (db_quota (td_tables demo_tenant_db) = ∅) as E2 by (vm_compute; reflexivity).
  intros [[_ <-]|[_ [[_ <-]|[_ [_ <-]]]]] p ch cl q; rewrite ?E1, ?E2, lookup_empty; discriminate.
Qed.
Lemma never_hold_back_witness :
  all_quotas_legal (w_db (handle (Tz:=Shift) otp_vault (λ _, true) (λ _, ""%string) 9 "acme" (RSetQuota 7 strict_form)
    (MkUser "root" role.ADMIN 1) (context_of acme) (cluster_world shown_cluster)).1).
Proof.
  destruct (quotas_never_hold_back_codes (Tz:=Shift) otp_vault (λ _, true) (λ _, ""%string) 9 (λ _ _, demo_dek) "postgres://") as [H _].
  destruct (H "acme"%string (RSetQuota 7 strict_form) (MkUser "root" role.ADMIN 1) (context_of acme) (cluster_world shown_cluster)
    (conj (Forall_nil_2 _) eq_refl)) as [Hq _]. exact (Hq shown_legal).
Defined.
(** A compliance read is not always on record: when the statement that writes the
    audit row fails, the page is answered all the same and no row is left. *)
Theorem unrecorded_compliance_reads :
  let run := ask reach_request (World shown_cluster 100 false
    (replicate 5 (Move 0 NoFault id) ++ [Move 0 FaultBefore id]) []) in
  run.2 = Ok ({[1%N := "tenant_acme"%string]}, Page (VReach []))
  ∧ (td_access_audit <$> cl_database (w_db run.1) !! "tenant_acme"%string) = Some [].
Proof. split; vm_compute; reflexivity. Qed.
End Runs.
