(* ===== verification/Control.v ===== *)
(** * The operator's command line

    Models [src/bin/control.rs] with what it calls and no other file models:
    [src/config.rs], the guards of [src/keystore.rs], [src/producer/dev_pki.rs],
    [src/stats.rs] and the reads by slug. A command is a value of the enum that clap
    parses; [args_ok] is what clap's value parsers let through; [run] is the dispatch
    with the lines a command prints. The two receipt passes, which Receipts.v models on
    one tenant's database, are arguments here. *)

From S2P Require Import Prelude RustStd Time Schema KillSwitch Quota QuietHours Dek Render Customer Ingest Receipts Tenancy Producers Platform Webhook Lifecycle Otp Settings Permissions Calendar Partitions Aside QueryApi Admin.
From stdpp Require Import base gmap strings list sorting pretty.
From Stdlib Require Import ZArith Lia Ascii.

Local Open Scope effect_scope.
Local Open Scope Z_scope.

(** ** [config] and the connection to Vault *)

Definition u32_max : Z := 4294967295.
(** [str::parse::<u32>]. *)
Definition parse_u32 (s : string) : option Z :=
  n ← match s with String "+" s => parse_int s | _ => parse_int s end;
  if n <=? u32_max then Some n else None.

Record Config : Type := MkControlConfig {
  cg_control_database_url : string; cg_database_max_connections : Z; cg_profile : Profile; cg_region : string;
}.
(** [Config::from_env]: [None] is the panic. *)
Definition config_from_env (env : gmap string string) : option Config :=
  url ← env !! "CONTROL_DATABASE_URL"%string;
  connections ← match env !! "DATABASE_MAX_CONNECTIONS"%string with Some v => parse_u32 v | None => Some 20 end;
  profile ← profile_from_env (env !! "MESSGR_PROFILE"%string);
  region ← env !! "MESSGR_REGION"%string;
  Some (MkControlConfig url connections profile region).

(** The calls of the PKI engine that [dev_pki] makes: an error is a status with its
    messages, or anything else. *)
Inductive PkiError : Type := PkiApi (code : Z) (errors : list string) | PkiOther.
Record Certificate : Type := MkCertificate { ce_certificate : string; ce_private_key : string; ce_issuing_ca : string }.
Record PkiClient : Type := MkPki {
  pi_list_mounts : CEff PkiError (gset string);
  pi_enable_mount : string → string → CEff PkiError unit;
  pi_list_issuers : string → CEff PkiError (list string);
  pi_generate_root : string → string → string → CEff PkiError unit;
  pi_set_role : string → string → CEff PkiError unit;
  pi_issue : string → string → string → option string → CEff PkiError Certificate;
}.

(** What the environment's Vault settings give: the scheme of the address and the
    client, seen as the three interfaces the code uses. *)
Record VaultSession : Type := MkSession {
  vn_scheme : string; vn_admin : VaultClient; vn_store : VaultStore; vn_pki : PkiClient;
}.

(** A command fails with a message, here without the values it quotes, or panics. *)
Inductive ControlError : Type := Failed (message : string) | CtlPanic.

(** [assert_tls_outside_dev]: whether it lets the address pass. *)
Definition assert_tls_outside_dev (scheme : string) (profile : Profile) : bool :=
  is_dev profile || bool_decide (scheme = "https"%string).
(** [VaultKeyStore::connect] behind its [expect]. *)
Definition connect_vault (vault : result VaultSession KeyStoreError) (profile : Profile) : CEff ControlError VaultSession :=
  match vault with
  | Ok session => if assert_tls_outside_dev (vn_scheme session) profile then eret session else ethrow CtlPanic
  | Err _ => ethrow CtlPanic
  end.

(** Which errors of an operation are panics that unwind through the command. *)
Class Panics (E : Type) : Type := { panics : E → bool }.
#[export] Instance sqlx_panics : Panics SqlxError := {| panics _ := false |}.
#[export] Instance producer_panics : Panics ProducerError := {| panics e := match e with PrPanic => true | _ => false end |}.
#[export] Instance setting_panics : Panics SettingError := {| panics e := match e with StPanic => true | _ => false end |}.
#[export] Instance provision_panics : Panics ProvisionError := {| panics e := match e with PvPanic => true | _ => false end |}.
#[export] Instance dek_panics : Panics CustomerDekError := {| panics e := match e with DekPanic => true | _ => false end |}.
#[export] Instance approve_panics : Panics ApproveError := {| panics e := match e with ApPanic => true | _ => false end |}.
#[export] Instance lifecycle_panics : Panics PartitionLifecycleError := {| panics e := match e with PlPanic => true | _ => false end |}.
#[export] Instance sweep_panics : Panics SweepError := {| panics e := match e with SwPanic => true | _ => false end |}.
#[export] Instance promote_panics : Panics PromoteError := {| panics e := match e with PPanic => true | _ => false end |}.
#[export] Instance platform_panics : Panics PlatformError := {| panics e := match e with PfPanic => true | _ => false end |}.
(** [map_err(|err| format!("failed to .."))?]. *)
Definition attempt {E A} `{!Panics E} (message : string) (m : CEff E A) : CEff ControlError A :=
  elift (λ e, if panics e then CtlPanic else Failed message) m.

(** ** [producer::dev_pki] *)

Definition PKI_MOUNT : string := "pki".
Definition DEV_ROLE : string := "producer-dev".
Definition PKI_MAX_LEASE_TTL : string := "87600h".

Section DevPki.
Context (client : PkiClient) (profile : Profile).

Definition already_in_use (errors : list string) : bool :=
  existsb (λ e, bool_decide (is_Some (str_find "already in use" e))) errors.
Definition ensure_pki_mount : CEff PkiError unit :=
  existing ←! pi_list_mounts client;
  if decide (PKI_MOUNT +:+ "/" ∈ existing) then eret tt
  else
    r ←! etry (pi_enable_mount client PKI_MOUNT PKI_MAX_LEASE_TTL);
    match r with
    | Ok _ => eret tt
    | Err (PkiApi code errors) =>
        if bool_decide (code = 400) && already_in_use errors then eret tt else ethrow (PkiApi code errors)
    | Err PkiOther => ethrow PkiOther
    end.
Definition has_issuer : CEff PkiError bool :=
  r ←! etry (pi_list_issuers client PKI_MOUNT);
  match r with
  | Ok keys => eret (negb (bool_decide (keys = [])))
  | Err (PkiApi code errors) => if decide (code = 404) then eret false else ethrow (PkiApi code errors)
  | Err PkiOther => ethrow PkiOther
  end.

(** [assert_dev_profile] in front of an operation. *)
Definition dev_only {A} (message : string) (m : CEff PkiError A) : CEff ControlError A :=
  if is_dev profile then elift (λ _, Failed message) m else ethrow CtlPanic.

Definition bootstrap : CEff ControlError unit :=
  dev_only "failed to bootstrap dev PKI"
    (ensure_pki_mount ;!
     known ←! has_issuer;
     (if known : bool then eret tt else pi_generate_root client PKI_MOUNT "messgr dev root" PKI_MAX_LEASE_TTL) ;!
     pi_set_role client PKI_MOUNT DEV_ROLE).
Definition issue_cert (common_name : string) : CEff ControlError Certificate :=
  dev_only "failed to issue a dev certificate" (pi_issue client PKI_MOUNT DEV_ROLE common_name None).
Definition issue_server_cert (hostname : string) : CEff ControlError Certificate :=
  dev_only "failed to issue a dev certificate" (pi_issue client PKI_MOUNT DEV_ROLE hostname (Some hostname)).
End DevPki.

(** ** The commands *)

Inductive PlatformKillSwitchCommand : Type :=
| PkEngage (scope : string) (tenant_slug : option string) (reason actor : string)
| PkRelease (id : N) (actor : string)
| PkList.
Inductive ProducerCommand : Type :=
| PrRegister (tenant_slug name cert_subject owner_team contact actor : string)
| PrDisable (tenant_slug name actor : string)
| PrList (tenant_slug : string).
Inductive DevPkiCommand : Type :=
| DpBootstrap
| DpIssueCert (common_name out_dir : string) (server : bool).
Inductive TenantConfigCommand : Type :=
| TcSet (tenant_slug : string) (retention_years : Z) (default_timezone default_locale : string) (schedule_horizon_days : option Z)
    (quota_day_boundary_tz : string) (verification_mode : option string) (kill_switch_release_rate reconcile_attempts_cap : option Z)
    (actor : string)
| TcShow (tenant_slug : string).
Inductive CustomerDekCommand : Type := CdPreProvision (tenant_slug : string) (customer_id : list N) (actor : string).
Inductive TemplateCommand : Type :=
| TmApprove (tenant_slug template_id : string) (version : Z) (ch locale body_file actor : string)
| TmShow (tenant_slug template_id : string) (version : Z) (locale : string)
| TmList (tenant_slug template_id : string)
| TmRender (tenant_slug template_id : string) (version : Z) (locale : string) (var : list string).
Inductive ProviderConfigCommand : Type :=
| PcSet (tenant_slug ch : string) (priority : Z) (provider credential_path : string) (rate_limit_per_sec : Z) (actor : string)
| PcList (tenant_slug ch : string).
Inductive SuppressionCommand : Type :=
| SpAdd (tenant_slug destination reason review_at actor : string)
| SpList (tenant_slug : string)
| SpRemove (tenant_slug destination actor : string).
Inductive ConsentCommand : Type :=
| CnSet (tenant_slug destination ch cl : string) (opted_in : bool) (source actor : string).
(** The two times are what [parse_local_time] read. *)
Inductive QuietHoursCommand : Type :=
| QhSet (tenant_slug : string) (start_local end_local : Z) (actor : string)
| QhShow (tenant_slug : string).
Inductive ProducerQuotaCommand : Type :=
| PqSet (tenant_slug producer_name ch cl : string) (per_minute per_day : option Z) (enforcement actor : string)
| PqList (tenant_slug : string)
| PqOverrideAdd (tenant_slug producer_name ch cl : string) (per_day : Z) (valid_from valid_to approved_by reason actor : string)
| PqOverrideList (tenant_slug : string).

Inductive Command : Type :=
| CMigrate
| CProvision (slug region database_name actor : string)
| COffboardDestroy (tenant_slug confirm_slug actor : string)
| CProducer (command : ProducerCommand)
| CDevPki (command : DevPkiCommand)
| CTenantConfig (command : TenantConfigCommand)
| CCustomerDek (command : CustomerDekCommand)
| CTemplate (command : TemplateCommand)
| CProviderConfig (command : ProviderConfigCommand)
| CSuppression (command : SuppressionCommand)
| CConsent (command : ConsentCommand)
| CProducerQuota (command : ProducerQuotaCommand)
| CQuietHours (command : QuietHoursCommand)
| CPartitionLifecycle (tenant_slug : string)
| CIdempotencySweep (tenant_slug : string)
| COrphanReconcile (tenant_slug : string)
| CWebhookPromote (tenant_slug : string)
| CStats (tenant_slug : string) (since : option Z)
| CPlatformKillSwitch (command : PlatformKillSwitchCommand)
| CServe (cert_file key_file : string)
| CVersion.

(** ** What clap lets through *)

Definition in_i32 (n : Z) : bool := (- i32_max - 1 <=? n) && (n <=? i32_max).
Definition in_i16 (n : Z) : bool := (- i16_max - 1 <=? n) && (n <=? i16_max).
(** [range(lo..)] on an [i32] and on an [i16]. *)
Definition i32_from (lo n : Z) : bool := in_i32 n && (lo <=? n).
Definition i16_from (lo n : Z) : bool := in_i16 n && (lo <=? n).
Definition when {A} (p : A → bool) (o : option A) : bool := match o with Some x => p x | None => true end.
(** [PossibleValuesParser]. *)
Definition one_of (l : list string) (s : string) : bool := bool_decide (s ∈ l).
Definition channels : list string := [channel.SMS; channel.EMAIL; channel.WHATSAPP].
Definition quota_classes : list string := [class.MARKETING; class.TRANSACTIONAL].
Definition enforcements : list string := [enforcement.HARD; enforcement.SOFT].
Definition verification_modes : list string := [verification_mode.ENFORCE; verification_mode.OBSERVE].
Definition suppression_reasons : list string := [reason.HARD_BOUNCE; reason.COMPLAINT; reason.REGULATORY_HOLD].
(** The times that [parse_local_time] reads: whole minutes of a day. *)
Definition local_time (t : Z) : bool := (0 <=? t) && (t <? day) && (t mod minute =? 0).

Definition tenant_config_args (command : TenantConfigCommand) : bool :=
  match command with
  | TcSet _ retention _ _ horizon _ mode rate cap _ =>
      i32_from 0 retention && when (i32_from 0) horizon && when (one_of verification_modes) mode && when (i32_from 0) rate
      && when (i16_from 1) cap
  | TcShow _ => true
  end.
(** [required = true]: at least one. *)
Definition customer_dek_args (command : CustomerDekCommand) : bool :=
  match command with CdPreProvision _ ids _ => negb (bool_decide (ids = [])) end.
Definition template_args (command : TemplateCommand) : bool :=
  match command with
  | TmApprove _ _ version ch _ _ _ => in_i32 version && one_of channels ch
  | TmShow _ _ version _ | TmRender _ _ version _ _ => in_i32 version
  | TmList _ _ => true
  end.
Definition provider_config_args (command : ProviderConfigCommand) : bool :=
  match command with
  | PcSet _ ch priority _ _ rate _ => one_of channels ch && in_i16 priority && in_i32 rate
  | PcList _ ch => one_of channels ch
  end.
Definition suppression_args (command : SuppressionCommand) : bool :=
  match command with SpAdd _ _ r _ _ => one_of suppression_reasons r | _ => true end.
Definition consent_args (command : ConsentCommand) : bool :=
  match command with CnSet _ _ ch cl _ _ _ => one_of channels ch && one_of [class.TRANSACTIONAL; class.MARKETING] cl end.
Definition producer_quota_args (command : ProducerQuotaCommand) : bool :=
  match command with
  | PqSet _ _ ch cl per_minute per_day e _ =>
      one_of channels ch && one_of quota_classes cl && when in_i32 per_minute && when in_i32 per_day && one_of enforcements e
  | PqOverrideAdd _ _ ch cl per_day _ _ _ _ _ => one_of channels ch && one_of quota_classes cl && in_i32 per_day
  | _ => true
  end.
Definition quiet_hours_args (command : QuietHoursCommand) : bool :=
  match command with QhSet _ start end_ _ => local_time start && local_time end_ | QhShow _ => true end.
Definition platform_kill_switch_args (command : PlatformKillSwitchCommand) : bool :=
  match command with PkEngage scope _ _ _ => one_of [platform_scope.PLATFORM; platform_scope.TENANT] scope | _ => true end.

Definition args_ok (command : Command) : bool :=
  match command with
  | CTenantConfig c => tenant_config_args c
  | CCustomerDek c => customer_dek_args c
  | CTemplate c => template_args c
  | CProviderConfig c => provider_config_args c
  | CSuppression c => suppression_args c
  | CConsent c => consent_args c
  | CProducerQuota c => producer_quota_args c
  | CQuietHours c => quiet_hours_args c
  | CPlatformKillSwitch c => platform_kill_switch_args c
  | _ => true
  end.

(** ** Reads of the commands *)

(** [producer::register::list_producers]. *)
Definition list_producers_by_slug `{!PgUrl} (base_db_url tenant_slug : string) : CEff ProducerError (list Producer) :=
  by_slug base_db_url PrDatabase producer_of_connect tenant_slug (ethrow (PrDatabase rejection.NO_SLUG))
    (λ _ pool, elift PrDatabase (pool_query pool (λ _, list_producers))).

(** [customer_dek::lifecycle::pre_provision_for_tenant]. *)
Definition dek_of_connect (e : ConnectError) : CustomerDekError :=
  match e with CSqlx e => DekDatabase e | CMisrouted => DekPanic end.
Definition pre_provision_for_tenant `{!PgUrl} (base_db_url tenant_slug : string) (ks : VaultStore) (customer_ids : list N)
    (actor : string) : CEff CustomerDekError PreProvisionOutcome :=
  by_slug base_db_url DekDatabase dek_of_connect tenant_slug (ethrow (DekDatabase rejection.NO_SLUG)) (λ tenant pool,
    outcome ←! pre_provision_via (pool_run pool) (vs_create_dek ks (tt_vault_mount tenant)) customer_ids (MkOutcome 0 0);
    elift DekDatabase (record_audit actor "customer_dek.pre_provision" (Some (tt_id tenant))
      [("requested", Some (pretty (length customer_ids))); ("created", Some (pretty (created outcome)));
       ("already_existed", Some (pretty (already_existed outcome)))]%string) ;!
    eret outcome).

(** [platform_kill_switch::repo::list_active]. *)
Definition oldest_engaged (a b : PlatformKillSwitch) : Prop := pk_engaged_at a <= pk_engaged_at b.
#[export] Instance oldest_engaged_dec : RelDecision oldest_engaged.
Proof. intros a b. unfold oldest_engaged. apply _. Defined.
Definition list_active_platform (c : Cluster) : list PlatformKillSwitch :=
  merge_sort oldest_engaged (filter (λ p, pk_released_at p = None) (map_values (cl_platform_switch c))).

(** [stats]: one row per channel and status of the requests since an instant. *)
Record ChannelStatusCount : Type := MkStat { sc_channel : string; sc_status : string; sc_count : nat }.
Definition STATS_CHANNELS : list string := ["sms"; "email"]%string.
Definition counted (since : option Z) (kv : (Z * N) * CommsRequest) : bool :=
  bool_decide (cr_channel kv.2 ∈ STATS_CHANNELS) && match since with None => true | Some t => t <=? kv.1.1 end.
Definition group_of (kv : (Z * N) * CommsRequest) : string * string := (cr_channel kv.2, default "pending"%string (cr_final_status kv.2)).
Definition group_counts (l : list ((Z * N) * CommsRequest)) : gmap (string * string) nat :=
  foldr (λ kv m, <[group_of kv := S (default 0%nat (m !! group_of kv))]> m) ∅ l.
Definition stat_order (a b : ChannelStatusCount) : Prop :=
  String.ltb (sc_channel a) (sc_channel b) = true ∨ (sc_channel a = sc_channel b ∧ String.leb (sc_status a) (sc_status b) = true).
#[export] Instance stat_order_dec : RelDecision stat_order.
Proof. intros a b. unfold stat_order. apply _. Defined.
Definition stats_rows (since : option Z) (d : Db) : list ChannelStatusCount :=
  merge_sort stat_order ((λ gn : (string * string) * nat, MkStat gn.1.1 gn.1.2 gn.2)
    <$> map_to_list (group_counts (filter (λ kv, counted since kv = true) (map_to_list (db_request d))))).
Definition tenant_message_stats `{!PgUrl} (base_db_url tenant_slug : string) (since : option Z) : CEff SettingError (list ChannelStatusCount) :=
  by_slug base_db_url StDatabase setting_of_connect tenant_slug (ethrow (StDatabase rejection.NO_SLUG))
    (λ _ pool, elift StDatabase (pool_query pool (λ _ d, stats_rows ((λ date, and_time date 0) <$> since) (td_tables d)))).

(** [sort_unstable] and [dedup] of strings. *)
Definition string_order (a b : string) : Prop := String.leb a b = true.
#[export] Instance string_order_dec : RelDecision string_order.
Proof. intros a b. unfold string_order. apply _. Defined.
Fixpoint dedup (l : list string) : list string :=
  match l with
  | a :: l => match l with b :: _ => if decide (a = b) then dedup l else a :: dedup l | [] => [a] end
  | [] => []
  end.
Definition channel_total (rows : list ChannelStatusCount) (ch : string) : nat :=
  sum_list (sc_count <$> filter (λ r, sc_channel r = ch) rows).

(** ** The dispatch *)

(** A printed line of [key=value] pairs. *)
Definition fields (l : list (string * string)) : string := String.concat " " ((λ kv : string * string, kv.1 +:+ "=" +:+ kv.2) <$> l)%string.
Definition show_nat (n : nat) : string := pretty n.
Definition show_bool (b : bool) : string := (if b then "true" else "false")%string.
Definition outcome_line (outcome : string) : list string := [fields [("outcome", outcome)]]%string.
(** The rows of a listing, or the line that says there are none. *)
Definition listing {A} (none : string) (show : A → string) (rows : list A) : list string :=
  match rows with [] => [none] | _ => show <$> rows end.

Section Run.
Context `{PU : !PgUrl} `{UT : !UuidText} `{CT : !ChronoText} `{CP : !ChronoParse} `{CA : !Calendar} `{TS : !Tablespaces} `{DI : !Disk}.
Context (config : Config) (vault : result VaultSession KeyStoreError).
(** The control migrations, those of a tenant with the version they leave, the text of
    a file, the HMAC of a destination, the names of a partition's indexes, and whether
    arithmetic is checked for overflow. *)
Context (migrate_control : CEff SqlxError unit) (migrate : string → CEff SqlxError unit) (schema_version : TenantDb → Z).
Context (read_to_string : string → option string) (compute : string → string → string) (indexes : string → list string) (overflow_checks : bool).
(** [run_for_tenant] of the two receipt passes. *)
Context (reconcile_for_tenant : VaultStore → string → CEff PromoteError ReconcileReport)
  (promote_for_tenant : VaultStore → string → CEff PromoteError PromoteReport).
(** The format of a quoted string, a drawn id and token, the environment, whether the
    TLS material loads, and which listener of the console ends first. *)
Context (debug : string → string) (fresh : N) (token : string) (env : gmap string string) (tls_loads : string → string → bool)
  (health_ends_first : bool).

Definition url : string := cg_control_database_url config.
Definition connected : CEff ControlError VaultSession := connect_vault vault (cg_profile config).
Definition show_limit (o : option Z) : string := match o with Some n => pretty n | None => "unlimited"%string end.

Definition region_failure (e : SqlxError) : ControlError :=
  match e with SqlConfiguration mismatch => Failed mismatch | _ => Failed "region check failed" end.
Definition refusal_failure (e : SqlxError) : ControlError :=
  match e with SqlConfiguration refusal => Failed refusal | _ => Failed "failed to record the provision refusal" end.

Definition run_provision (slug region database_name actor : string) : CEff ControlError (list string) :=
  elift refusal_failure (refuse_foreign_region actor slug region (cg_region config)) ;!
  session ←! connected;
  outcome ←! attempt "failed to provision tenant"
    (provision_tenant (vn_admin session) migrate schema_version (fresh, token) url slug region database_name actor);
  eret ([uuid_str (pv_tenant_id outcome); fields [("vault_role_id"%string, pv_vault_role_id outcome)]]
        ++ match pv_vault_wrapped_secret_id outcome with
           | Some token => [fields [("vault_wrapped_secret_id"%string, token)]]
           | None => []
           end).

Definition run_offboard (tenant_slug confirm_slug actor : string) : CEff ControlError (list string) :=
  if decide (confirm_slug = tenant_slug) then
    session ←! connected;
    tenant ←! attempt "failed to look up tenant" (query (λ _, find_by_slug tenant_slug));
    tenant ←! eof (ok_or tenant (Failed "no tenant registered with slug"));
    attempt "failed to destroy tenant" (destroy_tenant (vn_admin session) (tt_id tenant) actor) ;!
    eret ["destroyed tenant " +:+ tenant_slug +:+ " (" +:+ uuid_str (tt_id tenant) +:+ ")"]%string
  else ethrow (Failed "refusing to destroy tenant").

Definition run_producer (command : ProducerCommand) : CEff ControlError (list string) :=
  match command with
  | PrRegister tenant_slug name cert_subject owner_team contact actor =>
      outcome ←! attempt "failed to register producer" (register_producer name cert_subject owner_team contact actor url tenant_slug fresh);
      eret (uuid_str (ro_producer_id outcome) :: outcome_line (ro_outcome outcome))
  | PrDisable tenant_slug name actor =>
      outcome ←! attempt "failed to disable producer" (disable_producer name actor url tenant_slug);
      eret (outcome_line outcome)
  | PrList tenant_slug =>
      producers ←! attempt "failed to list producers" (list_producers_by_slug url tenant_slug);
      eret ((λ p, uuid_str (pr_id p) +:+ " " +:+ fields
               [("name", pr_name p); ("cert_subject", pr_cert_subject p); ("owner_team", pr_owner_team p); ("contact", pr_contact p);
                ("enabled", show_bool (pr_enabled p))])%string <$> producers)
  end.

Definition run_dev_pki (command : DevPkiCommand) : CEff ControlError (list string) :=
  session ←! connected;
  match command with
  | DpBootstrap => bootstrap (vn_pki session) (cg_profile config) ;! eret ["dev PKI bootstrapped: mount=pki role=producer-dev"%string]
  | DpIssueCert common_name out_dir server =>
      cert ←! (if server : bool then issue_server_cert (vn_pki session) (cg_profile config) common_name
               else issue_cert (vn_pki session) (cg_profile config) common_name);
      attempt "failed to create the directory" (disk_step (λ k, (k, tt))) ;!
      attempt "failed to write cert.pem" (disk_step (λ k, (<[out_dir +:+ "/cert.pem" := [ce_certificate cert]]> k, tt)))%string ;!
      attempt "failed to write key.pem" (disk_step (λ k, (<[out_dir +:+ "/key.pem" := [ce_private_key cert]]> k, tt)))%string ;!
      attempt "failed to write ca.pem" (disk_step (λ k, (<[out_dir +:+ "/ca.pem" := [ce_issuing_ca cert]]> k, tt)))%string ;!
      eret ["wrote cert.pem, key.pem, ca.pem to " +:+ out_dir]%string
  end.

Definition run_tenant_config (command : TenantConfigCommand) : CEff ControlError (list string) :=
  match command with
  | TcSet tenant_slug retention_years default_timezone default_locale schedule_horizon_days quota_day_boundary_tz
      verification_mode_arg kill_switch_release_rate reconcile_attempts_cap actor =>
      let input := MkConfig retention_years default_timezone default_locale (default 90 schedule_horizon_days) quota_day_boundary_tz
                     (default verification_mode.OBSERVE verification_mode_arg) (default 500 kill_switch_release_rate)
                     (default 5 reconcile_attempts_cap) in
      outcome ←! attempt "failed to set tenant_config" (set_tenant_config url tenant_slug input actor);
      eret (outcome_line outcome)
  | TcShow tenant_slug =>
      row ←! attempt "failed to show tenant_config" (show_tenant_config url tenant_slug);
      eret [match row with
            | Some c => fields [("retention_years", pretty (cf_retention_years c)); ("default_timezone", cf_default_timezone c);
                ("default_locale", cf_default_locale c); ("schedule_horizon_days", pretty (cf_schedule_horizon_days c));
                ("quota_day_boundary_tz", cf_quota_day_boundary_tz c); ("verification_mode", cf_verification_mode c);
                ("kill_switch_release_rate", pretty (cf_kill_switch_release_rate c));
                ("reconcile_attempts_cap", pretty (cf_reconcile_attempts_cap c))]
            | None => "not configured"
            end]%string
  end.

Definition run_customer_dek (command : CustomerDekCommand) : CEff ControlError (list string) :=
  session ←! connected;
  let '(CdPreProvision tenant_slug customer_id actor) := command in
  outcome ←! attempt "failed to pre-provision DEKs" (pre_provision_for_tenant url tenant_slug (vn_store session) customer_id actor);
  eret [fields [("created", show_nat (created outcome)); ("already_existed", show_nat (already_existed outcome))]]%string.

(** The [key=value] pairs of [Render], the last one winning. *)
Fixpoint parse_vars (var : list string) (acc : gmap string string) : option (gmap string string) :=
  match var with
  | [] => Some acc
  | assignment :: var => '(key, value) ← split_once "=" assignment; parse_vars var (<[key := value]> acc)
  end.

Definition run_template (command : TemplateCommand) : CEff ControlError (list string) :=
  match command with
  | TmApprove tenant_slug template_id version ch locale body_file actor =>
      body ←! eof (ok_or (read_to_string body_file) (Failed "failed to read the body file"));
      outcome ←! attempt "failed to approve template" (approve_template url tenant_slug template_id version ch locale body actor);
      eret (outcome_line outcome)
  | TmShow tenant_slug template_id version locale =>
      template ←! attempt "failed to show template" (show_template url tenant_slug template_id version locale);
      eret [match template with
            | Some t => fields [("template_id", template_id); ("version", pretty version); ("channel", te_channel t); ("locale", locale);
                ("approved_by", te_approved_by t); ("approved_at", show_datetime (te_approved_at t)); ("body", debug (te_body t))]
            | None => "not found"
            end]%string
  | TmList tenant_slug template_id =>
      templates ←! attempt "failed to list template versions" (list_template_versions url tenant_slug template_id);
      eret ((λ row : (Z * string) * Template,
               fields [("version", pretty row.1.1); ("locale", row.1.2); ("channel", te_channel row.2); ("approved_by", te_approved_by row.2);
                 ("approved_at", show_datetime (te_approved_at row.2))]%string) <$> templates)
  | TmRender tenant_slug template_id version locale var =>
      variables ←! eof (ok_or (parse_vars var ∅) (Failed "--var must be in key=value form"));
      rendered ←! attempt "failed to render template" (render_preview url tenant_slug template_id version locale variables);
      eret [rendered]
  end.

Definition run_provider_config (command : ProviderConfigCommand) : CEff ControlError (list string) :=
  match command with
  | PcSet tenant_slug ch priority provider credential_path rate_limit_per_sec actor =>
      outcome ←! attempt "failed to set provider_config" (set_provider_config url tenant_slug
        (MkProviderInput ch priority (MkProvider provider credential_path rate_limit_per_sec)) actor);
      eret (outcome_line outcome)
  | PcList tenant_slug ch =>
      rows ←! attempt "failed to list provider_config" (list_provider_config url tenant_slug ch);
      eret (listing ("no provider configured for channel " +:+ ch)%string (λ row : Z * ProviderConfig,
        fields [("priority", pretty row.1); ("provider", pv_provider row.2); ("credential_path", pv_credential_path row.2);
          ("rate_limit_per_sec", pretty (pv_rate_limit_per_sec row.2))]%string) rows)
  end.

Definition run_suppression (command : SuppressionCommand) : CEff ControlError (list string) :=
  session ←! connected;
  match command with
  | SpAdd tenant_slug destination reason review_at actor =>
      review_at ←! eof (ok_or (parse_rfc3339 review_at) (Failed "invalid --review-at"));
      outcome ←! attempt "failed to add suppression entry"
        (add_suppression url (vn_store session) compute tenant_slug destination reason review_at actor);
      eret (outcome_line outcome)
  | SpList tenant_slug =>
      rows ←! attempt "failed to list suppression entries" (list_suppression url tenant_slug);
      match rows with
      | [] => eret ["no suppression entries for tenant " +:+ tenant_slug]%string
      | _ =>
          now ←! utc_now;
          eret ((λ row : string * Suppression,
            fields [("destination_hmac", hex_encode row.1); ("reason", su_reason row.2); ("added_at", show_datetime (su_added_at row.2));
              ("review_at", show_datetime (su_review_at row.2));
              ("status", if (now <? su_review_at row.2)%Z then "active" else "expired")]%string) <$> rows)
      end
  | SpRemove tenant_slug destination actor =>
      attempt "failed to remove suppression entry" (remove_suppression url (vn_store session) compute tenant_slug destination actor) ;!
      eret (outcome_line "retired")
  end.

Definition run_consent (command : ConsentCommand) : CEff ControlError (list string) :=
  session ←! connected;
  let '(CnSet tenant_slug destination ch cl opted_in source actor) := command in
  outcome ←! attempt "failed to set consent"
    (set_consent url (vn_store session) compute tenant_slug destination ch cl opted_in source actor);
  eret (outcome_line outcome).

Definition run_producer_quota (command : ProducerQuotaCommand) : CEff ControlError (list string) :=
  match command with
  | PqSet tenant_slug producer_name ch cl per_minute per_day enforcement actor =>
      outcome ←! attempt "failed to set producer quota"
        (set_producer_quota url tenant_slug producer_name ch cl (MkQuota per_minute per_day enforcement) actor);
      eret (outcome_line outcome)
  | PqList tenant_slug =>
      rows ←! attempt "failed to list producer quotas" (list_producer_quota url tenant_slug);
      eret (listing ("no producer_quota rows for tenant " +:+ tenant_slug)%string (λ row : QuotaKey * ProducerQuota,
        fields [("producer_id", uuid_str row.1.1.1); ("channel", row.1.1.2); ("class", row.1.2); ("per_minute", show_limit (pq_per_minute row.2));
          ("per_day", show_limit (pq_per_day row.2)); ("enforcement", pq_enforcement row.2)]%string) rows)
  | PqOverrideAdd tenant_slug producer_name ch cl per_day valid_from valid_to approved_by reason actor =>
      valid_from ←! eof (ok_or (parse_rfc3339 valid_from) (Failed "invalid --valid-from"));
      valid_to ←! eof (ok_or (parse_rfc3339 valid_to) (Failed "invalid --valid-to"));
      id ←! attempt "failed to add producer quota override"
        (add_producer_quota_override url fresh tenant_slug producer_name ch cl per_day valid_from valid_to approved_by reason actor);
      eret [fields [("id", uuid_str id)]]%string
  | PqOverrideList tenant_slug =>
      rows ←! attempt "failed to list producer quota overrides" (list_producer_quota_overrides url tenant_slug);
      eret (listing ("no producer_quota_override rows for tenant " +:+ tenant_slug)%string (λ row : N * ProducerQuotaOverride,
        let o := row.2 in
        fields [("id", uuid_str row.1); ("producer_id", uuid_str (po_producer_id o)); ("channel", po_channel o); ("class", po_class o);
          ("per_day", pretty (po_per_day o)); ("valid_from", show_datetime (po_valid_from o)); ("valid_to", show_datetime (po_valid_to o));
          ("approved_by", po_approved_by o); ("reason", po_reason o)]%string) rows)
  end.

Definition run_quiet_hours (command : QuietHoursCommand) : CEff ControlError (list string) :=
  match command with
  | QhSet tenant_slug start_local end_local actor =>
      outcome ←! attempt "failed to set quiet_hours_policy"
        (set_quiet_hours_policy url tenant_slug (MkPolicy start_local end_local) actor);
      eret (outcome_line outcome)
  | QhShow tenant_slug =>
      policy ←! attempt "failed to show quiet_hours_policy" (show_quiet_hours_policy url tenant_slug);
      eret [match policy with
            | Some p => fields [("start_local", show_time (qh_start_local p)); ("end_local", show_time (qh_end_local p))]
            | None => "no quiet-hours policy configured for tenant " +:+ tenant_slug
            end]%string
  end.

Definition run_partition_lifecycle (tenant_slug : string) : CEff ControlError (list string) :=
  now ←! utc_now;
  report ←! attempt "partition lifecycle run failed" (run_for_tenant indexes overflow_checks url tenant_slug now);
  eret (fields [("created"%string, show_nat (length (lr_created report))); ("moved"%string, show_nat (length (lr_moved report)));
                ("dropped"%string, show_nat (length (lr_dropped report)))]
        :: (if lr_retention_skipped report then ["retention: skipped (tenant_config not set)"%string] else [])).

Definition run_idempotency_sweep (tenant_slug : string) : CEff ControlError (list string) :=
  now ←! utc_now;
  deleted ←! attempt "idempotency sweep failed" (sweep_for_tenant url tenant_slug now);
  eret [fields [("deleted", show_nat deleted)]]%string.

Definition run_orphan_reconcile (tenant_slug : string) : CEff ControlError (list string) :=
  session ←! connected;
  report ←! attempt "orphan reconcile run failed" (reconcile_for_tenant (vn_store session) tenant_slug);
  eret [fields [("reconciled", show_nat (reconciled report)); ("aged_out", show_nat (aged_out report));
                ("still_pending", show_nat (still_pending report))]]%string.

Definition run_webhook_promote (tenant_slug : string) : CEff ControlError (list string) :=
  session ←! connected;
  report ←! attempt "webhook promote run failed" (promote_for_tenant (vn_store session) tenant_slug);
  eret [fields [("promoted", show_nat (promoted report)); ("orphaned", show_nat (orphaned report))]]%string.

Definition stats_lines (rows : list ChannelStatusCount) : list string :=
  let channels := dedup (merge_sort string_order (sc_channel <$> rows)) in
  ch ← channels;
  (ch +:+ " " +:+ fields [("total", show_nat (channel_total rows ch))])%string
  :: ((λ r, ch +:+ " " +:+ fields [("status", sc_status r); ("count", show_nat (sc_count r))])%string
        <$> filter (λ r, sc_channel r = ch) rows).
Definition run_stats (tenant_slug : string) (since : option Z) : CEff ControlError (list string) :=
  rows ←! attempt "failed to compute stats" (tenant_message_stats url tenant_slug since);
  eret (stats_lines rows).

Definition run_platform_kill_switch (command : PlatformKillSwitchCommand) : CEff ControlError (list string) :=
  match command with
  | PkEngage scope tenant_slug reason actor =>
      tenant_id ←! match tenant_slug with
                   | Some slug =>
                       tenant ←! attempt "tenant lookup failed" (query (λ _, find_by_slug slug));
                       tenant ←! eof (ok_or tenant (Failed "no tenant registered with slug"));
                       eret (Some (tt_id tenant))
                   | None => eret None
                   end;
      done_ ←! attempt "failed to engage platform kill switch" (engage_platform url fresh scope tenant_id reason actor);
      eret ["outcome=engaged " +:+ fields [("id", uuid_str (eo_id done_.1)); ("notified", show_nat (fo_notified done_.2));
              ("notify_failed", show_nat (fo_failed done_.2))]]%string
  | PkRelease id actor =>
      done_ ←! attempt "failed to release platform kill switch" (release_platform_switch url id (uuid_str id) actor);
      eret [fields [("outcome", rl_outcome done_.1); ("notified", show_nat (fo_notified done_.2));
              ("notify_failed", show_nat (fo_failed done_.2))]]%string
  | PkList =>
      rows ←! attempt "failed to list platform kill switches" (query (λ _, list_active_platform));
      eret (listing "no platform kill switches engaged" (λ row,
        fields [("id", uuid_str (pk_id row)); ("scope", pk_scope row); ("tenant_id", default "-" (uuid_str <$> pk_tenant_id row));
          ("engaged_by", pk_engaged_by row); ("engaged_at", show_datetime (pk_engaged_at row)); ("reason", debug (pk_reason row))]%string) rows)
  end.

(** [Serve]: neither listener returns in normal operation, so its end is an error. *)
Definition run_serve (cert_file key_file : string) : CEff ControlError (list string) :=
  _ ←! eof (ok_or (env !! "PLATFORM_MOCK_AUTH_ACTOR"%string) (Failed "PLATFORM_MOCK_AUTH_ACTOR must be set"));
  _ ←! eof (ok_or (env !! "PLATFORM_MOCK_AUTH_ROLE"%string) (Failed "PLATFORM_MOCK_AUTH_ROLE must be set"));
  if is_dev (cg_profile config) then
    if tls_loads cert_file key_file then
      ethrow (Failed (if health_ends_first then "platform console health listener exited" else "platform console listener exited"))
    else ethrow (Failed "failed to load TLS material")
  else ethrow CtlPanic.

(** The commands that look at no tenant, or at one that may be of the wrong region. *)
Definition exempt (command : Command) : bool :=
  match command with CMigrate | CDevPki _ | COffboardDestroy _ _ _ => true | _ => false end.

Definition dispatch (command : Command) : CEff ControlError (list string) :=
  match command with
  | CMigrate =>
      attempt "failed to run control database migrations" migrate_control ;! eret ["control database migrations applied"%string]
  | CProvision slug region database_name actor => run_provision slug region database_name actor
  | COffboardDestroy tenant_slug confirm_slug actor => run_offboard tenant_slug confirm_slug actor
  | CProducer command => run_producer command
  | CDevPki command => run_dev_pki command
  | CTenantConfig command => run_tenant_config command
  | CCustomerDek command => run_customer_dek command
  | CTemplate command => run_template command
  | CProviderConfig command => run_provider_config command
  | CSuppression command => run_suppression command
  | CConsent command => run_consent command
  | CProducerQuota command => run_producer_quota command
  | CQuietHours command => run_quiet_hours command
  | CPartitionLifecycle tenant_slug => run_partition_lifecycle tenant_slug
  | CIdempotencySweep tenant_slug => run_idempotency_sweep tenant_slug
  | COrphanReconcile tenant_slug => run_orphan_reconcile tenant_slug
  | CWebhookPromote tenant_slug => run_webhook_promote tenant_slug
  | CStats tenant_slug since => run_stats tenant_slug since
  | CPlatformKillSwitch command => run_platform_kill_switch command
  | CServe cert_file key_file => run_serve cert_file key_file
  | CVersion => ethrow CtlPanic
  end.

(** [run]: the region check, then the command. *)
Definition run_control (command : Command) : CEff ControlError (list string) :=
  (if exempt command then eret tt else elift region_failure (assert_region (cg_region config))) ;!
  dispatch command.

(** [main], once the control database is connected: what is printed, and whether the
    process succeeds; [None] is a panic. *)
Definition VERSION_LINE : string := "messgr-control".
Definition main (command : Command) (w : CW) : CW * option (list string * bool) :=
  match command with
  | CVersion => (w, Some ([VERSION_LINE], true))
  | _ => match run_control command w with
         | (w', Ok lines) => (w', Some (lines, true))
         | (w', Err (Failed message)) => (w', Some (["error: " +:+ message]%string, false))
         | (w', Err CtlPanic) => (w', None)
         end
  end.
End Run.
