(* ===== verification/Columns.v ===== *)
(** * What the command line lets into the columns

    The settings columns of a tenant database are plain [text] and [int]: the schema has
    no checks on them. This file proves that the commands of Control.v, given arguments
    that clap accepts, keep every such column within its type and vocabulary, that
    commands which must be refused change nothing, and that the message statistics add
    up. *)

From S2P Require Import Prelude RustStd Time Schema KillSwitch Quota QuietHours Dek Render Customer Outbox Ingest Receipts Tenancy Producers Platform Webhook Lifecycle Otp Settings Permissions Calendar Partitions Aside QueryApi Admin Control.
From stdpp Require Import base gmap strings list sorting pretty.
From Stdlib Require Import ZArith Lia.

Local Open Scope effect_scope.
Local Open Scope Z_scope.

(** ** The types of the columns *)

Definition config_typed (c : TenantConfig) : bool :=
  i32_from 0 (cf_retention_years c) && i32_from 0 (cf_schedule_horizon_days c) && one_of verification_modes (cf_verification_mode c)
  && i32_from 0 (cf_kill_switch_release_rate c) && i16_from 1 (cf_reconcile_attempts_cap c).
Definition quota_typed (ch cl : string) (q : ProducerQuota) : bool :=
  one_of channels ch && one_of quota_classes cl && when in_i32 (pq_per_minute q) && when in_i32 (pq_per_day q)
  && one_of enforcements (pq_enforcement q).
Definition override_typed (o : ProducerQuotaOverride) : bool :=
  one_of channels (po_channel o) && one_of quota_classes (po_class o) && i32_from 1 (po_per_day o) && (po_valid_from o <=? po_valid_to o).

Record typed (f : Filed) : Prop := {
  ty_config c : fl_config f = Some c → config_typed c = true;
  ty_provider ch p v : fl_provider f !! (ch, p) = Some v →
    one_of channels ch && in_i16 p && in_i32 (pv_rate_limit_per_sec v) = true;
  ty_quiet k q : fl_quiet_hours f !! k = Some q → local_time (qh_start_local q) && local_time (qh_end_local q) = true;
  ty_quota p ch cl q : fl_quota f !! (p, ch, cl) = Some q → quota_typed ch cl q = true;
  ty_override i o : fl_override f !! i = Some o → override_typed o = true;
  ty_consent a cl x : fl_consent f !! (a, cl) = Some x → one_of [class.TRANSACTIONAL; class.MARKETING] cl = true;
  ty_suppression h s : fl_suppression f !! h = Some s → one_of suppression_reasons (su_reason s) = true;
  ty_template t v l x : fl_template f !! (t, v, l) = Some x → in_i32 v && one_of channels (te_channel x) = true;
}.
Definition all_typed (c : Cluster) : Prop := ∀ pool d, cl_database c !! pool = Some d → typed (filed d).
(** What every process does to the settings: it files nothing that is out of type. *)
Definition typed_step (c c' : Cluster) : Prop := all_typed c → all_typed c'.

Lemma typed_empty : typed (filed empty_tenant_db).
Proof. split; simpl; intros; by simplify_map_eq. Qed.

#[export] Instance typed_step_pre : PreOrder typed_step.
Proof. split; [intros c Hc; exact Hc|]. intros c1 c2 c3 H1 H2 H. by apply H2, H1. Qed.
Lemma typed_pool pool d d' c :
  cl_database c !! pool = Some d → (typed (filed d) → typed (filed d')) → typed_step c (on_database (<[pool := d']>) c).
Proof.
  intros Hd Hl Hc p x. simpl. rewrite lookup_insert_Some. intros [[<- <-]|[_ Hx]]; [by eapply Hl, Hc|by eapply Hc].
Qed.
#[export] Instance typed_aside : Aside typed_step.
Proof.
  split; [apply _| | | |].
  - intros c c' E Hc p d. rewrite E. apply Hc.
  - intros c pool d d' Hd E. eapply typed_pool; [exact Hd|]. by rewrite E.
  - intros c pool _ Hc p d. simpl. rewrite lookup_insert_Some. intros [[_ <-]|[_ Hd]]; [apply typed_empty|by eapply Hc].
  - intros c pool Hc p d. simpl. rewrite lookup_delete_Some. intros [_ Hd]. by eapply Hc.
Qed.

(** A statement on a pool that files what is in type. *)
Lemma typed_put pool (put : Z → TenantDb → result TenantDb SqlxError) :
  (∀ t d d', put t d = Ok d' → typed (filed d) → typed (filed d')) → guar typed_step (pool_sql pool (λ t, put_stmt (put t))).
Proof. intros Hp. apply pool_put_guar; [apply _|]. intros t c d d' Hd Hr. eapply typed_pool; [exact Hd|by eapply Hp]. Qed.

(** Splits [typed] and leaves the column that changed. *)
Ltac solve_typed :=
  let H := fresh "Hty" in intros H; destruct H; split; simpl in *; try assumption;
  intros; simplify_eq/=; repeat match goal with
  | H : <[_ := _]> _ !! _ = Some _ |- _ => apply lookup_insert_Some in H as [[? ?]|[_ ?]]; simplify_eq
  end; eauto.

(** ** The settings *)

Section Sets.
Context `{PU : !PgUrl} `{UT : !UuidText} `{CT : !ChronoText} (url : string).
Context (ks : VaultStore) (plain : string → string → string) `{HV : !VaultStoreLaws ks plain} (compute : string → string → string).
Notation guar := (guar typed_step).

Lemma pepper_typed t : guar (ensure_tenant_pepper ks t).
Proof.
  pose proof (vs_create_guar (ks:=ks) typed_step). pose proof (vs_unwrap_guar (ks:=ks) typed_step).
  unfold ensure_tenant_pepper, record_vault_pepper_wrapped. step_guar. by apply aside_exec; [apply _|].
Qed.
Lemma set_inner_typed {I V K} `{!EqDecision K} `{!Countable K} (s : Setting I V) `{L : !SettingLaws s K} pool t actor i :
  (∀ now d d', sl_put (s:=s) now i d = Ok d' → typed (filed d) → typed (filed d')) → guar (set_inner s pool t actor i).
Proof.
  intros Hp. assert (guar (sg_upsert s pool i)) as Hu.
  { apply sl_guar; [apply _|]. intros now c d d' Hd Hr. eapply typed_pool; [exact Hd|by eapply Hp]. }
  unfold set_inner. step_guar. rewrite sl_audit. apply aside_audit, _.
Qed.
Lemma set_by_slug_typed {I V K} `{!EqDecision K} `{!Countable K} (s : Setting I V) `{L : !SettingLaws s K} slug actor i :
  (∀ now d d', sl_put (s:=s) now i d = Ok d' → typed (filed d) → typed (filed d')) → guar (set_by_slug url s slug i actor).
Proof.
  intros Hp. apply slug_pool_guar; [apply _| |intros t pool; by apply (set_inner_typed s)].
  rewrite sl_audit. step_guar.
Qed.

Lemma set_config_typed slug i actor : config_typed i = true → guar (set_tenant_config url slug i actor).
Proof.
  intros Hi. apply slug_pool_guar; [apply _|unfold audit_config; step_guar|]. intros t pool.
  unfold set_tenant_config_inner, set_config_tx, lock_config, load_config, upsert_config, audit_config. cbv zeta. step_guar.
  all: try (apply tx_guar_sql; intros ? ? ? ? Hq; by apply pool_query_id in Hq as [-> _]).
  apply tx_guar_pool; [apply _|]. intros ? c d d' ? Hd [= <- _]. eapply typed_pool; [exact Hd|]. solve_typed.
Qed.
Lemma set_quiet_hours_typed slug i actor :
  local_time (qh_start_local i) && local_time (qh_end_local i) = true → guar (set_quiet_hours_policy url slug i actor).
Proof. intros Hi. apply (set_by_slug_typed quiet_hours_setting). intros now d d' [= <-]. solve_typed. Qed.
Lemma set_provider_typed slug i actor :
  one_of channels (pi_channel i) && in_i16 (pi_priority i) && in_i32 (pv_rate_limit_per_sec (pi_config i)) = true →
  guar (set_provider_config url slug i actor).
Proof. intros Hi. apply (set_by_slug_typed provider_setting). intros now d d' [= <-]. solve_typed. Qed.
Lemma set_quota_typed slug name ch cl q actor : quota_typed ch cl q = true → guar (set_producer_quota url slug name ch cl q actor).
Proof.
  intros Hi. apply with_producer_guar; [apply _|intros; apply aside_audit, _|]. intros t pool p. cbv zeta.
  destruct (illegal_quota cl _); [unfold audit_quota; step_guar|]. apply (set_inner_typed quota_setting).
  intros now d d'. simpl. unfold put_quota, qi_key. case_match; [|done]. intros [= <-]. solve_typed.
Qed.
Lemma add_override_typed id slug name ch cl n from to_ by_ reason actor :
  one_of channels ch && one_of quota_classes cl && in_i32 n = true →
  guar (add_producer_quota_override url id slug name ch cl n from to_ by_ reason actor).
Proof.
  intros Hi. apply with_producer_guar; [apply _|intros; apply aside_audit, _|]. intros t pool p. cbv zeta.
  destruct (override_rejection cl n from to_) as [e|] eqn:Hr; [unfold audit_override_add; step_guar|].
  assert (override_typed (override_row (MkOverrideInput p ch cl n from to_ by_ reason)) = true) as Ho.
  { unfold override_rejection in Hr. case_decide; [done|]. destruct (to_ <=? from) eqn:E1; [done|].
    destruct (n <=? 0) eqn:E2; [done|]. unfold override_typed, i32_from. simpl. unfold in_i32 in *.
    apply Z.leb_gt in E1, E2. pose proof (timestamptz_mono from to_ ltac:(lia)). rewrite !andb_true_iff in *. rewrite !Z.leb_le in *. split_and!; try tauto; lia. }
  apply guar_bind; [apply _|apply guar_lift|intros _; unfold audit_override_add; step_guar].
  apply guar_pool; [apply _|]. intros t' c d d' a Hd. repeat case_match; try done. intros [= <- _].
  eapply typed_pool; [exact Hd|]. solve_typed.
Qed.
Lemma set_consent_typed slug dest ch cl b source actor :
  one_of [class.TRANSACTIONAL; class.MARKETING] cl = true → guar (set_consent url ks compute slug dest ch cl b source actor).
Proof.
  intros Hi. pose proof pepper_typed. apply slug_pool_guar; [apply _|unfold audit_consent; step_guar|]. intros t pool. cbv zeta.
  unfold audit_consent. step_guar. apply (set_inner_typed consent_setting). intros now d d'. simpl. unfold put_consent.
  case_match; [|done]. intros [= <-]. solve_typed.
Qed.
Lemma add_suppression_typed slug dest reason at_ actor :
  one_of suppression_reasons reason = true → guar (add_suppression url ks compute slug dest reason at_ actor).
Proof.
  intros Hi. pose proof pepper_typed. apply slug_pool_guar; [apply _|unfold audit_add; step_guar|]. intros t pool. cbv zeta.
  step_guar. apply (set_inner_typed suppression_setting). intros now d d' [= <-]. solve_typed.
Qed.
Lemma remove_suppression_typed slug dest actor : guar (remove_suppression url ks compute slug dest actor).
Proof.
  pose proof pepper_typed. apply slug_pool_guar; [apply _|step_guar|]. intros t pool. cbv zeta. unfold audit_remove, retire_now. step_guar.
  apply guar_pool; [apply _|]. intros ? c d d' ? Hd [= E]. eapply typed_pool; [exact Hd|]. revert E. unfold retire.
  case_match eqn:Hs; [case_match|]; intros [= <- _]; [|done..]. solve_typed. simpl; eauto.
Qed.
Lemma approve_typed slug id v ch l body actor :
  in_i32 v && one_of channels ch = true → guar (approve_template url slug id v ch l body actor).
Proof.
  intros Hi. apply slug_pool_guar; [apply _|unfold audit_template; step_guar|]. intros t pool.
  unfold approve_template_inner, insert_template_if_absent, audit_template. step_guar.
  apply guar_pool; [apply _|]. intros ? c d d' ? Hd [= E]. eapply typed_pool; [exact Hd|]. revert E. unfold insert_template.
  case_match; intros [= <- _]; [done|]. solve_typed.
Qed.
End Sets.

(** ** The commands *)

(** Vault keeps out of the databases, by each of the three interfaces. *)
Class PkiLaws (client : PkiClient) : Prop := {
  pki_guar (R : relation Cluster) `{!PreOrder R} :
    guar R (pi_list_mounts client) ∧ (∀ m t, guar R (pi_enable_mount client m t)) ∧ (∀ m, guar R (pi_list_issuers client m))
    ∧ (∀ m n t, guar R (pi_generate_root client m n t)) ∧ (∀ m r, guar R (pi_set_role client m r))
    ∧ (∀ m r n s, guar R (pi_issue client m r n s));
}.
Record session_ok (plain : string → string → string) (s : VaultSession) : Prop := {
  so_admin : VaultClientLaws (vn_admin s); so_store : VaultStoreLaws (vn_store s) plain; so_pki : PkiLaws (vn_pki s);
}.

Section Commands.
Context `{PU : !PgUrl} `{UT : !UuidText} `{CT : !ChronoText} `{CP : !ChronoParse} `{CA : !Calendar} `{TS : !Tablespaces} `{DI : !Disk}.
Context (config : Config) (vault : result VaultSession KeyStoreError) (plain : string → string → string).
Context (migrate_control : CEff SqlxError unit) (migrate : string → CEff SqlxError unit) (schema_version : TenantDb → Z).
Context (read_to_string : string → option string) (compute : string → string → string) (indexes : string → list string) (overflow_checks : bool).
Context (reconcile_for_tenant : VaultStore → string → CEff PromoteError ReconcileReport)
  (promote_for_tenant : VaultStore → string → CEff PromoteError PromoteReport).
Context (debug : string → string) (fresh : N) (token : string) (env : gmap string string) (tls_loads : string → string → bool)
  (health_ends_first : bool).
Notation run_control := (run_control config vault migrate_control migrate schema_version read_to_string compute indexes overflow_checks
  reconcile_for_tenant promote_for_tenant debug fresh token env tls_loads health_ends_first).
Notation dispatch := (dispatch config vault migrate_control migrate schema_version read_to_string compute indexes overflow_checks
  reconcile_for_tenant promote_for_tenant debug fresh token env tls_loads health_ends_first).

(** The two commands whose work is done in Receipts.v. *)
Definition receipt_pass (command : Command) : bool := match command with COrphanReconcile _ | CWebhookPromote _ => true | _ => false end.

Lemma attempt_guar {E A} `{!Panics E} (R : relation Cluster) `{!PreOrder R} message (m : CEff E A) : guar R m → guar R (attempt message m).
Proof. apply guar_lift. Qed.
Lemma connected_bind_guar {A} (R : relation Cluster) `{!PreOrder R} (k : VaultSession → CEff ControlError A) :
  (∀ s, vault = Ok s → guar R (k s)) → guar R (s ←! connected config vault; k s).
Proof.
  intros Hk. unfold connected, connect_vault. destruct vault as [s|e]; [destruct (assert_tls_outside_dev _ _)|].
  - intros w Hr. exact (Hk s eq_refl w Hr).
  - intros w Hr. split; [reflexivity|exact Hr].
  - intros w Hr. split; [reflexivity|exact Hr].
Qed.

(** Reads by slug leave everything as it is. *)
Lemma show_guar (R : relation Cluster) `{!PreOrder R} {A} slug (f : TenantDb → A) : guar R (show_by_slug (url config) slug f).
Proof. apply slug_pool_guar; [apply _|step_guar|]. intros t pool. step_guar. Qed.
Lemma read_templates_guar (R : relation Cluster) `{!PreOrder R} {A} slug (f : TenantDb → A) : guar R (read_templates (url config) slug f).
Proof.
  pose proof (λ id name, connect_guar (url config) id R name) as Hc. unfold read_templates, resolve_tenant. step_guar.
Qed.

Section Arms.
Context (R : relation Cluster) `{HA : !Aside R} (vault_ok : ∀ s, vault = Ok s → session_ok plain s).

Lemma run_provision_aside slug region db actor : (∀ pool, guar R (migrate pool)) →
  guar R (run_provision config vault migrate schema_version fresh token slug region db actor).
Proof.
  intros Hm. unfold run_provision, refuse_foreign_region. apply guar_bind; [apply _|step_guar|]. intros _.
  apply connected_bind_guar; [apply _|]. intros s [Hs _ _]%vault_ok. unfold attempt. step_guar. by apply aside_provision.
Qed.
Lemma run_offboard_aside slug confirm actor : guar R (run_offboard config vault slug confirm actor).
Proof.
  unfold run_offboard. case_decide; [|step_guar]. apply connected_bind_guar; [apply _|]. intros s [Hs _ _]%vault_ok.
  unfold attempt. step_guar. by apply aside_destroy.
Qed.
Lemma run_producer_aside command : guar R (run_producer config fresh command).
Proof.
  pose proof (λ id name, connect_guar (url config) id R name) as Hc.
  destruct command; simpl; unfold attempt, register_producer, disable_producer, reject_register, audit_register, audit_disable, audit_producer;
    step_guar.
  apply slug_pool_guar; [apply _|step_guar|]. intros t pool. step_guar.
Qed.
Lemma run_dev_pki_aside command : guar R (run_dev_pki config vault command).
Proof.
  apply connected_bind_guar; [apply _|]. intros s [_ _ Hs]%vault_ok. destruct (pki_guar (client:=vn_pki s) R) as (H1 & H2 & H3 & H4 & H5 & H6).
  assert (∀ A (f : gmap string (list string) → gmap string (list string) * A), guar R (disk_step f)) as Hd.
  { intros A f. apply guar_disk_step; [apply _|]. intros c. by apply aside_control. }
  destruct command; unfold bootstrap, issue_cert, issue_server_cert, dev_only, ensure_pki_mount, has_issuer, attempt; step_guar.
Qed.
Lemma run_customer_dek_aside command : guar R (run_customer_dek config vault command).
Proof.
  apply connected_bind_guar; [apply _|]. intros s [_ Hs _]%vault_ok. pose proof (vs_create_guar (ks:=vn_store s) R) as Hv. destruct command.
  unfold attempt. step_guar. apply slug_pool_guar; [apply _|step_guar|]. intros t pool. step_guar. by apply aside_pre_provision.
Qed.
Lemma run_upkeep_aside slug :
  guar R (run_partition_lifecycle config indexes overflow_checks slug) ∧ guar R (run_idempotency_sweep config slug)
  ∧ ∀ since, guar R (run_stats config slug since).
Proof.
  unfold run_partition_lifecycle, run_idempotency_sweep, run_stats, attempt. split_and!; intros; step_guar.
  - by apply aside_lifecycle.
  - apply slug_pool_guar; [apply _|step_guar|]. intros t pool. by apply aside_sweep.
  - apply slug_pool_guar; [apply _|step_guar|]. intros t pool. step_guar.
Qed.
Lemma run_platform_aside command : guar R (run_platform_kill_switch config debug fresh command).
Proof.
  pose proof (aside_engage_platform R (url config)). pose proof (aside_release_platform R (url config)).
  destruct command; unfold run_platform_kill_switch, attempt; step_guar.
Qed.
End Arms.

(** ** Properties *)

Lemma dispatch_typed command : (∀ s, vault = Ok s → session_ok plain s) → (∀ pool, guar typed_step (migrate pool)) →
  guar typed_step migrate_control → args_ok command = true → receipt_pass command = false → guar typed_step (dispatch command).
Proof.
  intros Hv Hm Hc Hargs Hpass. pose proof (λ A, show_guar typed_step (A:=A)) as Hshow. pose proof (λ A, read_templates_guar typed_step (A:=A)) as Hread.
  destruct command as [| | | |c|c|c|c|c|c|c|c|c|slug|slug| | | |c| |]; try discriminate Hpass; simpl in Hargs |- *.
  - unfold attempt. step_guar.
  - eapply run_provision_aside; eauto; apply _.
  - eapply run_offboard_aside; eauto; apply _.
  - eapply run_producer_aside; eauto; apply _.
  - eapply run_dev_pki_aside; eauto; apply _.
  - destruct c; simpl in Hargs |- *; unfold attempt; cbv zeta; step_guar. apply set_config_typed. unfold config_typed. simpl.
    rewrite !andb_true_iff in *. destruct Hargs as [[[[H1 H2] H3] H4] H5].
    repeat match goal with o : option _ |- _ => destruct o end; simpl in *; split_and!; done.
  - eapply run_customer_dek_aside; eauto; apply _.
  - destruct c; simpl in Hargs |- *; unfold attempt, show_template, list_template_versions, render_preview; step_guar.
    by apply approve_typed.
  - destruct c; simpl in Hargs |- *; unfold attempt, list_provider_config; step_guar. by apply set_provider_typed.
  - apply connected_bind_guar; [apply _|]. intros s [_ Hs _]%Hv. destruct c; simpl in Hargs |- *; unfold attempt; step_guar.
    + by apply (add_suppression_typed _ _ plain).
    + by apply (remove_suppression_typed _ _ plain).
  - apply connected_bind_guar; [apply _|]. intros s [_ Hs _]%Hv. destruct c. simpl in Hargs |- *. unfold attempt. step_guar.
    apply andb_true_iff in Hargs as [_ Hargs]. by apply (set_consent_typed _ _ plain).
  - destruct c; simpl in Hargs |- *; unfold attempt; step_guar; [by apply set_quota_typed|by apply add_override_typed].
  - destruct c; simpl in Hargs |- *; unfold attempt; step_guar; by apply set_quiet_hours_typed.
  - apply run_upkeep_aside, _.
  - apply run_upkeep_aside, _.
  - apply run_upkeep_aside, _.
  - apply run_platform_aside, _.
  - unfold run_serve. step_guar.
  - step_guar.
Qed.

(** C26. The command line keeps the columns in type: whatever command but the two receipt
    passes runs, with arguments that clap accepts and among processes that do the same,
    and whatever fails on the way, every setting on file stays within its range and
    vocabulary: numbers that fit their columns, retention, horizon and release rate not
    negative and the cap at least one, known channels, classes, modes, enforcements and
    reasons, times of day, and overrides that raise something and end no earlier than they
    begin: the window is compared in nanoseconds and stored in microseconds, so that its
    ends can meet ([a_window_can_be_stored_empty]). *)
Theorem commands_keep_columns_typed command w w' r :
  (∀ s, vault = Ok s → session_ok plain s) → (∀ pool, guar typed_step (migrate pool)) → guar typed_step migrate_control →
  args_ok command = true → receipt_pass command = false →
  rely typed_step w → all_typed (w_db w) → run_control command w = (w', r) → all_typed (w_db w').
Proof.
  intros Hv Hm Hc Hargs Hpass Hr Hty Hrun.
  assert (guar typed_step (run_control command)) as Hg.
  { unfold run_control, assert_region. apply guar_bind; [apply _|step_guar|]. intros _. by apply dispatch_typed. }
  destruct (Hg w Hr) as [Hstep _]. rewrite Hrun in Hstep. by apply Hstep.
Qed.

(** The check of the window is in nanoseconds: one shorter than a microsecond is accepted,
    stored with equal ends, and never in force. *)
Theorem a_window_can_be_stored_empty : ∃ input,
  override_rejection (oi_class input) (oi_per_day input) (oi_valid_from input) (oi_valid_to input) = None
  ∧ po_valid_from (override_row input) = po_valid_to (override_row input)
  ∧ ∀ now id d, override_row input ∉ load_active_overrides now (on_override (λ _, {[id := override_row input]}) d).
Proof.
  exists (MkOverrideInput 7%N channel.SMS class.MARKETING 50 (PG_EPOCH * 1000 + 100) (PG_EPOCH * 1000 + 900) "ops" "campaign").
  split; [vm_compute; reflexivity|]. split; [vm_compute; reflexivity|].
  intros now id d [[H1 H2] _]%list_elem_of_filter.
  change (po_valid_from _) with PG_EPOCH in H1. change (po_valid_to _) with PG_EPOCH in H2. lia.
Qed.

(** A tenant of another region is on file. *)
Definition foreign_on_file (c : Cluster) : Prop := ∃ i t, cl_tenant c !! i = Some t ∧ tt_region t ≠ cg_region config.

Lemma find_row_is_Some {A} (P : A → Prop) `{∀ x, Decision (P x)} (m : gmap N A) i a : m !! i = Some a → P a → is_Some (find_row P m).
Proof.
  intros Hi Hp. unfold find_row. destruct (filter P (map_values m)) as [|x l] eqn:E; [|by eexists].
  assert (a ∈ filter P (map_values m)) as Ha.
  { apply list_elem_of_filter. split; [done|]. apply elem_of_map_values. by exists i. }
  rewrite E in Ha. by apply elem_of_nil in Ha.
Qed.
Lemma assert_region_hoare (R : relation Cluster) `{!PreOrder R} :
  stable R foreign_on_file → hoare R foreign_on_file (assert_region (cg_region config)) (λ _ _, False) (λ _, True).
Proof.
  intros Hs. unfold assert_region. eapply (hoare_bind _ _ _ _ (λ o c, is_Some o)).
  - apply hoare_query; [apply _|done|done|]. intros t c (i & row & Hi & Hr). by eapply find_row_is_Some.
  - intros [row|]; [apply hoare_throw; [apply _|done]|]. intros w _ [x [=]].
Qed.

(** The commands whose work is on the tenants on file. *)
Definition on_tenants (command : Command) : Prop :=
  command ≠ CMigrate ∧ (∀ c, command ≠ CDevPki c) ∧ (∀ slug confirm actor, command ≠ COffboardDestroy slug confirm actor).
Lemma on_tenants_checked command : on_tenants command → exempt command = false.
Proof. intros (H1 & H2 & H3). destruct command; try reflexivity; exfalso; [by apply H1|by eapply H3|by eapply H2]. Qed.

(** C27. A command that must be refused changes nothing: with a tenant of another region
    on file, every command but the three exempt ones fails without a write of its own;
    a destruction whose confirmation differs, and any operation of the development
    certificate authority outside the development profile, ends before its first step. *)
Theorem refused_commands_change_nothing :
  (∀ (R : relation Cluster) command w, PreOrder R → stable R foreign_on_file → on_tenants command →
     rely R w → foreign_on_file (w_db w) →
     ∃ w' message, run_control command w = (w', Err (Failed message)) ∧ R (w_db w) (w_db w'))
  ∧ (∀ slug confirm actor w, confirm ≠ slug →
       run_control (COffboardDestroy slug confirm actor) w = (w, Err (Failed "refusing to destroy tenant")))
  ∧ (is_dev (cg_profile config) = false → ∀ command w, run_control (CDevPki command) w = (w, Err CtlPanic)).
Proof.
  split_and!.
  - intros R command w HR Hs Hex%on_tenants_checked Hr Hf. destruct (assert_region_hoare R Hs w Hr Hf) as (_ & HR' & Hq).
    unfold run_control. rewrite Hex. unfold ebind at 1, elift at 1.
    destruct (assert_region (cg_region config) w) as [w1 [u|e]]; [done|]. exists w1. simpl in *.
    destruct e; eexists; (split; [reflexivity|exact HR']).
  - intros slug confirm actor w Hne. unfold run_control. simpl. unfold run_offboard. by rewrite decide_False.
  - intros Hd command w. unfold run_control. simpl. unfold run_dev_pki, connected, connect_vault.
    destruct vault as [s|e]; [|done]. destruct (assert_tls_outside_dev _ _); [|done].
    destruct command as [|name dir []]; unfold ebind, eret, bootstrap, issue_cert, issue_server_cert, dev_only; by rewrite Hd.
Qed.
End Commands.

(** ** Statistics *)

(** The counts of one channel, whatever the status. *)
Definition in_channel (ch : string) (l : list ((string * string) * nat)) : nat :=
  sum_list_with (λ gn : (string * string) * nat, if decide (gn.1.1 = ch) then gn.2 else 0%nat) l.
Lemma in_channel_perm ch : Proper ((≡ₚ) ==> eq) (in_channel ch).
Proof.
  intros l l' Hp. unfold in_channel. induction Hp as [|x l l' _ IH|x y l|l1 l2 l3 _ IH1 _ IH2]; simpl; [done|by rewrite IH| |by rewrite IH1].
  rewrite !Nat.add_assoc. f_equal. apply Nat.add_comm.
Qed.
Lemma in_channel_insert ch m g n : m !! g = None →
  in_channel ch (map_to_list (<[g := n]> m)) = ((if decide (g.1 = ch) then n else 0) + in_channel ch (map_to_list m))%nat.
Proof. intros Hg. by rewrite (in_channel_perm ch _ _ (map_to_list_insert m g n Hg)). Qed.
Lemma in_channel_count ch l :
  in_channel ch (map_to_list (group_counts l)) = length (filter (λ kv : (Z * N) * CommsRequest, cr_channel kv.2 = ch) l).
Proof.
  induction l as [|kv l IH]; [done|]. cbn [group_counts foldr]. fold (group_counts l). rewrite filter_cons.
  set (m := group_counts l) in *. set (g := group_of kv). destruct (m !! g) as [n|] eqn:Hg.
  - rewrite <- insert_delete_eq, in_channel_insert by apply lookup_delete_eq.
    rewrite <- (insert_delete_id m g n Hg), in_channel_insert in IH by apply lookup_delete_eq.
    change (g.1) with (cr_channel kv.2) in *. simpl. case_decide; simpl; lia.
  - rewrite in_channel_insert by done. change (g.1) with (cr_channel kv.2). simpl. case_decide; simpl; lia.
Qed.

(** The totals of the statistics: what is printed for a channel is the number of its
    requests on file since the date. *)
Theorem stats_add_up since d ch :
  channel_total (stats_rows since d) ch
  = length (filter (λ kv : (Z * N) * CommsRequest, cr_channel kv.2 = ch) (filter (λ kv, counted since kv = true) (map_to_list (db_request d)))).
Proof.
  rewrite <- in_channel_count. unfold stats_rows, channel_total. set (l := map_to_list _).
  assert (∀ rows : list ChannelStatusCount, sum_list (sc_count <$> filter (λ r, sc_channel r = ch) rows)
    = in_channel ch ((λ r, ((sc_channel r, sc_status r), sc_count r)) <$> rows)) as Hrows.
  { induction rows as [|r rows IH]; [done|]. rewrite filter_cons. unfold in_channel in *. simpl. case_decide; simpl; [f_equal|]; exact IH. }
  rewrite Hrows, (in_channel_perm ch _ _ (fmap_Permutation _ _ _ (merge_sort_Permutation stat_order _))).
  f_equal. rewrite <- list_fmap_compose. rewrite <- (list_fmap_id l) at 2. apply list_fmap_ext. by intros i [[a b] n].
Qed.

(** Which commands connect to Vault. *)
(** ** Concrete runs *)

#[local] Existing Instance demo_url.
#[local] Existing Instance demo_uuid.
#[local] Existing Instance demo_chrono.
#[local] Existing Instance demo_parse.
#[local] Existing Instance gregorian.
#[local] Existing Instance cold_made.
#[local] Existing Instance good_disk.

Definition eu_config (region : string) (profile : Profile) : Config := MkControlConfig "postgres://" 20 profile region.
(** The command line on a host without Vault. *)
Definition operator (cfg : Config) (command : Command) (w : CW) : CW * result (list string) ControlError :=
  run_control cfg (Err Client) (eret tt) (λ _, eret tt) (λ _, 7) (λ _, Some "Hi {{name}}"%string) (λ _ d, d) (λ _, []) true
    (λ _ _, eret (MkReconcileReport 0 0 0)) (λ _ _, eret (MkPromoteReport 0 0)) (λ s, s) 8 "tok" ∅ (λ _ _, true) true command w.

Lemma demo_typed : typed (filed demo_tenant_db).
Proof. split; simpl; intros; simplify_map_eq; done. Qed.
Lemma with_fraud_typed : all_typed with_fraud.
Proof.
  intros pool d. unfold with_fraud, two_tenants. cbn [on_database cl_database]. rewrite !lookup_insert_Some, lookup_singleton_Some.
  intros [[_ <-]|[_ [[_ <-]|[_ [_ <-]]]]]; apply demo_typed.
Qed.
Definition configure_command : Command :=
  CTenantConfig (TcSet "acme" 10 "Europe/Paris" "fr" None "Europe/Paris" (Some verification_mode.ENFORCE) (Some 0) None "ops").
Lemma configured : (operator (eu_config "eu" Production) configure_command (slow_cluster 12 with_fraud)).2 = Ok ["outcome=updated"%string].
Proof. vm_compute. reflexivity. Qed.

Lemma typed_witness :
  all_typed (w_db (operator (eu_config "eu" Production) configure_command (slow_cluster 12 with_fraud)).1).
Proof.
  apply (commands_keep_columns_typed (eu_config "eu" Production) (Err Client) (λ _ _, ""%string) (eret tt) (λ _, eret tt) (λ _, 7)
    (λ _, Some "Hi {{name}}"%string) (λ _ d, d) (λ _, []) true (λ _ _, eret (MkReconcileReport 0 0 0))
    (λ _ _, eret (MkPromoteReport 0 0)) (λ s, s) 8 "tok" ∅ (λ _ _, true) true configure_command (slow_cluster 12 with_fraud) _
    (operator (eu_config "eu" Production) configure_command (slow_cluster 12 with_fraud)).2).
  - intros s [=].
  - intros pool. apply guar_ret. apply _.
  - apply guar_ret. apply _.
  - reflexivity.
  - reflexivity.
  - apply slow_rely, _.
  - exact with_fraud_typed.
  - exact (surjective_pairing (operator (eu_config "eu" Production) configure_command (slow_cluster 12 with_fraud))).
Defined.

Lemma configure_on_tenants : on_tenants configure_command.
Proof. by repeat split. Qed.

Lemma refused_witness :
  ∃ w' message, operator (eu_config "us" Production) configure_command (slow_cluster 12 with_fraud) = (w', Err (Failed message))
    ∧ w_db w' = with_fraud.
Proof.
  destruct (refused_commands_change_nothing (eu_config "us" Production) (Err Client) (eret tt) (λ _, eret tt) (λ _, 7)
    (λ _, Some "Hi {{name}}"%string) (λ _ d, d) (λ _, []) true (λ _ _, eret (MkReconcileReport 0 0 0))
    (λ _ _, eret (MkPromoteReport 0 0)) (λ s, s) 8 "tok" ∅ (λ _ _, true) true) as [H _].
  destruct (H (@eq Cluster) configure_command (slow_cluster 12 with_fraud) _ (λ c c' E Hc, eq_ind c _ Hc c' E) configure_on_tenants (slow_rely _ _ _))
    as (w' & m & Hrun & Hdb).
  - exists 1%N, acme. split; [reflexivity|discriminate].
  - exists w', m. split; [exact Hrun|symmetry; exact Hdb].
Defined.

(** The panel is not so strict: its form files a quota whose enforcement is no known
    word, which the tracker then never enforces; the command refuses the same word. *)
Definition shouting_form : SetQuotaForm := MkQuotaForm channel.SMS class.MARKETING None (Some "1"%string) "HARD".
Theorem panel_files_quotas_out_of_vocabulary :
  let run := admin_set_producer_quota (λ _, true) (MkUser "root" role.ADMIN 1) (context_of acme) 7 "acme" shouting_form
    (cluster_world with_fraud) in
  (∃ v, run.2 = Ok (Page v))
  ∧ (cl_database (w_db run.1) !! "tenant_acme"%string ≫= λ d, db_quota (td_tables d) !! (7%N, channel.SMS, class.MARKETING))
    = Some (MkQuota None (Some 1) "HARD")
  ∧ args_ok (CProducerQuota (PqSet "acme" "fraud" channel.SMS class.MARKETING None (Some 1) "HARD" "root")) = false.
Proof. split_and!; [eexists|..]; vm_compute; reflexivity. Qed.
