(* ===== verification/Console.v ===== *)
(** * The platform console

    Models [src/platform_console/*], [src/platform_auth/*] and the list of
    [src/platform_audit.rs]: the pages and actions of the provider's staff on the control
    database. The transactions of the actions are those of Platform.v. *)

From S2P Require Import Prelude RustStd Time Schema KillSwitch Dek Outbox Ingest Tenancy Producers Platform Settings QueryApi Admin Control.
From stdpp Require Import base gmap strings list sorting pretty.
From Stdlib Require Import ZArith Lia.

Local Open Scope effect_scope.
Local Open Scope Z_scope.

(** ** [platform_auth] *)

Module platform_role.
Definition OPERATOR : string := "operator".
End platform_role.

Record PlatformIdentity : Type := MkOperator { pl_actor : string; pl_role : string }.
Class PlatformAuthProvider : Type := { platform_authenticate : CEff AuthError PlatformIdentity }.

Record MockPlatformProvider : Type := MkPlatformMock { mp_actor : string; mp_role : string }.
(** [MockPlatformProvider::new]: [None] is the panic outside development. *)
Definition mock_platform_new (profile : Profile) (actor role : string) : option MockPlatformProvider :=
  if is_dev profile then Some (MkPlatformMock actor role) else None.
Definition mock_platform_authenticate (m : MockPlatformProvider) : CEff AuthError PlatformIdentity :=
  eret (MkOperator (mp_actor m) (mp_role m)).
Definition mock_platform (m : MockPlatformProvider) : PlatformAuthProvider :=
  {| platform_authenticate := mock_platform_authenticate m |}.

(** ** [platform_audit::list] *)

Definition audit_matches (tenant_id : option N) (action : option string) (r : AuditRow) : bool :=
  match tenant_id with None => true | Some id => bool_decide (au_tenant_id r = Some id) end
  && match action with None => true | Some a => bool_decide (au_action r = a) end.
Definition latest (a b : AuditRow) : Prop := au_at b <= au_at a.
#[export] Instance latest_dec : RelDecision latest.
Proof. intros a b. unfold latest. apply _. Defined.
(** The rows that match, newest first. *)
Definition audit_rows (tenant_id : option N) (action : option string) (c : Cluster) : list AuditRow :=
  merge_sort latest (filter (λ r, audit_matches tenant_id action r = true) (cl_audit c)).
Definition list_audit (tenant_id : option N) (action : option string) (limit offset : Z) : CEff SqlxError (list AuditRow) :=
  sql (λ _ c, if offset <? 0 then Err (SqlConfiguration "OFFSET must not be negative")
              else Ok (c, take (Z.to_nat limit) (drop (Z.to_nat offset) (audit_rows tenant_id action c)))).

(** ** Pages *)

Record TenantRow : Type := MkTenantRowView {
  tw_id : N; tw_slug : string; tw_region : string; tw_status : string; tw_schema_version : string; tw_created_at : Z;
}.
Record SwitchRow : Type := MkSwitchRow {
  sw_id : N; sw_scope : string; sw_target : string; sw_engaged_by : string; sw_engaged_at : Z; sw_reason : string;
}.
Record TenantHealth : Type := MkHealth { th_slug : string; th_counts : list ChannelStatusCount; th_error : option SettingError }.
Inductive ConsoleView : Type :=
| TenantsPage (actor role : string) (rows : list TenantRow)
| HealthPage (actor role : string) (tenants : list TenantHealth)
| AuditPage (actor role filter_tenant_id filter_action signals : string) (page : Z) (rows : list AuditRow)
| SwitchesPage (actor role : string) (rows : list SwitchRow) (tenants : list Tenant) (message : option string).
(** A response: a bare status, a page, the script of the pages, or a connection that
    closes after a panic. *)
Inductive Answer : Type := Bare (code : Z) | Html (v : ConsoleView) | Script | Dropped.
Definition ConsoleHandler : Type := CEff Answer Answer.
Definition answered (x : result Answer Answer) : Answer := match x with Ok a => a | Err a => a end.

Definition server_error (e : SqlxError) : Answer := Bare 500.

(** [platform_console::require_role]. *)
Definition console_role (identity : PlatformIdentity) (allowed : list string) : CEff Answer unit :=
  if decide (pl_role identity ∈ allowed) then eret tt else ethrow (Bare 403).

Section Pages.
Context `{PU : !PgUrl} `{UT : !UuidText} (base_db_url : string) (renders : ConsoleView → bool).
Definition html (v : ConsoleView) : Answer := if renders v then Html v else Bare 500.

(** [tenants_page]. *)
Definition tenant_row (versions : list (N * Z)) (tenant : Tenant) : TenantRow :=
  let schema_version := match list_find (λ v : N * Z, v.1 = tt_id tenant) versions with Some (_, v) => pretty v.2 | None => "-"%string end in
  MkTenantRowView (tt_id tenant) (tt_slug tenant) (tt_region tenant) (tt_status tenant) schema_version (tt_created_at tenant).
Definition schema_versions (c : Cluster) : list (N * Z) := map_to_list (cl_version c).
Definition tenants_page (actor role : string) : ConsoleHandler :=
  tenants ←! elift server_error (query (λ _, list_tenants));
  versions ←! elift server_error (query (λ _, schema_versions));
  eret (html (TenantsPage actor role (tenant_row versions <$> tenants))).
Definition ui_tenants (identity : PlatformIdentity) : ConsoleHandler :=
  console_role identity [platform_role.OPERATOR] ;!
  tenants_page (pl_actor identity) (pl_role identity).

(** [tenants::suspend]. *)
Definition suspend_error (e : PlatformError) : Answer := match e with PfPanic => Dropped | _ => Bare 500 end.
Definition ui_suspend (fresh : N) (identity : PlatformIdentity) (id : N) : ConsoleHandler :=
  console_role identity [platform_role.OPERATOR] ;!
  known ←! elift suspend_error (suspend base_db_url fresh id (pl_actor identity));
  if known : bool then tenants_page (pl_actor identity) (pl_role identity) else ethrow (Bare 404).

(** [health::ui_health]: the lookups run at once and only read; here one after the
    other. The error of a tenant stands beside the counts of the others, a panic ends
    the request. *)
Fixpoint health_rows (tenants : list Tenant) : CEff Answer (list TenantHealth) :=
  match tenants with
  | [] => eret []
  | tenant :: tenants =>
      r ←! etry (tenant_message_stats base_db_url (tt_slug tenant) None);
      match r with
      | Err StPanic => ethrow Dropped
      | Err e => rest ←! health_rows tenants; eret (MkHealth (tt_slug tenant) [] (Some e) :: rest)
      | Ok counts => rest ←! health_rows tenants; eret (MkHealth (tt_slug tenant) counts None :: rest)
      end
  end.
Definition ui_health (identity : PlatformIdentity) : ConsoleHandler :=
  console_role identity [platform_role.OPERATOR] ;!
  tenants ←! elift server_error (query (λ _, list_tenants));
  rows ←! health_rows tenants;
  eret (html (HealthPage (pl_actor identity) (pl_role identity) rows)).

(** [audit::ui_audit]; [signals] writes the JSON object of the two filters. *)
Definition PAGE_SIZE : Z := 50.
Record AuditQuery : Type := MkAuditQuery { aq_tenant_id : option N; aq_action : option string; aq_page : option Z }.
Definition i64_wrap (x : Z) : Z := (x - i64_min) mod 2 ^ 64 + i64_min.
(** [(page - 1) * PAGE_SIZE] on an [i64]; [None] is the panic of a build that checks. *)
Definition page_offset (overflow_checks : bool) (page : Z) : option Z :=
  let x := (page - 1) * PAGE_SIZE in
  if x <=? i64_max then Some x else if overflow_checks then None else Some (i64_wrap x).
Definition ui_audit (overflow_checks : bool) (signals : string → string → string) (identity : PlatformIdentity) (q : AuditQuery) : ConsoleHandler :=
  console_role identity [platform_role.OPERATOR] ;!
  let page := Z.max (default 1 (aq_page q)) 1 in
  let action := non_empty (aq_action q) in
  offset ←! eof (ok_or (page_offset overflow_checks page) Dropped);
  rows ←! elift server_error (list_audit (aq_tenant_id q) action PAGE_SIZE offset);
  let filter_tenant_id := match aq_tenant_id q with Some id => uuid_str id | None => ""%string end in
  let filter_action := default ""%string action in
  eret (html (AuditPage (pl_actor identity) (pl_role identity) filter_tenant_id filter_action (signals filter_tenant_id filter_action) page rows)).

(** [kill_switches]. *)
Definition switch_row (tenants : list Tenant) (s : PlatformKillSwitch) : SwitchRow :=
  let target := match pk_tenant_id s with
                | Some id => match list_find (λ t, tt_id t = id) tenants with Some (_, t) => tt_slug t | None => uuid_str id end
                | None => "all tenants"%string
                end in
  MkSwitchRow (pk_id s) (pk_scope s) target (pk_engaged_by s) (pk_engaged_at s) (pk_reason s).
Definition platform_switches_page (actor role : string) (message : option string) : ConsoleHandler :=
  active ←! elift server_error (query (λ _, list_active_platform));
  tenants ←! elift server_error (query (λ _, list_tenants));
  eret (html (SwitchesPage actor role (switch_row tenants <$> active) tenants message)).
Definition ui_platform_switches (identity : PlatformIdentity) : ConsoleHandler :=
  console_role identity [platform_role.OPERATOR] ;!
  platform_switches_page (pl_actor identity) (pl_role identity) None.

Definition fan_out_message (verb : string) (report : FanOutReport) : string :=
  (if decide (fo_failed report = 0%nat) then verb +:+ "; notified " +:+ pretty (fo_notified report) +:+ " tenant database(s)."
   else verb +:+ "; notified " +:+ pretty (fo_notified report) +:+ " tenant database(s), " +:+ pretty (fo_failed report)
        +:+ " unreachable -- those pick the change up on their next 30-second poll.")%string.
Record PlatformEngageForm : Type := MkPlatformForm { pf_scope : string; pf_tenant_id : option string; pf_reason : string }.
(** The tenant a form names; [None] is the refusal. *)
Definition form_tenant (form : PlatformEngageForm) : option (option N) :=
  if decide (pf_scope form = platform_scope.TENANT) then Some <$> (pf_tenant_id form ≫= parse_str) else Some None.
Definition ui_engage (fresh : N) (identity : PlatformIdentity) (form : PlatformEngageForm) : ConsoleHandler :=
  console_role identity [platform_role.OPERATOR] ;!
  (if decide (trim (pf_reason form) = ""%string) then ethrow (Bare 400) else eret tt) ;!
  tenant_id ←! eof (ok_or (form_tenant form) (Bare 400));
  r ←! etry (engage_platform base_db_url fresh (pf_scope form) tenant_id (pf_reason form) (pl_actor identity));
  message ←! match r with
             | Ok (_, report) => eret (fan_out_message "Engaged" report)
             | Err PfAlreadyEngaged => eret "A switch with this scope is already engaged."%string
             | Err (PfRejected _) => ethrow (Bare 400)
             | Err (PfDatabase _) => ethrow (Bare 500)
             | Err PfPanic => ethrow Dropped
             end;
  platform_switches_page (pl_actor identity) (pl_role identity) (Some message).
Definition ui_release (identity : PlatformIdentity) (id : N) : ConsoleHandler :=
  console_role identity [platform_role.OPERATOR] ;!
  released ←! elift suspend_error (release_platform_switch base_db_url id (uuid_str id) (pl_actor identity));
  let message := if decide (rl_outcome released.1 = "released"%string) then fan_out_message "Released" released.2 else "Already released."%string in
  platform_switches_page (pl_actor identity) (pl_role identity) (Some message).

(** ** Routes *)

Inductive ConsoleRoute : Type :=
| GetTenants
| PostSuspend (id : N)
| GetHealth
| GetAudit (q : AuditQuery)
| GetSwitches
| PostEngage (form : PlatformEngageForm)
| PostRelease (id : N)
| GetScript.
Definition is_view (r : ConsoleRoute) : bool :=
  match r with GetTenants | GetHealth | GetAudit _ | GetSwitches | GetScript => true | _ => false end.
Definition console_handle (overflow_checks : bool) (signals : string → string → string) (fresh : N) (r : ConsoleRoute)
    (identity : PlatformIdentity) : ConsoleHandler :=
  match r with
  | GetTenants => ui_tenants identity
  | PostSuspend id => ui_suspend fresh identity id
  | GetHealth => ui_health identity
  | GetAudit q => ui_audit overflow_checks signals identity q
  | GetSwitches => ui_platform_switches identity
  | PostEngage form => ui_engage fresh identity form
  | PostRelease id => ui_release identity id
  | GetScript => eret Script
  end.
(** [PlatformAuthedUser::from_request_parts] in front of every page but the script. *)
Definition console_serve `{!PlatformAuthProvider} (overflow_checks : bool) (signals : string → string → string) (fresh : N) (r : ConsoleRoute)
    : ConsoleHandler :=
  match r with
  | GetScript => eret Script
  | _ => identity ←! elift (λ _, Bare 401) platform_authenticate;
         console_handle overflow_checks signals fresh r identity
  end.
End Pages.

(** ** What the console writes *)

(** A tenant as it was, or suspended. *)
Definition only_suspended (m m' : gmap N Tenant) : Prop :=
  ∀ i, m' !! i = m !! i ∨ m' !! i = tt_set_status status.SUSPENDED <$> m !! i.
(** The control tables change: switches, the status of tenants, the audit at its end.
    Tenant databases, keys, certificates and files stay as they are. *)
Record touched (c c' : Cluster) : Prop := {
  to_tenant : only_suspended (cl_tenant c) (cl_tenant c');
  to_audit : cl_audit c `prefix_of` cl_audit c';
  to_rest : (cl_cert c', cl_version c', cl_database c', cl_key c', cl_auth_disabled c', cl_disk c')
            = (cl_cert c, cl_version c, cl_database c, cl_key c, cl_auth_disabled c, cl_disk c);
}.
(** A change that is on record under the name of [actor]. *)
Definition on_record (actor : string) (c c' : Cluster) : Prop :=
  cl_tenant c' = cl_tenant c ∧ cl_platform_switch c' = cl_platform_switch c
  ∨ ∃ row, row ∈ drop (length (cl_audit c)) (cl_audit c') ∧ au_actor row = actor.
Definition console_step (actor : string) (c c' : Cluster) : Prop := touched c c' ∧ on_record actor c c'.

#[export] Instance touched_pre : PreOrder touched.
Proof.
  split; [intros c; split; [by left|done|done]|]. intros c1 c2 c3 [A1 A2 A3] [B1 B2 B3]. split; [|by etransitivity|by rewrite B3].
  intros i. destruct (A1 i) as [E1|E1], (B1 i) as [E2|E2]; rewrite E2, E1; auto.
  right. by destruct (cl_tenant c1 !! i).
Qed.
#[export] Instance console_step_pre actor : PreOrder (console_step actor).
Proof.
  split; [intros c; split; [done|by left]|]. intros c1 c2 c3 [A1 A2] [B1 B2]. split; [by etransitivity|].
  destruct (to_audit _ _ A1) as [l1 E1], (to_audit _ _ B1) as [l2 E2]. unfold on_record in *.
  rewrite E2, drop_app_length in B2. rewrite E1, drop_app_length in A2. rewrite E2, E1, <- (assoc_L (++)), drop_app_length.
  destruct A2 as [[HA HA']|(row & Hr & Ha)]; [|right; exists row; by rewrite elem_of_app; auto].
  destruct B2 as [[HB HB']|(row & Hr & Ha)]; [left; by rewrite HB, HB'|]. right. exists row. by rewrite elem_of_app; auto.
Qed.

Lemma touched_recorded actor action tenant detail t c0 c1 :
  touched c0 c1 → console_step actor c0 (on_control_audit (λ l, l ++ [MkAudit actor action tenant detail t]) c1).
Proof.
  intros [A1 [l Hl] A3]. split.
  - split; [done|simpl; rewrite Hl; by apply prefix_app_r, prefix_app_r|done].
  - right. eexists. simpl. rewrite Hl, <- (assoc_L (++)), drop_app_length, elem_of_app, list_elem_of_singleton. split; [by right|done].
Qed.
Lemma record_tx_post actor action tenant detail (c0 : Cluster) :
  tx_post (record_audit actor action tenant detail) (λ c1 c2 _, touched c0 c1 → console_step actor c0 c2).
Proof. apply tx_post_exec. intros t c. apply touched_recorded. Qed.

Lemma insert_touched p c c' o : insert_platform p c = Ok (c', o) → touched c c'.
Proof. unfold insert_platform. repeat case_match; intros [= <- _]; done || (split; [by left|done|done]). Qed.
Lemma release_touched id actor t c : touched c (release_platform id actor t c).1.
Proof. unfold release_platform. repeat case_match; done || (split; [by left|done|done]). Qed.
Lemma suspend_touched id c : touched c (set_status id status.SUSPENDED c).1.
Proof.
  unfold set_status. simpl. repeat case_match; simpl; try done. all: split; [|done|done].
  all: intros i; simpl; destruct (decide (i = id)) as [->|Hne]; [rewrite lookup_alter_eq; by right|rewrite lookup_alter_ne by done; by left].
Qed.

Lemma engage_rejection_reads scope_value tenant_id : tx_post (engage_rejection scope_value tenant_id) (λ c c' _, c' = c).
Proof.
  change (tx_guar (λ c c', c' = c) (engage_rejection scope_value tenant_id)).
  assert (PreOrder (λ c c' : Cluster, c' = c)) by (split; [by intros ?|intros ? ? ? -> ->; done]).
  unfold engage_rejection. step_guar.
Qed.
(** Touch, then record. *)
Lemma touch_then_record {A B} (m : CEff SqlxError A) (k : A → CEff SqlxError B) actor :
  tx_guar touched m → (∀ a, tx_post (k a) (λ c1 c2 _, ∀ c0, touched c0 c1 → console_step actor c0 c2)) → tx_guar (console_step actor) (ebind m k).
Proof. intros Hm Hk. eapply tx_post_bind; [exact Hm|]. intros a. apply Hk. Qed.
Lemma record_then {B} actor action tenant detail (k : CEff SqlxError B) :
  tx_guar (console_step actor) k →
  tx_post (record_audit actor action tenant detail ;! k) (λ c1 c2 _, ∀ c0, touched c0 c1 → console_step actor c0 c2).
Proof.
  intros Hk. eapply (tx_post_bind _ _ (λ c1 c2 _, ∀ c0, touched c0 c1 → console_step actor c0 c2)).
  - apply tx_post_exec. intros t c c0. apply touched_recorded.
  - intros []. eapply tx_post_weaken; [exact Hk|]. intros c1 c2 b H12 c01 H01 c0 H0. etransitivity; [by apply H01|exact H12].
Qed.

Lemma tx_throw {E A} (R : relation Cluster) (e : E) : tx_guar R (ethrow e : CEff E A).
Proof. intros w Hw. split; [by exists 0%nat|done]. Qed.
Lemma engage_tx_step fresh scope_value tenant_id reason actor : tx_guar (console_step actor) (engage_tx fresh scope_value tenant_id reason actor).
Proof.
  unfold engage_tx, audit_engage_platform. apply touch_then_record.
  { eapply tx_post_weaken; [apply engage_rejection_reads|]. by intros c c' _ ->. }
  intros [message|]; [apply record_then; step_guar|].
  eapply (tx_post_bind _ _ (λ c c' _, touched c c')); [apply tx_post_sql; intros t c c' o Hi; by eapply insert_touched|].
  intros [i|]; (eapply tx_post_weaken; [apply record_then; step_guar|]); intros c1 c2 ? H cb Hb c0 H0; apply H; by etransitivity.
Qed.
Lemma suspend_tx_step fresh id actor :
  tx_post (suspend_tx fresh id actor) (λ c c' o, is_Some o → console_step actor c c').
Proof.
  unfold suspend_tx. eapply (tx_post_bind _ _ (λ c c' _, touched c c')).
  { apply tx_post_sql. intros t c c' o [= <- _]. apply (suspend_touched id c). }
  intros n. destruct (n =? 0)%nat; [apply tx_post_ret; by intros c c' _ [? ?]|].
  eapply tx_post_weaken; [apply record_then|]. 2: { intros c1 c2 o H c0 H0 _. by apply H. }
  apply tx_guar_bind; [apply _|apply engage_tx_step|]. intros [outcome|[]]; try (by step_guar); apply tx_throw.
Qed.
Lemma release_tx_step id id_text actor : tx_guar (console_step actor) (release_tx id id_text actor).
Proof.
  unfold release_tx. apply touch_then_record.
  { apply tx_post_sql. intros t c c' o [= E]. pose proof (release_touched id actor t c) as H. by rewrite E in H. }
  intros released. eapply (tx_post_bind _ _ (λ c c' _, c' = c)).
  { destruct released as [[? ?]|]; [|by apply tx_post_ret]. eapply (tx_post_bind _ _ (λ c c' _, c' = c)).
    - apply tx_post_sql. by intros t c c' a [= <- _].
    - intros targets. apply tx_post_ret. by intros c c' ->. }
  intros found. eapply tx_post_weaken; [apply record_then; step_guar|]. intros c1 c2 ? H c0 -> cb Hb. by apply H.
Qed.

(** ** Pages of a list *)

Section Paging.
Context {A : Type} (R : relation A).
Definition shown (page : Z) (l : list A) : list A := take 50 (drop (Z.to_nat ((page - 1) * PAGE_SIZE)) l).

Lemma shown_elem page l x : x ∈ shown page l → x ∈ l.
Proof. unfold shown. intros Hx. rewrite <- (take_drop (Z.to_nat ((page - 1) * PAGE_SIZE)) l), elem_of_app. right. rewrite <- (take_drop 50 (drop _ l)), elem_of_app. by left. Qed.
Lemma shown_at l n x : l !! n = Some x → x ∈ shown (Z.of_nat (n / 50) + 1) l.
Proof.
  intros Hn. unfold shown, PAGE_SIZE. replace (Z.to_nat _) with (n / 50 * 50)%nat by lia.
  pose proof (Nat.div_mod_eq n 50) as Hdm. pose proof (Nat.mod_upper_bound n 50 ltac:(done)) as Hlt.
  apply (list_elem_of_lookup_2 _ (n mod 50)%nat). rewrite lookup_take_lt by done. rewrite lookup_drop. rewrite <- Hn. f_equal. lia.
Qed.
Lemma shown_sorted page l : StronglySorted R l → StronglySorted R (shown page l).
Proof.
  intros Hs. unfold shown. rewrite <- (take_drop (Z.to_nat ((page - 1) * PAGE_SIZE)) l) in Hs. apply StronglySorted_app in Hs as (_ & _ & Hs).
  rewrite <- (take_drop 50 (drop _ l)) in Hs. by apply StronglySorted_app in Hs as (_ & Hs & _).
Qed.
Lemma shown_ordered page later l x y :
  1 <= page → page < later → StronglySorted R l → x ∈ shown page l → y ∈ shown later l → R x y.
Proof.
  intros Hp Hl Hs Hx Hy. unfold shown, PAGE_SIZE in *. rewrite take_drop_commute in Hx.
  rewrite <- (take_drop (Z.to_nat (page * 50)) l) in Hs. eapply StronglySorted_app_1_elem_of; [exact Hs| |].
  - rewrite <- (take_drop (Z.to_nat ((page - 1) * 50)) (take _ l)), elem_of_app. right.
    by replace (Z.to_nat (page * 50)) with (Z.to_nat ((page - 1) * 50) + 50)%nat by lia.
  - replace (Z.to_nat ((later - 1) * 50)) with (Z.to_nat (page * 50) + Z.to_nat ((later - 1 - page) * 50))%nat in Hy by lia.
    rewrite <- drop_drop in Hy. rewrite <- (take_drop (Z.to_nat ((later - 1 - page) * 50)) (drop _ l)), elem_of_app. right.
    rewrite <- (take_drop 50 (drop _ (drop _ l))), elem_of_app. by left.
Qed.
End Paging.
#[export] Instance latest_total : Total latest.
Proof. intros a b. unfold latest. lia. Qed.
#[export] Instance latest_trans : Transitive latest.
Proof. intros a b c. unfold latest. lia. Qed.

Section Console.
Context `{PU : !PgUrl} `{UT : !UuidText} (base_db_url : string) (renders : ConsoleView → bool).
Context (overflow_checks : bool) (signals : string → string → string) (fresh : N).
Notation handle := (console_handle base_db_url renders overflow_checks signals fresh).

Section Guarantee.
Context (R : relation Cluster) `{!PreOrder R}.

Lemma tenants_page_guar actor role : guar R (tenants_page renders actor role).
Proof. unfold tenants_page. step_guar. Qed.
Lemma switches_page_guar actor role message : guar R (platform_switches_page renders actor role message).
Proof. unfold platform_switches_page. step_guar. Qed.
Lemma stats_guar slug since : guar R (tenant_message_stats base_db_url slug since).
Proof. apply slug_pool_guar; [apply _|step_guar|]. intros t pool. apply guar_lift, guar_pool_query, _. Qed.
Lemma health_rows_guar tenants : guar R (health_rows base_db_url tenants).
Proof. pose proof stats_guar. induction tenants as [|t tenants IH]; cbn [health_rows]; step_guar. Qed.
Lemma list_audit_guar tenant_id action limit offset : guar R (list_audit tenant_id action limit offset).
Proof. apply guar_sql; [apply _|]. intros t c c' a. case_match; by intros [= <- _]. Qed.
Hint Resolve tenants_page_guar switches_page_guar health_rows_guar list_audit_guar : effects.

(** Views write nothing. *)
Lemma view_guar r identity : is_view r = true → guar R (handle r identity).
Proof.
  intros Hr. destruct r; try done; unfold console_handle, ui_tenants, ui_health, ui_audit, ui_platform_switches, console_role; cbv zeta; step_guar.
Qed.

Context (actor : string) (HR : ∀ c c', console_step actor c c' → R c c').
Lemma suspend_recorded id : guar R (suspend base_db_url fresh id actor).
Proof.
  pose proof (notify_guar base_db_url R) as Hn. unfold suspend. apply guar_bind; [apply _|apply guar_lift|intros o; step_guar].
  apply guar_transaction; [apply _|]. eapply tx_post_weaken; [apply suspend_tx_step|]. intros c c' [o|] H Hk; [by apply HR, H|done].
Qed.
Lemma engage_recorded scope_value tenant_id reason : guar R (engage_platform base_db_url fresh scope_value tenant_id reason actor).
Proof.
  pose proof (notify_guar base_db_url R) as Hn. unfold engage_platform. step_guar.
  eapply tx_post_weaken; [apply engage_tx_step|]. intros c c' o H. by apply HR.
Qed.
Lemma release_recorded id id_text : guar R (release_platform_switch base_db_url id id_text actor).
Proof.
  pose proof (notify_guar base_db_url R) as Hn. unfold release_platform_switch. step_guar.
  eapply tx_post_weaken; [apply release_tx_step|]. intros c c' o H. by apply HR.
Qed.
End Guarantee.

Lemma handle_guar (R : relation Cluster) `{!PreOrder R} r identity :
  (∀ c c', console_step (pl_actor identity) c c' → R c c') → guar R (handle r identity).
Proof.
  intros HR. pose proof (λ m, tenants_page_guar R m) as Ht. pose proof (λ m, switches_page_guar R m) as Hs.
  destruct (is_view r) eqn:Hv; [by apply view_guar|].
  destruct r; try done; unfold console_handle, ui_suspend, ui_engage, ui_release, console_role; cbv zeta; step_guar.
  - by apply suspend_recorded.
  - by apply engage_recorded.
  - by apply release_recorded.
Qed.

(** C25. What the console does is on record: whatever request an operator sends, every
    change of its own to tenants and switches comes with an audit row in the operator's
    name, tenants change in nothing but their suspension, and no tenant database, key,
    certificate or file changes at all; views and requests without the operator role
    write nothing. *)
Theorem console_changes_are_on_record r identity :
  (∀ (R : relation Cluster) w, PreOrder R → (∀ c c', console_step (pl_actor identity) c c' → R c c') → rely R w →
     R (w_db w) (w_db (handle r identity w).1))
  ∧ (is_view r = true → ∀ (R : relation Cluster) w, PreOrder R → rely R w → R (w_db w) (w_db (handle r identity w).1))
  ∧ (pl_role identity ≠ platform_role.OPERATOR → r ≠ GetScript → ∀ w, handle r identity w = (w, Err (Bare 403))).
Proof.
  split_and!.
  - intros R w HP HR Hr. by apply (handle_guar R r identity HR w Hr).
  - intros Hv R w HP Hr. by apply (view_guar R r identity Hv w Hr).
  - intros Hrole Hns w. assert (console_role identity [platform_role.OPERATOR] w = (w, Err (Bare 403))) as H.
    { unfold console_role. rewrite decide_False; [done|]. by rewrite list_elem_of_singleton. }
    destruct r; try done; unfold console_handle, ui_tenants, ui_suspend, ui_health, ui_audit, ui_platform_switches, ui_engage, ui_release, ebind at 1;
      by rewrite H.
Qed.

(** Where a page of the audit begins and what it shows. *)
Lemma audit_page identity q page (w : CW) :
  calm w → pl_role identity = platform_role.OPERATOR → aq_page q = Some page → 1 <= page → (page - 1) * PAGE_SIZE <= i64_max → (∀ v, renders v = true) →
  (handle (GetAudit q) identity w).2
  = Ok (Html (let tenant := match aq_tenant_id q with Some id => uuid_str id | None => ""%string end in
              let action := default ""%string (non_empty (aq_action q)) in
              AuditPage (pl_actor identity) (pl_role identity) tenant action (signals tenant action) page
                (shown page (audit_rows (aq_tenant_id q) (non_empty (aq_action q)) (w_db w))))).
Proof.
  intros Hw Hrole Hq Hp Hmax Hr. unfold console_handle, ui_audit, console_role. rewrite Hrole, decide_True by set_solver.
  rewrite Hq. simpl default. rewrite Z.max_l by lia. unfold page_offset. rewrite (proj2 (Z.leb_le _ _) Hmax). cbv zeta. simpl ok_or.
  unfold ebind at 1, eret at 1, ebind at 1, eof, ebind, elift, list_audit.
  destruct (Z.ltb_spec ((page - 1) * PAGE_SIZE) 0) as [Hneg|_]; [unfold PAGE_SIZE in Hneg; lia|].
  rewrite sql_calm by apply Hw. unfold eret, html. simpl. by rewrite Hr.
Qed.

Lemma audit_rows_spec tenant_id action c row : row ∈ audit_rows tenant_id action c ↔ row ∈ cl_audit c ∧ audit_matches tenant_id action row = true.
Proof. unfold audit_rows. rewrite merge_sort_Permutation, list_elem_of_filter. naive_solver. Qed.

(** The audit page hides nothing: whatever the filters, every row of the audit that
    matches them is on one of the pages, and the pages up to the last offset that fits
    show matching rows only, at most fifty each, newest first within a page and from
    page to page. *)
Theorem audit_pages_are_complete identity tenant_id action (w : CW) :
  calm w → pl_role identity = platform_role.OPERATOR → (∀ v, renders v = true) → Z.of_nat (length (cl_audit (w_db w))) <= i64_max →
  ∃ (pages : Z → list AuditRow) t a s,
    (∀ page, 1 <= page → (page - 1) * PAGE_SIZE <= i64_max →
       (handle (GetAudit (MkAuditQuery tenant_id action (Some page))) identity w).2
         = Ok (Html (AuditPage (pl_actor identity) (pl_role identity) t a s page (pages page)))
       ∧ (length (pages page) <= 50)%nat
       ∧ (∀ r, r ∈ pages page → r ∈ cl_audit (w_db w) ∧ audit_matches tenant_id (non_empty action) r = true)
       ∧ StronglySorted latest (pages page)
       ∧ ∀ later x y, page < later → x ∈ pages page → y ∈ pages later → latest x y)
    ∧ ∀ r, r ∈ cl_audit (w_db w) → audit_matches tenant_id (non_empty action) r = true →
        ∃ page, 1 <= page ∧ (page - 1) * PAGE_SIZE <= i64_max ∧ r ∈ pages page.
Proof.
  intros Hw Hrole Hr Hlen. set (all := audit_rows tenant_id (non_empty action) (w_db w)).
  assert (StronglySorted latest all) as Hs by apply (StronglySorted_merge_sort latest).
  set (t := match tenant_id with Some id => uuid_str id | None => ""%string end). set (a := default ""%string (non_empty action)).
  exists (λ page, shown page all), t, a, (signals t a). split.
  - intros page Hp Hmax. split; [by apply (audit_page identity (MkAuditQuery tenant_id action (Some page)))|]. split_and!.
    + unfold shown. rewrite length_take. lia.
    + intros r Hin%shown_elem. by apply audit_rows_spec.
    + by apply shown_sorted.
    + intros later x y Hl. by apply (shown_ordered latest).
  - intros r Hin Hm. assert (r ∈ all) as [n Hn]%list_elem_of_lookup by (by apply audit_rows_spec).
    exists (Z.of_nat (n / 50) + 1). split_and!; [lia| |by apply shown_at].
    apply lookup_lt_Some in Hn. assert (length all <= length (cl_audit (w_db w)))%nat as Hle.
    { unfold all, audit_rows. rewrite merge_sort_Permutation. apply length_filter. }
    pose proof (Nat.div_mod_eq n 50). unfold PAGE_SIZE. lia.
Qed.
End Console.

(** ** Concrete requests *)

#[local] Existing Instance demo_url.
#[local] Existing Instance demo_uuid.
Definition staff : PlatformIdentity := MkOperator "sue" platform_role.OPERATOR.
Definition serve_demo (r : ConsoleRoute) : CW → CW * result Answer Answer :=
  console_handle "postgres://" (λ _, true) true (λ t a, t +:+ a)%string 51 r staff.
Definition audited : Cluster :=
  on_control_audit (λ _, [MkAudit "ops" "tenant.provision" (Some 1%N) [] 5; MkAudit "sue" "tenant.suspend" (Some 2%N) [] 9]) two_tenants.

Lemma demo_calm c : calm (cluster_world c).
Proof. by split. Qed.
Lemma demo_short : Z.of_nat (length (cl_audit audited)) <= i64_max.
Proof. vm_compute. discriminate. Qed.
Lemma pages_witness :
  (serve_demo (GetAudit (MkAuditQuery None (Some ""%string) (Some 1))) (cluster_world audited)).2
    = Ok (Html (AuditPage "sue" "operator" "" "" "" 1
        [MkAudit "sue" "tenant.suspend" (Some 2%N) [] 9; MkAudit "ops" "tenant.provision" (Some 1%N) [] 5]))
  ∧ ∃ pages : Z → list AuditRow, ∀ r, r ∈ cl_audit audited → audit_matches (Some 2%N) None r = true →
      ∃ page, 1 <= page ∧ (page - 1) * PAGE_SIZE <= i64_max ∧ r ∈ pages page.
Proof.
  split; [vm_compute; reflexivity|].
  destruct (audit_pages_are_complete "postgres://" (λ _, true) true (λ t a, t +:+ a)%string 51 staff (Some 2%N) None (cluster_world audited)
    (demo_calm audited) eq_refl (λ _, eq_refl) demo_short) as (pages & t & a & s & _ & H).
  exists pages. exact H.
Defined.

(** An operator suspends a tenant while connections come and go. *)
Definition suspended_demo : CW * result Answer Answer := serve_demo (PostSuspend 1) patchy.
Lemma suspended_demo_result :
  (∃ v, suspended_demo.2 = Ok (Html v)) ∧ tt_status <$> cl_tenant (w_db suspended_demo.1) !! 1%N = Some status.SUSPENDED.
Proof. split; [eexists; vm_compute; reflexivity|vm_compute; reflexivity]. Qed.
Lemma console_step_self c c' : console_step (pl_actor staff) c c' → console_step (pl_actor staff) c c'.
Proof. done. Qed.
Lemma record_witness :
  tt_status <$> cl_tenant (w_db suspended_demo.1) !! 1%N = Some status.SUSPENDED
  ∧ console_step "sue" (w_db patchy) (w_db suspended_demo.1).
Proof.
  split; [exact (proj2 suspended_demo_result)|].
  exact (proj1 (console_changes_are_on_record "postgres://" (λ _, true) true (λ t a, t +:+ a)%string 51 (PostSuspend 1) staff)
    (console_step (pl_actor staff)) patchy (console_step_pre _) console_step_self (patchy_rely _)).
Defined.

(** A page number whose offset does not fit: the request dies in a build that checks,
    and elsewhere the offset wraps around to a page of its own. *)
Theorem far_audit_pages_wrap_around :
  page_offset true 368934881474191034 = None ∧ page_offset false 368934881474191034 = Some 34.
Proof. split; vm_compute; reflexivity. Qed.
