(* ===== verification/Transport.v ===== *)
(** * Vault, TLS and the provider's HTTP interface

    Models the client side of [src/keystore.rs] (settings, logins and the methods of
    [VaultKeyStore]), [src/mtls.rs] and [src/sender/http.rs]. The calls of [vaultrs],
    [rustls], [x509_parser] and [reqwest] are parameters; what the code makes of their
    replies is here. *)

From S2P Require Import Prelude RustStd Time Schema Dek Outbox Worker Tenancy Lifecycle QueryApi Control.
From stdpp Require Import base gmap strings list.
From Stdlib Require Import ZArith Lia.

Local Open Scope effect_scope.
Local Open Scope Z_scope.

(** ** [keystore] *)

(** A client is its settings: the scheme of the address and the token. *)
Record VaultSettings : Type := MkSettings { vt_scheme : string; vt_token : string }.
Record VaultApi : Type := MkApi {
  va_settings : result VaultSettings KeyStoreError;
  va_new : VaultSettings → result unit KeyStoreError;
  va_unwrap : VaultSettings → CEff KeyStoreError string;
  va_login : VaultSettings → string → string → string → CEff KeyStoreError string;
  va_data_key : VaultSettings → string → string → CEff KeyStoreError (option string * string);
  va_decrypt : VaultSettings → string → string → string → CEff KeyStoreError string;
  va_read : VaultSettings → string → string → string → CEff KeyStoreError string;
}.
Inductive VaultFailure : Type := VfError (e : KeyStoreError) | VfPanic.

Section VaultKeyStore.
Context (api : VaultApi) (decode : string → option string).

Definition connect_settings (profile : Profile) : result VaultSettings VaultFailure :=
  match va_settings api with
  | Err e => Err (VfError e)
  | Ok settings => if assert_tls_outside_dev (vt_scheme settings) profile then Ok settings else Err VfPanic
  end.
Definition vault_client (settings : VaultSettings) : CEff VaultFailure VaultSettings :=
  elift VfError (eof (va_new api settings)) ;! eret settings.
Definition connect_client (profile : Profile) : CEff VaultFailure VaultSettings :=
  settings ←! eof (connect_settings profile);
  vault_client settings.

(** [login_as_tenant]: the wrapped SecretID is the token that unwraps it. *)
Definition login_as_tenant (role_id wrapped_secret_id : string) (profile : Profile) : CEff VaultFailure VaultSettings :=
  settings ←! eof (connect_settings profile);
  wrapping ←! vault_client (MkSettings (vt_scheme settings) wrapped_secret_id);
  secret_id ←! elift VfError (va_unwrap api wrapping);
  token ←! elift VfError (va_login api wrapping "approle" role_id secret_id);
  vault_client (MkSettings (vt_scheme wrapping) token).
Definition connect_as_tenant (env : gmap string string) (profile : Profile) : CEff VaultFailure VaultSettings :=
  role_id ←! eof (ok_or (env !! "VAULT_ROLE_ID"%string) VfPanic);
  wrapped_secret_id ←! eof (ok_or (env !! "VAULT_WRAPPED_SECRET_ID"%string) VfPanic);
  login_as_tenant role_id wrapped_secret_id profile.

(** The [KeyStore] methods of a client. *)
Definition vault_create_dek (client : VaultSettings) (mount : string) : CEff KeyStoreError Dek :=
  response ←! va_data_key api client mount KEY_NAME;
  plaintext_b64 ←! eof (ok_or response.1 (Protocol "vault returned no plaintext for DataKeyType::Plaintext"));
  plaintext ←! eof (ok_or (decode plaintext_b64) (Protocol "vault returned invalid base64 plaintext"));
  eret (MkDek plaintext response.2).
Definition vault_unwrap_dek (client : VaultSettings) (mount wrapped : string) : CEff KeyStoreError string :=
  response ←! va_decrypt api client mount KEY_NAME wrapped;
  eof (ok_or (decode response) (Protocol "vault returned invalid base64 plaintext")).
Definition read_provider_credential (client : VaultSettings) (mount path : string) : CEff KeyStoreError string :=
  va_read api client mount path "api_key".
Definition read_webhook_secret (client : VaultSettings) (tenant_slug : string) : CEff KeyStoreError string :=
  va_read api client "secret" (tenant_slug +:+ "/webhook")%string "secret".
Definition vault_key_store (client : VaultSettings) : VaultStore := MkVault (vault_create_dek client) (vault_unwrap_dek client).

(** Vault keeps out of the databases and calls no provider; Transit decrypts a data key
    to the plaintext it was generated with. *)
Class TransitLaws (plain64 : string → string → string → string) : Prop := {
  tl_data_guar (R : relation Cluster) `{!PreOrder R} s m k : guar R (va_data_key api s m k);
  tl_decrypt_guar (R : relation Cluster) `{!PreOrder R} s m k c : guar R (va_decrypt api s m k c);
  tl_data_mute s m k : mute (va_data_key api s m k);
  tl_decrypt_mute s m k c : mute (va_decrypt api s m k c);
  tl_data_plain s m k w w' p c : va_data_key api s m k w = (w', Ok (Some p, c)) → p = plain64 m k c;
  tl_decrypt_plain s m k c w w' p : va_decrypt api s m k c w = (w', Ok p) → p = plain64 m k c;
}.

(** The client is a [VaultStore] as the other components assume it. *)
#[export] Instance vault_key_store_laws `{TL : !TransitLaws plain64} client :
  VaultStoreLaws (vault_key_store client) (λ m c, default ""%string (decode (plain64 m KEY_NAME c))).
Proof.
  split.
  - intros R HR m. pose proof (tl_data_guar R client m KEY_NAME). simpl. unfold vault_create_dek. step_guar.
  - intros R HR m s. pose proof (tl_decrypt_guar R client m KEY_NAME s). simpl. unfold vault_unwrap_dek. step_guar.
  - intros m w w' d. simpl. unfold vault_create_dek, ebind. destruct (va_data_key _ _ _ _ _) as [w1 [[[p|] c]|]] eqn:E; try done.
    apply (tl_data_plain (plain64:=plain64)) in E as ->. unfold eof, ok_or. simpl. destruct (decode _) as [x|] eqn:Ed; [|done]. intros [= <- <-]. simpl. by rewrite Ed.
  - intros m s w w' p. simpl. unfold vault_unwrap_dek, ebind. destruct (va_decrypt _ _ _ _ _ _) as [w1 [x|]] eqn:E; [|done].
    apply (tl_decrypt_plain (plain64:=plain64)) in E as ->. unfold eof, ok_or. destruct (decode _) as [y|] eqn:Ed; [|done]. by intros [= <- <-].
  - intros m. pose proof (tl_data_mute client m KEY_NAME). simpl. unfold vault_create_dek. solve_mute.
  - intros m s. pose proof (tl_decrypt_mute client m KEY_NAME s). simpl. unfold vault_unwrap_dek. solve_mute.
Qed.
End VaultKeyStore.

(** ** [mtls] *)

Inductive MtlsError : Type :=
| MtlsIo | MtlsRustls | VerifierBuild | NoServerCertificates | NoPrivateKey | NoClientCaCertificates | NoCommonName | InvalidCertificate.
(** [rustls::ServerConfig]: the identity of the server, and the roots that a client
    certificate must chain to, when one is demanded. *)
Record ServerConfig : Type := MkServerConfig { tc_certs : list string; tc_key : string; tc_client_roots : option (list string) }.
(** What [rustls] and [rustls_pemfile] make of files and certificates. *)
Record TlsApi : Type := MkTls {
  tl_open : string → option string;
  tl_certs : string → option (list string);
  tl_private_key : string → result (option string) unit;
  tl_add_root : string → bool;
  tl_verifier : list string → bool;
  tl_single_cert : list string → string → bool;
  (** The chain of a client that completes the handshake. *)
  tl_handshake : ServerConfig → string → option (list string);
  (** The common names of a certificate, each as text if it is. *)
  tl_common_names : string → option (list (option string));
}.

Section Mtls.
Context (tls : TlsApi).
Definition read_certs (path : string) : result (list string) MtlsError :=
  match tl_open tls path with None => Err MtlsIo | Some file => ok_or (tl_certs tls file) MtlsIo end.
Definition read_private_key (path : string) : result string MtlsError :=
  match tl_open tls path with
  | None => Err MtlsIo
  | Some file => match tl_private_key tls file with Err _ => Err MtlsIo | Ok key => ok_or key NoPrivateKey end
  end.
(** The server's own identity, which both configurations read first. *)
Definition server_identity (cert_pem_path key_pem_path : string) : result (list string * string) MtlsError :=
  match read_certs cert_pem_path with
  | Err e => Err e
  | Ok [] => Err NoServerCertificates
  | Ok certs => match read_private_key key_pem_path with Err e => Err e | Ok key => Ok (certs, key) end
  end.
Definition load_server_config (cert_pem_path key_pem_path client_ca_pem_path : string) : result ServerConfig MtlsError :=
  match server_identity cert_pem_path key_pem_path with
  | Err e => Err e
  | Ok (certs, key) =>
      match read_certs client_ca_pem_path with
      | Err e => Err e
      | Ok [] => Err NoClientCaCertificates
      | Ok roots =>
          if negb (forallb (tl_add_root tls) roots) then Err MtlsRustls
          else if negb (tl_verifier tls roots) then Err VerifierBuild
          else if tl_single_cert tls certs key then Ok (MkServerConfig certs key (Some roots)) else Err MtlsRustls
      end
  end.
Definition load_plain_server_config (cert_pem_path key_pem_path : string) : result ServerConfig MtlsError :=
  match server_identity cert_pem_path key_pem_path with
  | Err e => Err e
  | Ok (certs, key) => if tl_single_cert tls certs key then Ok (MkServerConfig certs key None) else Err MtlsRustls
  end.

Definition subject_from_der (der : string) : result string MtlsError :=
  match tl_common_names tls der with
  | None => Err InvalidCertificate
  | Some [] => Err NoCommonName
  | Some (None :: _) => Err InvalidCertificate
  | Some (Some common_name :: _) => Ok ("CN=" +:+ common_name)%string
  end.
(** [ClientCertAcceptor::accept]: the subject a connection speaks for, [None] when it
    is refused. *)
Definition accept (config : ServerConfig) (stream : string) : option string :=
  chain ← tl_handshake tls config stream;
  peer_cert ← head chain;
  match subject_from_der peer_cert with Ok subject => Some subject | Err _ => None end.

(** rustls completes no handshake of a server that demands certificates unless the
    client proves one that chains to the roots ([proves stream cert roots]). *)
Class HandshakeLaws (proves : string → string → list string → Prop) : Prop :=
  hs_verified config stream chain roots cert :
    tl_handshake tls config stream = Some chain → tc_client_roots config = Some roots → head chain = Some cert → proves stream cert roots.

(** A configuration that loads with a client CA demands certificates of that CA. *)
Lemma server_config_roots cert key ca config :
  load_server_config cert key ca = Ok config → ∃ root roots, tc_client_roots config = Some (root :: roots) ∧ read_certs ca = Ok (root :: roots).
Proof.
  unfold load_server_config. destruct (server_identity cert key) as [[certs k]|]; [|done].
  destruct (read_certs ca) as [[|root roots]|] eqn:E; try done. repeat case_match; try done. intros [= <-]. by exists root, roots.
Qed.
Lemma plain_config_roots cert key config : load_plain_server_config cert key = Ok config → tc_client_roots config = None.
Proof. unfold load_plain_server_config. repeat case_match; try done. by intros [= <-]. Qed.
Lemma accept_subject proves `{!HandshakeLaws proves} config roots stream subject :
  tc_client_roots config = Some roots → accept config stream = Some subject →
  ∃ cert name, proves stream cert roots ∧ subject = ("CN=" +:+ name)%string
    ∧ ∃ more, tl_common_names tls cert = Some (Some name :: more).
Proof.
  intros Hr. unfold accept. destruct (tl_handshake tls config stream) as [chain|] eqn:Eh; [|done]. simpl.
  destruct (head chain) as [cert|] eqn:Ec; [|done]. simpl. unfold subject_from_der.
  destruct (tl_common_names tls cert) as [[|[name|] more]|] eqn:En; try done. intros [= <-]. exists cert, name.
  split; [by eapply hs_verified|]. split; [done|by exists more].
Qed.
End Mtls.

(** ** [sender::http] *)

Record PostMessage : Type := MkPost { rq_url : string; rq_bearer : string; rq_to : string; rq_body : string }.
(** A response: its status and its text, if it can be read. *)
Record HttpResponse : Type := MkHttp { hr_status : Z; hr_text : option string }.

Section HttpSender.
Context (post : list Call → PostMessage → option HttpResponse) (parse_reply : string → option SendOutcome).
Definition is_success (status : Z) : bool := (200 <=? status) && (status <? 300).
(** [HttpSender::send]: a transport failure, a refusal, or a reply to read. *)
Definition http_send (base_url api_key : string) (sent : list Call) (destination body : string) : result SendOutcome SenderError :=
  match post sent (MkPost (base_url +:+ "/messages")%string api_key destination body) with
  | None => Err Http
  | Some response =>
      if is_success (hr_status response) then ok_or (hr_text response ≫= parse_reply) Http
      else Err (Provider (hr_status response) (default ""%string (hr_text response)))
  end.

(** Which replies are tried again: no response, a server error, or an acceptance whose
    text cannot be read. *)
Lemma http_retries base_url api_key sent destination body e :
  http_send base_url api_key sent destination body = Err e → is_retryable e = true →
  let reply := post sent (MkPost (base_url +:+ "/messages")%string api_key destination body) in
  reply = None ∨ ∃ r, reply = Some r ∧ (500 <= hr_status r ∨ (is_success (hr_status r) = true ∧ hr_text r ≫= parse_reply = None)).
Proof.
  unfold http_send. destruct (post _ _) as [r|]; [|by left]. destruct (is_success (hr_status r)) eqn:Es.
  - unfold ok_or. destruct (hr_text r ≫= parse_reply) eqn:Ep; [done|]. right. exists r. auto.
  - intros [= <-] Hr. right. exists r. split; [done|]. left. simpl in Hr. by apply Z.leb_le.
Qed.
(** An accepted message with an unreadable reply counts as one to send again. *)
Theorem unreadable_acceptance_is_retried base_url api_key sent destination body r :
  post sent (MkPost (base_url +:+ "/messages")%string api_key destination body) = Some r → is_success (hr_status r) = true → hr_text r ≫= parse_reply = None →
  ∃ e, http_send base_url api_key sent destination body = Err e ∧ is_retryable e = true.
Proof. intros Hp Hs Ht. unfold http_send. rewrite Hp, Hs, Ht. by exists Http. Qed.
End HttpSender.
