(* ===== verification/Start.v ===== *)
(** * How the services start

    Models the [main] functions of [src/bin/{ingest,otp,sms_sender,query_api,webhook,
    dispatcher}.rs]: the environment they read, the checks they make and the state their
    listeners and loops begin with. A start that fails is a panic that names what failed.
    Binding sockets and spawning tasks comes after what is modelled. *)

From S2P Require Import Prelude RustStd Time Schema KillSwitch Quota QuietHours Dek Outbox Worker Tenancy Producers Platform Webhook Otp Settings QueryApi Admin Control Columns Transport.
From stdpp Require Import base gmap strings list.
From Stdlib Require Import ZArith Lia Ascii.

Local Open Scope effect_scope.
Local Open Scope Z_scope.

Inductive Died : Type := MkDied (message : string).
Definition expect {E A} (message : string) (m : CEff E A) : CEff Died A := elift (λ _, MkDied message) m.

(** [str::split(',')], and [to_uppercase] of a channel's name, which is ASCII. *)
Fixpoint split_comma_onto (acc s : string) : list string :=
  match s with
  | EmptyString => [acc]
  | String c s => if decide (c = ","%char) then acc :: split_comma_onto "" s else split_comma_onto (acc +:+ String c EmptyString) s
  end.
Definition split_comma (s : string) : list string := split_comma_onto "" s.
Definition ascii_upper (c : ascii) : ascii :=
  let n := N_of_ascii c in if (97 <=? n)%N && (n <=? 122)%N then ascii_of_N (n - 32) else c.
Fixpoint to_uppercase (s : string) : string :=
  match s with EmptyString => EmptyString | String c s => String (ascii_upper c) (to_uppercase s) end.

(** What a service that listens begins with. *)
Record Service : Type := MkService {
  sv_config : Config; sv_listen : string; sv_health : string; sv_vault : VaultSettings; sv_tls : ServerConfig;
}.
(** The two services that send codes. *)
Record CodeService : Type := MkCodeService {
  cs_service : Service; cs_base_url : string; cs_buffer_path : string; cs_pending_path : string; cs_flags : Flags;
}.
Record QueryService : Type := MkQueryService { qs_service : Service; qs_database_url : string; qs_auth : MockProvider }.
(** What every channel of a dispatcher shares, its senders (base URL and API key by
    channel), and where it goes for leadership. *)
Record Dispatcher : Type := MkDispatcher {
  dp_config : Config; dp_health : string; dp_tenant : Tenant; dp_pool : string; dp_vault : VaultSettings;
  dp_release_rate : Z; dp_verification_mode : string; dp_quota_day_boundary_tz : string; dp_default_timezone : string;
  dp_quiet_hours : option QuietHoursPolicy; dp_senders : gmap string (string * string); dp_leader_options : PgConnectOptions;
}.

Definition DEFAULT_KILL_SWITCH_RELEASE_RATE : Z := 500.
Definition DEFAULT_VERIFICATION_MODE : string := "observe".
Definition DEFAULT_TIMEZONE : string := "UTC".
Definition AUTH_PROVIDER_MOCK : string := "mock".

Section Start.
Context `{PU : !PgUrl} (env : gmap string string) (api : VaultApi) (tls : TlsApi).
(** [str::parse::<SocketAddr>] succeeds. *)
Context (addr_ok : string → bool).

Definition env_var (name : string) : CEff Died string := eof (ok_or (env !! name) (MkDied (name +:+ " must be set")%string)).
Definition env_or (name fallback : string) : string := default fallback (env !! name).
Definition addr_var (name fallback : string) : CEff Died string :=
  let value := env_or name fallback in
  if addr_ok value then eret value else ethrow (MkDied (name +:+ " must be a valid socket address")%string).
Definition load_environment : CEff Died Config := eof (ok_or (config_from_env env) (MkDied "configuration")).

(** [db::connect] and the region check, in every service. *)
Definition connect_control (config : Config) : CEff Died unit :=
  expect "failed to connect to the control database" (eof (parse_url (cg_control_database_url config)) ;! query (λ _ _, tt)) ;!
  expect "region check against the control database failed" (assert_region (cg_region config)).
Definition vault_or_die (config : Config) : CEff Died VaultSettings := expect "failed to connect to Vault" (connect_client api (cg_profile config)).
Definition tls_or_die (r : result ServerConfig MtlsError) : CEff Died ServerConfig := expect "failed to load TLS material" (eof r).

(** [bin/ingest.rs]. *)
Definition ingest_start : CEff Died Service :=
  config ←! load_environment;
  listen ←! addr_var "INGEST_LISTEN_ADDR" "0.0.0.0:8443";
  health ←! addr_var "INGEST_HEALTH_LISTEN_ADDR" "0.0.0.0:8080";
  cert_file ←! env_var "INGEST_TLS_CERT_FILE";
  key_file ←! env_var "INGEST_TLS_KEY_FILE";
  client_ca_file ←! env_var "INGEST_TLS_CLIENT_CA_FILE";
  connect_control config ;!
  vault ←! vault_or_die config;
  tls_config ←! tls_or_die (load_server_config tls cert_file key_file client_ca_file);
  eret (MkService config listen health vault tls_config).

(** [bin/otp.rs] and [bin/sms_sender.rs], which differ in the names of their variables
    and files. A first refresh of the auth flags may fail. *)
Definition code_service_start (prefix listen_default health_default files : string) : CEff Died CodeService :=
  let name suffix := (prefix +:+ "_" +:+ suffix)%string in
  config ←! load_environment;
  listen ←! addr_var (name "LISTEN_ADDR"%string) listen_default;
  health ←! addr_var (name "HEALTH_LISTEN_ADDR"%string) health_default;
  cert_file ←! env_var (name "TLS_CERT_FILE"%string);
  key_file ←! env_var (name "TLS_KEY_FILE"%string);
  client_ca_file ←! env_var (name "TLS_CLIENT_CA_FILE"%string);
  base_url ←! env_var (name "BASE_URL"%string);
  let buffer_path := env_or (name "BUFFER_PATH"%string) (files +:+ "-buffer.jsonl")%string in
  let pending_path := env_or (name "PENDING_PATH"%string) (files +:+ "-pending.jsonl")%string in
  connect_control config ;!
  vault ←! vault_or_die config;
  refreshed ←! etry refresh_flags;
  let flags := match refreshed with Ok flags => flags | Err _ => ∅ end in
  tls_config ←! tls_or_die (load_server_config tls cert_file key_file client_ca_file);
  eret (MkCodeService (MkService config listen health vault tls_config) base_url buffer_path pending_path flags).
Definition otp_start : CEff Died CodeService := code_service_start "OTP" "0.0.0.0:8446" "0.0.0.0:8085" "otp".
Definition sms_sender_start : CEff Died CodeService := code_service_start "SMS_SENDER" "0.0.0.0:8445" "0.0.0.0:8084" "sms-sender".

(** [bin/query_api.rs]: the one provider there is, is the mock. *)
Definition query_api_start : CEff Died QueryService :=
  config ←! load_environment;
  listen ←! addr_var "QUERY_API_LISTEN_ADDR" "0.0.0.0:8544";
  health ←! addr_var "QUERY_API_HEALTH_LISTEN_ADDR" "0.0.0.0:8083";
  cert_file ←! env_var "QUERY_API_TLS_CERT_FILE";
  key_file ←! env_var "QUERY_API_TLS_KEY_FILE";
  let database_url := env_or "QUERY_API_DATABASE_URL" (cg_control_database_url config) in
  kind ←! env_var "AUTH_PROVIDER";
  (if decide (kind = AUTH_PROVIDER_MOCK) then eret tt else ethrow (MkDied "AUTH_PROVIDER is not a recognized provider")) ;!
  actor ←! env_var "MOCK_AUTH_ACTOR";
  role ←! env_var "MOCK_AUTH_ROLE";
  connect_control config ;!
  auth ←! eof (ok_or (mock_new (cg_profile config) actor role) (MkDied "MockProvider is not permitted outside profile=dev"));
  vault ←! vault_or_die config;
  tls_config ←! tls_or_die (load_plain_server_config tls cert_file key_file);
  eret (MkQueryService (MkService config listen health vault tls_config) database_url auth).

(** [bin/webhook.rs]. *)
Definition webhook_start : CEff Died Service :=
  config ←! load_environment;
  listen ←! addr_var "WEBHOOK_LISTEN_ADDR" "0.0.0.0:8543";
  health ←! addr_var "WEBHOOK_HEALTH_LISTEN_ADDR" "0.0.0.0:8082";
  cert_file ←! env_var "WEBHOOK_TLS_CERT_FILE";
  key_file ←! env_var "WEBHOOK_TLS_KEY_FILE";
  connect_control config ;!
  vault ←! vault_or_die config;
  tls_config ←! tls_or_die (load_plain_server_config tls cert_file key_file);
  eret (MkService config listen health vault tls_config).

(** [bin/dispatcher.rs] up to the election: the credential of each channel is that of
    its first provider. *)
Definition dispatcher_channels : list string := filter (λ s, s ≠ ""%string) (trim <$> split_comma (env_or "DISPATCHER_CHANNELS" "sms")).
Fixpoint channel_senders (vault : VaultSettings) (pool : string) (channels : list string) : CEff Died (list (string * (string * string))) :=
  match channels with
  | [] => eret []
  | channel :: channels =>
      base_url ←! env_var ("DISPATCHER_" +:+ to_uppercase channel +:+ "_BASE_URL")%string;
      configs ←! expect "loading provider_config failed" (pool_query pool (λ _, list_providers channel));
      top ←! eof (ok_or (snd <$> head configs) (MkDied "no provider_config row"));
      path ←! eof (ok_or (split_kv_path (pv_credential_path top)) (MkDied "credential_path is not in <mount>/data/<path> form"));
      api_key ←! expect "reading Vault credential failed" (read_provider_credential api vault path.1 path.2);
      rest ←! channel_senders vault pool channels;
      eret ((channel, (base_url, api_key)) :: rest)
  end.
(** [contexts.insert] in the order of the list: the last one of a channel stays. *)
Definition insert_contexts (senders : list (string * (string * string))) : gmap string (string * string) :=
  foldl (λ m s, <[s.1 := s.2]> m) ∅ senders.
Definition dispatcher_start : CEff Died Dispatcher :=
  config ←! load_environment;
  health ←! addr_var "DISPATCHER_HEALTH_LISTEN_ADDR" "0.0.0.0:8081";
  tenant_slug ←! env_var "DISPATCHER_TENANT_SLUG";
  connect_control config ;!
  found ←! expect "tenant lookup failed" (query (λ _, find_by_slug tenant_slug));
  tenant ←! eof (ok_or found (MkDied "no tenant registered with slug"));
  pool ←! expect "failed to connect to the tenant database"
    (connect_tenant_pool (cg_control_database_url config) (tt_id tenant) (tt_database_name tenant));
  vault ←! expect "failed to log in to Vault as this tenant's AppRole" (connect_as_tenant api env (cg_profile config));
  tenant_config ←! expect "loading tenant_config failed" (load_config (tp_pool pool));
  quiet_hours ←! expect "loading quiet_hours_policy failed" (pool_query (tp_pool pool) (λ _, load_default));
  senders ←! channel_senders vault (tp_pool pool) dispatcher_channels;
  expect "failed to open the kill-switch LISTEN connection" (pool_query (tp_pool pool) (λ _ _, tt)) ;!
  expect "failed to LISTEN on kill_switch" (pool_query (tp_pool pool) (λ _ _, tt)) ;!
  leader_options ←! expect "deriving the leader-lock connection options failed"
    (eof (with_database_name (cg_control_database_url config) (tt_database_name tenant)));
  let of_config {A} (f : TenantConfig → A) (fallback : A) := match tenant_config with Some c => f c | None => fallback end in
  eret (MkDispatcher config health tenant (tp_pool pool) vault
    (of_config cf_kill_switch_release_rate DEFAULT_KILL_SWITCH_RELEASE_RATE) (of_config cf_verification_mode DEFAULT_VERIFICATION_MODE)
    (of_config cf_quota_day_boundary_tz DEFAULT_QUOTA_DAY_BOUNDARY_TZ) (of_config cf_default_timezone DEFAULT_TIMEZONE)
    quiet_hours (insert_contexts senders) leader_options).

(** Once elected, before the claim loops. *)
Definition dispatcher_lead {Tz} `{!TimeZone Tz} (d : Dispatcher) : CEff Died (QuotaTracker Tz) :=
  expect "clearing stale outbox leases failed" (pool_sql (dp_pool d) (λ _ t, Ok (on_tables clear_leases t, tt))) ;!
  now ←! utc_now;
  let quota := Quota.new (dp_quota_day_boundary_tz d) in
  rows ←! expect "rebuilding producer quota counters from producer_usage failed"
    (pool_query (dp_pool d) (λ _ t, load_current_usage (minute_window_start now) (day_window_start (qt_tz quota) now) (td_tables t)));
  eret (set_counters (λ m, fold_left restore_row rows m) quota).

Inductive Binary : Type := BIngest | BOtp | BSmsSender | BQueryApi | BWebhook | BDispatcher.
Inductive Started : Type :=
| SListening (s : Service) | SCodes (s : CodeService) | SQuery (s : QueryService) | SDispatching (d : Dispatcher).
Definition start (b : Binary) : CEff Died Started :=
  match b with
  | BIngest => s ←! ingest_start; eret (SListening s)
  | BOtp => s ←! otp_start; eret (SCodes s)
  | BSmsSender => s ←! sms_sender_start; eret (SCodes s)
  | BQueryApi => s ←! query_api_start; eret (SQuery s)
  | BWebhook => s ←! webhook_start; eret (SListening s)
  | BDispatcher => d ←! dispatcher_start; eret (SDispatching d)
  end.
End Start.

(** ** What a started service can rely on *)

(** Whatever the world, a result satisfies [Q]. *)
Definition gives {E A} (m : CEff E A) (Q : A → Prop) : Prop := ∀ w w' a, m w = (w', Ok a) → Q a.

Lemma gives_bind {E A B} (m : CEff E A) (k : A → CEff E B) Q1 Q : gives m Q1 → (∀ a, Q1 a → gives (k a) Q) → gives (ebind m k) Q.
Proof. intros Hm Hk w w' b. unfold ebind. destruct (m w) as [w1 [a|]] eqn:Em; [|done]. by eapply Hk, Hm. Qed.
Lemma gives_any {E A} (m : CEff E A) : gives m (λ _, True).
Proof. done. Qed.
Lemma gives_skip {E A B} (m : CEff E A) (k : A → CEff E B) Q : (∀ a, gives (k a) Q) → gives (ebind m k) Q.
Proof. intros Hk. eapply gives_bind; [apply gives_any|]. auto. Qed.
Lemma gives_ret {E A} (a : A) (Q : A → Prop) : Q a → gives (E:=E) (eret a) Q.
Proof. by intros H w w' b [= _ <-]. Qed.
Lemma gives_of {E A} (r : result A E) : gives (eof r) (λ a, r = Ok a).
Proof. by intros w w' a [= _ ->]. Qed.
Lemma gives_lift {E F A} (f : E → F) (m : CEff E A) Q : gives m Q → gives (elift f m) Q.
Proof. intros Hm w w' a. unfold elift. destruct (m w) as [w1 [x|]] eqn:Em; [|done]. intros [= _ <-]. by eapply Hm. Qed.
Lemma gives_some {E A} (o : option A) (e : E) : gives (eof (ok_or o e)) (λ a, o = Some a).
Proof. intros w w' a. destruct o; by intros [= _ <-]. Qed.

Section Guards.
Context `{PU : !PgUrl} (env : gmap string string) (api : VaultApi) (tls : TlsApi) (addr_ok : string → bool).
Context (proves : string → string → list string → Prop) `{HL : !HandshakeLaws tls proves}.

(** The configuration is that of the environment, and outside development Vault is
    reached over TLS. *)
Definition secure (config : Config) (vault : VaultSettings) : Prop :=
  config_from_env env = Some config ∧ (is_dev (cg_profile config) = true ∨ vt_scheme vault = "https"%string).
(** Nobody gets in without a certificate of the CA that the variable names, and whoever
    does speaks for the common name of that certificate. *)
Definition demands_certificates (ca_var : string) (config : ServerConfig) : Prop :=
  ∃ ca_file roots, env !! ca_var = Some ca_file ∧ read_certs tls ca_file = Ok roots ∧ roots ≠ []
    ∧ ∀ stream subject, accept tls config stream = Some subject →
        ∃ cert name more, proves stream cert roots ∧ tl_common_names tls cert = Some (Some name :: more) ∧ subject = ("CN=" +:+ name)%string.

Lemma connect_client_gives profile :
  gives (connect_client api profile) (λ vault, is_dev profile = true ∨ vt_scheme vault = "https"%string).
Proof.
  unfold connect_client. eapply gives_bind; [apply gives_of|]. intros settings. unfold connect_settings.
  destruct (va_settings api) as [s|]; [|done]. destruct (assert_tls_outside_dev _ _) eqn:E; [|done]. intros [= ->].
  apply gives_skip. intros _. apply gives_ret. apply orb_true_iff in E as [E|E%bool_decide_eq_true]; auto.
Qed.
Lemma connect_as_tenant_gives profile :
  gives (connect_as_tenant api env profile) (λ vault, is_dev profile = true ∨ vt_scheme vault = "https"%string).
Proof.
  unfold connect_as_tenant, login_as_tenant, vault_client. do 2 (apply gives_skip; intros ?).
  eapply gives_bind; [apply gives_of|]. intros settings. unfold connect_settings.
  destruct (va_settings api) as [s|]; [|done]. destruct (assert_tls_outside_dev _ _) eqn:E; [|done]. intros [= ->].
  eapply (gives_bind _ _ (λ c, vt_scheme c = vt_scheme settings)); [apply gives_skip; intros _; by apply gives_ret|].
  intros wrapping Hw. do 3 (apply gives_skip; intros ?). apply gives_ret. simpl. rewrite Hw.
  apply orb_true_iff in E as [E|E%bool_decide_eq_true]; auto.
Qed.
Lemma server_config_demands cert key ca_var ca_file config :
  env !! ca_var = Some ca_file → load_server_config tls cert key ca_file = Ok config → demands_certificates ca_var config.
Proof.
  intros Hca (root & roots & Hr & Hread)%server_config_roots. exists ca_file, (root :: roots). split_and!; try done.
  intros stream subject Ha. destruct (accept_subject tls proves config (root :: roots) stream subject Hr Ha) as (c & name & H1 & H2 & more & H3).
  by exists c, name, more.
Qed.

Definition guarded (b : Binary) (s : Started) : Prop :=
  match b, s with
  | BIngest, SListening s => secure (sv_config s) (sv_vault s) ∧ demands_certificates "INGEST_TLS_CLIENT_CA_FILE" (sv_tls s)
  | BOtp, SCodes c => secure (sv_config (cs_service c)) (sv_vault (cs_service c)) ∧ demands_certificates "OTP_TLS_CLIENT_CA_FILE" (sv_tls (cs_service c))
  | BSmsSender, SCodes c =>
      secure (sv_config (cs_service c)) (sv_vault (cs_service c)) ∧ demands_certificates "SMS_SENDER_TLS_CLIENT_CA_FILE" (sv_tls (cs_service c))
  | BQueryApi, SQuery q => secure (sv_config (qs_service q)) (sv_vault (qs_service q)) ∧ is_dev (cg_profile (sv_config (qs_service q))) = true
  | BWebhook, SListening s => secure (sv_config s) (sv_vault s)
  | BDispatcher, SDispatching d =>
      secure (dp_config d) (dp_vault d)
      ∧ ∀ ch, ch ∈ dispatcher_channels env ↔ is_Some (dp_senders d !! ch)
  | _, _ => False
  end.

Lemma channel_senders_gives vault pool channels : gives (channel_senders env api vault pool channels) (λ l, l.*1 = channels).
Proof.
  induction channels as [|ch channels IH]; cbn [channel_senders]; [by apply gives_ret|].
  do 5 (apply gives_skip; intros ?). eapply gives_bind; [exact IH|]. intros rest <-. by apply gives_ret.
Qed.
Lemma insert_contexts_dom l ch : is_Some (insert_contexts l !! ch) ↔ ch ∈ l.*1.
Proof.
  unfold insert_contexts.
  assert (∀ m, is_Some (foldl (λ (m : gmap string (string * string)) s, <[s.1 := s.2]> m) m l !! ch) ↔ is_Some (m !! ch) ∨ ch ∈ l.*1) as H.
  { induction l as [|[x v] l IH]; intros m; simpl; [rewrite elem_of_nil; tauto|]. rewrite IH, lookup_insert_is_Some, elem_of_cons.
    destruct (decide (x = ch)); naive_solver. }
  rewrite H, lookup_empty. split; [intros [[? [=]]|]; done|by right].
Qed.

(** Keeps what the reads of a start give, and skips the rest. *)
Ltac step_gives :=
  repeat first
  [ eapply gives_bind; [apply gives_some|intros ? ?]
  | eapply gives_bind; [apply gives_lift, connect_client_gives|intros ? ?]
  | eapply gives_bind; [apply gives_lift, connect_as_tenant_gives|intros ? ?]
  | eapply gives_bind; [apply gives_lift, gives_of|intros ? ?]
  | eapply gives_bind; [apply channel_senders_gives|intros ? ?]
  | apply gives_skip; intros ?
  | apply gives_ret ]; simpl in *.

Lemma ingest_gives : gives (ingest_start env api tls addr_ok) (guarded BIngest ∘ SListening).
Proof. unfold ingest_start, load_environment, env_var, vault_or_die, tls_or_die, expect. step_gives. split; [by split|by eapply server_config_demands]. Qed.
Lemma code_service_gives prefix l h files :
  gives (code_service_start env api tls addr_ok prefix l h files) (λ c, secure (sv_config (cs_service c)) (sv_vault (cs_service c))
    ∧ demands_certificates (prefix +:+ "_" +:+ "TLS_CLIENT_CA_FILE")%string (sv_tls (cs_service c))).
Proof.
  unfold code_service_start, load_environment, env_var, vault_or_die, tls_or_die, expect. cbv zeta. step_gives. split; [by split|by eapply server_config_demands].
Qed.
Lemma query_api_gives : gives (query_api_start env api tls addr_ok) (guarded BQueryApi ∘ SQuery).
Proof.
  unfold query_api_start, load_environment, env_var, vault_or_die, tls_or_die, expect. cbv zeta. step_gives. split; [by split|]. simpl.
  unfold mock_new in *. by destruct (is_dev _).
Qed.
Lemma webhook_gives : gives (webhook_start env api tls addr_ok) (guarded BWebhook ∘ SListening).
Proof. unfold webhook_start, load_environment, env_var, vault_or_die, tls_or_die, expect. step_gives. by split. Qed.
Lemma dispatcher_gives : gives (dispatcher_start env api addr_ok) (guarded BDispatcher ∘ SDispatching).
Proof.
  unfold dispatcher_start, load_environment, env_var, expect. cbv zeta. step_gives. split; [by split|]. intros ch. simpl.
  rewrite insert_contexts_dom. by match goal with H : _.*1 = _ |- _ => rewrite H end.
Qed.

(** C28. What a started service can count on: whichever of the six starts, in whatever
    world, its configuration is that of the environment and outside development its
    Vault is behind TLS; ingest and the two code services let nobody in without a
    certificate of their CA and take the common name of that certificate for the
    caller; the query API with its mock login starts in development only; the
    dispatcher has a sender for exactly the channels it is configured for. *)
Theorem started_services_are_guarded b (w w' : CW) s : start env api tls addr_ok b w = (w', Ok s) → guarded b s.
Proof.
  revert w w' s. change (gives (start env api tls addr_ok b) (guarded b)).
  destruct b; (eapply gives_bind; [first [apply ingest_gives|apply code_service_gives|apply query_api_gives|apply webhook_gives|apply dispatcher_gives]|]);
    intros x Hx; by apply gives_ret.
Qed.
End Guards.

(** ** Regions *)

Section Regions.
Context `{PU : !PgUrl} (env : gmap string string) (api : VaultApi) (tls : TlsApi) (addr_ok : string → bool).
(** The calls of a start leave the databases alone. *)
Class QuietVault : Prop := {
  qv_unwrap (R : relation Cluster) `{!PreOrder R} s : guar R (va_unwrap api s);
  qv_login (R : relation Cluster) `{!PreOrder R} s m r i : guar R (va_login api s m r i);
  qv_read (R : relation Cluster) `{!PreOrder R} s m p f : guar R (va_read api s m p f);
}.
Context `{QV : !QuietVault} (R : relation Cluster) `{!PreOrder R}.

Lemma connect_client_guar profile : guar R (connect_client api profile).
Proof. unfold connect_client, vault_client. step_guar. Qed.
Lemma connect_as_tenant_guar profile : guar R (connect_as_tenant api env profile).
Proof.
  pose proof (qv_unwrap R) as H1. pose proof (qv_login R) as H2. unfold connect_as_tenant, login_as_tenant, vault_client. step_guar.
Qed.
Lemma channel_senders_guar vault pool channels : guar R (channel_senders env api vault pool channels).
Proof.
  pose proof (qv_read R) as H1. pose proof (λ p f, guar_pool_query R (A:=list (Z * ProviderConfig)) p f) as H2.
  induction channels as [|ch channels IH]; cbn [channel_senders]; unfold env_var, expect, read_provider_credential; step_guar.
Qed.
Hint Resolve connect_client_guar connect_as_tenant_guar channel_senders_guar : effects.

(** Starting writes nothing, so neither does a dispatcher that stands by. *)
Lemma start_guar b : guar R (start env api tls addr_ok b).
Proof.
  pose proof (λ u id name, connect_guar u id R name) as Hc.
  pose proof (λ A p f, guar_pool_query R (A:=A) p f) as Hq.
  destruct b; unfold start, ingest_start, otp_start, sms_sender_start, code_service_start, query_api_start, webhook_start, dispatcher_start,
    load_environment, addr_var, env_var, connect_control, assert_region, vault_or_die, tls_or_die, refresh_flags, load_config, expect; cbv zeta; step_guar.
Qed.

Context (config : Config) (Hconfig : config_from_env env = Some config) (Hstable : stable R (foreign_on_file config)).
(** A run that does not get to its end while a tenant of another region is on file. *)
Definition doomed {A} (m : CEff Died A) : Prop := hoare R (foreign_on_file config) m (λ _ _, False) (λ _, True).

Lemma doomed_after {A B} (m : CEff Died A) (k : A → CEff Died B) : guar R m → (∀ a, doomed (k a)) → doomed (ebind m k).
Proof. intros Hm Hk. eapply hoare_bind; [apply _|by apply sustains_guar|exact Hk]. Qed.
Lemma doomed_at {A B} (m : CEff Died A) (k : A → CEff Died B) : doomed m → doomed (ebind m k).
Proof. intros Hm. eapply hoare_bind; [apply _|exact Hm|]. by intros a w _ []. Qed.
Lemma doomed_config {B} (k : Config → CEff Died B) : doomed (k config) → doomed (ebind (load_environment env) k).
Proof. intros Hk w Hr Hf. unfold load_environment. rewrite Hconfig. exact (Hk w Hr Hf). Qed.
Lemma doomed_region : doomed (connect_control config).
Proof.
  unfold connect_control. apply doomed_after; [unfold expect; step_guar|]. intros _. unfold expect. apply hoare_lift.
  eapply hoare_weaken; [by apply (assert_region_hoare config R)|done|done|done].
Qed.
Ltac step_doomed :=
  repeat first [ apply doomed_config | apply doomed_at, doomed_region | apply doomed_after; [unfold addr_var, env_var; step_guar|intros ?] ].
Lemma start_doomed b : doomed (start env api tls addr_ok b).
Proof.
  destruct b; apply doomed_at; unfold ingest_start, otp_start, sms_sender_start, code_service_start, query_api_start, webhook_start, dispatcher_start;
    cbv zeta; step_doomed.
Qed.

(** C29. No service starts for tenants of another region: with one on file, each of the
    six dies before it serves or takes part in an election, and has written nothing. *)
Theorem no_service_starts_in_a_foreign_region b (w : CW) :
  rely R w → foreign_on_file config (w_db w) →
  ∃ w' d, start env api tls addr_ok b w = (w', Err d) ∧ R (w_db w) (w_db w').
Proof.
  intros Hr Hf. destruct (start_doomed b w Hr Hf) as (_ & HR & Hres). destruct (start env api tls addr_ok b w) as [w' [s|d]]; [done|].
  by exists w', d.
Qed.
End Regions.

(** ** Concrete starts *)

#[local] Existing Instance demo_url.

Definition demo_env (region : string) : gmap string string :=
  list_to_map [("CONTROL_DATABASE_URL", "postgres://"); ("MESSGR_PROFILE", "production"); ("MESSGR_REGION", region);
    ("INGEST_TLS_CERT_FILE", "server"); ("INGEST_TLS_KEY_FILE", "key"); ("INGEST_TLS_CLIENT_CA_FILE", "ca");
    ("DISPATCHER_TENANT_SLUG", "acme"); ("DISPATCHER_CHANNELS", "sms, ,email"); ("DISPATCHER_SMS_BASE_URL", "http://sms");
    ("DISPATCHER_EMAIL_BASE_URL", "http://mail"); ("VAULT_ROLE_ID", "role"); ("VAULT_WRAPPED_SECRET_ID", "wrapped")]%string.
Definition demo_api (scheme : string) : VaultApi :=
  MkApi (Ok (MkSettings scheme "admin")) (λ _, Ok tt) (λ s, eret ("secret-of-" +:+ vt_token s)%string) (λ _ _ role secret, eret (role +:+ "/" +:+ secret)%string)
    (λ _ _ _, eret (Some "cGxhaW4="%string, "wrapped"%string)) (λ _ _ _ _, eret "cGxhaW4="%string) (λ s m p f, eret (vt_token s +:+ "@" +:+ m +:+ "/" +:+ p)%string).
#[local] Instance demo_quiet scheme : QuietVault (demo_api scheme).
Proof. split; intros; apply guar_ret; apply _. Qed.
Definition demo_tls : TlsApi :=
  MkTls Some (λ f, Some [f +:+ "-cert"]%string) (λ f, Ok (Some f)) (λ _, true) (λ _, true) (λ _ _, true)
    (λ config stream, if decide (tc_client_roots config = Some ["ca-cert"%string]) then Some [stream] else None) (λ cert, Some [Some cert]).
Definition demo_proves (stream cert : string) (roots : list string) : Prop := cert = stream ∧ roots = ["ca-cert"%string].
#[local] Instance demo_handshake : HandshakeLaws demo_tls demo_proves.
Proof. intros config stream chain roots cert. simpl. case_decide as E; [|done]. rewrite E. by intros [= <-] [= <-] [= <-]. Qed.

Definition with_providers : Cluster :=
  on_database (alter (on_provider (λ _, {[("sms", 1) := MkProvider "http" "secret/data/acme/sms" 5; ("sms", 2) := MkProvider "http" "secret/data/spare" 5;
    ("email", 1) := MkProvider "smtp" "secret/data/acme/mail" 5]})) "tenant_acme"%string)%string two_tenants.
Definition boot (region scheme : string) (b : Binary) : CW * result Started Died :=
  start (demo_env region) (demo_api scheme) demo_tls (λ _, true) b (cluster_world with_providers).

(** The dispatcher logs in as its tenant and reads the first credential of each channel. *)
Example dispatcher_boots :
  match (boot "eu" "https" BDispatcher).2 with
  | Ok (SDispatching d) =>
      vt_token (dp_vault d) = "role/secret-of-wrapped"%string
      ∧ dp_senders d !! "sms"%string = Some ("http://sms", "role/secret-of-wrapped@secret/acme/sms")%string
      ∧ dp_senders d !! "email"%string = Some ("http://mail", "role/secret-of-wrapped@secret/acme/mail")%string
  | _ => False
  end.
Proof. vm_compute. split_and!; reflexivity. Qed.
Definition ingest_service : Service :=
  MkService (eu_config "eu" Production) "0.0.0.0:8443" "0.0.0.0:8080" (MkSettings "https" "admin")
    (MkServerConfig ["server-cert"%string] "key" (Some ["ca-cert"%string])).
Lemma ingest_boots : boot "eu" "https" BIngest = ((boot "eu" "https" BIngest).1, Ok (SListening ingest_service)).
Proof. vm_compute. reflexivity. Qed.
(** Vault without TLS is refused in production. *)
Example plain_vault_refused : (boot "eu" "http" BIngest).2 = Err (MkDied "failed to connect to Vault").
Proof. vm_compute. reflexivity. Qed.

Lemma guarded_witness : guarded (demo_env "eu") demo_tls demo_proves BIngest (SListening ingest_service).
Proof.
  exact (started_services_are_guarded (demo_env "eu") (demo_api "https") demo_tls (λ _, true) demo_proves BIngest (cluster_world with_providers) _ _ ingest_boots).
Defined.

Lemma us_config : config_from_env (demo_env "us") = Some (eu_config "us" Production).
Proof. vm_compute. reflexivity. Qed.
Lemma demo_foreign : foreign_on_file (eu_config "us" Production) (w_db (cluster_world with_providers)).
Proof. exists 1%N, acme. split; [reflexivity|discriminate]. Qed.
Lemma demo_rely (R : relation Cluster) : rely R (cluster_world with_providers).
Proof. by split. Qed.
Lemma start_region_witness : ∃ w' d, boot "us" "https" BDispatcher = (w', Err d) ∧ w_db (cluster_world with_providers) = w_db w'.
Proof.
  exact (no_service_starts_in_a_foreign_region (demo_env "us") (demo_api "https") demo_tls (λ _, true) (@eq Cluster) (eu_config "us" Production) us_config
    (λ c c' E Hc, eq_ind c _ Hc c' E) BDispatcher (cluster_world with_providers) (demo_rely _) demo_foreign).
Defined.
